(* ===== verification/_CoqProject ===== *)
-Q . S2P
Prelude.v
Machine.v
Vector.v
CString.v
Alloc.v
Siphash.v
Float.v
Clock.v
Threading.v
Random.v
TraceId.v
Endian.v
DList.v
Hashtable.v
Strings.v
Metrics.v
Tag.v
SpanContext.v
Span.v
Baggage.v
Logging.v
Net.v
Sampler.v
Strategies.v
Propagation.v
Reporter.v
Monitor.v
SamplerThreads.v
SpanThreads.v
LockOrder.v
ClientLocks.v
Tracer.v
Client.v
Http.v
Crossdock.v
MockAgent.v
UnitTests.v
PropagationTests.v
SamplerTests.v
ReporterTests.v
