(* ===== verification/Prelude.v ===== *)
(** * Verification of the Jaeger C client

    A model in Rocq of jaeger-client-c (src/src/jaegertracingc), the tracing
    client an application links with, of its integration client (src/crossdock)
    and of the agent its tests talk to (mock_agent.h), and the theorems about
    them.

    ** The program and its parts

    An application creates a tracer (tracer.c) with a sampler (sampler.c), a
    reporter (reporter.c) and metrics (metrics.c). Starting a span makes a
    context (span.c): a trace identifier, a span identifier, flags and a table
    of baggage (hashtable.c). The sampler decides whether a new trace is
    recorded; a child span takes its parent's decision. Contexts travel between
    processes through carriers (propagation.c). A finished span is handed to
    the reporter if it is sampled; the remote reporter queues its message and
    sends datagrams of bounded size to an agent whose address net.c parses.
    Everything stands on alloc.c, vector.c, list.c, clock.c, random.c and
    threading.c.

    ** Files, from the bottom up

    - Prelude: tactics, hint databases, machine integers ([wrap], [to_signed])
      and list lemmas. Machine: the machine the C code runs on. [Env] holds
      what is outside the source (the C library's allocator, clocks, [rand_r],
      entropy, build options), [world] the state those calls change, [M] the
      monad of operations, [fault] the ways a C execution has no result
      (failed assertion, NULL dereference, signed overflow, out-of-bounds
      access, double free, deadlock...), [wp] total correctness; whether a
      request for memory is granted (alloc.c).
    - Vector (vector.c), CString (the C library's string functions), Alloc
      (alloc.c with addresses and bytes), Siphash (siphash.c), Float (IEEE
      doubles), Clock (clock.c, token_bucket.c), Threading (threading.c),
      Random (random.c, random.h), TraceId (trace_id.c), Endian (endian.h),
      DList (list.c), Hashtable (hashtable.c, key_value.c), Strings (strings.h).
    - Metrics (metrics.c), Tag (tag.c, log_record.c), SpanContext (contexts
      and references of span.c), Span (spans of span.c), Baggage (baggage.c),
      Logging (logging.c), Net (net.c).
    - Sampler (the samplers of sampler.c), Strategies (the HTTP manager of
      sampler.c and its JSON), Propagation (propagation.c, options.h), Reporter
      (reporter.c), Tracer (tracer.c). Client: theorems about components that
      work together.
    - Monitor (a counter of metrics.c and the remote reporter, each guarded by
      one mutex), SamplerThreads (the sampler by operation, likewise) and
      SpanThreads (the operations of span.c as critical sections
      of a span's two mutexes): threads that share these objects. LockOrder
      (threads that take mutexes in an order) and ClientLocks (the mutexes each
      operation of the client takes).
    - Http: requests and responses as RFC 7230 writes them, http-parser's part
      on the side of the mock agent, and the laws it is taken to obey. Crossdock
      (crossdock/main.c, crossdock/messages.h): the requests the integration
      client answers and its accept loop. MockAgent (mock_agent.h):
      the HTTP server that hands out sampling strategies, with the start and
      the end of its thread.
    - UnitTests, PropagationTests, SamplerTests, ReporterTests (the *_test.c
      files): the repository's unit tests as computations of the model, which
      are evaluated and pass.
    A definition has the name of the C function it models; the records have
    the members of the structs, except function pointers, which are type
    classes: [Reporter] (jaeger_reporter) and [Sampler] (jaeger_sampler), with
    the classes [Accepts] and [Decides] for what their clients rely on, so that
    the composite reporter and the tracer are verified against the interface
    and each implementation discharges it. A pointer to a C string is an
    [option cstr]; a growable vector keeps the cells beyond its length, so that
    stale bytes are visible; a function that changes an object takes it and
    returns it. An object several owners point to is modelled where a property
    depends on it: list nodes live in a heap, counters in cells of the world.

    ** What the theorems show

    - Data structures: growth, search and removal of vectors with their
      capacity bounds; vectors and linked lists refine sequences and the hash
      table a finite map, over any history of operations; SipHash equals its definition.
    - Text and bytes: trace identifiers, contexts, URI coding, host and port
      pairs, and contexts sent through text maps, HTTP headers and the binary
      format come back as they were; parsers of untrusted text return without
      a fault whatever the input.
    - Decisions: each sampler's answer and the tags it leaves; what an update
      of the remotely controlled sampler does, from the request to the agent
      and the chunks of its answer to the new sampler; the token bucket's credit.
    - The client as a whole: a finished span is queued and sent to the agent; a
      context extracted from HTTP headers gives its identity and baggage to a
      span of another process; the sampler's
      HTTP manager and the mock agent exchange a request and a strategy.
    - Spans: tags, baggage, copying, conversion to messages, finishing; a new
      trace's identity and flags, and a child's.
    - Reporting: a flush sends the queue in order, in packets that fit, and
      counts what was sent; a report appends the span's message; the composite
      reporter reports to every child; the tracer reports exactly the sampled
      spans.
    - Threads: [jaeger_lock] over any number of threads excludes and does not
      deadlock; threads that make any calls on the objects of a client cannot
      block each other for ever, since every call takes its mutexes in one
      order; threads that share a span, a counter, a sampler or a remote reporter
      get what they would get one after another, lose no update, and can always
      go on; threads that log at once keep their messages whole; starting the mock
      agent loses no wake-up; the accept loop has at most four threads. These
      are transition systems with invariants over their reachable states; the
      one of the mock agent is finite and explored by evaluation.
    - The integration client answers every request by its path and body, and
      the mock agent every request for a strategy with the last response set
      for the service; reading a request ends after at most 257 reads.
    - Errors: allocation can fail at every request, and theorems without the
      hypothesis [plenty] hold then too; several theorems state defects, of
      which the most serious is that starting a span never returns one in a
      build with threads or assertions (the build without threads does not
      compile: random.c needs a member that only the other has).
    - The model agrees with its authors' expectations: every unit test of the
      repository passes on it (hashtable_test.c with forty of its hundred
      insertions, for the time it takes to check).

    Each theorem with hypotheses is followed by, or has at the end of its file,
    a witness: the theorem applied to a concrete machine and object.

    ** Bounds and fuel

    Loops over a C count recurse on that count. [flush_loop] has the length of
    the queue as fuel, enough because every successful batch shortens it
    (Reporter.flush_loop_wp); parsing loops recurse on the text. The agent's
    reads of a request have fuel 257, one more than the bytes its buffer holds
    (MockAgent.read_client_request_terminates), and a crossdock message, whose
    parser can call itself once, has fuel 1. Sizes that are
    [int] in C go through [int_chk], which faults on overflow; theorems bound
    lengths by INT_MAX where the code needs it. Counters wrap at 64 bits.

    ** Not modelled

    - Threads elsewhere than in Threading, Logging, Monitor, SamplerThreads,
      SpanThreads, ClientLocks, Crossdock and MockAgent: operations run one at a
      time, mutexes are flags, and waiting for a mutex one holds is the fault
      [Deadlock]. Memory models weaker than interleaving, and the operating
      system's scheduler.
    - The calls of the loggers in the other components (Logging models the
      loggers themselves) and reads of uninitialised memory, except where they
      decide control.
    - http-parser, jansson, protobuf-c, opentracing-c, sockets and name
      resolution: parameters ([UrlParser], [Network], [HttpParser],
      [Jansson], [SpanMessages], [BatchMessages], [Host], [RequestParser],
      [HttpStatus]) with what is relied on as named laws ([HttpParserLaws],
      [AnswerLaws], [RequestParserLaws], [JanssonLaws], [HttpStatusLaws]), each
      with an instance that obeys them. The crossdock client's
      tracer is an interface, of which the tracer of Tracer.v is an instance.
    - The drivers of the tests and the fuzzers, the comparisons of addresses in
      test_sampler_choice, and the files and sockets of the tests, which are
      part of the machine they run on; conversions of the mock agent's response
      formats other than the one the tests use. *)
From stdpp Require Export base list strings gmap numbers sorting relations.
From Stdlib Require Export ZArith Lia Ascii.
From Stdlib Require String.

#[global] Open Scope Z_scope.

(** ** Hint databases and tactics *)

Create HintDb jaeger discriminated.
Create Rewrite HintDb jaeger.

(** Splits every [if], [decide] and [match] on a boolean test in the goal. *)
Ltac case_ifs :=
  repeat match goal with
    | |- context [if ?b then _ else _] => destruct b eqn:?
    end.

(** Turns boolean comparisons of hypotheses into propositions. *)
Ltac reflect_bools :=
  repeat match goal with
    | H : (_ <? _) = true |- _ => apply Z.ltb_lt in H
    | H : (_ <? _) = false |- _ => apply Z.ltb_ge in H
    | H : (_ <=? _) = true |- _ => apply Z.leb_le in H
    | H : (_ <=? _) = false |- _ => apply Z.leb_gt in H
    | H : (_ >? _) = true |- _ => apply Z.gtb_lt in H
    | H : (_ >? _) = false |- _ => rewrite Z.gtb_ltb in H; apply Z.ltb_ge in H
    | H : (_ >=? _) = true |- _ => apply Z.geb_le in H
    | H : (_ >=? _) = false |- _ => rewrite Z.geb_leb in H; apply Z.leb_gt in H
    | H : (_ =? _) = true |- _ => apply Z.eqb_eq in H
    | H : (_ =? _) = false |- _ => apply Z.eqb_neq in H
    | H : bool_decide _ = true |- _ => apply bool_decide_eq_true in H
    | H : bool_decide _ = false |- _ => apply bool_decide_eq_false in H
    | H : andb _ _ = true |- _ => apply andb_true_iff in H; destruct H
    | H : orb _ _ = false |- _ => apply orb_false_iff in H; destruct H
    | H : negb _ = true |- _ => apply negb_true_iff in H
    | H : negb _ = false |- _ => apply negb_false_iff in H
    end.

(** ** Machine integers *)

Definition INT_MAX : Z := 2147483647.
Definition INT_MIN : Z := -2147483648.
Definition UINT64_MAX : Z := 18446744073709551615.
Definition USHRT_MAX : Z := 65535.

(** [w]-bit unsigned wrap-around. *)
Definition wrap (w z : Z) : Z := z mod 2 ^ w.
Abbreviation u8 := (wrap 8).
Abbreviation u32 := (wrap 32).
Abbreviation u64 := (wrap 64).

(** Conversion of an unsigned [w]-bit value to the signed type of that width. *)
Definition to_signed (w z : Z) : Z :=
  let u := wrap w z in if u <? 2 ^ (w - 1) then u else u - 2 ^ w.

Lemma wrap_range w z : 0 <= w -> 0 <= wrap w z < 2 ^ w.
Proof. intros Hw. apply Z.mod_pos_bound. apply Z.pow_pos_nonneg; lia. Qed.

Lemma wrap_small w z : 0 <= z < 2 ^ w -> wrap w z = z.
Proof. apply Z.mod_small. Qed.

Lemma wrap_idemp w z : wrap w (wrap w z) = wrap w z.
Proof. apply Zmod_mod. Qed.

Lemma to_signed_small n : 0 <= n < 2 ^ 31 -> to_signed 32 n = n.
Proof.
  intros Hn. unfold to_signed. rewrite wrap_small by lia.
  by rewrite (proj2 (Z.ltb_lt _ _)) by (cbn; lia).
Qed.

Lemma to_signed_add w a b : 0 < w -> to_signed w (to_signed w a + b) = to_signed w (a + b).
Proof.
  intros Hw. pose proof (Z.pow_pos_nonneg 2 w ltac:(lia) ltac:(lia)).
  enough (wrap w (to_signed w a + b) = wrap w (a + b)) as E by (unfold to_signed at 1; by rewrite E).
  unfold to_signed, wrap. case_ifs; [by rewrite Zplus_mod_idemp_l|].
  replace (a mod 2 ^ w - 2 ^ w + b) with (a mod 2 ^ w + b + (-1) * 2 ^ w) by lia.
  by rewrite Z_mod_plus_full, Zplus_mod_idemp_l.
Qed.

#[export] Hint Rewrite wrap_idemp : jaeger.
#[export] Hint Resolve wrap_range wrap_small : jaeger.

Lemma half_range n : 0 < n -> 0 <= n / 2 /\ n / 2 < n /\ 2 * (n / 2) <= n.
Proof.
  intros Hn. pose proof (Z.div_mod n 2 ltac:(lia)).
  pose proof (Z.mod_pos_bound n 2 ltac:(lia)). lia.
Qed.

(** ** Lists *)

(** Length of a list as a [Z], the type of every C count. *)
Abbreviation lenZ l := (Z.of_nat (length l)).

Ltac lists :=
  repeat rewrite ?length_app, ?length_take, ?length_drop, ?length_replicate,
    ?length_fmap, ?length_insert in *;
  cbn [length] in *; try lia.

Section Lists.
Context {A : Type}.
Implicit Types (l : list A) (x : A).

Lemma take_take_le l n m : (n <= m)%nat -> take n (take m l) = take n l.
Proof. intros H. rewrite take_take. f_equal. lia. Qed.

Lemma take_S_snoc l n x : l !! n = Some x -> take (S n) l = take n l ++ [x].
Proof. apply take_S_r. Qed.

Lemma drop_split l n x : l !! n = Some x -> drop n l = x :: drop (S n) l.
Proof. intros H. by apply drop_S. Qed.

Lemma list_split_at l n : l = take n l ++ drop n l.
Proof. symmetry. apply take_drop. Qed.
End Lists.
