(* ===== verification/Machine.v ===== *)
(** * The machine the client runs on

    The environment the C code relies on (the C library's allocator, clocks,
    random numbers, the build options), the state it reads and writes through
    them, the monad every stateful operation is written in with its total
    correctness triple [wp], and alloc.c. *)
From S2P Require Import Prelude.

(** ** Environment *)

Record opentracing_time_value := TimeValue { tv_sec : Z; tv_nsec : Z }.

(** Code outside src/: the n-th call of [malloc]/[realloc] succeeds or not,
    the n-th reading of each clock, [rand_r] as a state transformer, the bytes
    the system's entropy source gives when it is asked for so many for the n-th
    time (fewer than asked, or none, if the request fails), which files can
    be opened, what a block for the generator holds before it is written;
    and the build options. *)
Inductive random_source := HAVE_GETRANDOM | HAVE_ARC4RANDOM_BUF | DEV_RANDOM.

Class Env := {
  sys_malloc_ok : nat -> bool;
  clock_monotonic : nat -> opentracing_time_value;
  clock_realtime : nat -> opentracing_time_value;
  rand_r : Z -> Z * Z;                       (* state |-> (state', value) *)
  entropy : nat -> nat -> list Z;            (* request, bytes asked |-> bytes *)
  entropy_source : random_source;            (* random.h *)
  fopen_ok : list ascii -> bool;             (* which files open for reading *)
  stale_state : list Z;                      (* state in a new jaeger_rng *)
  seed : list Z;                             (* hashtable.c: seed[16] *)
  ndebug : bool;                             (* assert compiled out *)
  mt : bool;                                 (* JAEGERTRACINGC_MT *)
  have_builtin : bool;                       (* HAVE_BUILTIN *)
  pthread_key_create_ok : bool;
  pthread_setspecific_ok : bool;
}.

(** ** Faults: the ways a C execution has no result *)

Inductive fault :=
  | AssertFailed
  | NullDeref
  | IntOverflow
  | OutOfBounds
  | DoubleFree
  | Deadlock
  | BadUnlock
  | BadFree
  | TypeConfusion
  | UseAfterFree
  | Uninitialised
  | TestFailed
  | OutOfFuel.

#[export] Instance fault_eq_dec : EqDecision fault.
Proof. solve_decision. Defined.

(** ** State *)

(** An installed allocator decides each request; [built_in] defers to the C
    library, [null] refuses everything (alloc.c). *)
Inductive jaeger_allocator := built_in_alloc | null_alloc.

Record world := World {
  w_allocator : jaeger_allocator;
  w_allocs : nat;            (* requests made so far *)
  w_mono : nat;              (* readings of the monotonic clock *)
  w_real : nat;              (* readings of the real-time clock *)
  w_entropy : nat;           (* requests made to the entropy source *)
  w_rng : option Z;          (* this thread's [jaeger_rng], once created *)
  w_cells : gmap nat Z;      (* totals of default counters and gauges *)
  w_next_cell : nat;
}.

Definition initial_world : world := World built_in_alloc 0 0 0 0 None ∅ 0.

Inductive result (A : Type) :=
  | Ok (a : A) (w : world)
  | Fault (f : fault).
Arguments Ok {A} a w.
Arguments Fault {A} f.

Definition M (A : Type) : Type := world -> result A.

Definition ret {A} (a : A) : M A := fun w => Ok a w.
Definition bind {A B} (m : M A) (k : A -> M B) : M B := fun w =>
  match m w with
  | Ok a w' => k a w'
  | Fault f => Fault f
  end.

Declare Scope c_scope.
Delimit Scope c_scope with c.
Notation "x ← m ; k" := (bind m (fun x => k)) : c_scope.
Notation "' x ← m ; k" := (bind m (fun x => k)) : c_scope.
Notation "m ;; k" := (bind m (fun _ => k)) : c_scope.
#[global] Open Scope c_scope.

Definition fail {A} (f : fault) : M A := fun _ => Fault f.
Definition get_world : M world := fun w => Ok w w.
Definition put_world (w : world) : M unit := fun _ => Ok tt w.

Definition run {A} (m : M A) : result A := m initial_world.

(** The value a computation returns, when it returns. *)
Definition value {A} (r : result A) : option A :=
  match r with Ok a _ => Some a | Fault _ => None end.

(** A concrete environment for evaluating the model: every request is granted,
    both clocks advance by a second per reading (the monotonic one for 2^32 readings), [rand_r] is the linear
    congruential step of the POSIX example with a 31-bit result. *)
Definition sample_env : Env := {|
  sys_malloc_ok _ := true;
  clock_monotonic n := TimeValue (Z.min (Z.of_nat n + 1) (2 ^ 32)) 500;
  clock_realtime n := TimeValue (1500000000 + Z.of_nat n) 250;
  rand_r s := let s' := (s * 1103515245 + 12345) mod 2 ^ 32 in (s', s' / 2);
  entropy n size := take size (concat (replicate size [162 + Z.of_nat n; 140; 214; 146]));
  entropy_source := HAVE_GETRANDOM;
  fopen_ok _ := true;
  stale_state := [0; 0; 0; 0];
  seed := replicate 16 0;
  ndebug := false;
  mt := true;
  have_builtin := true;
  pthread_key_create_ok := true;
  pthread_setspecific_ok := true;
|}.

Section Operations.
Context {env : Env}.

(** [assert]: compiled out under NDEBUG. *)
Definition c_assert (b : bool) : M unit :=
  if b then ret tt else if ndebug then ret tt else fail AssertFailed.

(** A signed [int] result: overflow is undefined behaviour. *)
Definition int_chk (z : Z) : M Z :=
  if (INT_MIN <=? z) && (z <=? INT_MAX) then ret z else fail IntOverflow.

(** [once] routines and pure reads of the environment. *)
Definition read_clock_monotonic : M opentracing_time_value := fun w =>
  Ok (clock_monotonic (w_mono w))
     (World (w_allocator w) (w_allocs w) (S (w_mono w)) (w_real w)
        (w_entropy w) (w_rng w) (w_cells w) (w_next_cell w)).

Definition read_clock_realtime : M opentracing_time_value := fun w =>
  Ok (clock_realtime (w_real w))
     (World (w_allocator w) (w_allocs w) (w_mono w) (S (w_real w))
        (w_entropy w) (w_rng w) (w_cells w) (w_next_cell w)).

Definition read_entropy (size : nat) : M (list Z) := fun w =>
  Ok (entropy (w_entropy w) size)
     (World (w_allocator w) (w_allocs w) (w_mono w) (w_real w)
        (S (w_entropy w)) (w_rng w) (w_cells w) (w_next_cell w)).

(** *** alloc.c *)

Definition set_allocator (a : jaeger_allocator) (w : world) : world :=
  World a (w_allocs w) (w_mono w) (w_real w) (w_entropy w) (w_rng w)
    (w_cells w) (w_next_cell w).

Definition count_alloc (w : world) : world :=
  World (w_allocator w) (S (w_allocs w)) (w_mono w) (w_real w)
    (w_entropy w) (w_rng w) (w_cells w) (w_next_cell w).

Definition built_in_malloc : M bool := fun w =>
  Ok (sys_malloc_ok (w_allocs w)) (count_alloc w).
Definition built_in_realloc : M bool := built_in_malloc.
Definition null_malloc : M bool := ret false.
Definition null_realloc : M bool := ret false.

Definition jaeger_set_allocator (a : jaeger_allocator) : M unit :=
  w ← get_world; put_world (set_allocator a w).

Definition jaeger_get_allocator : M jaeger_allocator :=
  w ← get_world; ret (w_allocator w).

(** Whether the request is granted; what the block holds is up to the
    caller, which always initialises it. *)
Definition jaeger_malloc : M bool :=
  alloc ← jaeger_get_allocator;
  match alloc with
  | built_in_alloc => built_in_malloc
  | null_alloc => null_malloc
  end.

Definition jaeger_realloc : M bool :=
  alloc ← jaeger_get_allocator;
  match alloc with
  | built_in_alloc => built_in_realloc
  | null_alloc => null_realloc
  end.
End Operations.

(** ** Total-correctness triples *)

(** [wp m Q w]: run from [w], [m] returns without a fault, and its result and
    final state satisfy [Q]. *)
Definition wp {A} (m : M A) (Q : A -> world -> Prop) (w : world) : Prop :=
  match m w with
  | Ok a w' => Q a w'
  | Fault _ => False
  end.

(** [w'] differs from [w] only in the number of allocations made. *)
Definition alloc_only (w w' : world) : Prop :=
  w_allocator w' = w_allocator w /\ w_mono w' = w_mono w /\
  w_real w' = w_real w /\ w_entropy w' = w_entropy w /\
  w_rng w' = w_rng w /\ w_cells w' = w_cells w /\
  w_next_cell w' = w_next_cell w.

#[export] Instance alloc_only_preorder : PreOrder alloc_only.
Proof.
  split.
  - intros w. repeat split.
  - intros w1 w2 w3. unfold alloc_only. intuition congruence.
Qed.

(** Memory never runs out: what "in the absence of allocation failures" means. *)
Definition plenty {env : Env} (w : world) : Prop :=
  w_allocator w = built_in_alloc /\ forall n, sys_malloc_ok n = true.

Lemma plenty_alloc_only {env : Env} w w' : alloc_only w w' -> plenty w -> plenty w'.
Proof. intros (Ha & _) [Hp Hn]. split; [congruence|done]. Qed.

#[export] Hint Resolve plenty_alloc_only : jaeger.

(** [w'] has the allocator of [w]; clocks may have been read. *)
Definition same_allocator (w w' : world) : Prop := w_allocator w' = w_allocator w.

#[export] Instance same_allocator_preorder : PreOrder same_allocator.
Proof. split; [done|]. unfold same_allocator. intros w1 w2 w3. congruence. Qed.

Lemma alloc_only_same_allocator w w' : alloc_only w w' -> same_allocator w w'.
Proof. by intros [H _]. Qed.

Lemma plenty_same_allocator {env : Env} w w' : same_allocator w w' -> plenty w -> plenty w'.
Proof. intros Ha [Hp Hn]. split; [by rewrite Ha|done]. Qed.

#[export] Hint Resolve alloc_only_same_allocator plenty_same_allocator : jaeger.

(** What most operations do to the machine: memory, random numbers, and readings
    of the clocks. *)
Definition progress (w w' : world) : Prop :=
  w_allocator w' = w_allocator w /\ (w_mono w <= w_mono w')%nat /\
  w_cells w' = w_cells w /\ w_next_cell w' = w_next_cell w.

#[export] Instance progress_preorder : PreOrder progress.
Proof.
  split; [done|]. unfold progress. intros w1 w2 w3 (?&?&?&?) (?&?&?&?).
  repeat split; congruence || lia.
Qed.

Lemma alloc_progress w w' : alloc_only w w' -> progress w w'.
Proof. intros (?&?&?&?&?&?&?). repeat split; [done|lia|done|done]. Qed.

Lemma plenty_progress {env : Env} w w' : progress w w' -> plenty w -> plenty w'.
Proof. intros (Ha & _) [Hp Hn]. split; [congruence|done]. Qed.

Lemma progress_same_allocator w w' : progress w w' -> same_allocator w w'.
Proof. by intros [H _]. Qed.

#[export] Hint Resolve alloc_progress plenty_progress progress_same_allocator : jaeger.

Lemma plenty_sample : @plenty sample_env initial_world.
Proof. done. Qed.

Section Wp.
Context {env : Env}.
Implicit Types (w : world).

Lemma wp_ret {A} (a : A) Q w : Q a w -> wp (ret a) Q w.
Proof. done. Qed.

Lemma wp_bind {A B} (m : M A) (k : A -> M B) Q w :
  wp m (fun a w' => wp (k a) Q w') w -> wp (bind m k) Q w.
Proof. unfold wp, bind. by destruct (m w). Qed.

Lemma wp_mono {A} (m : M A) (P Q : A -> world -> Prop) w :
  wp m P w -> (forall a w', P a w' -> Q a w') -> wp m Q w.
Proof. unfold wp. destruct (m w); naive_solver. Qed.

(** What [m] returns, with the fact that it returns it. *)
Lemma wp_eqn {A} (m : M A) (P Q : A -> world -> Prop) w :
  wp m P w -> (forall a w', m w = Ok a w' -> P a w' -> Q a w') -> wp m Q w.
Proof. unfold wp. destruct (m w) as [a w'|] eqn:E; [|done]. intros HP HQ. by apply HQ. Qed.

Lemma wp_assert b Q w : b = true -> Q tt w -> wp (c_assert b) Q w.
Proof. by intros ->. Qed.

Lemma wp_int_chk z Q w :
  INT_MIN <= z <= INT_MAX -> Q z w -> wp (int_chk z) Q w.
Proof.
  intros [H1 H2] HQ. unfold int_chk.
  by rewrite (proj2 (Z.leb_le _ _) H1), (proj2 (Z.leb_le _ _) H2).
Qed.

Lemma wp_malloc Q w :
  (forall b w', alloc_only w w' -> (plenty w -> b = true) -> Q b w') ->
  wp jaeger_malloc Q w.
Proof.
  intros H. unfold wp, jaeger_malloc, jaeger_get_allocator, get_world,
    built_in_malloc, null_malloc, bind, ret.
  destruct (w_allocator w) eqn:E; apply H; try done.
  - by intros [_ Hn].
  - intros [Ha _]. congruence.
Qed.

Lemma wp_realloc Q w :
  (forall b w', alloc_only w w' -> (plenty w -> b = true) -> Q b w') ->
  wp jaeger_realloc Q w.
Proof. apply wp_malloc. Qed.

(** What [wp] gives about an execution. *)
Lemma wp_returns {A} (m : M A) Q w :
  wp m Q w <-> exists a w', m w = Ok a w' /\ Q a w'.
Proof. unfold wp. destruct (m w); naive_solver. Qed.

Lemma wp_conj {A} (m : M A) (P Q : A -> world -> Prop) w :
  wp m P w -> wp m Q w -> wp m (fun a w' => P a w' /\ Q a w') w.
Proof. unfold wp. by destruct (m w). Qed.
End Wp.

(** Side conditions of a step: assertions and [int] ranges. *)
Ltac wp_side := try solve [reflexivity | unfold INT_MIN, INT_MAX in *; lia].

(** One step of symbolic execution. *)
Ltac wp_step :=
  lazymatch goal with
  | |- wp (bind _ _) _ _ => apply wp_bind
  | |- wp (ret _) _ _ => apply wp_ret
  | |- wp (c_assert _) _ _ => apply wp_assert; [wp_side|]
  | |- wp (int_chk _) _ _ => apply wp_int_chk; [wp_side|]
  | |- wp jaeger_malloc _ _ =>
      let b := fresh "granted" in let w := fresh "w'" in
      let H := fresh "Halloc" in let Hp := fresh "Hplenty" in
      apply wp_malloc; intros b w H Hp
  | |- wp jaeger_realloc _ _ =>
      let b := fresh "granted" in let w := fresh "w'" in
      let H := fresh "Halloc" in let Hp := fresh "Hplenty" in
      apply wp_realloc; intros b w H Hp
  | |- wp (if ?b then _ else _) _ _ => destruct b eqn:?
  end; cbn beta iota.

Ltac wp_steps := repeat wp_step.

(** Continues with the specification [lem] of the computation at the head. *)
Tactic Notation "wp_call" uconstr(lem) :=
  eapply wp_mono; [eapply lem | cbn beta].

(** Closes goals [alloc_only w w'] by chaining hypotheses. *)
Ltac alloc_solve :=
  first [ assumption | reflexivity | etrans; [eassumption|]; alloc_solve ].

(** ** Partial correctness: what a computation can return *)

(** Every value [m] returns satisfies [P]. *)
Definition ensures {A} (m : M A) (P : A -> Prop) : Prop :=
  forall w a w', m w = Ok a w' -> P a.

Lemma ensures_ret {A} (a : A) (P : A -> Prop) : P a -> ensures (ret a) P.
Proof. by intros HP w a' w' [= <- _]. Qed.

Lemma ensures_fail {A} f (P : A -> Prop) : ensures (fail f) P.
Proof. done. Qed.

Lemma ensures_bind {A B} (m : M A) (k : A -> M B) (P : A -> Prop) (Q : B -> Prop) :
  ensures m P -> (forall a, P a -> ensures (k a) Q) -> ensures (bind m k) Q.
Proof.
  intros Hm Hk w b w'. unfold bind. destruct (m w) as [a w1|] eqn:E; [|done].
  intros H. eapply Hk; [by eapply Hm|done].
Qed.

(** When nothing is said of the first part. *)
Lemma ensures_then {A B} (m : M A) (k : A -> M B) (Q : B -> Prop) :
  (forall a, ensures (k a) Q) -> ensures (bind m k) Q.
Proof. intros Hk. by apply ensures_bind with (P := fun _ => True). Qed.

(** Takes the first step of a computation of which nothing is known, and splits
    the tests. *)
Ltac ensures_step :=
  lazymatch goal with
  | |- ensures (bind _ _) _ => apply ensures_then; intros
  | |- ensures (fail _) _ => apply ensures_fail
  | |- ensures (ret _) _ => apply ensures_ret
  | |- ensures (let '_ := ?x in _) _ => destruct x
  | |- ensures (if ?b then _ else _) _ => destruct b
  | |- ensures (match ?x with _ => _ end) _ => destruct x
  end; cbn beta iota.

(** *** jaeger_strdup (alloc.c) *)

(** C strings: the bytes before the terminating NUL. *)
Abbreviation cstr := (list ascii).

Definition lit (s : string) : cstr := String.list_ascii_of_string s.

Section Strdup.
Context {env : Env}.

Definition jaeger_strdup (str : cstr) : M (option cstr) :=
  size ← int_chk (lenZ str + 1);
  granted ← jaeger_malloc;
  if granted then ret (Some str) else ret None.

Lemma wp_strdup str Q w :
  lenZ str < INT_MAX ->
  (forall w', alloc_only w w' -> ~ plenty w -> Q None w') ->
  (forall w', alloc_only w w' -> Q (Some str) w') ->
  wp (jaeger_strdup str) Q w.
Proof.
  intros Hlen HN HS. unfold jaeger_strdup, INT_MAX in *.
  wp_steps; auto. apply HN; [done|]. intros Hp. by specialize (Hplenty Hp).
Qed.
End Strdup.

(** Strings whose copies fit in memory. *)
Definition short (s : cstr) : Prop := lenZ s < INT_MAX.
