(* ===== verification/Vector.v ===== *)
(** * Growable vectors (vector.h, vector.c)

    A [jaeger_vector] keeps its four C fields. The byte buffer is the list of
    its [type_size]-byte slots, which is how every access of the code cuts it:
    the slots past [len] exist, keep stale values, and are zero when they come
    from [memset]. A pointer into the buffer is a slot index, NULL is [None]. *)
From S2P Require Import Prelude Machine.

(** The value whose bytes are all zero, what [memset(_, 0, _)] leaves. *)
Class ZeroBytes (A : Type) := zero_bytes : A.

Definition JAEGERTRACINGC_VECTOR_RESIZE_FACTOR : Z := 2.
Definition JAEGERTRACINGC_VECTOR_INIT_CAPACITY : Z := 10.

Record jaeger_vector (A : Type) := Vector {
  len : Z;
  capacity : Z;
  data : option (list A);
  type_size : Z;
}.
Arguments Vector {A} len capacity data type_size.
Arguments len {A} _.
Arguments capacity {A} _.
Arguments data {A} _.
Arguments type_size {A} _.

Definition JAEGERTRACINGC_VECTOR_INIT {A} : jaeger_vector A :=
  Vector 0 0 None 0.

(** [memmove] of [n] slots from slot [src] to slot [dst] of one buffer. *)
Definition memmove {A} (cells : list A) (dst src n : Z) : M (list A) :=
  if (0 <=? dst) && (0 <=? src) && (0 <=? n) &&
     (dst + n <=? lenZ cells) && (src + n <=? lenZ cells)
  then ret (take (Z.to_nat dst) cells ++
             take (Z.to_nat n) (drop (Z.to_nat src) cells) ++
             drop (Z.to_nat (dst + n)) cells)
  else fail OutOfBounds.

(** The order a C comparator induces. *)
Definition cmp_le {A} (cmp : A -> A -> Z) (x y : A) : Prop := cmp x y <= 0.

#[export] Instance cmp_le_dec {A} (cmp : A -> A -> Z) : RelDecision (cmp_le cmp).
Proof. intros x y. unfold cmp_le. apply _. Defined.

Section Vector.
Context {env : Env} {A : Type} {zero : ZeroBytes A}.
Implicit Types (vec : jaeger_vector A) (cells : list A).

Definition set_len vec (n : Z) : jaeger_vector A :=
  Vector n (capacity vec) (data vec) (type_size vec).
Definition set_data vec (d : option (list A)) : jaeger_vector A :=
  Vector (len vec) (capacity vec) d (type_size vec).

(** [*(T* ) ptr] and [*(T* ) ptr = a] for a pointer into the buffer. *)
Definition load vec (ptr : option Z) : M A :=
  match ptr, data vec with
  | Some i, Some cells =>
      if 0 <=? i then
        match cells !! Z.to_nat i with
        | Some a => ret a
        | None => fail OutOfBounds
        end
      else fail OutOfBounds
  | _, _ => fail NullDeref
  end.

Definition store vec (ptr : option Z) (a : A) : M (jaeger_vector A) :=
  match ptr, data vec with
  | Some i, Some cells =>
      if (0 <=? i) && (i <? lenZ cells)
      then ret (set_data vec (Some (<[Z.to_nat i := a]> cells)))
      else fail OutOfBounds
  | _, _ => fail NullDeref
  end.

(** ** Operations *)

Definition jaeger_vector_length vec : Z := len vec.

(** The returned vector is [*vec] afterwards; on failure it is untouched. *)
Definition jaeger_vector_init (vec : jaeger_vector A) (type_size : Z) :
    M (bool * jaeger_vector A) :=
  c_assert (0 <? type_size);;
  allocated_size ← int_chk (type_size * JAEGERTRACINGC_VECTOR_INIT_CAPACITY);
  granted ← jaeger_malloc;
  if granted then
    ret (true,
      Vector 0 JAEGERTRACINGC_VECTOR_INIT_CAPACITY
        (Some (replicate (Z.to_nat JAEGERTRACINGC_VECTOR_INIT_CAPACITY)
                 zero_bytes))
        type_size)
  else ret (false, vec).

(** [data + type_size * index]: NULL when there is no buffer. *)
Definition jaeger_vector_offset vec (index : Z) : option Z :=
  match data vec with
  | Some _ => Some index
  | None => None
  end.

Definition jaeger_vector_get vec (index : Z) : M (option Z) :=
  c_assert (0 <=? index);;
  if index >=? jaeger_vector_length vec then ret None
  else ret (jaeger_vector_offset vec index).

(** The doubling loop of [jaeger_vector_reserve]; each round doubles an
    [int], so 32 rounds either reach the target or overflow. *)
Fixpoint align_capacity (fuel : nat) (aligned new_capacity : Z) : M Z :=
  if aligned <? new_capacity then
    match fuel with
    | O => fail OutOfFuel
    | S fuel =>
        next ← int_chk (aligned * JAEGERTRACINGC_VECTOR_RESIZE_FACTOR);
        align_capacity fuel next new_capacity
    end
  else ret aligned.

Definition jaeger_vector_reserve vec (new_capacity : Z) :
    M (bool * jaeger_vector A) :=
  c_assert (0 <? capacity vec);;
  if capacity vec >=? new_capacity then ret (true, vec)
  else
    aligned_capacity ← align_capacity 32 (capacity vec) new_capacity;
    bytes ← int_chk (type_size vec * aligned_capacity);
    granted ← jaeger_realloc;
    if granted then
      (* the new block starts as the old one; memset clears the rest *)
      let old := default [] (data vec) in
      let kept := take (Z.to_nat (capacity vec)) old in
      let pad := Z.to_nat (aligned_capacity - lenZ kept) in
      ret (true,
        Vector (len vec) aligned_capacity
          (Some (kept ++ replicate pad zero_bytes)) (type_size vec))
    else ret (false, vec).

Definition jaeger_vector_extend vec (insertion_pos num_elements : Z) :
    M (option Z * jaeger_vector A) :=
  c_assert (0 <=? num_elements);;
  c_assert (jaeger_vector_length vec <=? capacity vec);;
  wanted ← int_chk (jaeger_vector_length vec + num_elements);
  '(ready, vec) ←
    (if wanted >? capacity vec then
       new_capacity ← int_chk (capacity vec + num_elements);
       jaeger_vector_reserve vec new_capacity
     else ret (true, vec));
  if (ready : bool) then
    vec ← (if insertion_pos <? len vec then
             match data vec with
             | Some cells =>
                 cells ← memmove cells (insertion_pos + num_elements)
                           insertion_pos (len vec - insertion_pos);
                 ret (set_data vec (Some cells))
             | None => fail NullDeref
             end
           else ret vec);
    ret (jaeger_vector_offset vec insertion_pos,
          set_len vec (len vec + num_elements))
  else ret (None, vec).

Definition jaeger_vector_remove vec (index : Z) : M (jaeger_vector A) :=
  let n := jaeger_vector_length vec in
  if (index <? 0) || (index >=? n) then ret vec
  else
    vec ← (if index <? n - 1 then
             match data vec with
             | Some cells =>
                 cells ← memmove cells index (index + 1) (n - (index + 1));
                 ret (set_data vec (Some cells))
             | None => fail NullDeref
             end
           else ret vec);
    ret (set_len vec (len vec - 1)).

Definition jaeger_vector_insert vec (index : Z) :
    M (option Z * jaeger_vector A) :=
  jaeger_vector_extend vec index 1.

Definition jaeger_vector_append vec : M (option Z * jaeger_vector A) :=
  jaeger_vector_insert vec (jaeger_vector_length vec).

Definition jaeger_vector_clear vec : jaeger_vector A := set_len vec 0.

Definition jaeger_vector_destroy (vec : jaeger_vector A) : jaeger_vector A :=
  Vector 0 0 None 0.

(** The elements, slots [0 .. len-1]. *)
Definition contents vec : list A :=
  take (Z.to_nat (len vec)) (default [] (data vec)).

(** ** Searching and sorting *)

(** [cmp(elem, key)] of the C comparator, negative, zero or positive. *)
Section Search.
Context {K : Type} (cmp : A -> K -> Z).

(** C11 [bsearch] as the usual bisection over [lo, lo + n). *)
Fixpoint bsearch (fuel : nat) vec (key : K) (lo n : Z) : M (option Z) :=
  if n <=? 0 then ret None
  else match fuel with
  | O => fail OutOfFuel
  | S fuel =>
      let mid := lo + n / 2 in
      a ← load vec (Some mid);
      let c := cmp a key in
      if c =? 0 then ret (Some mid)
      else if c <? 0 then bsearch fuel vec key (mid + 1) (n - n / 2 - 1)
      else bsearch fuel vec key lo (n / 2)
  end.

Definition jaeger_vector_bsearch vec (key : K) : M (option Z) :=
  bsearch (S (Z.to_nat (len vec))) vec key 0 (jaeger_vector_length vec).

Fixpoint lower_bound_loop (fuel : nat) vec (key : K) (pos count : Z) : M Z :=
  if count >? 0 then
    match fuel with
    | O => fail OutOfFuel
    | S fuel =>
        let step := count / 2 in
        let pos' := pos + step in
        a ← load vec (jaeger_vector_offset vec pos');
        if cmp a key <? 0
        then lower_bound_loop fuel vec key (pos' + 1) (count - (step + 1))
        else
          (* [pos += step] happened before the comparison *)
          lower_bound_loop fuel vec key pos' step
    end
  else ret pos.

Definition jaeger_vector_lower_bound vec (key : K) : M Z :=
  let count := jaeger_vector_length vec in
  lower_bound_loop (S (Z.to_nat count)) vec key 0 count.
End Search.

(** C11 [qsort] as a merge sort of the elements; the slots past [len] are
    not touched. *)
Definition jaeger_vector_sort (cmp : A -> A -> Z) vec : jaeger_vector A :=
  match data vec with
  | Some cells =>
      let n := Z.to_nat (len vec) in
      set_data vec
        (Some (merge_sort (cmp_le cmp) (take n cells)
                 ++ drop n cells))
  | None => vec
  end.

(** ** Copying *)

Section Copy.
Context {B : Type} {zeroB : ZeroBytes B}.
(** [copy(arg, dst_elem, src_elem)]: from the old destination slot and the
    source element, whether it succeeded and the new destination slot. *)
Variable copy : A -> B -> M (bool * A).

Fixpoint copy_loop (n : nat) (i : Z) vec (src : jaeger_vector B) :
    M (bool * jaeger_vector A) :=
  match n with
  | O => ret (true, vec)
  | S n =>
      '(dst_elem, vec) ← jaeger_vector_append vec;
      c_assert (bool_decide (is_Some dst_elem));;
      src_elem ← (match data src with
                  | Some cells =>
                      match cells !! Z.to_nat i with
                      | Some b => ret b
                      | None => fail OutOfBounds
                      end
                  | None => fail NullDeref
                  end);
      old ← load vec dst_elem;
      '(copied, new) ← copy old src_elem;
      vec ← store vec dst_elem new;
      if (copied : bool) then copy_loop n (i + 1) vec src
      else ret (false, set_len vec (len vec - 1))
  end.

Definition jaeger_vector_copy vec (src : jaeger_vector B) :
    M (bool * jaeger_vector A) :=
  c_assert (jaeger_vector_length vec =? 0);;
  '(reserved, vec) ← jaeger_vector_reserve vec (len src);
  if (reserved : bool) then copy_loop (Z.to_nat (len src)) 0 vec src
  else ret (false, vec).
End Copy.
End Vector.

(** ** Vectors of pointers to freshly allocated copies *)

Definition sizeof_ptr : Z := 8.

#[export] Instance zero_pointer {A} : ZeroBytes (option A) := None.

Section PtrCopy.
Context {env : Env} {A B : Type} {zeroA : ZeroBytes A}.
Variable copy : A -> B -> M (bool * A).

Definition jaeger_vector_ptr_copy_helper (dst : option A) (src : B) :
    M (bool * option A) :=
  granted ← jaeger_malloc;
  if granted then
    '(copied, a) ← copy zero_bytes src;
    if (copied : bool) then ret (true, Some a) else ret (false, None)
  else ret (false, None).

(** On failure the pointers already stored are destroyed and freed; the
    vector still holds them and must only be destroyed. *)
Definition jaeger_vector_ptr_copy (dst : jaeger_vector (option A))
    (src : jaeger_vector B) : M (bool * jaeger_vector (option A)) :=
  if negb (type_size dst =? sizeof_ptr) then ret (false, dst)
  else jaeger_vector_copy jaeger_vector_ptr_copy_helper dst src.

(** [Some (data, n)] are [*dst] and [*n_dst] on success. *)
Definition jaeger_vector_protobuf_copy (src : jaeger_vector B) :
    M (option (option (list (option A)) * Z)) :=
  if jaeger_vector_length src =? 0 then ret (Some (None, 0))
  else
    '(initialised, vec) ← jaeger_vector_init JAEGERTRACINGC_VECTOR_INIT sizeof_ptr;
    if (initialised : bool) then
      '(copied, vec) ← jaeger_vector_ptr_copy vec src;
      if (copied : bool) then ret (Some (data vec, jaeger_vector_length vec))
      else ret None
    else ret None.
End PtrCopy.

(** * Properties *)

(** A vector between two operations: a buffer of exactly [capacity] slots. *)
Record vector_wf {A} (vec : jaeger_vector A) : Prop := {
  wf_type_size : 0 < type_size vec;
  wf_len : 0 <= len vec <= capacity vec;
  wf_capacity : 0 < capacity vec;
  wf_cells : exists cells, data vec = Some cells /\ lenZ cells = capacity vec;
}.

(** Growing [vec] to hold [n] elements overflows no [int]. *)
Definition fits {A} (vec : jaeger_vector A) (n : Z) : Prop :=
  type_size vec * (2 * Z.max n (capacity vec)) <= INT_MAX.

(** [k] is the least number of doublings of [c] that reaches [n]. *)
Definition doublings (c n k : Z) : Prop :=
  0 <= k /\ n <= c * 2 ^ k /\ forall j, 0 <= j < k -> c * 2 ^ j < n.

Lemma doublings_zero c n : n <= c -> doublings c n 0.
Proof. intros H. split_and!; [done|lia|lia]. Qed.

Lemma doublings_less c n k :
  0 < c -> 0 <= k -> n <= c * 2 ^ k -> c * 2 ^ k < 2 * n -> doublings c n k.
Proof.
  intros Hc Hk Hn Hlt. split_and!; [done|done|]. intros j Hj.
  assert (2 ^ (j + 1) <= 2 ^ k) as Hle by (apply Z.pow_le_mono_r; lia).
  rewrite Z.pow_add_r in Hle by lia. nia.
Qed.

Section Facts.
Context {env : Env} {A : Type} {zero : ZeroBytes A}.
Implicit Types (vec : jaeger_vector A) (cells : list A) (w : world).

Lemma fits_mono vec n m : 0 < type_size vec -> m <= n -> fits vec n -> fits vec m.
Proof. unfold fits. nia. Qed.

Lemma fits_range vec n :
  0 < type_size vec -> 0 < capacity vec -> fits vec n ->
  2 * n <= INT_MAX /\ 2 * capacity vec <= INT_MAX.
Proof. unfold fits. nia. Qed.

Lemma length_contents vec : vector_wf vec -> lenZ (contents vec) = len vec.
Proof.
  intros [? ? ? (cells & E & Hc)]. unfold contents. rewrite E. cbn.
  rewrite length_take. lia.
Qed.

(** *** The doubling loop *)

Lemma wp_align_capacity fuel c n Q w :
  0 < c -> 2 * n <= INT_MAX -> c <= INT_MAX -> n <= c * 2 ^ Z.of_nat fuel ->
  (forall k, n <= c * 2 ^ k -> 0 <= k ->
     (c < n -> c * 2 ^ k < 2 * n) -> (n <= c -> k = 0) -> Q (c * 2 ^ k) w) ->
  wp (align_capacity fuel c n) Q w.
Proof.
  intros Hc Hn Hcm Hf HQ. revert c Hc Hcm Hf HQ.
  induction fuel as [|fuel IH]; intros c Hc Hcm Hf HQ; cbn [align_capacity].
  - change (2 ^ Z.of_nat 0) with 1 in Hf.
    destruct (c <? n) eqn:E; reflect_bools; [lia|].
    apply wp_ret. replace c with (c * 2 ^ 0) by lia. apply HQ; lia.
  - destruct (c <? n) eqn:E; reflect_bools.
    + unfold JAEGERTRACINGC_VECTOR_RESIZE_FACTOR. wp_steps.
      apply IH; [lia|lia| |].
      * rewrite Nat2Z.inj_succ, Z.pow_succ_r in Hf by lia. lia.
      * intros k Hk H0 Hlt Hid.
        replace (c * 2 * 2 ^ k) with (c * 2 ^ (k + 1)) in *
          by (rewrite Z.pow_add_r by lia; lia).
        apply HQ; [lia|lia| |lia].
        intros _. destruct (decide (c * 2 < n)); [lia|].
        assert (k = 0) by lia. subst. lia.
    + apply wp_ret. replace c with (c * 2 ^ 0) by lia. apply HQ; lia.
Qed.

Lemma contents_resize cells n pad :
  (n <= length cells)%nat -> take n (cells ++ pad) = take n cells.
Proof. apply take_app_le. Qed.

Lemma reserve_wp vec n Q w :
  vector_wf vec -> fits vec n ->
  (forall w', alloc_only w w' -> ~ plenty w -> Q (false, vec) w') ->
  (forall vec' w', alloc_only w w' -> vector_wf vec' ->
     len vec' = len vec -> type_size vec' = type_size vec ->
     contents vec' = contents vec -> n <= capacity vec' ->
     capacity vec <= capacity vec' ->
     capacity vec' <= Z.max (2 * n - 1) (capacity vec) ->
     (exists k, doublings (capacity vec) n k /\ capacity vec' = capacity vec * 2 ^ k) ->
     Q (true, vec') w') ->
  wp (jaeger_vector_reserve vec n) Q w.
Proof.
  intros Hwf Hfit HF HT. destruct Hwf as [Hts Hlen Hcap (cells & Ed & Ec)].
  destruct (fits_range vec n Hts Hcap Hfit) as [Hn Hc].
  unfold jaeger_vector_reserve. wp_steps.
  - apply HT; try reflexivity; try lia; reflect_bools; try lia.
    + split; eauto.
    + exists 0. split; [by apply doublings_zero|lia].
  - reflect_bools.
    apply wp_align_capacity; [lia|lia|lia| |].
    { unfold INT_MAX in *. change (2 ^ Z.of_nat 32) with 4294967296. nia. }
    intros k Hk H0 Hlt _. specialize (Hlt ltac:(lia)). wp_steps.
    { assert (0 <= 2 ^ k) by (apply Z.pow_nonneg; lia).
      unfold fits in Hfit. unfold INT_MIN.
      assert (0 <= capacity vec * 2 ^ k <= 2 * Z.max n (capacity vec)) by nia.
      nia. }
    + rewrite Ed. cbn [from_option id]. rewrite (take_ge cells) by lia.
      assert (0 < 2 ^ k) by (apply Z.pow_pos_nonneg; lia).
      assert (capacity vec <= capacity vec * 2 ^ k) by nia.
      apply HT; [done|split; cbn|..]; cbn; try lia; try done.
      * eexists. split; [reflexivity|].
        rewrite length_app, length_replicate. lia.
      * unfold contents. rewrite Ed. cbn. apply contents_resize. lia.
      * exists k. split; [by apply doublings_less|done].
    + apply HF; [done|]. intros Hp. by specialize (Hplenty Hp).
Qed.

Lemma init_wp vec0 ts Q w :
  0 < ts -> ts * JAEGERTRACINGC_VECTOR_INIT_CAPACITY <= INT_MAX ->
  (forall vec w', alloc_only w w' -> vector_wf vec -> contents vec = [] -> len vec = 0 ->
     capacity vec = JAEGERTRACINGC_VECTOR_INIT_CAPACITY -> type_size vec = ts ->
     Q (true, vec) w') ->
  (forall w', alloc_only w w' -> ~ plenty w -> Q (false, vec0) w') ->
  wp (jaeger_vector_init vec0 ts) Q w.
Proof.
  intros Hts Hmax HT HF. unfold jaeger_vector_init, JAEGERTRACINGC_VECTOR_INIT_CAPACITY in *.
  wp_step. apply wp_assert; [by apply Z.ltb_lt|]. do 3 wp_step. wp_step. wp_step.
  - apply HT; try done. split; cbn; [done|lia|lia|]. eexists. split; [done|].
    by rewrite length_replicate.
  - apply HF; [done|]. intros Hp. by specialize (Hplenty Hp).
Qed.

Lemma wp_memmove cells d s n Q w :
  0 <= d -> 0 <= s -> 0 <= n -> d + n <= lenZ cells -> s + n <= lenZ cells ->
  Q (take (Z.to_nat d) cells ++ take (Z.to_nat n) (drop (Z.to_nat s) cells) ++
     drop (Z.to_nat (d + n)) cells) w ->
  wp (memmove cells d s n) Q w.
Proof.
  intros. unfold memmove.
  repeat (rewrite (proj2 (Z.leb_le _ _)) by lia). done.
Qed.

(** Opening a gap of [n] slots at [pos] in the elements. *)
Lemma gap_contents cells (l pos n : nat) :
  (pos <= l)%nat -> (l + n <= length cells)%nat ->
  exists gap, length gap = n /\
    take (l + n) (take (pos + n) cells ++ take (l - pos) (drop pos cells) ++
                  drop (l + n) cells)
    = take pos (take l cells) ++ gap ++ drop pos (take l cells).
Proof.
  intros Hp Hl. exists (drop pos (take (pos + n) cells)). split.
  { rewrite length_drop, length_take. lia. }
  rewrite app_assoc, take_app_le, take_ge;
    rewrite ?length_app, ?length_take, ?length_drop; try lia.
  rewrite take_take, Nat.min_l by lia.
  rewrite app_assoc. f_equal.
  - rewrite <- (take_drop pos (take (pos + n) cells)) at 1.
    rewrite take_take, Nat.min_l by lia. done.
  - rewrite take_drop_commute. do 2 f_equal. lia.
Qed.

Lemma extend_wp vec pos n Q w :
  vector_wf vec -> 0 <= pos <= len vec -> 0 <= n ->
  fits vec (capacity vec + n) ->
  (forall w', alloc_only w w' -> ~ plenty w -> Q (None, vec) w') ->
  (forall vec' gap w', alloc_only w w' -> vector_wf vec' ->
     lenZ gap = n -> len vec' = len vec + n ->
     type_size vec' = type_size vec ->
     capacity vec <= capacity vec' <= 2 * (capacity vec + n) /\
       (len vec + n <= capacity vec -> capacity vec' = capacity vec) ->
     contents vec' = take (Z.to_nat pos) (contents vec) ++ gap ++
                     drop (Z.to_nat pos) (contents vec) ->
     Q (Some pos, vec') w') ->
  wp (jaeger_vector_extend vec pos n) Q w.
Proof.
  intros Hwf Hpos Hn Hfit HF HT.
  destruct (fits_range vec _ (wf_type_size _ Hwf) (wf_capacity _ Hwf) Hfit).
  pose proof (wf_len _ Hwf). pose proof (wf_capacity _ Hwf).
  unfold jaeger_vector_extend, jaeger_vector_length. do 6 wp_step.
  (* what follows the capacity test, for the vector it leaves *)
  assert (Hbody : forall v w1, alloc_only w w1 -> vector_wf v ->
    len v = len vec -> type_size v = type_size vec ->
    contents v = contents vec -> len vec + n <= capacity v ->
    capacity vec <= capacity v <= 2 * (capacity vec + n) /\
      (len vec + n <= capacity vec -> capacity v = capacity vec) ->
    wp (bind (if pos <? len v then
                match data v with
                | Some cells =>
                    bind (memmove cells (pos + n) pos (len v - pos))
                      (fun cells => ret (set_data v (Some cells)))
                | None => fail NullDeref
                end
              else ret v)
          (fun v => ret (jaeger_vector_offset v pos, set_len v (len v + n))))
       Q w1).
  { intros v w1 Hw1 [Hts Hlen Hcap (cells & Ed & Ec)] El Et Econt Hroom Hcv.
    rewrite El in *. wp_steps; reflect_bools.
    - rewrite Ed. wp_step. apply wp_memmove; [lia..|]. wp_steps.
      unfold jaeger_vector_offset. cbn.
      destruct (gap_contents cells (Z.to_nat (len vec)) (Z.to_nat pos)
                  (Z.to_nat n)) as (gap & Hgap & Egap); [lia..|].
      replace (Z.to_nat (pos + n)) with (Z.to_nat pos + Z.to_nat n)%nat by lia.
      replace (Z.to_nat (pos + n + (len vec - pos)))
        with (Z.to_nat (len vec) + Z.to_nat n)%nat by lia.
      replace (Z.to_nat (len vec - pos))
        with (Z.to_nat (len vec) - Z.to_nat pos)%nat by lia.
      eapply (HT _ gap); [done|split|..]; cbn; try lia.
      + eexists. split; [reflexivity|].
        rewrite !length_app, !length_take, !length_drop. lia.
      + unfold contents in *. rewrite Ed in Econt. cbn in *.
        rewrite El in Econt. rewrite <- Econt, <- Egap. f_equal. lia.
    - assert (pos = len vec) as -> by lia.
      unfold jaeger_vector_offset. rewrite Ed.
      eapply (HT _ (take (Z.to_nat n) (drop (Z.to_nat (len vec)) cells)));
        [done|split|..]; cbn; try lia; eauto.
      + rewrite length_take, length_drop. lia.
      + unfold contents in *. rewrite El, Ed in *. cbn in *.
        rewrite <- Econt.
        set (l := Z.to_nat (len vec)).
        rewrite (take_ge (take l cells)), (drop_ge (take l cells))
          by (rewrite length_take; lia).
        rewrite app_nil_r, take_take_drop, Ed. cbn. f_equal. lia. }
  wp_step. destruct (len vec + n >? capacity vec) eqn:E; reflect_bools.
  - wp_step. apply wp_int_chk; [unfold INT_MIN; lia|].
    apply reserve_wp; [done|done| |].
    + intros w1 Hw1 Hno. wp_steps. eauto.
    + intros v w1 Hw1 Hv El Et Econt Hge Hmono Hmax _. apply Hbody; auto; lia.
  - wp_step. apply Hbody; auto; try lia. reflexivity.
Qed.

(** Inserting grows the buffer only when it is full. *)
Lemma insert_wp vec pos Q w :
  vector_wf vec -> 0 <= pos <= len vec -> fits vec (capacity vec + 1) ->
  (forall w', alloc_only w w' -> ~ plenty w -> Q (None, vec) w') ->
  (forall vec' slot w', alloc_only w w' -> vector_wf vec' ->
     len vec' = len vec + 1 -> type_size vec' = type_size vec ->
     capacity vec' <= Z.max (capacity vec) (2 * (len vec + 1)) ->
     contents vec' = take (Z.to_nat pos) (contents vec) ++ slot ::
                     drop (Z.to_nat pos) (contents vec) ->
     Q (Some pos, vec') w') ->
  wp (jaeger_vector_insert vec pos) Q w.
Proof.
  intros Hwf Hpos Hfit HF HT. pose proof (wf_len _ Hwf).
  apply extend_wp; [done|done|lia|done|done|].
  intros vec' gap w' Hw Hwf' Hgap El Et Ec Econt.
  destruct gap as [|slot [|]]; cbn in Hgap; try lia.
  apply (HT vec' slot); try done. lia.
Qed.

Lemma append_wp vec Q w :
  vector_wf vec -> fits vec (capacity vec + 1) ->
  (forall w', alloc_only w w' -> ~ plenty w -> Q (None, vec) w') ->
  (forall vec' slot w', alloc_only w w' -> vector_wf vec' ->
     len vec' = len vec + 1 -> type_size vec' = type_size vec ->
     capacity vec <= capacity vec' <= 2 * (capacity vec + 1) ->
     contents vec' = contents vec ++ [slot] -> Q (Some (len vec), vec') w') ->
  wp (jaeger_vector_append vec) Q w.
Proof.
  intros Hwf Hfit HF HT. pose proof (wf_len _ Hwf).
  pose proof (length_contents _ Hwf).
  apply extend_wp; [done|unfold jaeger_vector_length; lia|lia|done|done|].
  intros vec' gap w' Hw Hwf' Hgap El Et [Ec _] Econt.
  destruct gap as [|slot [|]]; cbn in Hgap; try lia.
  unfold jaeger_vector_length in *.
  rewrite take_ge, drop_ge, app_nil_r in Econt by lia.
  eapply HT; eauto.
Qed.

(** Appending within the capacity makes no request and cannot fail. *)
Lemma append_room_wp vec Q w :
  vector_wf vec -> len vec < capacity vec -> capacity vec <= INT_MAX ->
  (forall vec' slot, vector_wf vec' ->
     len vec' = len vec + 1 -> type_size vec' = type_size vec ->
     capacity vec' = capacity vec ->
     contents vec' = contents vec ++ [slot] -> Q (Some (len vec), vec') w) ->
  wp (jaeger_vector_append vec) Q w.
Proof.
  intros Hwf Hroom Hmax HT. destruct Hwf as [Hts Hlen Hcap (cells & Ed & Ec)].
  unfold jaeger_vector_append, jaeger_vector_insert, jaeger_vector_extend,
    jaeger_vector_length. do 6 wp_step.
  rewrite Z.gtb_ltb, (proj2 (Z.ltb_ge _ _)) by lia. wp_step. wp_step.
  rewrite (proj2 (Z.ltb_ge _ _)) by lia. wp_steps.
  unfold jaeger_vector_offset. rewrite Ed.
  destruct (lookup_lt_is_Some_2 cells (Z.to_nat (len vec))) as [slot Hslot];
    [lia|].
  apply (HT _ slot); [split|..]; cbn; try lia; eauto.
  unfold contents. cbn. rewrite Ed. cbn.
  replace (Z.to_nat (len vec + 1)) with (S (Z.to_nat (len vec))) by lia.
  by apply take_S_r.
Qed.

(** Appending grows the buffer only when it is full. *)
Lemma append_bounded_wp vec Q w :
  vector_wf vec -> fits vec (capacity vec + 1) ->
  (forall w', alloc_only w w' -> ~ plenty w -> Q (None, vec) w') ->
  (forall vec' slot w', alloc_only w w' -> vector_wf vec' ->
     len vec' = len vec + 1 -> type_size vec' = type_size vec ->
     capacity vec' <= Z.max (capacity vec) (2 * (len vec + 1)) ->
     contents vec' = contents vec ++ [slot] -> Q (Some (len vec), vec') w') ->
  wp (jaeger_vector_append vec) Q w.
Proof.
  intros Hwf Hfit HF HT. pose proof (wf_len _ Hwf).
  destruct (fits_range vec _ (wf_type_size _ Hwf) (wf_capacity _ Hwf) Hfit).
  destruct (decide (len vec < capacity vec)).
  - apply append_room_wp; [done|done|lia|]. intros v slot Hwf1 El Et Ec Econt.
    apply (HT v slot); [done|done|done|done|lia|done].
  - apply append_wp; [done|done|done|]. intros v slot w' Hw Hwf1 El Et Ec Econt.
    apply (HT v slot); [done..|lia|done].
Qed.

Lemma load_wp vec i a Q w :
  vector_wf vec -> 0 <= i -> contents vec !! Z.to_nat i = Some a ->
  Q a w -> wp (load vec (Some i)) Q w.
Proof.
  intros [_ _ _ (cells & Ed & _)] Hi Hl HQ. unfold load, contents in *.
  rewrite Ed in *. cbn in Hl. apply lookup_take_Some in Hl as [Hl _].
  rewrite (proj2 (Z.leb_le _ _)), Hl by lia. done.
Qed.

Lemma store_wp vec i a Q w :
  vector_wf vec -> 0 <= i < len vec ->
  (forall vec', vector_wf vec' -> len vec' = len vec ->
     capacity vec' = capacity vec -> type_size vec' = type_size vec ->
     contents vec' = <[Z.to_nat i := a]> (contents vec) -> Q vec' w) ->
  wp (store vec (Some i) a) Q w.
Proof.
  intros [Hts Hlen Hcap (cells & Ed & Ec)] Hi HQ. unfold store. rewrite Ed.
  rewrite (proj2 (Z.leb_le _ _)), (proj2 (Z.ltb_lt _ _)) by lia.
  apply HQ; [split|..]; cbn; auto.
  - eexists. split; [reflexivity|]. by rewrite length_insert.
  - unfold contents. cbn. rewrite Ed. cbn. rewrite take_insert_lt by lia. done.
Qed.

Lemma delete_contents cells (l i : nat) :
  (i < l)%nat -> (l <= length cells)%nat ->
  take (l - 1) (take i cells ++ take (l - (i + 1)) (drop (i + 1) cells) ++
                drop (l - 1) cells)
  = delete i (take l cells).
Proof.
  intros Hi Hl. rewrite delete_take_drop, take_take, Nat.min_l by lia.
  rewrite app_assoc, take_app_le, take_ge;
    rewrite ?length_app, ?length_take, ?length_drop; try lia.
  f_equal. rewrite take_drop_commute. f_equal; [lia|]. f_equal. lia.
Qed.

Lemma remove_wp vec i Q w :
  vector_wf vec -> 0 <= i < len vec ->
  (forall vec', vector_wf vec' -> len vec' = len vec - 1 ->
     capacity vec' = capacity vec -> type_size vec' = type_size vec ->
     contents vec' = delete (Z.to_nat i) (contents vec) -> Q vec' w) ->
  wp (jaeger_vector_remove vec i) Q w.
Proof.
  intros [Hts Hlen Hcap (cells & Ed & Ec)] Hi HQ.
  unfold jaeger_vector_remove, jaeger_vector_length.
  rewrite (proj2 (Z.ltb_ge _ _)), Z.geb_leb, (proj2 (Z.leb_gt _ _)) by lia.
  cbn [orb]. wp_steps; reflect_bools.
  - rewrite Ed. wp_step. apply wp_memmove; [lia..|]. wp_steps.
    apply HQ; [split|..]; cbn; try lia; auto.
    + eexists. split; [reflexivity|].
      rewrite !length_app, !length_take, !length_drop. lia.
    + unfold contents. rewrite Ed. cbn.
      replace (Z.to_nat (i + 1)) with (Z.to_nat i + 1)%nat by lia.
      replace (Z.to_nat (len vec - (i + 1)))
        with (Z.to_nat (len vec) - (Z.to_nat i + 1))%nat by lia.
      replace (Z.to_nat (i + (len vec - (i + 1))))
        with (Z.to_nat (len vec) - 1)%nat by lia.
      replace (Z.to_nat (len vec - 1)) with (Z.to_nat (len vec) - 1)%nat by lia.
      apply delete_contents; lia.
  - apply HQ; [split|..]; cbn; try lia; eauto.
    unfold contents. cbn. rewrite Ed. cbn. assert (i = len vec - 1) as -> by lia.
    rewrite delete_take_drop, take_take, Nat.min_l by lia.
    rewrite (drop_ge (take _ _)), app_nil_r by (rewrite length_take; lia). done.
Qed.

(** *** Searching *)

Section SearchFacts.
Context {K : Type} (cmp : A -> K -> Z).

Lemma lower_bound_loop_wp fuel vec key pos count Q w :
  vector_wf vec -> 0 <= pos -> 0 <= count -> pos + count <= len vec ->
  count < Z.of_nat fuel ->
  (forall p, pos <= p <= pos + count ->
     (Forall (fun a => cmp a key < 0) (contents vec) -> p = pos + count) ->
     Q p w) ->
  wp (lower_bound_loop cmp fuel vec key pos count) Q w.
Proof.
  intros Hwf. pose proof (length_contents _ Hwf) as Hlc.
  revert pos count.
  induction fuel as [|fuel IH]; intros pos count Hp Hc Hr Hf HQ; [lia|].
  cbn [lower_bound_loop]. wp_step; reflect_bools; [|apply HQ; lia].
  pose proof (half_range count ltac:(lia)).
  destruct (lookup_lt_is_Some_2 (contents vec) (Z.to_nat (pos + count / 2)))
    as [a Ha]; [lia|].
  unfold jaeger_vector_offset. destruct Hwf as [? ? ? (cells & Ed & ?)] eqn:E.
  rewrite Ed. wp_step. eapply load_wp; [done|lia|done|]. wp_steps; reflect_bools.
  - apply IH; [lia..|]. intros p Hpr Hall. apply HQ; [lia|].
    intros Hfa. specialize (Hall Hfa). lia.
  - apply IH; [lia..|]. intros p Hpr Hall. apply HQ; [lia|].
    intros Hfa. rewrite Forall_forall in Hfa.
    specialize (Hfa a (list_elem_of_lookup_2 _ _ _ Ha)). lia.
Qed.

(** The signs of [cmp _ key] along the elements never decrease. *)
Definition cmp_sorted (key : K) (l : list A) : Prop :=
  forall i j a b, (i <= j)%nat -> l !! i = Some a -> l !! j = Some b ->
    (0 <= cmp a key -> 0 <= cmp b key) /\ (cmp b key <= 0 -> cmp a key <= 0) /\
    (0 < cmp a key -> 0 < cmp b key).

Lemma bsearch_wp fuel vec key lo n Q w :
  vector_wf vec -> 0 <= lo -> lo + n <= len vec -> n < Z.of_nat fuel ->
  (forall i, lo <= i < lo + n ->
     (exists a, contents vec !! Z.to_nat i = Some a /\ cmp a key = 0) ->
     Q (Some i) w) ->
  ((cmp_sorted key (contents vec) ->
    forall i a, lo <= i < lo + n -> contents vec !! Z.to_nat i = Some a ->
      cmp a key <> 0) -> Q None w) ->
  wp (bsearch cmp fuel vec key lo n) Q w.
Proof.
  intros Hwf. pose proof (length_contents _ Hwf) as Hlc. revert lo n.
  induction fuel as [|fuel IH]; intros lo n Hlo Hr Hf HS HN;
    cbn [bsearch]; (destruct (n <=? 0) eqn:E; reflect_bools;
      [apply wp_ret, HN; intros; lia|]); [lia|].
  pose proof (half_range n ltac:(lia)).
  destruct (lookup_lt_is_Some_2 (contents vec) (Z.to_nat (lo + n / 2)))
    as [a Ha]; [lia|].
  wp_step. eapply load_wp; [done|lia|done|]. cbn zeta.
  destruct (cmp a key =? 0) eqn:E0; [|destruct (cmp a key <? 0) eqn:E1];
    reflect_bools.
  - apply wp_ret, HS; [lia|]. eauto.
  - apply IH; [lia|lia|lia|intros; apply HS; [lia|done]|].
    intros Hno. apply HN. intros Hs i b Hi Hb.
    destruct (decide (lo + n / 2 < i)); [apply (Hno Hs i); [lia|done]|].
    destruct (Hs (Z.to_nat i) (Z.to_nat (lo + n / 2)) b a) as (? & _ & ?);
      [lia|done|done|]. lia.
  - apply IH; [lia|lia|lia|intros; apply HS; [lia|done]|].
    intros Hno. apply HN. intros Hs i b Hi Hb.
    destruct (decide (i < lo + n / 2)); [apply (Hno Hs i); [lia|done]|].
    destruct (Hs (Z.to_nat (lo + n / 2)) (Z.to_nat i) a b) as (_ & _ & ?);
      [lia|done|done|]. lia.
Qed.
End SearchFacts.

Lemma set_len_wf vec n :
  vector_wf vec -> 0 <= n <= len vec -> vector_wf (set_len vec n).
Proof. intros [? ? ? ?] ?. split; cbn; auto. lia. Qed.

Lemma contents_set_len vec n :
  0 <= n <= len vec -> contents (set_len vec n) = take (Z.to_nat n) (contents vec).
Proof.
  intros Hn. unfold contents. cbn. rewrite take_take. f_equal. lia.
Qed.

(** *** Sorting *)

Lemma sort_contents (cmp : A -> A -> Z) vec :
  vector_wf vec ->
  contents (jaeger_vector_sort cmp vec) = merge_sort (cmp_le cmp) (contents vec).
Proof.
  intros [_ Hlen _ (cells & Ed & Ec)].
  unfold jaeger_vector_sort, contents. rewrite Ed. cbn.
  set (n := Z.to_nat (len vec)).
  pose proof (Permutation_length (merge_sort_Permutation (cmp_le cmp) (take n cells)))
    as Hp. rewrite length_take in Hp.
  rewrite take_app_le by lia. rewrite take_ge; [done|lia].
Qed.

Lemma sort_wf (cmp : A -> A -> Z) vec :
  vector_wf vec -> vector_wf (jaeger_vector_sort cmp vec).
Proof.
  intros [? ? ? (cells & Ed & Ec)]. unfold jaeger_vector_sort. rewrite Ed.
  split; cbn; auto. eexists. split; [reflexivity|].
  rewrite length_app, length_drop.
  pose proof (Permutation_length
    (merge_sort_Permutation (cmp_le cmp) (take (Z.to_nat (len vec)) cells))) as Hp.
  rewrite length_take in Hp. lia.
Qed.

Lemma sort_shape (cmp : A -> A -> Z) vec :
  len (jaeger_vector_sort cmp vec) = len vec /\
  type_size (jaeger_vector_sort cmp vec) = type_size vec /\
  capacity (jaeger_vector_sort cmp vec) = capacity vec.
Proof. unfold jaeger_vector_sort. by destruct (data vec). Qed.
End Facts.

(** *** Copying *)

Section CopyFacts.
Context {env : Env} {A B : Type} {zero : ZeroBytes A} {zeroB : ZeroBytes B}.
Implicit Types (vec : jaeger_vector A) (w : world).
Variables (copy : A -> B -> M (bool * A)) (Pre : B -> Prop) (P : B -> A -> Prop).
(** [R] is what copying an element may do to the world. *)
Variable R : world -> world -> Prop.
Context `{!PreOrder R}.
Hypothesis R_alloc : forall w w', alloc_only w w' -> R w w'.
Hypothesis R_plenty : forall w w', R w w' -> plenty w -> plenty w'.
(** [Inv] is what copying an element needs of the world. *)
Variable Inv : world -> Prop.
Hypothesis R_inv : forall w w', R w w' -> Inv w -> Inv w'.
Hypothesis copy_ok : forall old b w, Inv w -> Pre b ->
  wp (copy old b)
     (fun r w' => R w w' /\ (fst r = true -> P b (snd r)) /\
                  (plenty w -> fst r = true)) w.

Lemma copy_loop_wp n i vec (src : jaeger_vector B) Q w :
  vector_wf vec -> vector_wf src -> 0 <= i ->
  len vec + Z.of_nat n <= capacity vec -> capacity vec <= INT_MAX ->
  i + Z.of_nat n = len src -> Forall Pre (contents src) -> Inv w ->
  (forall ok vec' w', R w w' -> vector_wf vec' ->
     capacity vec' = capacity vec -> type_size vec' = type_size vec ->
     (ok = true -> exists l, contents vec' = contents vec ++ l /\
        Forall2 P (drop (Z.to_nat i) (contents src)) l) ->
     (plenty w -> ok = true) -> Q (ok, vec') w') ->
  wp (copy_loop copy n i vec src) Q w.
Proof.
  intros Hwf Hs. pose proof (length_contents _ Hs) as Hls.
  revert i vec w Hwf.
  induction n as [|n IH]; intros i vec w Hwf Hi Hroom Hmax Hn HPre HI HQ;
    cbn [copy_loop].
  { apply wp_ret, HQ; [reflexivity|done..| |done]. intros _. exists [].
    rewrite app_nil_r, drop_ge by lia. by split. }
  wp_step. apply append_room_wp; [done|lia|lia|].
  intros v1 slot Hwf1 El1 Et1 Ec1 Econt1. cbn beta iota. wp_step. wp_step.
  destruct (lookup_lt_is_Some_2 (contents src) (Z.to_nat i)) as [b Hb]; [lia|].
  pose proof (wf_len _ Hwf). pose proof (length_contents _ Hwf).
  destruct Hs as [? ? ? (scells & Eds & ?)] eqn:Es.
  pose proof Hb as Hb'. unfold contents in Hb'. rewrite Eds in Hb'. cbn in Hb'.
  apply lookup_take_Some in Hb' as [Hb' _].
  wp_step. rewrite Eds, Hb'. wp_step. wp_step.
  eapply load_wp; [done|lia| |].
  { rewrite Econt1, lookup_app_r by lia.
    replace (_ - _)%nat with 0%nat by lia. reflexivity. }
  wp_step. eapply wp_mono; [apply copy_ok; [done|by eapply Forall_lookup_1]|]. intros [ok new] w1 (Hw1 & HP & Hok1).
  cbn in HP, Hok1. cbn beta iota. wp_step.
  apply store_wp; [done|lia|]. intros v2 Hwf2 El2 Ec2 Et2 Econt2.
  assert (contents v2 = contents vec ++ [new]) as Hc2.
  { rewrite Econt2, Econt1, insert_app_r_alt by lia.
    by replace (_ - _)%nat with 0%nat by lia. }
  destruct ok.
  - apply IH; [done|lia|lia|lia|lia|done|by eapply R_inv|].
    intros ok v3 w3 Hw3 Hwf3 Ec3 Et3 Hok Hpl.
    apply HQ; [by etrans|done|lia|lia| |eauto]. intros ->. destruct Hok as (l & El & Hl); [done|]. exists (new :: l).
    rewrite El, Hc2, <- app_assoc. split; [done|].
    rewrite (drop_S _ b) by done. constructor; [auto|].
    by replace (Z.to_nat (i + 1)) with (S (Z.to_nat i)) in Hl by lia.
  - apply wp_ret, HQ; [done|apply set_len_wf; [done|lia]|cbn; congruence..|done|done].
Qed.

Lemma vector_copy_wp vec (src : jaeger_vector B) Q w :
  vector_wf vec -> len vec = 0 -> vector_wf src -> fits vec (len src) ->
  Forall Pre (contents src) -> Inv w ->
  (forall ok vec' w', R w w' -> vector_wf vec' ->
     type_size vec' = type_size vec ->
     (ok = true -> Forall2 P (contents src) (contents vec')) ->
     (plenty w -> ok = true) -> Q (ok, vec') w') ->
  wp (jaeger_vector_copy copy vec src) Q w.
Proof.
  intros Hwf Hl0 Hs Hfit HPre HI HQ. pose proof (wf_len _ Hs).
  assert (contents vec = []) as Hnil by (unfold contents; by rewrite Hl0).
  destruct (fits_range vec _ (wf_type_size _ Hwf) (wf_capacity _ Hwf) Hfit).
  unfold jaeger_vector_copy, jaeger_vector_length. do 3 wp_step.
  apply reserve_wp; [done|done| |].
  - intros w' Hw Hno. wp_step. apply HQ; auto; done.
  - intros v w' Hw Hv El Et Econt Hge _ Hmax _. cbn beta iota.
    apply copy_loop_wp; [done|done|lia|lia|lia|lia|done|by eapply R_inv; eauto|].
    intros ok v' w2 Hw2 Hwf2 Ec2 Et2 Hok Hpl.
    apply R_alloc in Hw. apply HQ; [by etrans|done|lia| |eauto]. intros Hok'. destruct (Hok Hok') as (l & El2 & HF).
    rewrite El2, Econt, Hnil. exact HF.
Qed.
End CopyFacts.

(** Copying to an array of pointers, when every element can be copied. *)
Section PtrCopyFacts.
Context {env : Env} {A B : Type} {zero : ZeroBytes A} {zeroB : ZeroBytes B}.
Variables (copy : A -> B -> M (bool * A)) (Pre : B -> Prop) (P : B -> A -> Prop).
Variable R : world -> world -> Prop.
Context `{!PreOrder R}.
Hypothesis R_alloc : forall w w', alloc_only w w' -> R w w'.
Hypothesis R_plenty : forall w w', R w w' -> plenty w -> plenty w'.
(** [Inv] is what copying an element needs of the world. *)
Variable Inv : world -> Prop.
Hypothesis R_inv : forall w w', R w w' -> Inv w -> Inv w'.
Hypothesis copy_ok : forall old b w, Inv w -> Pre b ->
  wp (copy old b)
     (fun r w' => R w w' /\ (fst r = true -> P b (snd r)) /\
                  (plenty w -> fst r = true)) w.

(** [*dst] and [*n_dst]: as many pointers as elements, each to a copy. *)
Definition copied_list (src : list B) (r : option (list (option A)) * Z) : Prop :=
  r.2 = lenZ src /\
  exists l, take (length src) (default [] r.1) = map Some l /\ Forall2 P src l.

Lemma ptr_copy_helper_wp old b Q (w : world) :
  Inv w -> Pre b ->
  (forall ok p w', R w w' -> (ok = true -> exists a, p = Some a /\ P b a) ->
     (plenty w -> ok = true) -> Q (ok, p) w') ->
  wp (jaeger_vector_ptr_copy_helper copy old b) Q w.
Proof.
  intros HI HPre HQ. unfold jaeger_vector_ptr_copy_helper. do 2 wp_step.
  apply R_alloc in Halloc as HR. wp_step.
  - wp_step. eapply wp_mono; [apply copy_ok; [by eapply R_inv|done]|]. intros [ok a] w2 (HR2 & HP & Hpl).
    cbn in HP, Hpl. cbn beta iota. destruct ok; wp_step; apply HQ; try (by etrans); eauto.
    done.
  - wp_step. apply HQ; [done..|]. intros Hp. by apply Hplenty.
Qed.

Lemma protobuf_copy_wp (src : jaeger_vector B) Q (w : world) :
  vector_wf src -> 16 * Z.max (len src) 10 <= INT_MAX -> Forall Pre (contents src) -> Inv w ->
  (forall r w', R w w' -> (plenty w -> exists data n, r = Some (data, n)) ->
     (forall data n, r = Some (data, n) -> copied_list (contents src) (data, n)) ->
     Q r w') ->
  wp (jaeger_vector_protobuf_copy copy src) Q w.
Proof.
  intros Hs Hfit HPre HI HQ. pose proof (length_contents _ Hs) as Hlen.
  pose proof (wf_len _ Hs).
  unfold jaeger_vector_protobuf_copy, jaeger_vector_length. wp_step; reflect_bools.
  { wp_step. apply HQ; [reflexivity|eauto|]. intros data n [= <- <-].
    destruct (contents src); [|cbn in Hlen; lia]. split; [done|]. by exists []. }
  wp_step. apply init_wp; [done|done| |].
  2: { intros w1 Hw1 Hno. cbn. apply HQ; [by apply R_alloc|done|done]. }
  intros vec w1 Hw1 Hwf Hc Hl Hcap Hts. cbn beta iota. wp_step.
  unfold jaeger_vector_ptr_copy. rewrite Hts. cbn [Z.eqb negb sizeof_ptr Pos.eqb].
  apply (vector_copy_wp _ Pre (fun b p => exists a, p = Some a /\ P b a) R R_alloc R_plenty Inv); try done.
  - intros old b w2 HI2 Hb. by apply ptr_copy_helper_wp.
  - unfold fits. rewrite Hts, Hcap.
    unfold JAEGERTRACINGC_VECTOR_INIT_CAPACITY, sizeof_ptr. lia.
  - eapply R_inv; eauto.
  - intros ok v w2 HR2 Hwf2 _ Hok Hpl. cbn beta iota.
    assert (R w w2) by (etrans; [by apply R_alloc|done]).
    destruct ok; wp_step; (apply HQ; [done| |]); try done.
    + eauto.
    + intros data n [= <- <-]. specialize (Hok eq_refl).
      pose proof (length_contents _ Hwf2). pose proof (Forall2_length _ _ _ Hok).
      split; [cbn; lia|]. cbn [fst snd].
      replace (length (contents src)) with (Z.to_nat (len v)) by lia.
      change (take _ _) with (contents v). clear -Hok.
      induction Hok as [|b p bs ps (a & -> & Ha) _ (l & -> & Hl)]; [by exists []|].
      exists (a :: l). split; [done|by constructor].
    + intros Hp. enough (false = true) by done. apply Hpl. by apply (R_plenty w); auto.
Qed.
End PtrCopyFacts.

(** *** Histories of operations *)

(** What a client asks of a vector, and what it gets back. *)
Inductive vec_op (A : Type) :=
  | VInsert (index : nat) (a : A)
  | VAppend (a : A)
  | VRemove (index : Z)
  | VGet (index : nat)
  | VClear.
Inductive vec_answer (A : Type) :=
  | Done
  | Beyond
  | NoMemory
  | Found (a : option A).
Arguments VInsert {A} index a.
Arguments VAppend {A} a.
Arguments VRemove {A} index.
Arguments VGet {A} index.
Arguments VClear {A}.
Arguments Done {A}.
Arguments Beyond {A}.
Arguments NoMemory {A}.
Arguments Found {A} a.

Section Histories.
Context {env : Env} {A : Type} {zero : ZeroBytes A}.
Implicit Types (vec : jaeger_vector A) (xs : list A) (w : world).

(** Writes the element to the slot that was made for it. *)
Definition fill_slot (ptr : option Z) vec (a : A) : M (vec_answer A * jaeger_vector A) :=
  match ptr with
  | None => ret (NoMemory, vec)
  | Some _ => vec ← store vec ptr a; ret (Done, vec)
  end.

(** A client keeps its insertions within the vector, and dereferences what it gets. *)
Definition vec_step (op : vec_op A) vec : M (vec_answer A * jaeger_vector A) :=
  match op with
  | VInsert index a =>
      if Z.of_nat index <=? jaeger_vector_length vec then
        ' (ptr, vec) ← jaeger_vector_insert vec (Z.of_nat index); fill_slot ptr vec a
      else ret (Beyond, vec)
  | VAppend a => ' (ptr, vec) ← jaeger_vector_append vec; fill_slot ptr vec a
  | VRemove index => vec ← jaeger_vector_remove vec index; ret (Done, vec)
  | VGet index =>
      ptr ← jaeger_vector_get vec (Z.of_nat index);
      match ptr with
      | None => ret (Found None, vec)
      | Some _ => a ← load vec ptr; ret (Found (Some a), vec)
      end
  | VClear => ret (Done, jaeger_vector_clear vec)
  end.

Fixpoint vec_run (ops : list (vec_op A)) vec : M (list (vec_answer A) * jaeger_vector A) :=
  match ops with
  | [] => ret ([], vec)
  | op :: ops =>
      ' (answer, vec) ← vec_step op vec;
      ' (answers, vec) ← vec_run ops vec;
      ret (answer :: answers, vec)
  end.

(** The same on a list: memory may run out, and then nothing changes. *)
Inductive seq_step : vec_op A -> list A -> vec_answer A -> list A -> Prop :=
  | seq_insert i a xs : (i <= length xs)%nat ->
      seq_step (VInsert i a) xs Done (take i xs ++ a :: drop i xs)
  | seq_insert_beyond i a xs : (length xs < i)%nat -> seq_step (VInsert i a) xs Beyond xs
  | seq_insert_full i a xs : (i <= length xs)%nat -> seq_step (VInsert i a) xs NoMemory xs
  | seq_append a xs : seq_step (VAppend a) xs Done (xs ++ [a])
  | seq_append_full a xs : seq_step (VAppend a) xs NoMemory xs
  | seq_remove i xs : 0 <= i < lenZ xs ->
      seq_step (VRemove i) xs Done (delete (Z.to_nat i) xs)
  | seq_remove_outside i xs : ~ (0 <= i < lenZ xs) -> seq_step (VRemove i) xs Done xs
  | seq_get i xs : seq_step (VGet i) xs (Found (xs !! i)) xs
  | seq_clear xs : seq_step VClear xs Done [].

Inductive seq_run : list (vec_op A) -> list A -> list (vec_answer A) -> list A -> Prop :=
  | seq_run_nil xs : seq_run [] xs [] xs
  | seq_run_cons op ops xs answer ys answers zs :
      seq_step op xs answer ys -> seq_run ops ys answers zs ->
      seq_run (op :: ops) xs (answer :: answers) zs.

(** Room in an [int] for [n] more elements. *)
Definition room_for vec (n : Z) (C : Z) : Prop :=
  capacity vec <= C /\ 2 * (len vec + n) <= C /\ type_size vec * (2 * (C + 1)) <= INT_MAX.

(** What a step leaves for the next ones. *)
Definition stepped (op : vec_op A) vec w C (r : vec_answer A * jaeger_vector A) w' : Prop :=
  alloc_only w w' /\ vector_wf r.2 /\ capacity r.2 <= C /\ len r.2 <= len vec + 1 /\
  type_size r.2 = type_size vec /\ seq_step op (contents vec) r.1 (contents r.2) /\
  (plenty w -> r.1 <> NoMemory).

Lemma room_fits vec n C : vector_wf vec -> room_for vec n C -> fits vec (capacity vec + 1).
Proof. intros [? ? ? _] (? & ? & ?). unfold fits. nia. Qed.

Lemma insert_slot xs (i : nat) (slot a : A) :
  (i <= length xs)%nat ->
  <[i := a]> (take i xs ++ slot :: drop i xs) = take i xs ++ a :: drop i xs.
Proof.
  intros Hi. rewrite insert_app_r_alt by (rewrite length_take; lia).
  rewrite length_take, Nat.min_l, Nat.sub_diag by lia. done.
Qed.

(** Filling the slot that an insertion at [i] made. *)
Lemma fill_slot_wp op vec vec' slot a (i : nat) w w' C n :
  room_for vec n C -> vector_wf vec -> vector_wf vec' -> (i <= length (contents vec))%nat ->
  alloc_only w w' -> len vec' = len vec + 1 -> type_size vec' = type_size vec ->
  capacity vec' <= C ->
  contents vec' = take i (contents vec) ++ slot :: drop i (contents vec) ->
  seq_step op (contents vec) Done (take i (contents vec) ++ a :: drop i (contents vec)) ->
  wp (fill_slot (Some (Z.of_nat i)) vec' a) (stepped op vec w C) w'.
Proof.
  intros (Hc & Hl & _) Hwf Hwf' Hi Hw El Et Ec Econt Hstep. unfold fill_slot.
  pose proof (length_contents _ Hwf). apply wp_bind, store_wp; [done|lia|].
  intros v Hwfv Elv Ecv Etv Econtv. apply wp_ret.
  rewrite Nat2Z.id, Econt, insert_slot in Econtv by done.
  unfold stepped. cbn [fst snd]. rewrite Econtv. split_and!; done || lia || congruence.
Qed.

Lemma vec_step_wp op vec n C w :
  vector_wf vec -> 1 <= n -> room_for vec n C ->
  wp (vec_step op vec) (stepped op vec w C) w.
Proof.
  intros Hwf Hn Hroom. pose proof (length_contents _ Hwf) as Hlen.
  pose proof (wf_len _ Hwf). pose proof (room_fits _ _ _ Hwf Hroom) as Hfit.
  assert (stays : forall r w', alloc_only w w' -> seq_step op (contents vec) r (contents vec) ->
    (plenty w -> r <> NoMemory) -> stepped op vec w C (r, vec) w').
  { intros r w' ? ? ?. destruct Hroom. unfold stepped. cbn [fst snd]. split_and!; done || lia. }
  destruct op as [i a|a|i|i|]; cbn [vec_step]; unfold jaeger_vector_length.
  - destruct (Z.leb_spec (Z.of_nat i) (len vec)).
    2: { apply wp_ret, stays; [reflexivity|constructor; lia|done]. }
    apply wp_bind, insert_wp; [done|lia|done| |].
    + intros w' Hw Hno. cbn. apply wp_ret, stays; [done|constructor; lia|done].
    + intros v slot w' Hw Hwf' El Et Ec Econt. cbn beta iota. rewrite Nat2Z.id in Econt.
      destruct Hroom as (? & ? & ?) eqn:E.
      eapply fill_slot_wp; try done; [lia|lia|constructor; lia].
  - apply wp_bind, append_bounded_wp; [done|done| |].
    + intros w' Hw Hno. cbn. apply wp_ret, stays; [done|constructor|done].
    + intros v slot w' Hw Hwf' El Et Ec Econt. cbn beta iota.
      replace (len vec) with (Z.of_nat (length (contents vec))) by lia.
      destruct Hroom as (? & ? & ?) eqn:E.
      eapply fill_slot_wp; try done; rewrite ?firstn_all, ?drop_all; try done; [lia|].
      constructor.
  - apply wp_bind. destruct (decide (0 <= i < len vec)).
    + apply remove_wp; [done|done|]. intros v Hwf' El Ec Et Econt. apply wp_ret.
      destruct Hroom. unfold stepped. cbn [fst snd]. rewrite Econt.
      split_and!; try done || lia. constructor. lia.
    + unfold jaeger_vector_remove, jaeger_vector_length.
      replace ((i <? 0) || (i >=? len vec)) with true by (symmetry; apply orb_true_iff; lia).
      do 2 apply wp_ret. apply stays; [reflexivity|constructor; lia|done].
  - unfold jaeger_vector_get, jaeger_vector_length. do 2 wp_step. apply wp_assert; [by apply Z.leb_le; lia|].
    pose proof (seq_get i (contents vec)) as Hg. wp_step; reflect_bools.
    + wp_step. apply wp_ret, stays; [reflexivity| |done].
      by rewrite lookup_ge_None_2 in Hg by lia.
    + destruct (lookup_lt_is_Some_2 (contents vec) i) as [a Ha]; [lia|].
      destruct (wf_cells _ Hwf) as (cells & Ed & _). unfold jaeger_vector_offset. rewrite Ed.
      wp_step. apply wp_bind. eapply load_wp; [done|lia|by rewrite Nat2Z.id|].
      apply wp_ret, stays; [reflexivity| |done]. by rewrite Ha in Hg.
  - apply wp_ret. unfold jaeger_vector_clear, stepped. destruct Hroom. cbn [fst snd].
    rewrite contents_set_len by lia.
    split_and!; try done || lia || (cbn; lia); [by apply set_len_wf; [|lia]|constructor].
Qed.

Lemma vec_run_wp ops vec C w :
  vector_wf vec -> room_for vec (lenZ ops) C ->
  wp (vec_run ops vec) (fun r w' => alloc_only w w' /\ vector_wf r.2 /\
    seq_run ops (contents vec) r.1 (contents r.2) /\ (plenty w -> NoMemory ∉ r.1)) w.
Proof.
  revert vec w. induction ops as [|op ops IH]; intros vec w Hwf Hroom; cbn [vec_run].
  - apply wp_ret. split; [reflexivity|]. split; [done|]. split; [constructor|].
    intros _. apply not_elem_of_nil.
  - apply wp_bind. eapply wp_mono.
    { eapply (vec_step_wp _ _ (lenZ (op :: ops))); [done|cbn; lia|done]. }
    intros [answer v] w1 (Hw1 & Hwf1 & Hc & Hl & Ht & Hstep & Hp1). cbn [fst snd] in *.
    apply wp_bind. eapply wp_mono; [apply IH; [done|]|].
    { destruct Hroom as (? & ? & ?). unfold room_for. rewrite Ht. cbn [length] in *.
      split; [done|]. split; [lia|done]. }
    intros [answers v'] w2 (Hw2 & Hwf2 & Hrun & Hp2). cbn [fst snd] in *. apply wp_ret.
    split; [by etrans|]. split; [done|]. split; [by econstructor|].
    intros Hp. apply not_elem_of_cons. split; [by apply not_eq_sym, Hp1|].
    apply Hp2. by eapply plenty_alloc_only.
Qed.
End Histories.

(** * Theorems *)

(** C38: Refinement: any history of insertions, appends, removals, lookups and
    clearings on a vector, as long as its sizes are ints, faults nowhere and
    answers what it would on a list, except that an insertion is refused when
    memory runs out, and only then; the vector is left with that list. *)
Theorem jaeger_vector_refines_list (env : Env) (A : Type) (zero : ZeroBytes A) ops
    (vec : jaeger_vector A) w :
  vector_wf vec ->
  type_size vec * (2 * (Z.max (capacity vec) (2 * (len vec + lenZ ops)) + 1)) <= INT_MAX ->
  exists answers vec' w', vec_run ops vec w = Ok (answers, vec') w' /\
    alloc_only w w' /\ vector_wf vec' /\
    seq_run ops (contents vec) answers (contents vec') /\ (plenty w -> NoMemory ∉ answers).
Proof.
  intros Hwf Hb.
  pose proof (vec_run_wp ops vec (Z.max (capacity vec) (2 * (len vec + lenZ ops))) w Hwf) as H.
  apply wp_returns in H as ([answers vec'] & w' & E & H).
  - by exists answers, vec', w'.
  - unfold room_for. lia.
Qed.


Section Theorems.
Context {env : Env} {A : Type} {zero : ZeroBytes A}.
Implicit Types (vec : jaeger_vector A) (w : world).


(** [jaeger_vector_extend] returns NULL, for want of memory only, with the vector untouched,
    or a pointer to a gap of [n] slots opened at [pos], the elements before
    and after it being those of the vector. *)
Theorem jaeger_vector_extend_spec vec pos n w :
  vector_wf vec -> 0 <= pos <= len vec -> 0 <= n ->
  fits vec (capacity vec + n) ->
  wp (jaeger_vector_extend vec pos n)
    (fun '(ptr, vec') w' => alloc_only w w' /\
       match ptr with
       | Some i => i = pos /\ vector_wf vec' /\
           exists gap, lenZ gap = n /\
             contents vec' = take (Z.to_nat pos) (contents vec) ++ gap ++
                             drop (Z.to_nat pos) (contents vec)
       | None => vec' = vec /\ ~ plenty w
       end) w.
Proof.
  intros Hwf Hpos Hn Hfit. apply extend_wp; eauto 10.
Qed.

(** [jaeger_vector_remove] deletes the element at a valid index and
    ignores an index outside the elements. *)
Theorem jaeger_vector_remove_spec vec i w :
  vector_wf vec ->
  wp (jaeger_vector_remove vec i)
    (fun vec' w' => w' = w /\
       if decide (0 <= i < len vec) then
         vector_wf vec' /\ contents vec' = delete (Z.to_nat i) (contents vec)
       else vec' = vec) w.
Proof.
  intros Hwf. case_decide as Hi.
  - apply remove_wp; auto.
  - unfold jaeger_vector_remove, jaeger_vector_length.
    destruct (_ || _) eqn:E; [done|]. apply orb_false_iff in E as [E1 E2].
    reflect_bools. lia.
Qed.

(** [jaeger_vector_bsearch] on elements sorted for the comparator
    returns the index of an equal element, and NULL exactly when there is
    none. *)
Theorem jaeger_vector_bsearch_spec {K} (cmp : A -> K -> Z) vec key w :
  vector_wf vec -> cmp_sorted cmp key (contents vec) ->
  wp (jaeger_vector_bsearch cmp vec key)
    (fun ptr w' => w' = w /\
       match ptr with
       | Some i => exists a, contents vec !! Z.to_nat i = Some a /\ cmp a key = 0
       | None => Forall (fun a => cmp a key <> 0) (contents vec)
       end) w.
Proof.
  intros Hwf Hs. pose proof (length_contents _ Hwf).
  apply bsearch_wp; try done; unfold jaeger_vector_length; try lia.
  intros Hno. split; [done|]. apply Forall_lookup. intros i a Ha.
  apply (Hno Hs (Z.of_nat i)); [|by rewrite Nat2Z.id].
  apply lookup_lt_Some in Ha. lia.
Qed.

(** [jaeger_vector_lower_bound] terminates and returns a position of
    the vector, the end when every element is below the key. *)
Theorem jaeger_vector_lower_bound_total {K} (cmp : A -> K -> Z) vec key w :
  vector_wf vec ->
  wp (jaeger_vector_lower_bound cmp vec key)
    (fun pos w' => w' = w /\ 0 <= pos <= len vec /\
       (Forall (fun a => cmp a key < 0) (contents vec) -> pos = len vec)) w.
Proof.
  intros Hwf. pose proof (wf_len _ Hwf).
  unfold jaeger_vector_lower_bound, jaeger_vector_length. cbn zeta.
  apply lower_bound_loop_wp; [done|lia..|]. intros p Hp Hall.
  split; [done|]. split; [lia|]. auto.
Qed.
End Theorems.

(** A small vector of integers, for evaluating the operations. *)
#[export] Instance zero_Z : ZeroBytes Z := 0.

Definition sample_vector (l : list Z) (cap : nat) : jaeger_vector Z :=
  Vector (lenZ l) (Z.of_nat cap) (Some (l ++ replicate (cap - length l) 0)) 4.

Lemma sample_vector_wf l cap :
  (0 < cap)%nat -> (length l <= cap)%nat -> vector_wf (sample_vector l cap).
Proof.
  intros Hc Hl. split; cbn; try lia. eexists. split; [reflexivity|].
  rewrite length_app, length_replicate. lia.
Qed.

(** [jaeger_vector_lower_bound] is not a lower bound: for a key below
    every element of 2, 3, 4 it returns position 1, because the position is
    advanced before the comparison and never moved back. *)
Theorem jaeger_vector_lower_bound_misplaces :
  value (run (@jaeger_vector_lower_bound Z Z Z.sub
                (sample_vector [2; 3; 4] 10) 1)) = Some 1 /\
  contents (sample_vector [2; 3; 4] 10) !! 0%nat = Some 2.
Proof. split; vm_compute; reflexivity. Qed.


Lemma jaeger_vector_extend_spec_witness :
  wp (@jaeger_vector_extend sample_env Z zero_Z (sample_vector [1; 2] 2) 1 2)
     (fun '(ptr, vec') w' => alloc_only initial_world w' /\
        match ptr with
        | Some i => i = 1 /\ vector_wf vec' /\
            exists gap, lenZ gap = 2 /\ contents vec' = [1] ++ gap ++ [2]
        | None => vec' = sample_vector [1; 2] 2 /\ ~ @plenty sample_env initial_world
        end) initial_world.
Proof.
  apply (@jaeger_vector_extend_spec sample_env Z zero_Z (sample_vector [1; 2] 2) 1 2);
    [apply sample_vector_wf; cbn; lia | cbn; lia | lia
    | unfold fits, INT_MAX; cbn; lia].
Defined.

Lemma jaeger_vector_remove_spec_witness :
  wp (@jaeger_vector_remove Z (sample_vector [7; 8; 9] 10) 1)
     (fun vec' w' => w' = initial_world /\
        if decide (0 <= 1 < 3) then
          vector_wf vec' /\ contents vec' = [7; 9]
        else vec' = sample_vector [7; 8; 9] 10) initial_world.
Proof.
  apply (jaeger_vector_remove_spec (sample_vector [7; 8; 9] 10) 1).
  apply sample_vector_wf; cbn; lia.
Defined.

Lemma jaeger_vector_bsearch_spec_witness :
  wp (@jaeger_vector_bsearch Z Z Z.sub (sample_vector [2; 5; 9] 10) 5)
     (fun ptr w' => w' = initial_world /\
        match ptr with
        | Some i => exists a, [2; 5; 9] !! Z.to_nat i = Some a /\ a - 5 = 0
        | None => Forall (fun a => a - 5 <> 0) [2; 5; 9]
        end) initial_world.
Proof.
  apply (jaeger_vector_bsearch_spec Z.sub (sample_vector [2; 5; 9] 10) 5).
  - apply sample_vector_wf; cbn; lia.
  - intros i j a b Hij Ha Hb. cbn in Ha, Hb.
    destruct i as [|[|[|i]]], j as [|[|[|j]]]; cbn in Ha, Hb;
      try discriminate; try lia; injection Ha as <-; injection Hb as <-; lia.
Defined.

Lemma jaeger_vector_lower_bound_total_witness :
  wp (@jaeger_vector_lower_bound Z Z Z.sub (sample_vector [2; 3; 4] 10) 9)
     (fun pos w' => w' = initial_world /\ 0 <= pos <= 3 /\
        (Forall (fun a => a - 9 < 0) [2; 3; 4] -> pos = 3)) initial_world.
Proof.
  apply (jaeger_vector_lower_bound_total Z.sub (sample_vector [2; 3; 4] 10) 9).
  apply sample_vector_wf; cbn; lia.
Defined.

Definition sample_history : list (vec_op Z) :=
  [VAppend 7; VInsert 1 5; VGet 1; VRemove 9; VRemove 0; VInsert 9 1; VGet 3; VGet 2].

Example sample_history_answers :
  (value (run (@vec_run sample_env Z zero_Z sample_history (sample_vector [1; 2] 2)))
   ≫= fun r => Some (r.1, contents r.2))
  = Some ([Done; Done; Found (Some 5); Done; Done; Beyond; Found None; Found (Some 7)],
          [5; 2; 7]).
Proof. vm_compute. reflexivity. Qed.

Lemma jaeger_vector_refines_list_witness :
  exists answers vec' w',
    @vec_run sample_env Z zero_Z sample_history (sample_vector [1; 2] 2) initial_world
      = Ok (answers, vec') w' /\
    alloc_only initial_world w' /\ vector_wf vec' /\
    seq_run sample_history [1; 2] answers (contents vec') /\
    (@plenty sample_env initial_world -> NoMemory ∉ answers).
Proof.
  apply (jaeger_vector_refines_list sample_env Z zero_Z sample_history (sample_vector [1; 2] 2)).
  - apply sample_vector_wf; cbn; lia.
  - unfold INT_MAX. cbn. lia.
Defined.
