(* ===== verification/CString.v ===== *)
(** * The C library's string functions

    The functions of <string.h>, <ctype.h>, <stdlib.h> and <stdio.h> the
    client calls, on C strings as lists of characters ("C" locale, as the
    client never calls setlocale): [strcmp], [strtok_r], [strtoull], [strtol],
    [tolower] and the [%x] and [%d] conversions of [snprintf], with the
    lemmas relating printing to scanning. *)
From S2P Require Import Prelude Machine.

(** Characters as [unsigned char] and as the platform's signed [char]. *)
Definition code (c : ascii) : Z := Z.of_N (N_of_ascii c).
Definition schar (c : ascii) : Z := to_signed 8 (code c).
Definition chr (n : Z) : ascii := ascii_of_N (Z.to_N (u8 n)).

Definition strlen (s : cstr) : Z := lenZ s.

(** Bytes of a buffer read as a C string: up to the first NUL. *)
Definition nul : ascii := chr 0.
Fixpoint until_nul (bs : list ascii) : cstr :=
  match bs with
  | [] => []
  | c :: bs => if bool_decide (c = nul) then [] else c :: until_nul bs
  end.

(** ** <ctype.h> *)

Definition in_range (lo hi : ascii) (c : ascii) : bool :=
  (code lo <=? code c) && (code c <=? code hi).
Definition islower : ascii -> bool := in_range "a" "z".
Definition isupper : ascii -> bool := in_range "A" "Z".
Definition isdigit : ascii -> bool := in_range "0" "9".
Definition isalnum (c : ascii) : bool := islower c || isupper c || isdigit c.
Definition isspace (c : ascii) : bool :=
  ((9 <=? code c) && (code c <=? 13)) || (code c =? 32).
Definition tolower (c : ascii) : ascii :=
  if isupper c then chr (code c + 32) else c.

(** ** <string.h> *)

Fixpoint strcmp (s t : cstr) : Z :=
  match s, t with
  | [], [] => 0
  | [], _ :: _ => -1
  | _ :: _, [] => 1
  | c :: s, d :: t =>
      if code c <? code d then -1
      else if code d <? code c then 1
      else strcmp s t
  end.

(** [strtok_r] with a one-character delimiter set: the next token of the
    remaining text and the text saved in [*saveptr]. *)
Fixpoint skip_delims (delim : ascii) (s : cstr) : cstr :=
  match s with
  | c :: s' => if bool_decide (c = delim) then skip_delims delim s' else s
  | [] => []
  end.

Fixpoint split_token (delim : ascii) (s : cstr) : cstr * cstr :=
  match s with
  | [] => ([], [])
  | c :: s =>
      if bool_decide (c = delim) then ([], s)
      else let '(tok, rest) := split_token delim s in (c :: tok, rest)
  end.

Definition strtok_r (delim : ascii) (s : cstr) : option (cstr * cstr) :=
  match skip_delims delim s with
  | [] => None
  | s' => Some (split_token delim s')
  end.

(** ** <stdlib.h> *)

(** The value of a digit character, in any base up to 16. *)
Definition digit_value (c : ascii) : option Z :=
  if isdigit c then Some (code c - 48)
  else if in_range "a" "f" c then Some (code c - 87)
  else if in_range "A" "F" c then Some (code c - 55)
  else None.

Definition is_digit_of (base : Z) (c : ascii) : bool :=
  match digit_value c with Some d => d <? base | None => false end.

Fixpoint scan_digits (base acc : Z) (s : cstr) : Z * cstr :=
  match s with
  | [] => (acc, [])
  | c :: s' =>
      match digit_value c with
      | Some d => if d <? base then scan_digits base (acc * base + d) s' else (acc, s)
      | None => (acc, s)
      end
  end.

Fixpoint skip_space (s : cstr) : cstr :=
  match s with
  | c :: s' => if isspace c then skip_space s' else s
  | [] => []
  end.

(** Optional sign, optional 0x in base 16, then digits: [None] when there is
    no conversion. *)
Definition scan_sign (s : cstr) : bool * cstr :=
  match s with
  | c :: s' =>
      if bool_decide (c = "-"%char) then (true, s')
      else if bool_decide (c = "+"%char) then (false, s')
      else (false, s)
  | [] => (false, [])
  end.

Definition scan_0x (base : Z) (s : cstr) : cstr :=
  match s with
  | z :: x :: d :: s' =>
      if (base =? 16) && bool_decide (z = "0"%char) &&
         (bool_decide (x = "x"%char) || bool_decide (x = "X"%char)) &&
         is_digit_of 16 d
      then d :: s' else s
  | _ => s
  end.

Definition scan_number (base : Z) (s : cstr) : option (bool * Z * cstr) :=
  let '(neg, s1) := scan_sign (skip_space s) in
  match scan_0x base s1 with
  | d :: s2 =>
      if is_digit_of base d then
        let '(v, rest) := scan_digits base 0 (d :: s2) in Some (neg, v, rest)
      else None
  | [] => None
  end.

(** [strtoull(s, &end, base)]: the value and the text [end] points to. *)
Definition strtoull (base : Z) (s : cstr) : Z * cstr :=
  match scan_number base s with
  | None => (0, s)
  | Some (neg, v, rest) =>
      (if v >? UINT64_MAX then UINT64_MAX else if neg then u64 (- v) else v, rest)
  end.

Definition LONG_MAX : Z := 9223372036854775807.

(** [strtol(s, &end, base)] with a 64-bit [long]. *)
Definition strtol (base : Z) (s : cstr) : Z * cstr :=
  match scan_number base s with
  | None => (0, s)
  | Some (neg, v, rest) =>
      (if neg then Z.max (- LONG_MAX - 1) (- v) else Z.min LONG_MAX v, rest)
  end.

(** ** <stdio.h> *)

Definition digit_char (d : Z) : ascii :=
  if d <? 10 then chr (48 + d) else chr (87 + d).

(** The [k] low digits of [n], most significant first: [%0kx]. *)
Fixpoint digits (base : Z) (k : nat) (n : Z) : cstr :=
  match k with
  | O => []
  | S k => digits base k (n / base) ++ [digit_char (n mod base)]
  end.

Fixpoint strip_zeros (s : cstr) : cstr :=
  match s with
  | c :: s' =>
      match s' with
      | [] => s
      | _ => if bool_decide (c = "0"%char) then strip_zeros s' else s
      end
  | [] => []
  end.

(** [%PRIx64] and a non-negative [%d]. *)
Definition print_hex (n : Z) : cstr := strip_zeros (digits 16 16 n).
Definition print_hex16 (n : Z) : cstr := digits 16 16 n.
Definition print_dec (n : Z) : cstr :=
  if n <? 0 then "-"%char :: strip_zeros (digits 10 10 (- n))
  else strip_zeros (digits 10 10 n).

(** [snprintf] into [size] bytes of [out]: the returned length, and the C
    string left in the buffer ([None] when nothing is written). *)
Definition snprintf (size : Z) (out : cstr) : Z * option cstr :=
  (lenZ out,
   if size <=? 0 then None else Some (take (Z.to_nat (size - 1)) out)).

(** * Lemmas *)

Lemma code_range c : 0 <= code c < 256.
Proof.
  unfold code. pose proof (N_ascii_bounded c). lia.
Qed.

Lemma chr_code c : chr (code c) = c.
Proof.
  unfold chr. rewrite wrap_small by apply code_range.
  unfold code. rewrite N2Z.id. apply ascii_N_embedding.
Qed.

Lemma code_chr n : 0 <= n < 256 -> code (chr n) = n.
Proof.
  intros Hn. unfold code, chr. rewrite wrap_small by done.
  rewrite N_ascii_embedding by lia. lia.
Qed.

Lemma code_inj c d : code c = code d -> c = d.
Proof. intros H. by rewrite <- (chr_code c), H, chr_code. Qed.

(** Every character property can be settled by evaluating 256 cases. *)
Lemma forall_ascii (P : ascii -> bool) :
  forallb P (map (fun n => chr (Z.of_nat n)) (seq 0 256)) = true ->
  forall c, P c = true.
Proof.
  intros H c. rewrite forallb_forall in H. apply H.
  apply in_map_iff. exists (Z.to_nat (code c)).
  pose proof (code_range c). split.
  - rewrite Z2Nat.id by lia. apply chr_code.
  - apply in_seq. lia.
Qed.

Lemma strcmp_refl s : strcmp s s = 0.
Proof. induction s as [|c s IH]; [done|]. cbn. by rewrite Z.ltb_irrefl. Qed.

Lemma strcmp_eq s t : strcmp s t = 0 <-> s = t.
Proof.
  split; [|intros ->; apply strcmp_refl].
  revert t. induction s as [|c s IH]; intros [|d t]; cbn; try done.
  destruct (code c <? code d) eqn:E1; [done|].
  destruct (code d <? code c) eqn:E2; [done|]. intros H. reflect_bools.
  f_equal; [apply code_inj; lia|auto].
Qed.

Lemma strcmp_antisym s t : strcmp t s = - strcmp s t.
Proof.
  revert t. induction s as [|c s IH]; intros [|d t]; cbn; try done.
  destruct (code c <? code d) eqn:E1, (code d <? code c) eqn:E2;
    reflect_bools; try lia; auto.
Qed.

Lemma strcmp_le_trans s t u :
  strcmp s t <= 0 -> strcmp t u <= 0 -> strcmp s u <= 0.
Proof.
  revert t u. induction s as [|c s IH]; intros [|d t] [|e u]; cbn; try lia.
  destruct (code c <? code d) eqn:E1, (code d <? code c) eqn:E2,
    (code d <? code e) eqn:E3, (code e <? code d) eqn:E4,
    (code c <? code e) eqn:E5, (code e <? code c) eqn:E6;
    reflect_bools; try lia; eauto.
Qed.

(** ** Digits *)

Lemma digit_value_char d : 0 <= d < 16 -> digit_value (digit_char d) = Some d.
Proof.
  intros Hd.
  assert (d ∈ seqZ 0 16) as Hin by (apply elem_of_seqZ; lia).
  clear Hd. revert d Hin. apply Forall_forall. by repeat constructor.
Qed.

Lemma digit_char_of base d :
  0 <= d < base -> base <= 16 -> is_digit_of base (digit_char d) = true.
Proof.
  intros Hd Hb. unfold is_digit_of. rewrite digit_value_char by lia. lia.
Qed.

(** The value of a list of digits. *)
Definition digits_value (base : Z) : cstr -> Z -> Z :=
  fun s acc => foldl (fun acc c => acc * base + default 0 (digit_value c)) acc s.

Lemma scan_digits_app base acc s rest :
  Forall (fun c => is_digit_of base c = true) s ->
  scan_digits base acc (s ++ rest) = scan_digits base (digits_value base s acc) rest.
Proof.
  intros H. revert acc. induction H as [|c s Hc _ IH]; intros acc; [done|].
  cbn [app scan_digits]. unfold is_digit_of in Hc. cbn.
  destruct (digit_value c) as [d|]; [|done]. rewrite Hc. apply IH.
Qed.

(** The scan stops at a character that is no digit, or at the end. *)
Definition stops (base : Z) (rest : cstr) : Prop :=
  match rest with [] => True | c :: _ => is_digit_of base c = false end.

Lemma scan_digits_stop base acc s rest :
  Forall (fun c => is_digit_of base c = true) s -> stops base rest ->
  scan_digits base acc (s ++ rest) = (digits_value base s acc, rest).
Proof.
  intros H Hr. rewrite scan_digits_app by done. destruct rest as [|c rest]; [done|].
  cbn in *. unfold is_digit_of in Hr. destruct (digit_value c); [|done].
  by rewrite Hr.
Qed.

Lemma length_digits base k n : length (digits base k n) = k.
Proof.
  revert n. induction k as [|k IH]; intros n; [done|]. cbn.
  rewrite length_app, IH. cbn. lia.
Qed.

Lemma digits_digits base k n :
  0 < base <= 16 -> Forall (fun c => is_digit_of base c = true) (digits base k n).
Proof.
  intros Hb. revert n. induction k as [|k IH]; intros n; cbn; [constructor|].
  apply Forall_app. split; [apply IH|]. constructor; [|constructor].
  apply digit_char_of; [apply Z.mod_pos_bound|]; lia.
Qed.

Lemma digits_value_app base s t acc :
  digits_value base (s ++ t) acc = digits_value base t (digits_value base s acc).
Proof. apply foldl_app. Qed.

Lemma digits_value_digits base k n acc :
  0 < base <= 16 -> 0 <= n ->
  digits_value base (digits base k n) acc
  = acc * base ^ Z.of_nat k + n mod base ^ Z.of_nat k.
Proof.
  intros Hb. revert n acc. induction k as [|k IH]; intros n acc Hn.
  { cbn. rewrite Z.mod_1_r. lia. }
  cbn [digits]. rewrite digits_value_app, IH by (apply Z.div_pos; lia).
  unfold digits_value. cbn [foldl].
  pose proof (Z.mod_pos_bound n base ltac:(lia)) as Hm.
  rewrite digit_value_char by lia. cbn.
  rewrite Nat2Z.inj_succ, Z.pow_succ_r by lia.
  rewrite Z.rem_mul_r by (try apply Z.pow_nonzero; lia).
  assert (0 < base ^ Z.of_nat k) by (apply Z.pow_pos_nonneg; lia). lia.
Qed.

Lemma strip_zeros_cons c s :
  s <> [] -> strip_zeros (c :: s) = if bool_decide (c = "0"%char) then strip_zeros s
                                    else c :: s.
Proof. by destruct s. Qed.

Lemma strip_zeros_value base s : digits_value base (strip_zeros s) 0 = digits_value base s 0.
Proof.
  induction s as [|c s IH]; [done|]. destruct s as [|d s]; [done|].
  rewrite strip_zeros_cons by done. case_bool_decide as Hc; [|done].
  rewrite IH, Hc. done.
Qed.

Lemma strip_zeros_suffix s : exists z, s = z ++ strip_zeros s.
Proof.
  induction s as [|c s [z IH]]; [by exists []|]. destruct s as [|d s]; [by exists []|].
  rewrite strip_zeros_cons by done. case_bool_decide; [|by exists []].
  exists (c :: z). cbn. by f_equal.
Qed.

Lemma strip_zeros_Forall (P : ascii -> Prop) s : Forall P s -> Forall P (strip_zeros s).
Proof.
  destruct (strip_zeros_suffix s) as [z Hz]. rewrite Hz at 1.
  rewrite Forall_app. by intros [_ ?].
Qed.

Lemma strip_zeros_length s : (length (strip_zeros s) <= length s)%nat.
Proof.
  destruct (strip_zeros_suffix s) as [z Hz]. rewrite Hz at 2. rewrite length_app. lia.
Qed.

Lemma strip_zeros_nonempty s : s <> [] -> strip_zeros s <> [].
Proof.
  induction s as [|c s IH]; [done|]. intros _. destruct s as [|d s]; [done|].
  rewrite strip_zeros_cons by done. case_bool_decide; [by apply IH|done].
Qed.

Lemma strip_zeros_replicate k s : s <> [] -> strip_zeros (replicate k "0"%char ++ s) = strip_zeros s.
Proof.
  intros Hs. induction k as [|k IH]; [done|]. cbn [replicate app].
  rewrite strip_zeros_cons by (destruct k; [done|discriminate]). by rewrite bool_decide_eq_true_2.
Qed.

(** *** A digit string scans to its value *)

Lemma digit_facts c :
  is_digit_of 16 c = true ->
  isspace c = false /\ c <> "-"%char /\ c <> "+"%char /\ c <> ":"%char /\
  c <> nul /\ c <> "x"%char /\ c <> "X"%char.
Proof.
  assert (forall c, implb (is_digit_of 16 c)
    (negb (isspace c) && bool_decide (c <> "-"%char) &&
     bool_decide (c <> "+"%char) && bool_decide (c <> ":"%char) &&
     bool_decide (c <> nul) && bool_decide (c <> "x"%char) &&
     bool_decide (c <> "X"%char)) = true) as H.
  { apply forall_ascii. vm_compute. reflexivity. }
  specialize (H c). intros Hd. rewrite Hd in H. cbn [implb] in H.
  repeat (apply andb_true_iff in H as [H ?]). reflect_bools. done.
Qed.

Lemma is_digit_of_16 base c :
  base <= 16 -> is_digit_of base c = true -> is_digit_of 16 c = true.
Proof. unfold is_digit_of. destruct (digit_value c); [lia|done]. Qed.

Lemma scan_0x_digits base c s rest :
  base <= 16 -> Forall (fun c => is_digit_of base c = true) s ->
  (base = 16 -> forall x r, rest = x :: r -> x <> "x"%char /\ x <> "X"%char) ->
  scan_0x base (c :: s ++ rest) = c :: s ++ rest.
Proof.
  intros Hb HF Hx. unfold scan_0x.
  destruct (s ++ rest) as [|x [|d r]] eqn:Es; [done..|].
  destruct (base =? 16) eqn:Eb; [|done]. reflect_bools.
  assert (x <> "x"%char /\ x <> "X"%char) as [? ?].
  { destruct s as [|x' s]; cbn in Es.
    - by apply (Hx Eb x (d :: r)).
    - injection Es as <- _. inv HF. apply is_digit_of_16 in H1; [|done].
      by apply digit_facts in H1 as (_ & _ & _ & _ & _ & ? & ?). }
  by rewrite !(bool_decide_eq_false_2 (x = _)), andb_false_r.
Qed.

Lemma scan_number_digits base s rest :
  0 < base <= 16 -> s <> [] -> Forall (fun c => is_digit_of base c = true) s ->
  stops base rest ->
  (base = 16 -> forall x r, rest = x :: r -> x <> "x"%char /\ x <> "X"%char) ->
  scan_number base (s ++ rest) = Some (false, digits_value base s 0, rest).
Proof.
  intros Hb Hne HF Hr Hx. destruct s as [|c s]; [done|].
  pose proof HF as HF'. inv HF'.
  destruct (digit_facts c) as (Hsp & Hm & Hp & _); [apply (is_digit_of_16 base); [lia|done]|].
  unfold scan_number. cbn [app skip_space]. rewrite Hsp. cbn [scan_sign].
  rewrite !bool_decide_eq_false_2 by done. cbn iota beta.
  rewrite scan_0x_digits, H1 by (done || lia).
  by rewrite app_comm_cons, scan_digits_stop.
Qed.

Lemma strtoull_digits base s rest :
  0 < base <= 16 -> s <> [] -> Forall (fun c => is_digit_of base c = true) s ->
  stops base rest ->
  (base = 16 -> forall x r, rest = x :: r -> x <> "x"%char /\ x <> "X"%char) ->
  digits_value base s 0 <= UINT64_MAX ->
  strtoull base (s ++ rest) = (digits_value base s 0, rest).
Proof.
  intros. unfold strtoull. rewrite scan_number_digits by done.
  rewrite Z.gtb_ltb, (proj2 (Z.ltb_ge _ _)) by done. done.
Qed.

(** *** Printed hexadecimal numbers *)

Lemma print_hex_digits n : Forall (fun c => is_digit_of 16 c = true) (print_hex n).
Proof. apply strip_zeros_Forall, digits_digits. lia. Qed.

Lemma print_hex_nonempty n : print_hex n <> [].
Proof.
  apply strip_zeros_nonempty. intros H. apply (f_equal length) in H.
  by rewrite length_digits in H.
Qed.

Lemma print_hex_length n : (0 < length (print_hex n) <= 16)%nat.
Proof.
  split.
  - pose proof (print_hex_nonempty n). destruct (print_hex n); [done|cbn; lia].
  - unfold print_hex. etrans; [apply strip_zeros_length|]. by rewrite length_digits.
Qed.

Lemma print_hex_value n :
  0 <= n <= UINT64_MAX -> digits_value 16 (print_hex n) 0 = n.
Proof.
  intros Hn. unfold print_hex. rewrite strip_zeros_value, digits_value_digits by lia.
  rewrite Z.mod_small; [lia|]. unfold UINT64_MAX in Hn.
  change (16 ^ Z.of_nat 16) with 18446744073709551616. lia.
Qed.

(** Printing a 64-bit number in hexadecimal and scanning it back. *)
Lemma strtoull_print_hex n rest :
  0 <= n <= UINT64_MAX -> (rest = [] \/ exists r, rest = ":"%char :: r) ->
  strtoull 16 (print_hex n ++ rest) = (n, rest).
Proof.
  intros Hn Hr. rewrite strtoull_digits; rewrite ?print_hex_value; try done.
  - apply print_hex_nonempty.
  - apply print_hex_digits.
  - destruct Hr as [->|[r ->]]; done.
  - intros _ x r ->. destruct Hr as [|[r' [= -> _]]]; done.
  - lia.
Qed.

Lemma digits_no_char k n c :
  is_digit_of 16 c = false -> c ∉ digits 16 k n.
Proof.
  intros Hc Hin. pose proof (digits_digits 16 k n ltac:(lia)) as HF.
  rewrite Forall_forall in HF. apply HF in Hin. congruence.
Qed.

Lemma print_hex_no_char n c : is_digit_of 16 c = false -> c ∉ print_hex n.
Proof.
  intros Hc Hin. pose proof (print_hex_digits n) as HF.
  rewrite Forall_forall in HF. apply HF in Hin. congruence.
Qed.

(** *** Printed decimal numbers *)

Lemma print_dec_digits n : 0 <= n -> Forall (fun c => is_digit_of 10 c = true) (print_dec n).
Proof.
  intros Hn. unfold print_dec. rewrite (proj2 (Z.ltb_ge _ _)) by done.
  apply strip_zeros_Forall, digits_digits. lia.
Qed.

Lemma print_dec_length n : 0 <= n -> (0 < length (print_dec n))%nat.
Proof.
  intros Hn. unfold print_dec. rewrite (proj2 (Z.ltb_ge _ _)) by done.
  destruct (strip_zeros _) eqn:E; [|cbn; lia].
  apply strip_zeros_nonempty in E; [done|]. intros H. apply (f_equal length) in H.
  by rewrite length_digits in H.
Qed.

Lemma print_dec_short n : 0 <= n -> (length (print_dec n) <= 10)%nat.
Proof.
  intros Hn. unfold print_dec. rewrite (proj2 (Z.ltb_ge _ _)) by lia.
  etrans; [apply strip_zeros_length|]. by rewrite length_digits.
Qed.

Lemma snprintf_fits size out : lenZ out < size -> snprintf size out = (lenZ out, Some out).
Proof.
  intros H. unfold snprintf. rewrite (proj2 (Z.leb_gt _ _)) by lia. by rewrite take_ge by lia.
Qed.

(** Printing a non-negative [int] and scanning it back. *)
Lemma strtol_print_dec n rest :
  0 <= n <= INT_MAX -> stops 10 rest -> strtol 10 (print_dec n ++ rest) = (n, rest).
Proof.
  intros Hn Hr. pose proof (print_dec_length n ltac:(lia)) as Hl.
  assert (digits_value 10 (print_dec n) 0 = n) as Hv.
  { unfold print_dec. rewrite (proj2 (Z.ltb_ge _ _)) by lia.
    rewrite strip_zeros_value, digits_value_digits by lia.
    rewrite Z.mod_small; [lia|]. unfold INT_MAX in Hn.
    change (10 ^ Z.of_nat 10) with 10000000000. lia. }
  unfold strtol. rewrite scan_number_digits;
    [|lia|intros E; rewrite E in Hl; cbn in Hl; lia|by apply print_dec_digits; lia|done|lia].
  rewrite Hv. f_equal. unfold LONG_MAX, INT_MAX in *. lia.
Qed.

(** A port number takes at most five characters. *)
Lemma print_port_length n : 0 <= n <= USHRT_MAX -> (length (print_dec n) <= 5)%nat.
Proof.
  intros Hn. unfold USHRT_MAX in Hn. unfold print_dec. rewrite (proj2 (Z.ltb_ge _ _)) by lia.
  assert (digits 10 10 n = replicate 5 "0"%char ++ digits 10 5 n) as ->.
  { cbn [digits]. rewrite !Z.div_div by lia. cbn [Z.mul Pos.mul Pos.add].
    rewrite !(Z.div_small n) by lia. by rewrite <- !(assoc_L (++)). }
  rewrite strip_zeros_replicate by (by intros H; apply (f_equal length) in H; rewrite length_digits in H).
  etrans; [apply strip_zeros_length|]. by rewrite length_digits.
Qed.

(** ** Tokens *)

Lemma skip_delims_id delim c s : c <> delim -> skip_delims delim (c :: s) = c :: s.
Proof. intros H. cbn. by rewrite bool_decide_eq_false_2. Qed.

Lemma split_token_app delim s t :
  delim ∉ s -> split_token delim (s ++ delim :: t) = (s, t).
Proof.
  induction s as [|c s IH]; intros Hn; cbn.
  - by rewrite bool_decide_eq_true_2.
  - apply not_elem_of_cons in Hn as [Hc Hn].
    rewrite bool_decide_eq_false_2 by done. by rewrite IH.
Qed.

Lemma split_token_all delim s : delim ∉ s -> split_token delim s = (s, []).
Proof.
  induction s as [|c s IH]; intros Hn; cbn; [done|].
  apply not_elem_of_cons in Hn as [Hc Hn].
  rewrite bool_decide_eq_false_2 by done. by rewrite IH.
Qed.

Lemma strtok_r_app delim s t :
  s <> [] -> delim ∉ s -> strtok_r delim (s ++ delim :: t) = Some (s, t).
Proof.
  intros Hne Hn. unfold strtok_r. destruct s as [|c s]; [done|].
  pose proof Hn as Hn'. apply not_elem_of_cons in Hn' as [Hc _].
  cbn [app]. rewrite skip_delims_id by done.
  by rewrite app_comm_cons, split_token_app.
Qed.

Lemma strtok_r_last delim s :
  s <> [] -> delim ∉ s -> strtok_r delim s = Some (s, []).
Proof.
  intros Hne Hn. unfold strtok_r. destruct s as [|c s]; [done|].
  pose proof Hn as Hn'. apply not_elem_of_cons in Hn' as [Hc _].
  rewrite skip_delims_id by done. by rewrite split_token_all.
Qed.

(** The tokens of a text are no longer than it, and never empty. *)
Lemma strtok_r_shorter delim s tok rest :
  strtok_r delim s = Some (tok, rest) -> (length rest < length s)%nat /\ tok <> [].
Proof.
  unfold strtok_r. assert (length (skip_delims delim s) <= length s)%nat as Hs.
  { induction s as [|c s IH]; cbn; [done|]. case_bool_decide; cbn; lia. }
  destruct (skip_delims delim s) as [|c t] eqn:E; [done|]. intros [= Ht].
  assert (c <> delim) as Hc.
  { clear -E. induction s as [|d s IH]; cbn in E; [done|].
    case_bool_decide; [auto|]. congruence. }
  cbn in Ht. rewrite bool_decide_eq_false_2 in Ht by done.
  assert (forall u, length (snd (split_token delim u)) <= length u)%nat as Hu.
  { intros u. induction u as [|d u IH]; cbn; [done|].
    case_bool_decide; cbn; [lia|]. destruct (split_token delim u); cbn in *; lia. }
  specialize (Hu t). destruct (split_token delim t) as [a b]. cbn in *.
  injection Ht as <- <-. split; [lia|done].
Qed.

Lemma strtok_r_length delim s tok rest :
  strtok_r delim s = Some (tok, rest) -> (length tok + length rest <= length s)%nat.
Proof.
  unfold strtok_r. assert (length (skip_delims delim s) <= length s)%nat as Hs.
  { induction s as [|c s IH]; cbn; [done|]. case_bool_decide; cbn; lia. }
  assert (forall u, length (split_token delim u).1 + length (split_token delim u).2
    <= length u)%nat as Hu.
  { intros u. induction u as [|d u IH]; cbn; [done|].
    case_bool_decide; cbn; [lia|]. destruct (split_token delim u); cbn in *; lia. }
  destruct (skip_delims delim s) as [|c t]; [done|]. intros Ht.
  assert (split_token delim (c :: t) = (tok, rest)) as Ht' by congruence.
  specialize (Hu (c :: t)). rewrite Ht' in Hu. cbn [fst snd] in Hu. lia.
Qed.

Lemma until_nul_id s : nul ∉ s -> until_nul s = s.
Proof.
  induction s as [|c s IH]; intros Hn; [done|]. cbn.
  apply not_elem_of_cons in Hn as [Hc Hn].
  rewrite bool_decide_eq_false_2 by done. by rewrite IH.
Qed.

Lemma until_nul_no_nul s : nul ∉ until_nul s.
Proof.
  induction s as [|c s IH]; cbn; [apply not_elem_of_nil|].
  case_bool_decide; [apply not_elem_of_nil|]. by apply not_elem_of_cons.
Qed.
