(* ===== verification/Alloc.v ===== *)
(** * Blocks of memory (alloc.c)

    alloc.c with the blocks themselves: addresses, sizes and contents, freeing,
    reallocating, and the two allocators a process can switch between. Machine
    keeps of this only whether a request is granted, which is all the rest of
    the client depends on; the theorems relate the two. *)
From S2P Require Import Prelude Machine CString.

(** ** Definitions *)

(** [None] is NULL. A byte that has not been written is [None]. *)
Abbreviation pointer := (option nat).
Abbreviation block := (list (option Z)).

Record heap := Heap {
  blocks : gmap nat block;       (* what the C library has handed out *)
  next_block : nat;
}.

Definition heap_init : heap := Heap ∅ 0.

Section Operations.
Context {env : Env}.

(** *** The C library *)

Definition new_block (b : block) (h : heap) : pointer * heap :=
  (Some (next_block h), Heap (<[next_block h := b]> (blocks h)) (S (next_block h))).

Definition malloc (sz : nat) (h : heap) : M (pointer * heap) :=
  granted ← Machine.built_in_malloc;
  if (granted : bool) then ret (new_block (replicate sz None) h) else ret (None, h).

(** A block that is not allocated cannot be freed or reallocated. *)
Definition realloc (ptr : pointer) (sz : nat) (h : heap) : M (pointer * heap) :=
  match ptr with
  | None => malloc sz h
  | Some p =>
      match blocks h !! p with
      | None => fail UseAfterFree
      | Some b =>
          granted ← Machine.built_in_realloc;
          if (granted : bool) then
            ret (new_block (take sz b ++ replicate (sz - length b) None)
                   (Heap (delete p (blocks h)) (next_block h)))
          else ret (None, h)
      end
  end.

Definition free (ptr : pointer) (h : heap) : M heap :=
  match ptr with
  | None => ret h
  | Some p =>
      match blocks h !! p with
      | None => fail DoubleFree
      | Some _ => ret (Heap (delete p (blocks h)) (next_block h))
      end
  end.

(** *** The allocators *)

Definition built_in_malloc (sz : nat) (h : heap) : M (pointer * heap) := malloc sz h.
Definition built_in_realloc (ptr : pointer) (sz : nat) (h : heap) : M (pointer * heap) :=
  realloc ptr sz h.
Definition built_in_free (ptr : pointer) (h : heap) : M heap := free ptr h.

Definition null_malloc (size : nat) (h : heap) : M (pointer * heap) := ret (None, h).
Definition null_realloc (ptr : pointer) (size : nat) (h : heap) : M (pointer * heap) :=
  ret (None, h).
Definition null_free (ptr : pointer) (h : heap) : M heap := ret h.

Definition jaeger_built_in_allocator : jaeger_allocator := built_in_alloc.
Definition jaeger_null_allocator : jaeger_allocator := null_alloc.

(** *** What the client calls: the allocator of the moment decides *)

Definition jaeger_malloc (sz : nat) (h : heap) : M (pointer * heap) :=
  alloc ← jaeger_get_allocator;
  match alloc with
  | built_in_alloc => built_in_malloc sz h
  | null_alloc => null_malloc sz h
  end.

Definition jaeger_realloc (ptr : pointer) (sz : nat) (h : heap) : M (pointer * heap) :=
  alloc ← jaeger_get_allocator;
  match alloc with
  | built_in_alloc => built_in_realloc ptr sz h
  | null_alloc => null_realloc ptr sz h
  end.

Definition jaeger_free (ptr : pointer) (h : heap) : M heap :=
  alloc ← jaeger_get_allocator;
  match alloc with
  | built_in_alloc => built_in_free ptr h
  | null_alloc => null_free ptr h
  end.

(** A string in memory, with its NUL. *)
Definition c_string (s : cstr) : block := map (fun c => Some (code c)) s ++ [Some 0].

(** [memcpy] of a string into a block that has room for it. *)
Definition write_string (p : nat) (s : cstr) (h : heap) : heap :=
  Heap (<[p := c_string s]> (blocks h)) (next_block h).

Definition jaeger_strdup (str : cstr) (h : heap) : M (pointer * heap) :=
  size ← int_chk (strlen str + 1);
  ' (copy, h) ← jaeger_malloc (Z.to_nat size) h;
  match copy with
  | None => ret (None, h)
  | Some p => ret (Some p, write_string p str h)
  end.
End Operations.

(** ** Lemmas *)

(** Block numbers from [next_block] on have not been handed out. *)
Definition fresh (h : heap) : Prop := forall p, (next_block h <= p)%nat -> blocks h !! p = None.

Lemma fresh_init : fresh heap_init.
Proof. intros p _. apply lookup_empty. Qed.

Lemma fresh_new b h : fresh h -> fresh (new_block b h).2.
Proof.
  intros Hf p Hp. cbn in *. rewrite lookup_insert_ne by lia. apply Hf. lia.
Qed.

Lemma fresh_delete p h : fresh h -> fresh (Heap (delete p (blocks h)) (next_block h)).
Proof. intros Hf q Hq. cbn. apply lookup_delete_None. right. by apply Hf. Qed.

Lemma malloc_cases {env : Env} sz h w :
  exists granted w', Machine.jaeger_malloc w = Ok granted w' /\ w_allocator w' = w_allocator w /\
    jaeger_malloc sz h w =
    Ok (if (granted : bool) then new_block (replicate sz None) h else (None, h)) w'.
Proof.
  unfold jaeger_malloc, Machine.jaeger_malloc, built_in_malloc, malloc, null_malloc,
    Machine.built_in_malloc, Machine.null_malloc, jaeger_get_allocator, get_world, bind, ret.
  destruct (w_allocator w) eqn:E; cbn; [|by eexists false, w].
  eexists _, _. split_and!; [done..|]. by destruct (sys_malloc_ok (w_allocs w)).
Qed.

(** ** Properties *)

(** A block that [jaeger_malloc] returns has the size asked for, is distinct
    from every block in use, and leaves those as they were; a request that is
    refused changes nothing. The rest of the development's [jaeger_malloc] says
    which of the two happens. *)
Theorem jaeger_malloc_spec (env : Env) sz h w :
  fresh h ->
  exists granted ptr h' w', Machine.jaeger_malloc w = Ok granted w' /\
    jaeger_malloc sz h w = Ok (ptr, h') w' /\ fresh h' /\
    if granted then exists p, ptr = Some p /\ blocks h !! p = None /\
                              blocks h' = <[p := replicate sz None]> (blocks h)
    else ptr = None /\ h' = h.
Proof.
  intros Hf. destruct (malloc_cases sz h w) as (granted & w' & Hm & _ & Ha).
  exists granted. destruct granted; cbn in Ha; eexists _, _, w'; (split_and!; [done..| |]);
    [by apply fresh_new| |done|done].
  exists (next_block h). split_and!; [done| |done]. apply Hf. lia.
Qed.

(** Freeing a block releases that block alone, and freeing it again is a fault;
    NULL may be freed. *)
Theorem jaeger_free_spec (env : Env) p b h w :
  w_allocator w = built_in_alloc -> blocks h !! p = Some b ->
  jaeger_free None h w = Ok h w /\
  exists h', jaeger_free (Some p) h w = Ok h' w /\ blocks h' = delete p (blocks h) /\
    jaeger_free (Some p) h' w = Fault DoubleFree.
Proof.
  intros Hw Hb. unfold jaeger_free, jaeger_get_allocator, get_world, built_in_free, free, bind, ret.
  rewrite Hw, Hb. split; [done|]. eexists. split_and!; [done..|]. cbn.
  by rewrite lookup_delete_eq.
Qed.

(** A block that has been reallocated keeps its bytes up to the smaller of the
    two sizes, and the old block is gone; if the request is refused the old
    block is as it was, and still the caller's. *)
Theorem jaeger_realloc_spec (env : Env) p b sz h w :
  fresh h -> w_allocator w = built_in_alloc -> blocks h !! p = Some b ->
  exists granted w', Machine.jaeger_realloc w = Ok granted w' /\
    if granted then
      exists q h', jaeger_realloc (Some p) sz h w = Ok (Some q, h') w' /\
        blocks h !! q = None /\ blocks h' !! p = None /\
        exists b', blocks h' !! q = Some b' /\ length b' = sz /\ take (length b) b' = take sz b
    else jaeger_realloc (Some p) sz h w = Ok (None, h) w'.
Proof.
  intros Hf Hw Hb.
  unfold Machine.jaeger_realloc, jaeger_realloc, jaeger_get_allocator, get_world, built_in_realloc,
    realloc, Machine.built_in_realloc, Machine.built_in_malloc, bind, ret.
  rewrite Hw, Hb. cbn. eexists _, _. split; [done|].
  destruct (sys_malloc_ok (w_allocs w)); [|done]. eexists _, _. split; [done|]. cbn.
  assert (blocks h !! next_block h = None) as Hn by (apply Hf; lia).
  assert (next_block h <> p) by congruence.
  split_and!; [done|by rewrite lookup_insert_ne, lookup_delete_eq|].
  eexists. split; [apply lookup_insert_eq|].
  rewrite length_app, length_take, length_replicate. split; [lia|].
  destruct (decide (sz <= length b)%nat) as [Hle|Hgt].
  - replace (sz - length b)%nat with 0%nat by lia. rewrite app_nil_r, take_take. f_equal. lia.
  - rewrite (take_ge b) by lia. by rewrite take_app_length.
Qed.

(** A copied string is a new block that holds the string and its NUL; the rest
    of the development's [jaeger_strdup] returns that string. *)
Theorem jaeger_strdup_spec (env : Env) str h w :
  fresh h -> short str ->
  exists copy w', Machine.jaeger_strdup str w = Ok copy w' /\
    match copy with
    | Some s => s = str /\ exists p h', jaeger_strdup str h w = Ok (Some p, h') w' /\
        blocks h !! p = None /\ blocks h' = <[p := c_string str]> (blocks h)
    | None => jaeger_strdup str h w = Ok (None, h) w'
    end.
Proof.
  intros Hf Hs. unfold Machine.jaeger_strdup, jaeger_strdup, strlen, short, bind in *.
  assert (forall w, int_chk (lenZ str + 1) w = Ok (lenZ str + 1) w) as Hc.
  { intros w1. unfold int_chk. unfold INT_MIN, INT_MAX in *.
    by rewrite (proj2 (Z.leb_le _ _)), (proj2 (Z.leb_le _ _)) by lia. }
  rewrite Hc. destruct (malloc_cases (Z.to_nat (lenZ str + 1)) h w) as (granted & w' & -> & _ & ->).
  destruct granted; [|by exists None, w'].
  exists (Some str), w'. split; [done|]. split; [done|].
  eexists _, _. split; [done|]. cbn. split; [apply Hf; lia|]. by rewrite insert_insert_eq.
Qed.

(** A block is freed through the allocator of the moment, not through the one
    it came from: after a switch to the null allocator, freeing it does nothing
    and it is never released. *)
Theorem free_after_switch_leaks (env : Env) ptr h w :
  (jaeger_set_allocator jaeger_null_allocator;; jaeger_free ptr h) w
  = Ok h (set_allocator null_alloc w).
Proof. done. Qed.

(** A copy made, freed, and freed again. *)
Example copy_freed_twice :
  (' (p, h) ← @jaeger_strdup sample_env (lit "op") heap_init;
   h ← @jaeger_free p h; @jaeger_free p h) initial_world = Fault DoubleFree.
Proof. vm_compute. reflexivity. Qed.

Lemma jaeger_strdup_spec_witness :
  exists copy w', @Machine.jaeger_strdup sample_env (lit "op") initial_world = Ok copy w' /\
    match copy with
    | Some s => s = lit "op" /\ exists p h',
        @jaeger_strdup sample_env (lit "op") heap_init initial_world = Ok (Some p, h') w' /\
        blocks heap_init !! p = None /\ blocks h' = <[p := c_string (lit "op")]> (blocks heap_init)
    | None => @jaeger_strdup sample_env (lit "op") heap_init initial_world = Ok (None, heap_init) w'
    end.
Proof. apply (jaeger_strdup_spec sample_env); [apply fresh_init|reflexivity]. Defined.
