(* ===== verification/Siphash.v ===== *)
(** * SipHash (siphash.c)

    The hash of the hash table's keys, on lists of bytes: the code's
    definitions with every 64-bit wrap-around, and their equivalence with
    SipHash-2-4 as its authors define it (pad the message to whole words with
    its length in the last byte, absorb every word, finalise). *)
From S2P Require Import Prelude Machine CString.

(** ** Definitions *)

(** The [i]-th byte of a buffer; the code never reads past [size]. *)
Definition byte_at (buffer : list Z) (i : nat) : Z := default 0 (buffer !! i).

Definition C_ROUNDS : nat := 2.
Definition D_ROUNDS : nat := 4.

Definition unpack64 (buffer : list Z) : Z :=
  Z.lor (Z.lor (Z.lor (Z.lor (Z.lor (Z.lor (Z.lor
    (byte_at buffer 0) (Z.shiftl (byte_at buffer 1) 8))
    (Z.shiftl (byte_at buffer 2) 16)) (Z.shiftl (byte_at buffer 3) 24))
    (Z.shiftl (byte_at buffer 4) 32)) (Z.shiftl (byte_at buffer 5) 40))
    (Z.shiftl (byte_at buffer 6) 48)) (Z.shiftl (byte_at buffer 7) 56).

Definition rotl (x b : Z) : Z := Z.lor (u64 (Z.shiftl x b)) (Z.shiftr x (64 - b)).

(** The four words [v[4]]. *)
Record sip_state := Sip { v0 : Z; v1 : Z; v2 : Z; v3 : Z }.

Definition sipround (v : sip_state) : sip_state :=
  let '(Sip a b c d) := v in
  let a := u64 (a + b) in
  let b := rotl b 13 in
  let b := Z.lxor b a in
  let a := rotl a 32 in
  let c := u64 (c + d) in
  let d := rotl d 16 in
  let d := Z.lxor d c in
  let a := u64 (a + d) in
  let d := rotl d 21 in
  let d := Z.lxor d a in
  let c := u64 (c + b) in
  let b := rotl b 17 in
  let b := Z.lxor b c in
  let c := rotl c 32 in
  Sip a b c d.

(** [v[3] ^= m; C_ROUNDS rounds; v[0] ^= m]: the body of the loop, and the
    same statements on [b] after the switch. *)
Definition sip_compress (v : sip_state) (m : Z) : sip_state :=
  let v := Sip (v0 v) (v1 v) (v2 v) (Z.lxor (v3 v) m) in
  let v := Nat.iter C_ROUNDS sipround v in
  Sip (Z.lxor (v0 v) m) (v1 v) (v2 v) (v3 v).

(** The loop over the whole words: [iter != end]. *)
Fixpoint sip_words (fuel : nat) (iter : list Z) (v : sip_state) : sip_state :=
  match fuel with
  | O => v
  | S fuel =>
      let m := unpack64 (take 8 iter) in
      sip_words fuel (drop 8 iter) (sip_compress v m)
  end.

(** [b |= iter[i] << 8 * i] for the [num_left] last bytes, from the last one
    down: the fall-through of the switch. *)
Fixpoint sip_tail (num_left : nat) (iter : list Z) (b : Z) : Z :=
  match num_left with
  | O => b
  | S i => sip_tail i iter (Z.lor b (Z.shiftl (byte_at iter i) (8 * Z.of_nat i)))
  end.

(** [v[2] ^= 0xff; D_ROUNDS rounds] and the exclusive or of the words. *)
Definition sip_finish (v : sip_state) : Z :=
  let v := Sip (v0 v) (v1 v) (Z.lxor (v2 v) 0xff) (v3 v) in
  let v := Nat.iter D_ROUNDS sipround v in
  Z.lxor (Z.lxor (Z.lxor (v0 v) (v1 v)) (v2 v)) (v3 v).

Definition jaeger_siphash (buffer seed : list Z) : Z :=
  let size := lenZ buffer in
  let k0 := unpack64 (take 8 seed) in
  let k1 := unpack64 (drop 8 seed) in
  let num_left := Z.to_nat (Z.land size 7) in
  let num_words := Z.to_nat ((size - size mod 8) / 8) in
  let b := u64 (Z.shiftl size 56) in
  let v := Sip (Z.lxor 0x736f6d6570736575 k0) (Z.lxor 0x646f72616e646f6d k1)
               (Z.lxor 0x6c7967656e657261 k0) (Z.lxor 0x7465646279746573 k1) in
  let v := sip_words num_words buffer v in
  let iter := drop (8 * num_words) buffer in
  let b := sip_tail num_left iter b in
  sip_finish (sip_compress v b).

(** *** SipHash-2-4, as specified

    Aumasson and Bernstein, "SipHash: a fast short-input PRF", section 2,
    written with numbers and the text of the constants, on nothing of the
    code's above. *)

(** A little-endian number. *)
Fixpoint le_value (bs : list Z) : Z :=
  match bs with
  | [] => 0
  | b :: bs => b + 256 * le_value bs
  end.

(** The message followed by zeros up to the last byte of a word, which is the
    length modulo 256. *)
Definition sip_pad (msg : list Z) : list Z :=
  msg ++ replicate (7 - length msg mod 8) 0 ++ [lenZ msg mod 256].

Fixpoint words (n : nat) (bs : list Z) : list Z :=
  match n with
  | O => []
  | S n => le_value (take 8 bs) :: words n (drop 8 bs)
  end.

(** Addition and rotation of words of 64 bits. *)
Definition word_add (x y : Z) : Z := (x + y) mod 2 ^ 64.
Definition word_rol (n x : Z) : Z := Z.lor ((x * 2 ^ n) mod 2 ^ 64) (x / 2 ^ (64 - n)).

Definition sip_words_state : Type := Z * Z * Z * Z.

(** SipRound: two layers, each two additions, two rotations and exclusive ors,
    and a rotation by half a word (figure 2.1). *)
Definition SipRound (v : sip_words_state) : sip_words_state :=
  let '(v0, v1, v2, v3) := v in
  let v0 := word_add v0 v1 in
  let v2 := word_add v2 v3 in
  let v1 := Z.lxor (word_rol 13 v1) v0 in
  let v3 := Z.lxor (word_rol 16 v3) v2 in
  let v0 := word_rol 32 v0 in
  let v2 := word_add v2 v1 in
  let v0 := word_add v0 v3 in
  let v1 := Z.lxor (word_rol 17 v1) v2 in
  let v3 := Z.lxor (word_rol 21 v3) v0 in
  (v0, v1, word_rol 32 v2, v3).

(** The constants: "somepseudorandomlygeneratedbytes", eight letters a word,
    the first letter on top. *)
Definition sip_constant (letters : cstr) : Z := le_value (rev (map code letters)).

Definition sip_initial (k0 k1 : Z) : sip_words_state :=
  (Z.lxor k0 (sip_constant (lit "somepseu")), Z.lxor k1 (sip_constant (lit "dorandom")),
   Z.lxor k0 (sip_constant (lit "lygenera")), Z.lxor k1 (sip_constant (lit "tedbytes"))).

(** A word of the message, between two rounds. *)
Definition sip_absorb (v : sip_words_state) (m : Z) : sip_words_state :=
  let '(v0, v1, v2, v3) := v in
  let '(v0, v1, v2, v3) := SipRound (SipRound (v0, v1, v2, Z.lxor v3 m)) in
  (Z.lxor v0 m, v1, v2, v3).

Definition sip_final (v : sip_words_state) : Z :=
  let '(v0, v1, v2, v3) := v in
  let '(v0, v1, v2, v3) :=
    SipRound (SipRound (SipRound (SipRound (v0, v1, Z.lxor v2 0xff, v3)))) in
  Z.lxor (Z.lxor (Z.lxor v0 v1) v2) v3.

Definition siphash_2_4 (msg key : list Z) : Z :=
  let k0 := le_value (take 8 key) in
  let k1 := le_value (take 8 (drop 8 key)) in
  sip_final (foldl sip_absorb (sip_initial k0 k1) (words (S (length msg / 8)) (sip_pad msg))).

Definition is_byte (b : Z) : Prop := 0 <= b < 256.

(** ** Lemmas *)

Example siphash_test :
  jaeger_siphash (map code (lit "test")) (replicate 16 0) = 0x3d5124c4cd58914e.
Proof. vm_compute. reflexivity. Qed.

Example siphash_12341234 :
  jaeger_siphash (map code (lit "12341234")) (replicate 16 0) = 0x47a9ed4e01555590.
Proof. vm_compute. reflexivity. Qed.

(** The vectors of the authors' reference implementation: messages of 0, 1, 8
    and 15 bytes that count from 0, under the key that counts from 0. *)
Example siphash_vectors :
  map (fun n => siphash_2_4 (seqZ 0 n) (seqZ 0 16)) [0; 1; 8; 15]
  = [0x726fdb47dd0e0e31; 0x74f839c593dc67fd; 0x93f5f5799a932462; 0xa129ca6149be45e5].
Proof. vm_compute. reflexivity. Qed.

Lemma lor_shiftl_add a b n :
  0 <= n -> 0 <= a < 2 ^ n -> 0 <= b -> Z.lor a (Z.shiftl b n) = a + b * 2 ^ n.
Proof.
  intros Hn Ha Hb. rewrite Z.shiftl_mul_pow2 by done.
  pose proof (Z.add_lor_land a (b * 2 ^ n)) as Hadd.
  assert (Z.land a (b * 2 ^ n) = 0) as Hland; [|lia].
  apply Z.bits_inj'. intros i Hi. rewrite Z.land_spec, Z.bits_0.
  destruct (decide (i < n)).
  - rewrite <- Z.shiftl_mul_pow2, Z.shiftl_spec_low by lia. apply andb_false_r.
  - destruct (decide (a = 0)) as [->|]; [by rewrite Z.bits_0|].
    rewrite (Z.bits_above_log2 a i); [done|lia|].
    apply Z.log2_lt_pow2; [lia|].
    assert (2 ^ n <= 2 ^ i) by (apply Z.pow_le_mono_r; lia). lia.
Qed.

Lemma le_value_app xs ys :
  le_value (xs ++ ys) = le_value xs + 2 ^ (8 * lenZ xs) * le_value ys.
Proof.
  induction xs as [|x xs IH]; [cbn; lia|].
  cbn [app le_value]. rewrite IH. cbn [length].
  replace (8 * Z.of_nat (S (length xs))) with (8 + 8 * lenZ xs) by lia.
  rewrite Z.pow_add_r by lia. change (2 ^ 8) with 256. lia.
Qed.

Lemma le_value_range xs : Forall is_byte xs -> 0 <= le_value xs < 2 ^ (8 * lenZ xs).
Proof.
  induction 1 as [|x xs Hx _ IH]; [cbn; lia|]. unfold is_byte in Hx.
  cbn [le_value length]. replace (8 * Z.of_nat (S (length xs))) with (8 + 8 * lenZ xs) by lia.
  rewrite Z.pow_add_r by lia. change (2 ^ 8) with 256. lia.
Qed.

Lemma le_value_zeros n : le_value (replicate n 0) = 0.
Proof. induction n as [|n IH]; [done|]. cbn [replicate le_value]. lia. Qed.

Lemma byte_at_cons b bs i : byte_at (b :: bs) (S i) = byte_at bs i.
Proof. done. Qed.

Lemma byte_at_range bs i : Forall is_byte bs -> is_byte (byte_at bs i).
Proof.
  intros H. unfold byte_at. destruct (bs !! i) as [b|] eqn:E; cbn; [|unfold is_byte; lia].
  by eapply Forall_lookup_1 in E.
Qed.

(** A word of eight bytes. *)
Lemma unpack64_value bs :
  Forall is_byte bs -> length bs = 8%nat -> unpack64 bs = le_value bs.
Proof.
  intros HF Hl. destruct bs as [|a [|b [|c [|d [|e [|f [|g [|h [|]]]]]]]]]; try done.
  unfold unpack64, byte_at. cbn [lookup list_lookup default].
  repeat match goal with H : Forall _ (_ :: _) |- _ => inv H end. unfold is_byte in *.
  change (default 0 (Some ?x)) with x.
  rewrite (lor_shiftl_add a b), (lor_shiftl_add _ c), (lor_shiftl_add _ d),
    (lor_shiftl_add _ e), (lor_shiftl_add _ f), (lor_shiftl_add _ g),
    (lor_shiftl_add _ h) by lia.
  cbn [le_value]. lia.
Qed.

Lemma take8_word bs n :
  Forall is_byte bs -> (8 * S n <= length bs)%nat ->
  unpack64 (take 8 bs) = le_value (take 8 bs).
Proof.
  intros HF Hl. apply unpack64_value; [by apply Forall_take|]. lists.
Qed.

Lemma iter_rounds {A} (f : A -> A) x :
  Nat.iter C_ROUNDS f x = f (f x) /\ Nat.iter D_ROUNDS f x = f (f (f (f x))).
Proof. done. Qed.

(** The code's state as the specification's. *)
Definition state_words (v : sip_state) : sip_words_state := (v0 v, v1 v, v2 v, v3 v).

Lemma rotl_rol x n : 0 <= n <= 64 -> rotl x n = word_rol n x.
Proof.
  intros Hn. unfold rotl, word_rol, wrap. by rewrite Z.shiftl_mul_pow2, Z.shiftr_div_pow2 by lia.
Qed.

Lemma sipround_SipRound v : state_words (sipround v) = SipRound (state_words v).
Proof. destruct v as [a b c d]. unfold sipround. by rewrite !rotl_rol by lia. Qed.

Lemma sip_compress_absorb v m : state_words (sip_compress v m) = sip_absorb (state_words v) m.
Proof.
  unfold sip_absorb. cbn [state_words].
  change (v0 v, v1 v, v2 v, Z.lxor (v3 v) m)
    with (state_words (Sip (v0 v) (v1 v) (v2 v) (Z.lxor (v3 v) m))).
  rewrite <- !sipround_SipRound. unfold sip_compress. rewrite (proj1 (iter_rounds _ _)).
  by destruct (sipround _).
Qed.

Lemma sip_finish_final v : sip_finish v = sip_final (state_words v).
Proof.
  unfold sip_final. cbn [state_words].
  change (v0 v, v1 v, Z.lxor (v2 v) 0xff, v3 v)
    with (state_words (Sip (v0 v) (v1 v) (Z.lxor (v2 v) 0xff) (v3 v))).
  rewrite <- !sipround_SipRound. unfold sip_finish. rewrite (proj2 (iter_rounds _ _)).
  by destruct (sipround _).
Qed.

Lemma sip_words_absorb n bs rest v :
  Forall is_byte bs -> length bs = (8 * n)%nat ->
  state_words (sip_words n (bs ++ rest) v) = foldl sip_absorb (state_words v) (words n bs).
Proof.
  revert bs v. induction n as [|n IH]; intros bs v HF Hl; [done|].
  cbn [sip_words words foldl].
  rewrite take_app_le, drop_app_le by lia.
  rewrite (take8_word bs n) by (done || lia).
  rewrite IH, sip_compress_absorb; [done|by apply Forall_drop|lists].
Qed.

Lemma words_app n m bs rest :
  length bs = (8 * n)%nat -> words (n + m) (bs ++ rest) = words n bs ++ words m rest.
Proof.
  revert bs. induction n as [|n IH]; intros bs Hl.
  - by destruct bs.
  - cbn [Nat.add words app]. rewrite take_app_le, drop_app_le by lia. f_equal.
    apply IH. lists.
Qed.

(** The tail word: the bytes left, below the length byte. *)
Lemma sip_tail_value k iter b0 :
  Forall is_byte iter -> (k <= length iter)%nat -> (k <= 7)%nat -> 0 <= b0 ->
  b0 mod 2 ^ (8 * Z.of_nat k) = 0 ->
  sip_tail k iter b0 = b0 + le_value (take k iter).
Proof.
  revert b0. induction k as [|k IH]; intros b0 HF Hk H7 Hb Hm.
  { rewrite take_0. clear. cbn. lia. }
  pose proof (byte_at_range iter k HF) as Hbyte. unfold is_byte in Hbyte.
  cbn [sip_tail].
  assert (exists x, iter !! k = Some x) as [x Hx] by (apply lookup_lt_is_Some_2; lia).
  assert (byte_at iter k = x) as Hbx by (unfold byte_at; by rewrite Hx).
  rewrite Hbx in *.
  assert (b0 = b0 / 2 ^ (8 * Z.of_nat (S k)) * 2 ^ (8 * Z.of_nat (S k))) as Hdiv.
  { pose proof (Z.div_mod b0 (2 ^ (8 * Z.of_nat (S k))) ltac:(apply Z.pow_nonzero; lia)). lia. }
  assert (2 ^ (8 * Z.of_nat (S k)) = 256 * 2 ^ (8 * Z.of_nat k)) as Hpow.
  { replace (8 * Z.of_nat (S k)) with (8 + 8 * Z.of_nat k) by lia.
    rewrite Z.pow_add_r by lia. done. }
  assert (0 < 2 ^ (8 * Z.of_nat k)) by (apply Z.pow_pos_nonneg; lia).
  set (q := b0 / 2 ^ (8 * Z.of_nat (S k))) in *.
  assert (0 <= q) by (subst q; apply Z.div_pos; lia).
  assert (Z.lor b0 (Z.shiftl x (8 * Z.of_nat k)) = (q * 256 + x) * 2 ^ (8 * Z.of_nat k)) as ->.
  { rewrite Z.lor_comm.
    replace b0 with (Z.shiftl q (8 * Z.of_nat (S k))) by (rewrite Z.shiftl_mul_pow2; lia).
    rewrite lor_shiftl_add; [| lia | rewrite Z.shiftl_mul_pow2 by lia; nia | done].
    rewrite Z.shiftl_mul_pow2 by lia. rewrite Hpow. lia. }
  rewrite IH; [|done|lia|lia|nia|apply Z.mod_mul; lia].
  rewrite (take_S_snoc _ _ _ Hx), le_value_app. cbn [le_value].
  rewrite length_take, Nat.min_l by lia. rewrite Hpow in Hdiv. lia.
Qed.

Lemma land_7 n : 0 <= n -> Z.land n 7 = n mod 8.
Proof. intros. change 7 with (Z.ones 3). by rewrite Z.land_ones by lia. Qed.

(** The last word the code builds is the last word of the padded message. *)
Lemma last_word (msg : list Z) n tail :
  Forall is_byte tail -> (length tail = length msg mod 8)%nat -> n = lenZ msg ->
  sip_tail (length tail) tail (u64 (Z.shiftl n 56))
  = le_value (tail ++ replicate (7 - length tail) 0 ++ [n mod 256]).
Proof.
  intros HF Hl ->. assert (length tail < 8)%nat by (rewrite Hl; apply Nat.mod_upper_bound; lia).
  assert (u64 (Z.shiftl (lenZ msg) 56) = 2 ^ 56 * (lenZ msg mod 256)) as ->.
  { rewrite Z.shiftl_mul_pow2 by lia. unfold wrap. change (2 ^ 64) with (2 ^ 56 * 256).
    rewrite (Z.mul_comm (lenZ msg)), Z.mul_mod_distr_l by lia. done. }
  pose proof (Z.mod_pos_bound (lenZ msg) 256 ltac:(lia)) as Hr.
  rewrite sip_tail_value; [|done|lia|lia|lia|].
  - rewrite take_ge by lia. rewrite !le_value_app, le_value_zeros, length_replicate.
    cbn [le_value].
    replace (2 ^ 56) with (2 ^ (8 * lenZ tail) * 2 ^ (8 * Z.of_nat (7 - length tail))); [lia|].
    rewrite <- Z.pow_add_r by lia. f_equal. lia.
  - replace (2 ^ 56) with (2 ^ (56 - 8 * lenZ tail) * 2 ^ (8 * lenZ tail)).
    + rewrite <- Z.mul_assoc, (Z.mul_comm (2 ^ (8 * lenZ tail))), Z.mul_assoc.
      apply Z.mod_mul. apply Z.pow_nonzero; lia.
    + rewrite <- Z.pow_add_r by lia. f_equal. lia.
Qed.

(** ** Properties *)

(** C40: The optimised hash of siphash.c (words read in place, the last bytes
    gathered by a fall-through switch) is SipHash-2-4 of the message under the
    seed, for every message and every 16-byte seed: the rounds, the constants,
    the padding and the numbers of rounds are the paper's, written apart from
    the code. *)
Theorem jaeger_siphash_equiv msg key :
  Forall is_byte msg -> Forall is_byte key -> length key = 16%nat ->
  jaeger_siphash msg key = siphash_2_4 msg key.
Proof.
  intros Hm Hk Hl. unfold jaeger_siphash, siphash_2_4.
  set (q := (length msg / 8)%nat). set (r := (length msg mod 8)%nat).
  pose proof (Nat.div_mod (length msg) 8 ltac:(lia)) as Hqr. fold q r in Hqr.
  assert (r < 8)%nat by (apply Nat.mod_upper_bound; lia).
  assert (lenZ msg mod 8 = Z.of_nat r) as Hmod by (subst r; by rewrite Nat2Z.inj_mod).
  assert (Z.to_nat (Z.land (lenZ msg) 7) = r) as -> by (rewrite land_7; lia).
  assert (Z.to_nat ((lenZ msg - lenZ msg mod 8) / 8) = q) as ->.
  { rewrite Hmod. replace (lenZ msg - Z.of_nat r) with (Z.of_nat q * 8) by lia.
    rewrite Z.div_mul; lia. }
  rewrite (unpack64_value (take 8 key)), (unpack64_value (drop 8 key))
    by (try apply Forall_take; try apply Forall_drop; try done; lists).
  rewrite (take_ge (drop 8 key)) by lists.
  set (body := take (8 * q) msg). set (tail := drop (8 * q) msg).
  assert (length body = 8 * q)%nat by (subst body; lists).
  assert (length tail = r) as Htail by (subst tail; lists).
  assert (msg = body ++ tail) as Hmsg by (symmetry; apply take_drop).
  assert (Forall is_byte body /\ Forall is_byte tail) as [Hb Ht]
    by (split; [by apply Forall_take|by apply Forall_drop]).
  assert (sip_tail r tail (u64 (Z.shiftl (lenZ msg) 56))
    = le_value (tail ++ replicate (7 - r) 0 ++ [lenZ msg mod 256])) as ->.
  { rewrite <- Htail. apply (last_word msg); [done|lia|done]. }
  assert (forall v, state_words (sip_words q msg v) = foldl sip_absorb (state_words v) (words q body)) as Hw.
  { intros v. rewrite Hmsg. by apply sip_words_absorb. }
  assert (sip_pad msg = body ++ (tail ++ replicate (7 - r) 0 ++ [lenZ msg mod 256])) as ->.
  { unfold sip_pad. fold r. rewrite Hmsg at 1. by rewrite <- app_assoc. }
  replace (S q) with (q + 1)%nat by lia. rewrite words_app by done. rewrite foldl_app. cbn [words foldl].
  rewrite (take_ge (tail ++ _))
    by (rewrite !length_app, length_replicate, Htail; cbn; lia).
  rewrite sip_finish_final, sip_compress_absorb, Hw. do 2 f_equal. unfold state_words, sip_initial.
  cbn [v0 v1 v2 v3].
  by rewrite !(Z.lxor_comm (le_value (take 8 key))), !(Z.lxor_comm (le_value (drop 8 key))).
Qed.

Definition sample_message : list Z := [1; 2; 3; 4; 5; 6; 7; 8; 9; 250].

Lemma jaeger_siphash_equiv_witness :
  jaeger_siphash sample_message (seqZ 0 16) = siphash_2_4 sample_message (seqZ 0 16).
Proof.
  apply (jaeger_siphash_equiv sample_message (seqZ 0 16)).
  - repeat constructor; unfold is_byte; lia.
  - repeat constructor; unfold is_byte; lia.
  - reflexivity.
Defined.
