(* ===== verification/Float.v ===== *)
(** * Floating-point numbers

    C's [double] and x87 [long double] on the Standard Library's executable
    model of IEEE 754 arithmetic (rounding to nearest, ties to even): 53 and
    64 bits of precision, and the conversions to and from integers the client
    makes. *)
From S2P Require Import Prelude Machine.
From Stdlib Require Export SpecFloat.

Abbreviation double := spec_float.

Definition dadd : double -> double -> double := SFadd 53 1024.
Definition dsub : double -> double -> double := SFsub 53 1024.
Definition dmul : double -> double -> double := SFmul 53 1024.
Definition ddiv : double -> double -> double := SFdiv 53 1024.
Definition dlt : double -> double -> bool := SFltb.
Definition dle : double -> double -> bool := SFleb.
Definition dne (x y : double) : bool := negb (SFeqb x y).

(** JAEGERTRACINGC_MIN, MAX and CLAMP on doubles. *)
Definition dmin (a b : double) : double := if dlt b a then b else a.
Definition dmax (a b : double) : double := if dlt a b then b else a.
Definition dclamp (x low high : double) : double := dmin (dmax x low) high.

(** [(double) z] and a constant [m * 2^e]. *)
Definition dconst (m e : Z) : double := binary_normalize 53 1024 m e false.
Definition double_of_Z (z : Z) : double := dconst z 0.

(** [long double]. *)
Definition ldmul : spec_float -> spec_float -> spec_float := SFmul 64 16384.
Definition lddiv : spec_float -> spec_float -> spec_float := SFdiv 64 16384.
Definition ldle : spec_float -> spec_float -> bool := SFleb.
Definition ld_of_double (d : double) : spec_float :=
  match d with
  | S754_finite s m e =>
      binary_normalize 64 16384 (if s then Z.neg m else Z.pos m) e s
  | _ => d
  end.
Definition ld_of_Z (z : Z) : spec_float := binary_normalize 64 16384 z 0 false.

(** Conversion to an integer: truncation towards zero; [None] for NaN and the
    infinities, whose conversion is undefined. *)
Definition trunc (d : spec_float) : option Z :=
  match d with
  | S754_zero _ => Some 0
  | S754_finite s m e =>
      let v := if 0 <=? e then Z.pos m * 2 ^ e else Z.pos m / 2 ^ (- e) in
      Some (if s then - v else v)
  | _ => None
  end.

(** ** Lemmas *)

Lemma SFcompare_antisym x y :
  SFcompare y x = match SFcompare x y with Some c => Some (CompOpp c) | None => None end.
Proof.
  destruct x as [s|s| |s m e], y as [t|t| |t n f]; cbn; try done;
    try (by destruct s); try (by destruct t); try (by destruct s, t).
  destruct s, t; cbn; try done.
  - rewrite (Z.compare_antisym e f). destruct (e ?= f); cbn; try done.
    change (PosDef.Pos.compare_cont Eq) with Pos.compare.
    by rewrite (Pos.compare_antisym m n).
  - rewrite (Z.compare_antisym e f). destruct (e ?= f); cbn; try done.
    change (PosDef.Pos.compare_cont Eq) with Pos.compare.
    by rewrite (Pos.compare_antisym m n).
Qed.

Lemma dlt_irrefl x : dlt x x = false.
Proof.
  unfold dlt, SFltb. pose proof (SFcompare_antisym x x) as H.
  destruct (SFcompare x x) as [[]|]; try done.
Qed.

Lemma dlt_asym x y : dlt x y = true -> dlt y x = false.
Proof.
  unfold dlt, SFltb. rewrite (SFcompare_antisym x y).
  destruct (SFcompare x y) as [[]|]; done.
Qed.
