(* ===== verification/Clock.v ===== *)
(** * Clocks and the token bucket (clock.c, token_bucket.c)

    Reading the clocks, subtracting two times, and the token bucket of the
    rate-limiting sampler, in machine arithmetic ([int64_t] and [double]). *)
From S2P Require Import Prelude Machine Float.

(** ** Definitions *)

Definition JAEGERTRACINGC_NANOSECONDS_PER_SECOND : Z := 1000000000.
Abbreviation NS := JAEGERTRACINGC_NANOSECONDS_PER_SECOND.

(** [jaeger_duration] and [jaeger_timestamp] wrap a time value. *)
Abbreviation jaeger_duration := opentracing_time_value.
Abbreviation jaeger_timestamp := opentracing_time_value.

Definition INT64_MAX : Z := 9223372036854775807.

(** A signed 64-bit result. *)
Definition int64_chk (z : Z) : M Z :=
  if (- INT64_MAX - 1 <=? z) && (z <=? INT64_MAX) then ret z else fail IntOverflow.

Section Definitions.
Context {env : Env}.

Definition jaeger_timestamp_now : M jaeger_timestamp := read_clock_realtime.
Definition jaeger_duration_now : M jaeger_duration := read_clock_monotonic.

Definition jaeger_time_subtract (lhs rhs : opentracing_time_value)
    : M (bool * opentracing_time_value) :=
  rhs ← (if tv_nsec lhs <? tv_nsec rhs then
           d ← int64_chk (tv_nsec rhs - tv_nsec lhs);
           nsec ← int64_chk (d ÷ NS + 1);
           x ← int64_chk (NS * nsec);
           n ← int64_chk (tv_nsec rhs - x);
           s ← int64_chk (tv_sec rhs + nsec);
           ret (TimeValue s n)
         else ret rhs);
  d ← int64_chk (tv_nsec lhs - tv_nsec rhs);
  rhs ← (if d >? NS then
           let nsec := d ÷ NS in
           x ← int64_chk (NS * nsec);
           n ← int64_chk (tv_nsec rhs + x);
           s ← int64_chk (tv_sec rhs - nsec);
           ret (TimeValue s n)
         else ret rhs);
  s ← int64_chk (tv_sec lhs - tv_sec rhs);
  n ← int64_chk (tv_nsec lhs - tv_nsec rhs);
  ret (tv_sec lhs >=? tv_sec rhs, TimeValue s n).

Record jaeger_token_bucket := TokenBucket {
  credits_per_second : double;
  max_balance : double;
  balance : double;
  last_tick : jaeger_duration;
}.

Definition jaeger_token_bucket_init (credits_per_second max_balance : double)
    : M jaeger_token_bucket :=
  last_tick ← jaeger_duration_now;
  ret (TokenBucket credits_per_second max_balance max_balance last_tick).

Definition jaeger_token_bucket_check_credit (tok : jaeger_token_bucket) (cost : double)
    : M (bool * jaeger_token_bucket) :=
  current_time ← jaeger_duration_now;
  ' (result, interval) ← jaeger_time_subtract current_time (last_tick tok);
  c_assert result;;
  let diff := dmul (dadd (ddiv (double_of_Z (tv_nsec interval)) (double_of_Z NS))
                         (double_of_Z (tv_sec interval)))
                   (credits_per_second tok) in
  let new_balance := dadd (balance tok) diff in
  let b := if dlt (max_balance tok) new_balance then max_balance tok else new_balance in
  if (dlt b cost : bool) then
    ret (false, TokenBucket (credits_per_second tok) (max_balance tok) b current_time)
  else
    ret (true, TokenBucket (credits_per_second tok) (max_balance tok) (dsub b cost)
                 current_time).
End Definitions.

(** ** Lemmas *)

(** A time as a number of nanoseconds, the order of readings of a clock. *)
Definition nanoseconds (t : opentracing_time_value) : Z := tv_sec t * NS + tv_nsec t.

Definition normalised (t : opentracing_time_value) : Prop :=
  0 <= tv_nsec t < NS /\ - 2 ^ 62 <= tv_sec t < 2 ^ 62.

Lemma wp_int64_chk z Q w :
  - INT64_MAX - 1 <= z <= INT64_MAX -> Q z w -> wp (int64_chk z) Q w.
Proof.
  intros [H1 H2] HQ. unfold int64_chk.
  by rewrite (proj2 (Z.leb_le _ _) H1), (proj2 (Z.leb_le _ _) H2).
Qed.

Lemma quot_NS_small d : 0 <= d < NS -> d ÷ NS = 0.
Proof. apply Z.quot_small. Qed.

Ltac int64_steps :=
  repeat (wp_step || (apply wp_int64_chk; [cbn [tv_sec tv_nsec]; unfold INT64_MAX; lia|]));
  cbn [tv_sec tv_nsec] in *.

(** Replaces the returned flag by an equivalent comparison. *)
Ltac same_bool c :=
  lazymatch goal with |- _ (?b, _) _ => replace b with c end.

Lemma time_subtract_wp lhs rhs Q w :
  normalised lhs -> normalised rhs ->
  (forall d, nanoseconds d = nanoseconds lhs - nanoseconds rhs -> 0 <= tv_nsec d < NS ->
     Q (nanoseconds rhs <=? nanoseconds lhs, d) w) ->
  wp (jaeger_time_subtract lhs rhs) Q w.
Proof.
  destruct lhs as [ls ln], rhs as [rs rn]. unfold normalised, nanoseconds. cbn.
  unfold JAEGERTRACINGC_NANOSECONDS_PER_SECOND. intros [Hl Hl'] [Hr Hr'] HQ.
  unfold jaeger_time_subtract, JAEGERTRACINGC_NANOSECONDS_PER_SECOND. cbn.
  apply wp_bind. destruct (ln <? rn) eqn:Hlt; reflect_bools.
  - apply wp_bind, wp_int64_chk; [unfold INT64_MAX; lia|].
    rewrite Z.quot_small by lia. cbn [Z.add Z.mul Pos.mul Pos.add]. int64_steps.
    all: try (reflect_bools; lia).
    reflect_bools.
    same_bool (rs * 1000000000 + rn <=? ls * 1000000000 + ln).
    { apply HQ; cbn; lia. }
    rewrite Z.geb_leb. apply eq_bool_prop_intro. rewrite !Is_true_true, !Z.leb_le. lia.
  - int64_steps.
    all: try (reflect_bools; lia).
    same_bool (rs * 1000000000 + rn <=? ls * 1000000000 + ln).
    { apply HQ; cbn; lia. }
    rewrite Z.geb_leb. apply eq_bool_prop_intro. rewrite !Is_true_true, !Z.leb_le. lia.
Qed.

(** Documented behaviour of [clock_gettime(CLOCK_MONOTONIC)]: normalised
    readings that never decrease. *)
Definition monotonic_clock (env : Env) : Prop :=
  (forall n, normalised (clock_monotonic n)) /\
  forall n, nanoseconds (clock_monotonic n) <= nanoseconds (clock_monotonic (S n)).

Lemma monotonic_le env m n :
  monotonic_clock env -> (m <= n)%nat ->
  nanoseconds (clock_monotonic m) <= nanoseconds (clock_monotonic n).
Proof.
  intros [_ H]. induction 1 as [|n _ IH]; [lia|]. specialize (H n). lia.
Qed.

(** The bucket's last tick is a reading already made. *)
Definition ticked `{env : Env} (w : world) (tok : jaeger_token_bucket) : Prop :=
  exists n, (n < w_mono w)%nat /\ last_tick tok = clock_monotonic n.

(** A number of nanoseconds in seconds, as a double. *)
Definition elapsed_seconds (ns : Z) : double :=
  dadd (ddiv (double_of_Z (ns mod NS)) (double_of_Z NS)) (double_of_Z (ns / NS)).

(** What a bucket holds at [now]: its credits a second for the time since its
    last tick are added, up to its maximum. *)
Definition refilled (tok : jaeger_token_bucket) (now : opentracing_time_value) : double :=
  let grown := dadd (balance tok)
    (dmul (elapsed_seconds (nanoseconds now - nanoseconds (last_tick tok)))
          (credits_per_second tok)) in
  if dlt (max_balance tok) grown then max_balance tok else grown.

(** What a check at [now] does: the charge is accepted exactly when the refilled
    bucket covers it, and only then deducted. *)
Definition charged (tok : jaeger_token_bucket) (cost : double) (now : opentracing_time_value)
    (ok : bool) (tok' : jaeger_token_bucket) : Prop :=
  ok = negb (dlt (refilled tok now) cost) /\
  tok' = TokenBucket (credits_per_second tok) (max_balance tok)
           (if ok then dsub (refilled tok now) cost else refilled tok now) now.

(** The world after the monotonic clock has been read. *)
Definition tick (w : world) : world :=
  World (w_allocator w) (w_allocs w) (S (w_mono w)) (w_real w)
    (w_entropy w) (w_rng w) (w_cells w) (w_next_cell w).

Lemma nanoseconds_split d ns :
  nanoseconds d = ns -> 0 <= tv_nsec d < NS -> tv_nsec d = ns mod NS /\ tv_sec d = ns / NS.
Proof.
  unfold nanoseconds. intros Hd Hns. split.
  - apply (Z.mod_unique_pos ns NS (tv_sec d)); lia.
  - apply (Z.div_unique_pos ns NS _ (tv_nsec d)); lia.
Qed.

Lemma check_credit_wp {env : Env} tok cost Q w :
  monotonic_clock env -> ticked w tok ->
  (forall ok tok', charged tok cost (clock_monotonic (w_mono w)) ok tok' ->
     ticked (tick w) tok' -> Q (ok, tok') (tick w)) ->
  wp (jaeger_token_bucket_check_credit tok cost) Q w.
Proof.
  intros Hm (n & Hn & Ht) HQ. unfold jaeger_token_bucket_check_credit.
  apply wp_bind. unfold jaeger_duration_now. cbn [wp read_clock_monotonic].
  apply wp_bind. rewrite Ht. apply time_subtract_wp; [apply Hm..|].
  intros d Hd Hns. pose proof (monotonic_le env n (w_mono w) Hm ltac:(lia)).
  rewrite (proj2 (Z.leb_le _ _)) by lia.
  apply wp_bind, wp_assert; [done|]. destruct (nanoseconds_split d _ Hd Hns) as [-> ->].
  fold (elapsed_seconds (nanoseconds (clock_monotonic (w_mono w)) - nanoseconds (clock_monotonic n))).
  rewrite <- Ht.
  change (if dlt (max_balance tok) _ then _ else _) with (refilled tok (clock_monotonic (w_mono w))).
  wp_steps; (apply HQ; [|exists (w_mono w); split; [cbn; lia|done]]); unfold charged;
    by rewrite Heqb.
Qed.

(** ** Properties *)

(** Subtracting two normalised times never overflows, gives the normalised
    difference in nanoseconds, and returns whether it is not negative. *)
Theorem jaeger_time_subtract_spec lhs rhs w :
  normalised lhs -> normalised rhs ->
  exists d, jaeger_time_subtract lhs rhs w = Ok (nanoseconds rhs <=? nanoseconds lhs, d) w /\
    nanoseconds d = nanoseconds lhs - nanoseconds rhs /\ 0 <= tv_nsec d < NS.
Proof.
  intros Hl Hr.
  assert (wp (jaeger_time_subtract lhs rhs) (fun r w' => w' = w /\ exists d,
    r = (nanoseconds rhs <=? nanoseconds lhs, d) /\
    nanoseconds d = nanoseconds lhs - nanoseconds rhs /\ 0 <= tv_nsec d < NS) w) as H.
  { apply time_subtract_wp; naive_solver. }
  apply wp_returns in H as (r & w' & -> & -> & d & -> & ?). eauto.
Qed.

Lemma jaeger_time_subtract_spec_witness :
  exists d, jaeger_time_subtract (TimeValue 5 100) (TimeValue 3 999999999) initial_world
      = Ok (true, d) initial_world /\
    nanoseconds d = 1000000101 /\ 0 <= tv_nsec d < NS.
Proof.
  apply (jaeger_time_subtract_spec (TimeValue 5 100) (TimeValue 3 999999999));
    unfold normalised, JAEGERTRACINGC_NANOSECONDS_PER_SECOND; cbn; lia.
Defined.

(** On a monotonic clock a credit check never faults: the bucket is refilled for
    the time since its last tick, up to its maximum; the charge is accepted
    exactly when that covers the cost, and only then is the cost deducted. *)
Theorem jaeger_token_bucket_check_credit_spec (env : Env) tok cost w :
  monotonic_clock env -> ticked w tok ->
  exists ok tok',
    jaeger_token_bucket_check_credit tok cost w = Ok (ok, tok') (tick w) /\
    charged tok cost (clock_monotonic (w_mono w)) ok tok' /\ ticked (tick w) tok'.
Proof.
  intros Hm Ht.
  assert (wp (jaeger_token_bucket_check_credit tok cost) (fun r w' => w' = tick w /\
    charged tok cost (clock_monotonic (w_mono w)) r.1 r.2 /\ ticked w' r.2) w) as H.
  { by apply check_credit_wp. }
  apply wp_returns in H as ([ok tok'] & w' & E & -> & ?). eauto.
Qed.

Lemma sample_monotonic : monotonic_clock sample_env.
Proof.
  split; intros n; unfold normalised, nanoseconds; cbn;
    unfold JAEGERTRACINGC_NANOSECONDS_PER_SECOND; lia.
Qed.

(** A bucket of three credits refilled at ten per second, created at the
    first reading. *)
Definition sample_bucket : jaeger_token_bucket :=
  TokenBucket (double_of_Z 10) (double_of_Z 3) (double_of_Z 3)
    (@clock_monotonic sample_env 0).
Definition ticked_world : world := World built_in_alloc 0 1 0 0 None ∅ 0.

Lemma jaeger_token_bucket_check_credit_spec_witness :
  exists ok tok',
    @jaeger_token_bucket_check_credit sample_env sample_bucket (double_of_Z 1) ticked_world
      = Ok (ok, tok') (tick ticked_world) /\
    charged sample_bucket (double_of_Z 1) (@clock_monotonic sample_env 1) ok tok' /\
    @ticked sample_env (tick ticked_world) tok'.
Proof.
  apply (jaeger_token_bucket_check_credit_spec sample_env sample_bucket (double_of_Z 1) ticked_world).
  - apply sample_monotonic.
  - exists 0%nat. split; [cbn; lia|reflexivity].
Defined.
