(* ===== verification/Threading.v ===== *)
(** * Threads and locks (threading.c)

    Three parts: the mutex, condition, once and thread-local operations as
    the rest of the client sees them from one thread, in both builds of the
    file (names that start with [st_] are the single-threaded build's);
    [jaeger_thread_init] of the single-threaded build; and the deadlock-avoiding [jaeger_lock] as a transition system over any number of
    threads and mutexes. *)
From S2P Require Import Prelude Machine.

(** ** Definitions *)

(** *** Operations seen from one thread *)

(** A mutex, as its holder sees it: locked or not. *)
Abbreviation jaeger_mutex := bool.
Definition JAEGERTRACINGC_MUTEX_INIT : jaeger_mutex := false.

Definition EBUSY : Z := 16.

Section Operations.
Context {env : Env}.

(** Locking a mutex the calling thread holds never returns in the
    multi-threaded build, and fails an assertion in the other. *)
Definition jaeger_mutex_lock (mutex : jaeger_mutex) : M jaeger_mutex :=
  if mt then (if mutex then fail Deadlock else ret true)
  else c_assert (negb mutex);; ret true.

Definition jaeger_mutex_try_lock (mutex : jaeger_mutex) : M (Z * jaeger_mutex) :=
  if mutex then ret (EBUSY, mutex) else ret (0, true).

(** Unlocking a mutex that is not locked is undefined for a pthread mutex. *)
Definition jaeger_mutex_unlock (mutex : jaeger_mutex) : M jaeger_mutex :=
  if mt then (if mutex then ret false else fail BadUnlock)
  else c_assert mutex;; ret false.

Definition jaeger_mutex_destroy (mutex : jaeger_mutex) : M (Z * jaeger_mutex) :=
  if mutex then ret (EBUSY, if mt then mutex else false) else ret (0, mutex).

(** [jaeger_lock] on two mutexes, as a thread runs it alone: when the second is
    busy the first is given back and the roles change. The retry finds the
    first free, unless taking the second has stopped the thread: whoever holds
    it is the caller itself. *)
Definition jaeger_lock (lock0 lock1 : jaeger_mutex) : M (jaeger_mutex * jaeger_mutex) :=
  lock0 ← jaeger_mutex_lock lock0;
  ' (busy, lock1) ← jaeger_mutex_try_lock lock1;
  if busy =? 0 then ret (lock0, lock1)
  else
    lock0 ← jaeger_mutex_unlock lock0;
    lock1 ← jaeger_mutex_lock lock1;
    ' (busy, lock0) ← jaeger_mutex_try_lock lock0;
    if busy =? 0 then ret (lock0, lock1) else fail OutOfFuel.

(** Single-threaded build: a condition is a flag. *)
Definition jaeger_cond_destroy (cond : bool) : bool := false.
Definition jaeger_cond_signal (cond : bool) : bool := true.
Definition jaeger_cond_wait (cond mutex : bool) : M (bool * bool) :=
  c_assert mutex;;
  if cond then ret (cond, true) else fail Deadlock.

Definition jaeger_do_once (has_run : bool) (init_routine : M unit) : M bool :=
  if has_run then ret true else init_routine;; ret true.

(** Single-threaded build: the routine runs synchronously. *)
Definition jaeger_thread_init {R} (start_routine : M R) : M (Z * R) :=
  return_value ← start_routine; ret (0, return_value).

(** The single-threaded build has no thread to wait for and none to yield to;
    [return_value] stays as it is. *)
Definition jaeger_thread_join {R} (thread return_value : R) : M (Z * R) := ret (0, return_value).
Definition jaeger_yield : M Z := ret 0.

(** Thread-local storage of a destructible value, as one thread sees it. *)
Record jaeger_thread_local (D : Type) := ThreadLocal {
  initialized : bool;
  tl_value : option D;
}.
Arguments ThreadLocal {D} initialized tl_value.
Arguments initialized {D} _.
Arguments tl_value {D} _.

Context {D : Type} (destroy : D -> M unit).

Definition jaeger_destructible_destroy (d : option D) : M unit :=
  match d with
  | None => ret tt
  | Some d => destroy d
  end.

Definition jaeger_thread_local_init : M (bool * jaeger_thread_local D) :=
  if pthread_key_create_ok then ret (true, ThreadLocal true None)
  else ret (false, ThreadLocal false None).

Definition jaeger_thread_local_check_initialized (local : jaeger_thread_local D) : bool :=
  initialized local.

Definition jaeger_thread_local_get_value (local : jaeger_thread_local D) : option D :=
  if negb (jaeger_thread_local_check_initialized local) then None else tl_value local.

Definition jaeger_thread_local_set_value (local : jaeger_thread_local D)
    (value : option D) : M (bool * jaeger_thread_local D) :=
  if negb (jaeger_thread_local_check_initialized local) then ret (false, local)
  else
    jaeger_destructible_destroy (tl_value local);;
    if pthread_setspecific_ok then ret (true, ThreadLocal true value)
    else ret (false, local).

Definition jaeger_thread_local_destroy (local : option (jaeger_thread_local D))
    : M (option (jaeger_thread_local D)) :=
  match local with
  | None => ret None
  | Some local =>
      if negb (initialized local) then ret (Some local)
      else
        jaeger_destructible_destroy (tl_value local);;
        ret (Some (ThreadLocal false (tl_value local)))
  end.
End Operations.

Arguments ThreadLocal {D} initialized tl_value.
Arguments initialized {D} _.
Arguments tl_value {D} _.

(** *** Thread-local storage of the single-threaded build *)

Section SingleThreaded.
Context {D : Type} (destroy : D -> M unit).

(** The struct holds the value itself. *)
Record st_thread_local := StThreadLocal { st_value : option D }.

(** [return 0;] from a function of type [bool]. *)
Definition st_thread_local_init (local : st_thread_local)
    : M (bool * st_thread_local) :=
  ret (false, StThreadLocal None).

Definition st_thread_local_get_value (local : st_thread_local) : option D :=
  st_value local.

(** The result is the stored pointer as a truth value. *)
Definition st_thread_local_set_value (local : st_thread_local) (v : option D)
    : M (bool * st_thread_local) :=
  jaeger_destructible_destroy destroy (st_value local);;
  ret (bool_decide (is_Some v), StThreadLocal v).

(** The pointer that was destroyed stays in the struct. *)
Definition st_thread_local_destroy (local : option st_thread_local)
    : M (option st_thread_local) :=
  match local with
  | None => ret None
  | Some local =>
      jaeger_destructible_destroy destroy (st_value local);;
      ret (Some local)
  end.
End SingleThreaded.

Arguments st_thread_local D : clear implicits.
Arguments StThreadLocal {D} st_value.

(** *** jaeger_lock as a transition system *)

(** Where a thread is. The mutexes are the values of [lock0] and [lock1] at
    that point of the loop. *)
Inductive lock_pc :=
  | Idle                                (* holds nothing *)
  | Locking (lock0 lock1 : nat)         (* about to lock lock0 *)
  | Trying (lock0 lock1 : nat)          (* has lock0, about to try lock1 *)
  | Unlocking (lock0 lock1 : nat)       (* the try failed, about to unlock lock0 *)
  | Yielding (lock0 lock1 : nat)        (* about to yield and swap *)
  | Holding (lock0 lock1 : nat)         (* jaeger_lock has returned *)
  | Leaving (lock : nat).               (* has unlocked one of the two *)

(** The threads' positions, and the owner of each mutex that is locked. *)
Record lock_state := LockState {
  pcs : list lock_pc;
  owner : gmap nat nat;
}.

(** The next statement of thread [t]: [None] when it is blocked or idle. *)
Definition jaeger_lock_step (t : nat) (s : lock_state) : option lock_state :=
  let goto (pc : lock_pc) own := Some (LockState (<[t := pc]> (pcs s)) own) in
  match pcs s !! t with
  | None | Some Idle => None
  | Some (Locking lock0 lock1) =>
      match owner s !! lock0 with
      | None => goto (Trying lock0 lock1) (<[lock0 := t]> (owner s))
      | Some _ => None
      end
  | Some (Trying lock0 lock1) =>
      match owner s !! lock1 with
      | None => goto (Holding lock0 lock1) (<[lock1 := t]> (owner s))
      | Some _ => goto (Unlocking lock0 lock1) (owner s)
      end
  | Some (Unlocking lock0 lock1) => goto (Yielding lock0 lock1) (delete lock0 (owner s))
  | Some (Yielding lock0 lock1) => goto (Locking lock1 lock0) (owner s)
  | Some (Holding lock0 lock1) => goto (Leaving lock1) (delete lock0 (owner s))
  | Some (Leaving lock) => goto Idle (delete lock (owner s))
  end.

(** A thread calls [jaeger_lock] on two distinct mutexes, or any thread takes
    a step. *)
Inductive lock_step : lock_state -> lock_state -> Prop :=
  | lock_step_call t lock0 lock1 s :
      pcs s !! t = Some Idle -> lock0 <> lock1 ->
      lock_step s (LockState (<[t := Locking lock0 lock1]> (pcs s)) (owner s))
  | lock_step_run t s s' :
      jaeger_lock_step t s = Some s' -> lock_step s s'.

Definition lock_initial (n : nat) : lock_state := LockState (replicate n Idle) ∅.
Definition lock_reachable (n : nat) : lock_state -> Prop := rtc lock_step (lock_initial n).

(** The mutexes a thread holds, and the threads inside [jaeger_lock]. *)
Definition held (pc : lock_pc) : list nat :=
  match pc with
  | Idle | Locking _ _ | Yielding _ _ => []
  | Trying lock0 _ | Unlocking lock0 _ => [lock0]
  | Holding lock0 lock1 => [lock0; lock1]
  | Leaving lock => [lock]
  end.

Definition in_jaeger_lock (pc : lock_pc) : Prop :=
  match pc with
  | Locking _ _ | Trying _ _ | Unlocking _ _ | Yielding _ _ => True
  | Idle | Holding _ _ | Leaving _ => False
  end.

Definition distinct_locks (pc : lock_pc) : Prop :=
  match pc with
  | Locking a b | Trying a b | Unlocking a b | Yielding a b | Holding a b => a <> b
  | Idle | Leaving _ => True
  end.

(** ** Lemmas *)

Section OperationFacts.
Context {env : Env}.

Lemma mutex_lock_wp Q w : Q true w -> wp (jaeger_mutex_lock false) Q w.
Proof. intros HQ. unfold jaeger_mutex_lock. by destruct mt. Qed.

Lemma mutex_unlock_wp Q w : Q false w -> wp (jaeger_mutex_unlock true) Q w.
Proof. intros HQ. unfold jaeger_mutex_unlock. by destruct mt. Qed.

Lemma jaeger_lock_wp Q w : Q (true, true) w -> wp (jaeger_lock false false) Q w.
Proof. intros HQ. unfold jaeger_lock. apply wp_bind, mutex_lock_wp. done. Qed.
End OperationFacts.

(** Ownership and positions agree. *)
Record lock_inv (s : lock_state) : Prop := {
  inv_owner m t : owner s !! m = Some t <->
    exists pc, pcs s !! t = Some pc /\ m ∈ held pc;
  inv_distinct t pc : pcs s !! t = Some pc -> distinct_locks pc;
}.

(** One thread moves from [pc] to [pc'], the others keep what they hold. *)
Lemma lock_inv_move s t pc pc' own' :
  lock_inv s -> pcs s !! t = Some pc -> distinct_locks pc' ->
  (forall m, own' !! m = Some t <-> m ∈ held pc') ->
  (forall m u, u <> t -> own' !! m = Some u <-> owner s !! m = Some u) ->
  lock_inv (LockState (<[t := pc']> (pcs s)) own').
Proof.
  intros [Ho Hd] Hpc Hd' Ht Hu. pose proof (lookup_lt_Some _ _ _ Hpc) as Hlt.
  split; cbn.
  - intros m u. destruct (decide (u = t)) as [->|Hne].
    + rewrite Ht, list_lookup_insert_eq by done. naive_solver.
    + rewrite (Hu m u Hne), Ho, list_lookup_insert_ne by done. done.
  - intros u pcu. destruct (decide (u = t)) as [->|Hne].
    + rewrite list_lookup_insert_eq by done. by intros [= <-].
    + rewrite list_lookup_insert_ne by done. apply Hd.
Qed.

Lemma lock_inv_held s t pc m :
  lock_inv s -> pcs s !! t = Some pc -> owner s !! m = Some t <-> m ∈ held pc.
Proof.
  intros [Ho _] Hpc. rewrite Ho. split; [|eauto].
  intros (pc' & Hpc' & ?). rewrite Hpc in Hpc'. by injection Hpc' as <-.
Qed.

(** Settles the two ownership conditions of [lock_inv_move]. *)
Ltac owner_solve :=
  intros; rewrite ?lookup_insert_Some, ?lookup_delete_Some;
  repeat match goal with
    | Hh : forall m, owner _ !! m = Some _ <-> _ |- context [owner _ !! _ = Some ?t] =>
        rewrite Hh
    end;
  cbn in *; rewrite ?elem_of_cons, ?elem_of_nil in *; naive_solver.

Lemma delete_other (own : gmap nat nat) a t :
  own !! a = Some t ->
  forall m u, u <> t -> delete a own !! m = Some u <-> own !! m = Some u.
Proof. intros Ha m u Hu. rewrite lookup_delete_Some. naive_solver. Qed.

Lemma lock_inv_run s t s' :
  lock_inv s -> jaeger_lock_step t s = Some s' -> lock_inv s'.
Proof.
  intros Hinv Hstep. unfold jaeger_lock_step in Hstep.
  destruct (pcs s !! t) as [pc|] eqn:Hpc; [|done]. cbn in Hstep.
  pose proof (inv_distinct _ Hinv _ _ Hpc) as Hd.
  pose proof (fun m => lock_inv_held s t pc m Hinv Hpc) as Hh.
  destruct pc as [|a b|a b|a b|a b|a b|a]; cbn in Hh, Hd; try done.
  1,2: destruct (owner s !! _) as [o|] eqn:Eo; try done.
  all: injection Hstep as <-; eapply lock_inv_move; [done..|cbn; try done; by intros ->| |].
  all: try owner_solve.
  all: apply delete_other, Hh; rewrite ?elem_of_cons; auto.
Qed.

Lemma lock_inv_step s s' : lock_inv s -> lock_step s s' -> lock_inv s'.
Proof.
  intros Hinv Hs. destruct Hs as [t a b s Hpc Hab|t s s' Hrun];
    [|by apply (lock_inv_run s t)].
  pose proof (fun m => lock_inv_held _ _ _ m Hinv Hpc) as Hh.
  eapply lock_inv_move; [done..|apply Hh|]. done.
Qed.

Lemma lock_inv_initial n : lock_inv (lock_initial n).
Proof.
  split; cbn.
  - intros m t. rewrite lookup_empty. split; [done|].
    intros (pc & Hpc & Hm). apply lookup_replicate in Hpc as [-> _].
    by apply not_elem_of_nil in Hm.
  - intros t pc Hpc. by apply lookup_replicate in Hpc as [-> _].
Qed.

Lemma lock_inv_reachable n s : lock_reachable n s -> lock_inv s.
Proof.
  intros H. eapply (rtc_ind_r lock_inv); [apply lock_inv_initial| |exact H].
  intros s1 s2 _ Hs Hi. by eapply lock_inv_step.
Qed.

(** A thread can run unless it is idle or waits at [lock0]. *)
Lemma jaeger_lock_step_runs t s pc :
  pcs s !! t = Some pc -> pc <> Idle ->
  (exists s', jaeger_lock_step t s = Some s') \/
  (exists lock0 lock1 u, pc = Locking lock0 lock1 /\ owner s !! lock0 = Some u).
Proof.
  intros Hpc Hne. unfold jaeger_lock_step. rewrite Hpc.
  destruct pc as [|a b|a b|a b|a b|a b|a]; try done; eauto;
    destruct (owner s !! _) eqn:E; eauto 7.
Qed.

(** ** Properties *)

(** C37: Mutual exclusion and ownership: however any number of threads interleave
    their calls of [jaeger_lock] and their unlocks, two threads never hold the
    same mutex, and a thread whose [jaeger_lock] has returned owns both. *)
Theorem jaeger_lock_mutual_exclusion n s t u pc pc' m :
  lock_reachable n s ->
  pcs s !! t = Some pc -> pcs s !! u = Some pc' -> m ∈ held pc -> m ∈ held pc' ->
  t = u /\ owner s !! m = Some t.
Proof.
  intros Hr Ht Hu Hm Hm'. pose proof (lock_inv_reachable _ _ Hr) as Hinv.
  pose proof (proj2 (lock_inv_held _ _ _ _ Hinv Ht) Hm).
  pose proof (proj2 (lock_inv_held _ _ _ _ Hinv Hu) Hm'). split; congruence.
Qed.

(** Deadlock freedom, whatever order the threads name the mutexes in: while
    some thread is not idle, some thread can run: itself or, when it waits for
    its first mutex, the thread that holds that mutex. *)
Theorem jaeger_lock_deadlock_free n s t pc :
  lock_reachable n s -> pcs s !! t = Some pc -> pc <> Idle ->
  exists u pcu s', pcs s !! u = Some pcu /\ jaeger_lock_step u s = Some s' /\
    lock_step s s' /\ (u = t \/ exists lock0 lock1, pc = Locking lock0 lock1 /\
                                 lock0 ∈ held pcu).
Proof.
  intros Hr Ht Hne. pose proof (lock_inv_reachable _ _ Hr) as Hinv.
  destruct (jaeger_lock_step_runs _ _ _ Ht Hne) as [[s' Hs']|(a & b & u & -> & Ho)].
  { exists t, pc, s'. repeat split; eauto using lock_step. }
  apply (inv_owner _ Hinv) in Ho as Ho'. destruct Ho' as (pcu & Hu & Hm).
  assert (pcu <> Idle) as Hneu by (intros ->; by apply not_elem_of_nil in Hm).
  destruct (jaeger_lock_step_runs _ _ _ Hu Hneu) as [[s' Hs']|(c & d & v & -> & _)].
  - exists u, pcu, s'. repeat split; eauto using lock_step.
  - by apply not_elem_of_nil in Hm.
Qed.

(** *** Thread-local values *)

Section ThreadLocalValues.
Context {env : Env} {D : Type} (destroy : D -> M unit).

(** Values stored one after another by one thread. *)
Fixpoint set_values (local : jaeger_thread_local D) (values : list D)
    : M (jaeger_thread_local D) :=
  match values with
  | [] => ret local
  | v :: values =>
      ' (ok, local) ← jaeger_thread_local_set_value destroy local (Some v);
      set_values local values
  end.

Fixpoint destroy_all (values : list D) : M unit :=
  match values with
  | [] => ret tt
  | v :: values => destroy v;; destroy_all values
  end.

Definition held_value (current : option D) : list D :=
  match current with Some d => [d] | None => [] end.

Lemma set_values_destroys values (current : option D) w :
  pthread_setspecific_ok = true ->
  (local ← set_values (ThreadLocal true current) values;
   jaeger_thread_local_destroy destroy (Some local)) w
  = (destroy_all (held_value current ++ values);;
     ret (Some (ThreadLocal false (last (held_value current ++ values))))) w.
Proof.
  intros Hok. revert current w. induction values as [|v values IH]; intros current w.
  - destruct current as [v|]; [|done]. cbn. unfold bind. by destruct (destroy v w).
  - specialize (IH (Some v)). cbn [held_value app] in IH. cbn [set_values].
    unfold jaeger_thread_local_set_value. cbn [jaeger_thread_local_check_initialized
      initialized tl_value negb]. rewrite Hok.
    destruct current as [c|]; cbn [jaeger_destructible_destroy held_value app destroy_all].
    + unfold bind in *. destruct (destroy c w) as [? w'|]; [|done].
      apply IH.
    + apply IH.
Qed.

(** Thread-local storage owns its value: whatever values a thread stores and
    whatever destroying one does, each of them is destroyed, once, in the order
    in which they were stored, when it is replaced or at the end. *)
Theorem thread_local_destroys_each_once values w :
  pthread_setspecific_ok = true ->
  (local ← set_values (ThreadLocal true None) values;
   jaeger_thread_local_destroy destroy (Some local)) w
  = (destroy_all values;; ret (Some (ThreadLocal false (last values)))) w.
Proof. apply (set_values_destroys values None). Qed.

(** A value that cannot be stored leaves the thread with the one that has just
    been destroyed: it is destroyed again later. *)
Theorem thread_local_failure_destroys_twice d (v : option D) w :
  pthread_setspecific_ok = false ->
  (' (_, local) ← jaeger_thread_local_set_value destroy (ThreadLocal true (Some d)) v;
   jaeger_thread_local_destroy destroy (Some local)) w
  = (destroy_all [d; d];; ret (Some (ThreadLocal false (Some d)))) w.
Proof.
  intros Hok. unfold jaeger_thread_local_set_value. cbn. rewrite Hok. unfold bind.
  destruct (destroy d w) as [? w1|]; [|done]. cbn. by destruct (destroy d w1).
Qed.

(** The single-threaded build's storage reports failure whenever it is
    initialised, reports failure when NULL is stored, and destroys its value
    again each time it is destroyed itself. *)
Theorem single_threaded_storage_defects d (local : st_thread_local D) w :
  (exists local', st_thread_local_init local w = Ok (false, local') w) /\
  (st_thread_local_set_value destroy (StThreadLocal None) None w
   = Ok (false, StThreadLocal None) w) /\
  (local ← st_thread_local_destroy destroy
             (Some (StThreadLocal (Some d)));
   st_thread_local_destroy destroy local) w
  = (destroy_all [d; d];; ret (Some (StThreadLocal (Some d)))) w.
Proof.
  split; [by eexists|]. split; [done|]. cbn. unfold bind.
  destruct (destroy d w) as [? w1|]; [|done]. cbn. unfold bind. by destruct (destroy d w1).
Qed.
End ThreadLocalValues.

(** The schedule of the unit test's kind: two threads naming the mutexes in
    opposite orders both reach their first lock, and the retry succeeds. *)
Definition lock_run (schedule : list nat) (s : lock_state) : option lock_state :=
  foldl (fun s t => match s with Some s => jaeger_lock_step t s | None => None end)
    (Some s) schedule.

Definition opposed : lock_state := LockState [Locking 0 1; Locking 1 0] ∅.

Lemma opposed_reachable : lock_reachable 2 opposed.
Proof.
  eapply rtc_l; [apply (lock_step_call 0 0 1); [reflexivity|lia]|].
  eapply rtc_l; [apply (lock_step_call 1 1 0); [reflexivity|lia]|].
  apply rtc_refl.
Qed.

Example opposed_runs :
  option_map pcs (lock_run [0; 1; 0; 0; 0; 1; 1; 1; 0; 0]%nat opposed)
  = Some [Holding 1 0; Idle].
Proof. vm_compute. reflexivity. Qed.

Definition contended : lock_state :=
  LockState [Trying 0 1; Trying 1 0] {[0%nat := 0%nat; 1%nat := 1%nat]}.

Lemma contended_reachable : lock_reachable 2 contended.
Proof.
  eapply rtc_r; [eapply rtc_r; [apply opposed_reachable|]|].
  - apply (lock_step_run 0). reflexivity.
  - apply (lock_step_run 1). vm_compute. reflexivity.
Qed.

Lemma jaeger_lock_mutual_exclusion_witness :
  0%nat = 0%nat /\ owner contended !! 0%nat = Some 0%nat.
Proof.
  apply (jaeger_lock_mutual_exclusion 2 contended 0 0 (Trying 0 1) (Trying 0 1) 0).
  - apply contended_reachable.
  - reflexivity.
  - reflexivity.
  - apply elem_of_cons. auto.
  - apply elem_of_cons. auto.
Defined.

Lemma jaeger_lock_deadlock_free_witness :
  exists u pcu s', pcs contended !! u = Some pcu /\ jaeger_lock_step u contended = Some s' /\
    lock_step contended s' /\ (u = 0%nat \/ exists lock0 lock1,
      Trying 0 1 = Locking lock0 lock1 /\ lock0 ∈ held pcu).
Proof.
  apply (jaeger_lock_deadlock_free 2 contended 0 (Trying 0 1));
    [apply contended_reachable|reflexivity|done].
Defined.

(** A destructor that insists on a positive value. *)
Definition destroy_positive {env : Env} (d : Z) : M unit := c_assert (0 <? d).

Lemma thread_local_destroys_each_once_witness :
  (local ← @set_values sample_env Z (@destroy_positive sample_env) (ThreadLocal true None) [3; 5];
   jaeger_thread_local_destroy (@destroy_positive sample_env) (Some local)) initial_world
  = (destroy_all (@destroy_positive sample_env) [3; 5];; ret (Some (ThreadLocal false (last [3; 5]))))
      initial_world.
Proof.
  apply (@thread_local_destroys_each_once sample_env Z (@destroy_positive sample_env) [3; 5]). reflexivity.
Defined.
