(* ===== verification/Random.v ===== *)
(** * Random numbers (random.c, random.h)

    Seeding from the system's entropy source, the thread's generator, created
    and seeded on first use, and the 64-bit numbers assembled from two calls of
    [rand_r] (the build without [arc4random]). The components that draw numbers
    use [jaeger_random64], which keeps the generator in the world; that is what
    the function does with its [once] flag and thread-local storage,
    [random64_with_globals], until the process ends. The storage is that of the
    build with threads: random.c initialises a member, [initialized], that the
    type has only there, so it does not compile without JAEGERTRACINGC_MT. *)
From S2P Require Import Prelude Machine Siphash Threading.

(** ** Definitions *)

Section Definitions.
Context {env : Env}.

(** *** Seeds *)

(** The bytes that arrive are written from the start of [seed]. *)
Definition fill (seed bytes : list Z) : list Z :=
  take (length seed) bytes ++ drop (length bytes) seed.

(** What cannot be read stays as it was; [fread] may give less than asked. *)
Definition read_random_seed (seed : list Z) (random_source_path : cstr) : M (list Z) :=
  if fopen_ok random_source_path then bytes ← read_entropy (length seed); ret (fill seed bytes)
  else ret seed.

(** One of three definitions, by what the system has; none looks at the result
    of the call. *)
Definition random_seed (seed : list Z) : M (list Z) :=
  match entropy_source with
  | HAVE_GETRANDOM | HAVE_ARC4RANDOM_BUF =>
      bytes ← read_entropy (length seed); ret (fill seed bytes)
  | DEV_RANDOM => read_random_seed seed (lit "/dev/random")
  end.

(** *** The generator of a thread *)

(** [jaeger_thread_local_init] of [rng_storage], called once by [init_rng]. *)
Definition rng_storage_initialized : bool := pthread_key_create_ok.

Definition jaeger_rng_alloc : M bool := jaeger_malloc.

(** [sizeof(rng->state)] bytes over what the block held, on a little-endian
    host. *)
Definition jaeger_rng_init : M Z :=
  state ← random_seed stale_state; ret (u32 (le_value state)).

Definition get_rng : M (option Z) := w ← get_world; ret (w_rng w).
Definition put_rng (state : option Z) : M unit :=
  w ← get_world;
  put_world (World (w_allocator w) (w_allocs w) (w_mono w) (w_real w)
    (w_entropy w) state (w_cells w) (w_next_cell w)).

(** [jaeger_thread_local_set_value(&rng_storage, rng)]. *)
Definition set_rng (state : Z) : M bool :=
  if rng_storage_initialized && pthread_setspecific_ok then put_rng (Some state);; ret true else ret false.

(** [((uint64_t) rand_r(state) << 32) | rand_r(state)], the calls in the order
    they are written (C leaves it open). *)
Definition random64 (state : Z) : Z * Z :=
  let '(state, x) := rand_r state in
  let '(state, y) := rand_r state in
  (state, Z.lor (u64 (Z.shiftl x 32)) (u64 y)).

(** [random64(&rng->state)]: the state advances in the thread's storage. *)
Definition next_random (state : Z) : M Z :=
  let '(state, n) := random64 state in
  put_rng (Some state);; ret n.

Definition jaeger_random64 : M Z :=
  c_assert rng_storage_initialized;;
  rng ← get_rng;
  match rng with
  | Some state => next_random state
  | None =>
      granted ← jaeger_rng_alloc;
      if (granted : bool) then
        state ← jaeger_rng_init;
        stored ← set_rng state;
        if (stored : bool) then next_random state else ret 0
      else ret 0
  end.

(** *** The flag and the storage *)

(** Frees the block. *)
Definition rng_destroy (state : Z) : M unit := ret tt.

(** The result is ignored; [cleanup_rng] is registered to run at exit. *)
Definition init_rng : M (jaeger_thread_local Z) :=
  ' (_, storage) ← jaeger_thread_local_init; ret storage.

Definition cleanup_rng (storage : jaeger_thread_local Z) : M (jaeger_thread_local Z) :=
  storage' ← jaeger_thread_local_destroy rng_destroy (Some storage);
  match storage' with Some storage' => ret storage' | None => ret storage end.

(** The static variables of random.c: [once] and [rng_storage]. *)
Record rng_globals := RngGlobals { once : bool; rng_storage : jaeger_thread_local Z }.

Definition rng_globals_init : rng_globals := RngGlobals false (ThreadLocal false None).

(** [random64(&rng->state)]: the state is that of the stored generator. *)
Definition next_of (storage : jaeger_thread_local Z) (state : Z) : M (Z * rng_globals) :=
  let '(state, n) := random64 state in
  ret (n, RngGlobals true (ThreadLocal (initialized storage) (Some state))).

(** [jaeger_random64] after [jaeger_do_once]. *)
Definition random64_with_storage (storage : jaeger_thread_local Z) : M (Z * rng_globals) :=
  c_assert (initialized storage);;
  match jaeger_thread_local_get_value storage with
  | Some state => next_of storage state
  | None =>
      granted ← jaeger_rng_alloc;
      if (granted : bool) then
        state ← jaeger_rng_init;
        ' (stored, storage) ← jaeger_thread_local_set_value rng_destroy storage (Some state);
        if (stored : bool) then next_of storage state else ret (0, RngGlobals true storage)
      else ret (0, RngGlobals true storage)
  end.

Definition random64_with_globals (g : rng_globals) : M (Z * rng_globals) :=
  storage ← (if once g then ret (rng_storage g) else init_rng);
  random64_with_storage storage.
End Definitions.

(** ** Lemmas *)

(** Documented behaviour of [rand_r]: a value between 0 and RAND_MAX, which is
    2^31 - 1 in the C libraries the client is built with. *)
Definition rand_r_31 (env : Env) : Prop :=
  forall state, 0 <= (rand_r state).2 < 2 ^ 31.

(** Worlds that differ by what random numbers consume. *)
Definition random_only (w w' : world) : Prop :=
  w_allocator w' = w_allocator w /\ w_mono w' = w_mono w /\ w_real w' = w_real w /\
  w_cells w' = w_cells w /\ w_next_cell w' = w_next_cell w.

#[export] Instance random_only_preorder : PreOrder random_only.
Proof.
  split.
  - intros w. repeat split.
  - intros w1 w2 w3. unfold random_only. intuition congruence.
Qed.

Lemma alloc_random_only w w' : alloc_only w w' -> random_only w w'.
Proof. unfold alloc_only, random_only. tauto. Qed.

#[export] Hint Resolve alloc_random_only : jaeger.

(** The bits [rand_r] can set. *)
Definition random_bits (n : Z) : Prop :=
  0 <= n < 2 ^ 63 /\ Z.testbit n 31 = false.

(** *** Seeds *)

Lemma length_fill seed bytes : length (fill seed bytes) = length seed.
Proof. unfold fill. rewrite length_app, length_take, length_drop. lia. Qed.

Lemma fill_full seed bytes : length bytes = length seed -> fill seed bytes = bytes.
Proof. intros H. unfold fill. rewrite <-H, firstn_all, H, drop_all, app_nil_r. done. Qed.

Lemma fill_nothing seed : fill seed [] = seed.
Proof. unfold fill. by rewrite take_nil, drop_0. Qed.

Lemma random_seed_wp {env : Env} seed Q w :
  (forall bytes w', random_only w w' -> length bytes = length seed -> Q bytes w') ->
  wp (random_seed seed) Q w.
Proof.
  intros HQ. unfold random_seed, read_random_seed.
  assert (wp (bytes ← read_entropy (length seed); ret (fill seed bytes)) Q w) as H.
  { unfold wp, bind, read_entropy, ret. apply HQ; [by repeat split|apply length_fill]. }
  destruct entropy_source; [done..|]. destruct (fopen_ok (lit "/dev/random")); [done|]. by apply HQ.
Qed.

Section Facts.
Context {env : Env}.
Hypothesis rand_r_range : rand_r_31 env.

Lemma testbit_small n k i : 0 <= n < 2 ^ k -> 0 <= k <= i -> Z.testbit n i = false.
Proof.
  intros Hn Hk. destruct (decide (n = 0)) as [->|Hz]; [apply Z.bits_0|].
  apply Z.bits_above_log2; [lia|]. apply Z.log2_lt_pow2; [lia|].
  assert (2 ^ k <= 2 ^ i) by (apply Z.pow_le_mono_r; lia). lia.
Qed.

Lemma random64_bits state : random_bits (random64 state).2.
Proof.
  unfold random64. pose proof (rand_r_range state) as Hx.
  destruct (rand_r state) as [s1 x]. pose proof (rand_r_range s1) as Hy.
  destruct (rand_r s1) as [s2 y]. cbn [snd] in *.
  assert (Z.shiftl x 32 = x * 2 ^ 32) as Hs by (by rewrite Z.shiftl_mul_pow2).
  unfold wrap. rewrite !Z.mod_small by lia.
  assert (0 <= Z.lor (Z.shiftl x 32) y) by (apply Z.lor_nonneg; lia).
  split; [split; [done|]|].
  - destruct (decide (Z.lor (Z.shiftl x 32) y = 0)) as [->|Hz]; [lia|].
    apply Z.log2_lt_pow2; [lia|]. rewrite Z.log2_lor by lia.
    apply Z.max_lub_lt.
    + destruct (decide (Z.shiftl x 32 = 0)) as [->|]; [cbn; lia|].
      apply Z.log2_lt_pow2; lia.
    + destruct (decide (y = 0)) as [->|]; [cbn; lia|]. apply Z.log2_lt_pow2; lia.
  - rewrite Z.lor_spec, Z.shiftl_spec_low by lia.
    by rewrite (testbit_small y 31 31) by lia.
Qed.

Lemma next_random_wp state Q w :
  (forall n w', random_only w w' -> random_bits n -> Q n w') ->
  wp (next_random state) Q w.
Proof.
  intros HQ. unfold next_random. pose proof (random64_bits state).
  destruct (random64 state) as [s n]. cbn in *. by apply HQ.
Qed.

Lemma rng_init_wp Q w :
  (forall state w', random_only w w' -> Q state w') -> wp jaeger_rng_init Q w.
Proof.
  intros HQ. apply wp_bind, random_seed_wp. intros bytes w' Hr _. by apply HQ.
Qed.

Lemma random64_wp Q w :
  pthread_key_create_ok = true ->
  (forall n w', random_only w w' -> random_bits n -> Q n w') ->
  wp jaeger_random64 Q w.
Proof.
  intros Hk HQ. assert (random_bits 0) as H0 by done.
  unfold jaeger_random64, rng_storage_initialized, get_rng, jaeger_rng_alloc.
  rewrite Hk. wp_step. wp_step. apply wp_bind. cbn.
  destruct (w_rng w) as [state|]; [by apply next_random_wp|].
  do 2 wp_step. destruct granted; [|apply HQ; auto with jaeger].
  apply wp_bind, rng_init_wp. intros state w1 Hr1.
  assert (random_only w w1) as Hr by (etrans; [by apply alloc_random_only|done]).
  apply wp_bind. unfold set_rng, rng_storage_initialized. rewrite Hk.
  destruct pthread_setspecific_ok; cbn.
  - apply next_random_wp. intros n w0 Hr0. apply HQ. etrans; [exact Hr|].
    destruct Hr0 as (?&?&?&?&?). by repeat split.
  - by apply HQ.
Qed.

(** The number drawn, with the call that draws it. *)
Lemma random64_drawn_wp Q w :
  pthread_key_create_ok = true ->
  (forall n w', jaeger_random64 w = Ok n w' -> random_only w w' -> random_bits n -> Q n w') ->
  wp jaeger_random64 Q w.
Proof.
  intros Hk HQ. eapply (wp_eqn _ (fun n w' => random_only w w' /\ random_bits n)).
  - by apply random64_wp.
  - intros n w' E [Hw Hn]. by apply HQ.
Qed.
End Facts.

(** ** Properties *)

(** A random number never faults while the thread-local key exists; allocation
    or storage failures give 0; and, because [rand_r] yields 31 bits, no
    number has bit 31 or bit 63 set: it is less than 2^63. *)
Theorem jaeger_random64_range (env : Env) w :
  rand_r_31 env -> pthread_key_create_ok = true ->
  exists n w', jaeger_random64 w = Ok n w' /\ random_bits n /\ random_only w w'.
Proof.
  intros Hr Hk.
  assert (wp jaeger_random64 (fun n w' => random_bits n /\ random_only w w') w) as H
    by (apply random64_wp; auto).
  apply wp_returns in H as (n & w' & ? & ? & ?). eauto.
Qed.

(** Seeding keeps the size of the seed; what the source gives is written from
    the start, and what it does not give stays as it was: nothing tells the
    caller. A source that gives all the bytes replaces the seed. *)
Theorem random_seed_spec (env : Env) seed w :
  exists bytes w', random_seed seed w = Ok bytes w' /\ length bytes = length seed /\
    bytes = match entropy_source, fopen_ok (lit "/dev/random") with
            | DEV_RANDOM, false => seed
            | _, _ => fill seed (entropy (w_entropy w) (length seed))
            end.
Proof.
  unfold random_seed, read_random_seed.
  destruct entropy_source; [| |destruct (fopen_ok (lit "/dev/random"))]; eexists _, _; split; try done;
    (split; [try apply length_fill|]; done).
Qed.

(** A source that gives nothing leaves the generator with the bytes that
    happened to be in its block. *)
Theorem unseeded_generator (env : Env) w :
  (forall n size, entropy n size = []) ->
  exists w', jaeger_rng_init w = Ok (u32 (le_value stale_state)) w'.
Proof.
  intros He. destruct (random_seed_spec env stale_state w) as (bytes & w' & Hr & _ & Hb).
  exists w'. unfold jaeger_rng_init, bind. rewrite Hr. cbn. rewrite Hb, He, fill_nothing.
  by destruct entropy_source, (fopen_ok (lit "/dev/random")).
Qed.

(** The flag and the storage say what the world says. *)
Definition globals_agree {env : Env} (g : rng_globals) (w : world) : Prop :=
  if once g then rng_storage g = ThreadLocal pthread_key_create_ok (w_rng w)
  else g = rng_globals_init /\ w_rng w = None.

(** The world with the generator of [g]. *)
Definition keep_generator (r : Z * rng_globals) : M Z :=
  put_rng (tl_value (rng_storage r.2));; ret r.1.

Lemma keep_none n w storage :
  w_rng w = None -> tl_value storage = None ->
  keep_generator (n, RngGlobals true storage) w = Ok n w.
Proof. intros Hw Hv. unfold keep_generator. cbn. rewrite Hv. destruct w. cbn in Hw. by subst. Qed.

Lemma next_of_keeps {env : Env} i v state w :
  (r ← next_of (ThreadLocal i v) state; keep_generator r) w = next_random state w.
Proof. unfold next_of, next_random. by destruct (random64 state) as [s n]. Qed.

Lemma rng_init_returns (env : Env) w :
  exists state w', jaeger_rng_init w = Ok state w' /\ w_rng w' = w_rng w.
Proof.
  unfold jaeger_rng_init, random_seed, read_random_seed, bind, read_entropy, ret.
  destruct entropy_source; [| |destruct (fopen_ok (lit "/dev/random"))]; eexists _, _; by split.
Qed.

Lemma malloc_returns (env : Env) w :
  exists granted w', jaeger_malloc w = Ok granted w' /\ w_rng w' = w_rng w.
Proof.
  unfold jaeger_malloc, jaeger_get_allocator, bind, get_world, ret. cbn.
  destruct (w_allocator w); eexists _, _; by split.
Qed.

(** A thread without a generator. *)
Lemma first_number (env : Env) w :
  w_rng w = None ->
  jaeger_random64 w =
  (r ← random64_with_storage (ThreadLocal pthread_key_create_ok None); keep_generator r) w.
Proof.
  intros Hw. unfold jaeger_random64, random64_with_storage, rng_storage_initialized,
    jaeger_rng_alloc, get_rng, get_world, bind. cbn [initialized].
  destruct (c_assert pthread_key_create_ok w) as [[] w0|] eqn:Ha; [|done].
  assert (w0 = w) as ->.
  { unfold c_assert, ret, fail in Ha. destruct pthread_key_create_ok; [|destruct ndebug]; congruence. }
  cbn [ret]. unfold ret at 1. rewrite Hw.
  replace (jaeger_thread_local_get_value _) with (@None Z) by
    (unfold jaeger_thread_local_get_value; by destruct pthread_key_create_ok).
  destruct (malloc_returns env w) as (granted & w1 & -> & Hw1). rewrite Hw in Hw1.
  destruct granted; [|unfold ret; by rewrite keep_none].
  destruct (rng_init_returns env w1) as (state & w2 & -> & Hw2). rewrite Hw1 in Hw2.
  unfold set_rng, rng_storage_initialized, jaeger_thread_local_set_value,
    jaeger_thread_local_check_initialized. cbn [initialized tl_value].
  destruct pthread_key_create_ok; cbn [negb andb];
    [|unfold ret; by rewrite keep_none].
  destruct pthread_setspecific_ok; [|unfold bind, jaeger_destructible_destroy, ret; by rewrite keep_none].
  unfold bind, jaeger_destructible_destroy, next_random, next_of, ret. cbn.
  by destruct (random64 state) as [s n].
Qed.

(** [jaeger_random64] with its [once] flag and thread-local storage draws the
    numbers that [jaeger_random64] over the world draws, fails where it fails,
    and leaves the generator it leaves. *)
Theorem random64_with_globals_refines (env : Env) g w :
  globals_agree g w -> (pthread_key_create_ok = false -> w_rng w = None) ->
  jaeger_random64 w = (r ← random64_with_globals g; keep_generator r) w.
Proof.
  intros Hg Hk.
  transitivity ((r ← random64_with_storage (ThreadLocal pthread_key_create_ok (w_rng w));
                 keep_generator r) w).
  - destruct (w_rng w) as [state|] eqn:Hw; [|by apply first_number].
    unfold jaeger_random64, random64_with_storage, rng_storage_initialized.
    destruct pthread_key_create_ok; [|by specialize (Hk eq_refl)].
    cbn. unfold bind at 1 2 3, get_rng, bind at 1, get_world, ret. cbn. rewrite Hw.
    symmetry. apply next_of_keeps.
  - unfold random64_with_globals, bind. unfold globals_agree in Hg.
    destruct (once g); [by rewrite Hg|]. destruct Hg as [-> ->].
    unfold init_rng, jaeger_thread_local_init, bind. by destruct pthread_key_create_ok.
Qed.

(** After [cleanup_rng] has run, at exit, a thread that draws a number fails the
    assertion: the [once] flag keeps the storage from being set up again. *)
Theorem random_after_cleanup_asserts (env : Env) storage w :
  ndebug = false -> initialized storage = true ->
  (storage ← cleanup_rng storage; random64_with_globals (RngGlobals true storage)) w
  = Fault AssertFailed.
Proof.
  intros Hn Hi. unfold cleanup_rng, jaeger_thread_local_destroy, random64_with_globals,
    random64_with_storage, c_assert, bind, ret. rewrite Hi, Hn. cbn.
  by destruct (tl_value storage).
Qed.

Lemma sample_rand_r : rand_r_31 sample_env.
Proof.
  intros s. cbn. pose proof (Z.mod_pos_bound (s * 1103515245 + 12345) (2 ^ 32) ltac:(lia)).
  split; [apply Z.div_pos; lia|]. apply Z.div_lt_upper_bound; lia.
Qed.

Lemma random64_with_globals_refines_witness :
  @jaeger_random64 sample_env initial_world =
  (r ← @random64_with_globals sample_env rng_globals_init; keep_generator r) initial_world.
Proof. apply (random64_with_globals_refines sample_env); [by split|done]. Defined.

(** Numbers from a generator that asks /dev/random and gets two bytes. *)
Example short_seed :
  le_value (fill [1; 2; 3; 4] [9; 8]) = 9 + 256 * (8 + 256 * (3 + 256 * (4 + 256 * 0))).
Proof. reflexivity. Qed.

Lemma jaeger_random64_range_witness :
  exists n w', @jaeger_random64 sample_env initial_world = Ok n w' /\ random_bits n /\
    random_only initial_world w'.
Proof.
  apply (jaeger_random64_range sample_env initial_world);
    [apply sample_rand_r|reflexivity].
Defined.
