(* ===== verification/TraceId.v ===== *)
(** * Trace identifiers (trace_id.c)

    128-bit trace identifiers: their text form, written with [snprintf] and
    read back with [strtoull], and their Protocol Buffers bytes. *)
From S2P Require Import Prelude Machine CString Siphash.

(** ** Definitions *)

Record jaeger_trace_id := TraceId { high : Z; low : Z }.

Definition JAEGERTRACINGC_TRACE_ID_INIT : jaeger_trace_id := TraceId 0 0.

#[export] Instance jaeger_trace_id_eq_dec : EqDecision jaeger_trace_id.
Proof. solve_decision. Defined.

Definition JAEGERTRACINGC_UINT64_MAX_STR_LEN : Z := 16.
Definition JAEGERTRACINGC_TRACE_ID_MAX_STR_LEN : Z :=
  JAEGERTRACINGC_UINT64_MAX_STR_LEN * 2.
Definition JAEGERTRACINGC_HEX_BASE : Z := 16.

(** The [n] bytes of a number in memory, on a little-endian host. *)
Fixpoint le_bytes (n : nat) (z : Z) : list Z :=
  match n with
  | O => []
  | S n => z mod 256 :: le_bytes n (z / 256)
  end.

Record ProtobufCBinaryData := BinaryData {
  pb_len : Z;
  pb_data : option (list Z);
}.

Section Definitions.
Context {env : Env}.

Definition jaeger_trace_id_to_protobuf (dst : ProtobufCBinaryData)
    (src : jaeger_trace_id) : M ProtobufCBinaryData :=
  c_assert (bool_decide (is_Some (pb_data dst)));;
  c_assert (pb_len dst =? 8 + 8);;
  match pb_data dst with
  | None => fail NullDeref
  | Some bytes =>
      if Z.of_nat (length bytes) <? 16 then fail OutOfBounds
      else ret (BinaryData (pb_len dst)
             (Some (le_bytes 8 (high src) ++ le_bytes 8 (low src) ++ drop 16 bytes)))
  end.

(** The returned length and the string left in the buffer. *)
Definition jaeger_trace_id_format (trace_id : jaeger_trace_id) (buffer_len : Z)
    : M (Z * option cstr) :=
  c_assert (buffer_len >=? 0);;
  if high trace_id =? 0 then ret (snprintf buffer_len (print_hex (low trace_id)))
  else ret (snprintf buffer_len (print_hex (high trace_id) ++ print_hex16 (low trace_id))).

(** [Some] is a [true] return with [*trace_id] assigned. *)
Definition jaeger_trace_id_scan (str : cstr) : option jaeger_trace_id :=
  let len := to_signed 32 (strlen str) in
  if len >? JAEGERTRACINGC_UINT64_MAX_STR_LEN * 2 then None
  else if len >? JAEGERTRACINGC_UINT64_MAX_STR_LEN then
    let high_len := Z.to_nat (len - JAEGERTRACINGC_UINT64_MAX_STR_LEN) in
    let buffer := take high_len str in
    let low_start := drop high_len str in
    match strtoull JAEGERTRACINGC_HEX_BASE buffer with
    | (high, []) =>
        match strtoull JAEGERTRACINGC_HEX_BASE low_start with
        | (low, []) => Some (TraceId high low)
        | _ => None
        end
    | _ => None
    end
  else
    match strtoull JAEGERTRACINGC_HEX_BASE str with
    | (low, []) => Some (TraceId 0 low)
    | _ => None
    end.
End Definitions.

(** ** Lemmas *)

Definition trace_id_wf (t : jaeger_trace_id) : Prop :=
  0 <= high t <= UINT64_MAX /\ 0 <= low t <= UINT64_MAX.

(** The text of a trace identifier. *)
Definition trace_id_text (t : jaeger_trace_id) : cstr :=
  if high t =? 0 then print_hex (low t)
  else print_hex (high t) ++ print_hex16 (low t).

Lemma trace_id_text_length t : (0 < length (trace_id_text t) <= 32)%nat.
Proof.
  unfold trace_id_text. pose proof (print_hex_length (low t)).
  pose proof (print_hex_length (high t)).
  destruct (high t =? 0); rewrite ?length_app; unfold print_hex16;
    rewrite ?length_digits; lia.
Qed.

Lemma trace_id_text_no_char t c : is_digit_of 16 c = false -> c ∉ trace_id_text t.
Proof.
  intros Hc. unfold trace_id_text. destruct (high t =? 0).
  - by apply print_hex_no_char.
  - rewrite elem_of_app. intros [H|H].
    + by apply print_hex_no_char in H.
    + by apply digits_no_char in H.
Qed.

Lemma strtoull_print_hex16 n :
  0 <= n <= UINT64_MAX -> strtoull 16 (print_hex16 n) = (n, []).
Proof.
  intros Hn. rewrite <- (app_nil_r (print_hex16 n)).
  assert (digits_value 16 (print_hex16 n) 0 = n) as Hv.
  { unfold print_hex16. rewrite digits_value_digits by lia.
    rewrite Z.mod_small; [lia|]. unfold UINT64_MAX in Hn.
    change (16 ^ Z.of_nat 16) with 18446744073709551616. lia. }
  assert (print_hex16 n <> []) as Hne.
  { intros H. apply (f_equal length) in H. unfold print_hex16 in H.
    by rewrite length_digits in H. }
  assert (Forall (fun c => is_digit_of 16 c = true) (print_hex16 n))
    by (apply digits_digits; lia).
  rewrite strtoull_digits; rewrite ?Hv; done || lia.
Qed.

Lemma trace_id_scan_text t : trace_id_wf t -> jaeger_trace_id_scan (trace_id_text t) = Some t.
Proof.
  intros [Hh Hl]. pose proof (trace_id_text_length t) as Hlen.
  unfold jaeger_trace_id_scan, strlen. rewrite to_signed_small by lia.
  unfold JAEGERTRACINGC_UINT64_MAX_STR_LEN, JAEGERTRACINGC_HEX_BASE.
  rewrite Z.gtb_ltb, (proj2 (Z.ltb_ge _ _)) by lia. rewrite Z.gtb_ltb.
  unfold trace_id_text in *. destruct t as [h l]. cbn [high low] in *.
  pose proof (print_hex_length h). pose proof (print_hex_length l).
  destruct (Z.eqb_spec h 0) as [->|Hz].
  - rewrite (proj2 (Z.ltb_ge _ _)) by lia.
    rewrite <- (app_nil_r (print_hex l)). by rewrite strtoull_print_hex by auto.
  - assert (length (print_hex16 l) = 16)%nat as H16 by apply length_digits.
    rewrite length_app, H16 in *. rewrite (proj2 (Z.ltb_lt _ _)) by lia.
    replace (Z.to_nat (Z.of_nat (length (print_hex h) + 16) - 16))
      with (length (print_hex h)) by lia.
    rewrite take_app_length, drop_app_length.
    rewrite <- (app_nil_r (print_hex h)). rewrite strtoull_print_hex by auto.
    by rewrite strtoull_print_hex16.
Qed.

Lemma trace_id_format_wp {env : Env} t buffer_len Q w :
  0 <= buffer_len ->
  Q (snprintf buffer_len (trace_id_text t)) w ->
  wp (jaeger_trace_id_format t buffer_len) Q w.
Proof.
  intros Hb HQ. unfold jaeger_trace_id_format. wp_step.
  apply wp_assert; [rewrite Z.geb_leb; lia|].
  unfold trace_id_text in HQ. by destruct (high t =? 0).
Qed.

Lemma length_le_bytes n z : length (le_bytes n z) = n.
Proof. revert z. induction n as [|n IH]; intros z; [done|]. cbn. by rewrite IH. Qed.

Lemma le_value_bytes n z : 0 <= z < 256 ^ Z.of_nat n -> le_value (le_bytes n z) = z.
Proof.
  revert z. induction n as [|n IH]; intros z Hz; [cbn in *; lia|].
  cbn [le_bytes le_value]. rewrite Nat2Z.inj_succ, Z.pow_succ_r in Hz by lia.
  pose proof (Z.div_mod z 256 ltac:(lia)).
  rewrite IH; [lia|]. split; [apply Z.div_pos; lia|apply Z.div_lt_upper_bound; lia].
Qed.

(** ** Properties *)

(** Formatting a trace identifier into a large enough buffer and scanning the
    text gives the identifier back; the returned length is the text's. *)
Theorem trace_id_roundtrip (env : Env) t buffer_len w :
  trace_id_wf t -> JAEGERTRACINGC_TRACE_ID_MAX_STR_LEN < buffer_len ->
  exists text, jaeger_trace_id_format t buffer_len w = Ok (lenZ text, Some text) w /\
    jaeger_trace_id_scan text = Some t /\ lenZ text < buffer_len.
Proof.
  intros Ht Hb. exists (trace_id_text t).
  unfold JAEGERTRACINGC_TRACE_ID_MAX_STR_LEN, JAEGERTRACINGC_UINT64_MAX_STR_LEN in Hb.
  pose proof (trace_id_text_length t) as Hl.
  split; [|split; [by apply trace_id_scan_text|lia]].
  assert (wp (jaeger_trace_id_format t buffer_len) (fun r w' =>
    r = (lenZ (trace_id_text t), Some (trace_id_text t)) /\ w' = w) w) as H.
  { apply trace_id_format_wp; [lia|]. split; [|done]. unfold snprintf.
    rewrite (proj2 (Z.leb_gt _ _)) by lia. by rewrite take_ge by lia. }
  by apply wp_returns in H as (? & ? & -> & -> & ->).
Qed.

Lemma trace_id_roundtrip_witness :
  exists text,
    @jaeger_trace_id_format sample_env (TraceId 1 2) 33 initial_world
      = Ok (lenZ text, Some text) initial_world /\
    jaeger_trace_id_scan text = Some (TraceId 1 2) /\ lenZ text < 33.
Proof.
  apply (trace_id_roundtrip sample_env (TraceId 1 2) 33 initial_world).
  - unfold trace_id_wf, UINT64_MAX. cbn. lia.
  - reflexivity.
Defined.

Example scan_bad : jaeger_trace_id_scan (lit "abcfg") = None.
Proof. reflexivity. Qed.

Example scan_bad_high : jaeger_trace_id_scan (lit "g0000000000000000") = None.
Proof. reflexivity. Qed.
