(* ===== verification/Endian.v ===== *)
(** * Byte order (endian.h)

    The macros that convert between the order of bytes of the host and the
    network's, on hosts of either order, and what they are for: a number that
    is converted and copied to memory, or copied from memory and converted, is
    its big-endian bytes, whatever the host. Propagation writes and reads the
    binary format in terms of [be_bytes] and [be_value]. *)
From S2P Require Import Prelude Machine Siphash TraceId.

(** ** Definitions *)

(** Big-endian bytes, and the number they stand for. *)
Definition be_bytes (n : nat) (z : Z) : list Z := rev (le_bytes n z).
Definition be_value (bs : list Z) : Z := le_value (rev bs).

Section Host.
(** [JAEGERTRACINGC_LITTLE_ENDIAN], which the build sets from the host. *)
Context (little : bool).

(** [memcpy] of an integer of [n] bytes to and from memory. *)
Definition store (n : nat) (z : Z) : list Z := if little then le_bytes n z else be_bytes n z.
Definition load (bs : list Z) : Z := if little then le_value bs else be_value bs.

(** [be64toh], [be32toh] and their like on a little-endian host: the bytes in
    the opposite order. *)
Definition BYTESWAP64 (x : Z) : Z := le_value (rev (le_bytes 8 x)).
Definition BYTESWAP32 (x : Z) : Z := le_value (rev (le_bytes 4 x)).

Definition BIG_ENDIAN_64_TO_HOST (x : Z) : Z := if little then BYTESWAP64 x else x.
Definition BIG_ENDIAN_32_TO_HOST (x : Z) : Z := if little then BYTESWAP32 x else x.

Definition HOST_TO_BIG_ENDIAN_64 (x : Z) : Z := BIG_ENDIAN_64_TO_HOST x.
Definition HOST_TO_BIG_ENDIAN_32 (x : Z) : Z := BIG_ENDIAN_32_TO_HOST x.
End Host.

(** ** Lemmas *)

Lemma le_bytes_value bs : Forall is_byte bs -> le_bytes (length bs) (le_value bs) = bs.
Proof.
  induction 1 as [|b bs Hb _ IH]; [done|]. unfold is_byte in Hb. cbn [length le_bytes le_value].
  replace (b + 256 * le_value bs) with (b + le_value bs * 256) by lia.
  rewrite Z.mod_add, Z.div_add, Z.mod_small, Z.div_small by lia. by rewrite Z.add_0_l, IH.
Qed.

Lemma le_bytes_are_bytes n z : Forall is_byte (le_bytes n z).
Proof.
  revert z. induction n as [|n IH]; intros z; constructor; [|apply IH].
  unfold is_byte. pose proof (Z.mod_pos_bound z 256 ltac:(lia)). lia.
Qed.

Lemma rev_bytes bs : Forall is_byte bs -> Forall is_byte (rev bs).
Proof. intros H. apply Forall_forall. intros b Hb. rewrite Forall_forall in H.
  apply H. by apply list_elem_of_In, in_rev, list_elem_of_In. Qed.

(** The bytes of a number swapped, as a number, have the bytes swapped. *)
Lemma swapped_bytes n z : le_bytes n (le_value (rev (le_bytes n z))) = rev (le_bytes n z).
Proof.
  rewrite <-(length_le_bytes n z) at 1. rewrite <-length_rev.
  apply le_bytes_value, rev_bytes, le_bytes_are_bytes.
Qed.

Lemma swap_twice n z :
  0 <= z < 256 ^ Z.of_nat n -> le_value (rev (le_bytes n (le_value (rev (le_bytes n z))))) = z.
Proof. intros Hz. by rewrite swapped_bytes, rev_involutive, le_value_bytes. Qed.

(** ** Properties *)

(** A number converted with [HOST_TO_BIG_ENDIAN] and copied to memory is its
    big-endian bytes there, on hosts of either order. *)
Theorem host_to_big_endian_stores (little : bool) z :
  store little 8 (HOST_TO_BIG_ENDIAN_64 little z) = be_bytes 8 z /\
  store little 4 (HOST_TO_BIG_ENDIAN_32 little z) = be_bytes 4 z.
Proof. destruct little; [|done]. split; apply swapped_bytes. Qed.

(** Big-endian bytes copied from memory and converted with
    [BIG_ENDIAN_TO_HOST] are the number they stand for, on hosts of either
    order. *)
Theorem big_endian_to_host_loads (little : bool) bs :
  Forall is_byte bs ->
  (length bs = 8%nat -> BIG_ENDIAN_64_TO_HOST little (load little bs) = be_value bs) /\
  (length bs = 4%nat -> BIG_ENDIAN_32_TO_HOST little (load little bs) = be_value bs).
Proof.
  intros Hb. destruct little; [|done]. unfold be_value. cbn -[le_value].
  split; intros Hl; unfold BYTESWAP64, BYTESWAP32; by rewrite <-Hl, le_bytes_value.
Qed.

(** Converting twice gives the number back. *)
Theorem byte_order_involutive (little : bool) z :
  (0 <= z < 2 ^ 64 -> BIG_ENDIAN_64_TO_HOST little (HOST_TO_BIG_ENDIAN_64 little z) = z) /\
  (0 <= z < 2 ^ 32 -> BIG_ENDIAN_32_TO_HOST little (HOST_TO_BIG_ENDIAN_32 little z) = z).
Proof. destruct little; [|done]. split; intros Hz; by apply swap_twice. Qed.

Lemma big_endian_to_host_loads_witness :
  BIG_ENDIAN_32_TO_HOST true (load true [0; 0; 1; 2]) = 258.
Proof.
  apply (big_endian_to_host_loads true [0; 0; 1; 2]); [|reflexivity].
  repeat constructor; lia.
Defined.
