(* ===== verification/DList.v ===== *)
(** * Doubly linked lists (list.c)

    Intrusive doubly linked lists at the level of pointers: a heap of nodes
    with their [prev] and [next] fields, the operations of list.c as the
    statements that read and write those fields, and the proof that they
    implement insertion, lookup and removal on sequences of nodes. *)
From S2P Require Import Prelude Machine.

(** ** Definitions *)

(** Node addresses; [None] is NULL. *)
Abbreviation ptr := (option nat).

Record jaeger_list_node := ListNode { prev : ptr; next : ptr }.

Abbreviation heap := (gmap nat jaeger_list_node).

Record jaeger_list := JList { head : ptr; size : Z }.

Definition JAEGERTRACINGC_LIST_INIT : jaeger_list := JList None 0.

Section Definitions.
Context {env : Env}.

(** [node->...]: a dereference needs a node at the address. *)
Definition deref (h : heap) (p : ptr) : M jaeger_list_node :=
  match p with
  | None => fail NullDeref
  | Some a => match h !! a with Some n => ret n | None => fail NullDeref end
  end.

Definition set_prev (h : heap) (p : ptr) (v : ptr) : M heap :=
  n ← deref h p;
  match p with
  | None => fail NullDeref
  | Some a => ret (<[a := ListNode v (next n)]> h)
  end.

Definition set_next (h : heap) (p : ptr) (v : ptr) : M heap :=
  n ← deref h p;
  match p with
  | None => fail NullDeref
  | Some a => ret (<[a := ListNode (prev n) v]> h)
  end.

(** [for (i = 0; i < index; i++) node = node->next]. *)
Fixpoint list_walk (h : heap) (index : nat) (node : ptr) : M ptr :=
  match index with
  | O => ret node
  | S index => n ← deref h node; list_walk h index (next n)
  end.

Definition jaeger_list_get (h : heap) (list : jaeger_list) (index : Z) : M ptr :=
  if index >=? size list then ret None
  else list_walk h (Z.to_nat index) (head list).

Definition jaeger_list_insert (h : heap) (list : jaeger_list) (index : Z) (elem : ptr)
    : M (heap * jaeger_list) :=
  c_assert (bool_decide (is_Some elem));;
  c_assert (index <=? size list);;
  if index =? 0 then
    h ← (match head list with
         | None =>
             h ← set_next h elem None;
             set_prev h elem None
         | Some _ =>
             first ← deref h (head list);
             c_assert (bool_decide (prev first = None));;
             h ← set_prev h elem None;
             h ← set_next h elem (head list);
             set_prev h (head list) elem
         end);
    ret (h, JList elem (u64 (size list + 1)))
  else
    node ← jaeger_list_get h list (index - 1);
    c_assert (bool_decide (is_Some node));;
    n ← deref h node;
    h ← set_next h elem (next n);
    h ← (match next n with
         | Some _ => set_prev h (next n) elem
         | None => ret h
         end);
    h ← set_next h node elem;
    h ← set_prev h elem node;
    ret (h, JList (head list) (u64 (size list + 1))).

Definition jaeger_list_append (h : heap) (list : jaeger_list) (elem : ptr)
    : M (heap * jaeger_list) :=
  jaeger_list_insert h list (size list) elem.

Definition jaeger_list_node_remove (h : heap) (list : jaeger_list) (node : ptr)
    : M (heap * jaeger_list) :=
  c_assert (bool_decide (is_Some node));;
  n ← deref h node;
  let new_head := if bool_decide (head list = node) then next n else head list in
  h ← (match next n with
       | Some _ => set_prev h (next n) (prev n)
       | None => ret h
       end);
  h ← (match prev n with
       | Some _ => set_next h (prev n) (next n)
       | None => ret h
       end);
  h ← set_next h node None;
  h ← set_prev h node None;
  ret (h, JList new_head (u64 (size list - 1))).

(** [destroy] is the node's own destructor. *)
Context (destroy : nat -> heap -> M heap).

Fixpoint list_clear_loop (fuel : nat) (h : heap) (node : ptr) : M heap :=
  match node with
  | None => ret h
  | Some a =>
      match fuel with
      | O => fail OutOfFuel
      | S fuel =>
          n ← deref h node;
          h ← destroy a h;
          list_clear_loop fuel h (next n)
      end
  end.

Definition jaeger_list_clear (h : heap) (list : option jaeger_list)
    : M (heap * option jaeger_list) :=
  match list with
  | None => ret (h, None)
  | Some list =>
      h ← list_clear_loop (base.size h) h (head list);
      ret (h, Some (JList None 0))
  end.
End Definitions.

(** ** Lemmas *)

(** The first node of a sequence followed by [nxt], and the last one of a
    sequence preceded by [prv]. *)
Definition first_of (xs : list nat) (nxt : ptr) : ptr :=
  match xs with [] => nxt | x :: _ => Some x end.
Definition last_of (xs : list nat) (prv : ptr) : ptr :=
  match last xs with Some x => Some x | None => prv end.

(** The nodes [xs] are linked in order, between [prv] and [nxt]. *)
Fixpoint dseg (h : heap) (prv : ptr) (xs : list nat) (nxt : ptr) : Prop :=
  match xs with
  | [] => True
  | x :: xs =>
      h !! x = Some (ListNode prv (first_of xs nxt)) /\ dseg h (Some x) xs nxt
  end.

(** [l] represents the sequence of nodes [xs] in the heap [h]. *)
Definition dlist (h : heap) (l : jaeger_list) (xs : list nat) : Prop :=
  head l = first_of xs None /\ dseg h None xs None /\ NoDup xs /\
  size l = lenZ xs.

(** Nodes outside [xs] are left alone. *)
Definition frame (h h' : heap) (xs : list nat) : Prop :=
  forall y, y ∉ xs -> h' !! y = h !! y.

Lemma first_of_app xs ys nxt : first_of (xs ++ ys) nxt = first_of xs (first_of ys nxt).
Proof. by destruct xs. Qed.

Lemma last_of_snoc xs x prv : last_of (xs ++ [x]) prv = Some x.
Proof. unfold last_of. by rewrite last_snoc. Qed.

Lemma last_of_cons x xs prv : last_of (x :: xs) prv = last_of xs (Some x).
Proof.
  unfold last_of. rewrite last_cons. by destruct (last xs).
Qed.

Lemma dseg_app h prv xs ys nxt :
  dseg h prv (xs ++ ys) nxt <->
  dseg h prv xs (first_of ys nxt) /\ dseg h (last_of xs prv) ys nxt.
Proof.
  revert prv. induction xs as [|x xs IH]; intros prv; cbn [app dseg].
  - cbn. tauto.
  - rewrite IH, first_of_app, last_of_cons. tauto.
Qed.

Lemma dseg_frame h h' prv xs nxt :
  dseg h prv xs nxt -> (forall x, x ∈ xs -> h' !! x = h !! x) -> dseg h' prv xs nxt.
Proof.
  revert prv. induction xs as [|x xs IH]; intros prv; cbn; [done|].
  intros [Hx Hxs] Hf. split.
  - rewrite Hf; [done|]. apply elem_of_cons. auto.
  - apply IH; [done|]. intros y Hy. apply Hf, elem_of_cons. auto.
Qed.

(** Relinking the first node of a segment to another predecessor. *)
Lemma dseg_relink h h' prv prv' x xs nxt :
  dseg h prv (x :: xs) nxt -> h' !! x = Some (ListNode prv' (first_of xs nxt)) ->
  (forall y, y ∈ xs -> h' !! y = h !! y) -> dseg h' prv' (x :: xs) nxt.
Proof. intros [_ Hxs] Hx Hf. split; [done|]. by eapply dseg_frame. Qed.

(** The node at the end of a segment linked to another successor. *)
Lemma dseg_relink_last h h' prv xs x nxt nxt' :
  dseg h prv (xs ++ [x]) nxt -> h' !! x = Some (ListNode (last_of xs prv) nxt') ->
  (forall y, y ∈ xs -> h' !! y = h !! y) -> dseg h' prv (xs ++ [x]) nxt'.
Proof.
  rewrite !dseg_app. intros [Hxs _] Hx Hf. cbn. split; [|done].
  by eapply dseg_frame.
Qed.

Section Facts.
Context {env : Env}.

Lemma wp_deref h a n Q w : h !! a = Some n -> Q n w -> wp (deref h (Some a)) Q w.
Proof. intros H HQ. unfold deref. by rewrite H. Qed.

Lemma wp_set_prev h a n v Q w :
  h !! a = Some n -> Q (<[a := ListNode v (next n)]> h) w -> wp (set_prev h (Some a) v) Q w.
Proof. intros H HQ. unfold set_prev. apply wp_bind. by eapply wp_deref. Qed.

Lemma wp_set_next h a n v Q w :
  h !! a = Some n -> Q (<[a := ListNode (prev n) v]> h) w -> wp (set_next h (Some a) v) Q w.
Proof. intros H HQ. unfold set_next. apply wp_bind. by eapply wp_deref. Qed.

Lemma list_walk_wp h prv xs ys nxt Q w :
  dseg h prv (xs ++ ys) nxt -> Q (first_of ys nxt) w ->
  wp (list_walk h (length xs) (first_of (xs ++ ys) nxt)) Q w.
Proof.
  revert prv. induction xs as [|x xs IH]; intros prv; cbn [app length list_walk].
  - intros _ HQ. by apply wp_ret.
  - intros [Hx Hxs] HQ. cbn [first_of]. apply wp_bind.
    eapply wp_deref; [done|]. cbn. by eapply IH.
Qed.

Lemma list_get_wp h l xs index Q w :
  dlist h l xs -> 0 <= index ->
  Q (xs !! Z.to_nat index) w -> wp (jaeger_list_get h l index) Q w.
Proof.
  intros (Hh & Hd & _ & Hs) Hi HQ. unfold jaeger_list_get. rewrite Hs, Hh.
  rewrite Z.geb_leb. destruct (Z.leb_spec (lenZ xs) index).
  - apply wp_ret. by rewrite lookup_ge_None_2 in HQ by lia.
  - rewrite (list_split_at xs (Z.to_nat index)) in Hd |- * at 1.
    replace (Z.to_nat index) with (length (take (Z.to_nat index) xs)) at 1 by lists.
    eapply list_walk_wp; [done|].
    destruct (xs !! Z.to_nat index) as [x|] eqn:Hx.
    + by rewrite (drop_S _ _ _ Hx).
    + apply lookup_ge_None in Hx. lia.
Qed.

Lemma u64_length (n : Z) : 0 <= n < UINT64_MAX -> u64 (n + 1) = n + 1.
Proof. unfold UINT64_MAX. intros. apply wrap_small. lia. Qed.

(** Looks up an address through a chain of updates at other addresses. *)
Ltac lookups :=
  repeat (rewrite lookup_insert_eq || (rewrite lookup_insert_ne by set_solver)); try done.

(** Inserting before every node. *)
Lemma insert_front_wp h l xs e n Q w :
  dlist h l xs -> e ∉ xs -> h !! e = Some n -> lenZ xs < UINT64_MAX ->
  (forall h' l', dlist h' l' (e :: xs) -> frame h h' (e :: xs) -> Q (h', l') w) ->
  wp (jaeger_list_insert h l 0 (Some e)) Q w.
Proof.
  intros (Hh & Hd & Hnd & Hs) He Hn Hb HQ. unfold jaeger_list_insert.
  rewrite Hh, Hs. do 2 wp_step. wp_step. apply wp_assert; [lia|].
  cbn [Z.eqb]. apply wp_bind. rewrite u64_length by lia.
  destruct xs as [|x xs]; cbn [first_of].
  - apply wp_bind. eapply wp_set_next; [done|]. eapply wp_set_prev; [lookups|].
    rewrite insert_insert_eq. apply wp_ret, HQ.
    + repeat split; cbn; [lookups|by apply NoDup_singleton].
    + intros y Hy. lookups.
  - destruct Hd as [Hx Hxs]. apply NoDup_cons in Hnd as [Hxx Hnd].
    apply wp_bind. eapply wp_deref; [done|]. wp_step. wp_step.
    apply wp_bind. eapply wp_set_prev; [done|].
    apply wp_bind. eapply wp_set_next; [lookups|].
    eapply wp_set_prev; [lookups|]. apply wp_ret, HQ.
    + repeat split; cbn; [lookups..| | |lia].
      * eapply dseg_frame; [done|]. intros y Hy. lookups.
      * by apply NoDup_cons_2; [|apply NoDup_cons_2].
    + intros y Hy. lookups.
Qed.

(** The links after [e] has been spliced in behind [a]. *)
Lemma dseg_spliced h h' ys a e zs :
  dseg h None (ys ++ a :: zs) None ->
  h' !! a = Some (ListNode (last_of ys None) (Some e)) ->
  h' !! e = Some (ListNode (Some a) (first_of zs None)) ->
  (forall z zs', zs = z :: zs' -> h' !! z = Some (ListNode (Some e) (first_of zs' None))) ->
  (forall y, y ∈ ys -> h' !! y = h !! y) ->
  (forall y, y ∈ tail zs -> h' !! y = h !! y) ->
  dseg h' None (ys ++ a :: e :: zs) None.
Proof.
  intros Hd Ha He Hz Hys Hzs. apply dseg_app in Hd as [Hdy [_ Hdz]].
  apply dseg_app. repeat split; cbn [first_of]; [|done..|].
  - by eapply dseg_frame.
  - destruct zs as [|z zs]; [done|]. eapply dseg_relink; [done|by apply Hz|done].
Qed.

Lemma NoDup_middle (ys : list nat) a zs :
  NoDup (ys ++ a :: zs) ->
  a ∉ ys /\ a ∉ zs /\ NoDup zs /\ forall y, y ∈ ys -> y ∉ zs.
Proof.
  intros Hnd. apply NoDup_app in Hnd as (_ & Hdis & Hnd).
  apply NoDup_cons in Hnd as [Haz Hndz]. set_solver.
Qed.

Lemma NoDup_splice (ys : list nat) a e zs :
  NoDup (ys ++ a :: zs) -> e ∉ ys ++ a :: zs -> NoDup (ys ++ a :: e :: zs).
Proof.
  intros Hnd He.
  assert (ys ++ a :: e :: zs ≡ₚ e :: ys ++ a :: zs) as ->.
  { rewrite (Permutation_swap e a zs). symmetry. apply Permutation_middle. }
  by apply NoDup_cons_2.
Qed.

(** Inserting after the node [a]. *)
Lemma insert_after_wp h l ys a zs e n Q w :
  dlist h l (ys ++ a :: zs) -> e ∉ ys ++ a :: zs -> h !! e = Some n ->
  lenZ (ys ++ a :: zs) < UINT64_MAX ->
  (forall h' l', dlist h' l' (ys ++ a :: e :: zs) ->
     frame h h' (e :: ys ++ a :: zs) -> Q (h', l') w) ->
  wp (jaeger_list_insert h l (lenZ ys + 1) (Some e)) Q w.
Proof.
  intros Hl He Hn Hb HQ. pose proof Hl as (Hh & Hd & Hnd & Hs).
  unfold jaeger_list_insert. rewrite Hs. rewrite length_app in *. cbn [length] in *.
  do 3 wp_step. apply wp_assert; [apply Z.leb_le; lia|].
  rewrite (proj2 (Z.eqb_neq _ _)) by lia. apply wp_bind.
  eapply (list_get_wp _ _ _ _ _ _ Hl); [lia|].
  replace (Z.to_nat (lenZ ys + 1 - 1)) with (length ys) by lia.
  rewrite list_lookup_middle by done. wp_step. wp_step.
  destruct (NoDup_middle _ _ _ Hnd) as (Hay & Haz & Hndz & Hyz).
  pose proof (proj2 (proj1 (dseg_app _ _ _ _ _) Hd)) as [Ha Hzs].
  apply wp_bind. eapply wp_deref; [done|]. cbn [next].
  apply wp_bind. eapply wp_set_next; [done|]. rewrite u64_length by lia.
  assert (dlist_ok : forall h', dseg h' None (ys ++ a :: e :: zs) None ->
    dlist h' (JList (head l) (Z.of_nat (length ys + S (length zs)) + 1)) (ys ++ a :: e :: zs)).
  { intros h' Hd'. split; [by rewrite Hh; destruct ys|]. split; [done|].
    split; [by apply NoDup_splice|]. cbn [size]. rewrite length_app. cbn. lia. }
  apply wp_bind. destruct zs as [|z zs]; cbn [first_of].
  - apply wp_ret, wp_bind. eapply wp_set_next; [by lookups|].
    apply wp_bind. eapply wp_set_prev; [by lookups|]. apply wp_ret, HQ.
    + apply dlist_ok, (dseg_spliced h); try done; intros; cbn in *; lookups.
    + intros y Hy. lookups.
  - destruct Hzs as [Hz Hzs]. apply NoDup_cons in Hndz as [Hzz _].
    eapply wp_set_prev; [by lookups|].
    apply wp_bind. eapply wp_set_next; [by lookups|].
    apply wp_bind. eapply wp_set_prev; [by lookups|]. apply wp_ret, HQ.
    + apply dlist_ok, (dseg_spliced h); try done; intros; cbn in *; simplify_eq; lookups.
    + intros y Hy. lookups.
Qed.

Lemma snoc_cases (xs : list nat) : xs = [] \/ exists ys y, xs = ys ++ [y].
Proof. induction xs as [|y ys _] using rev_ind; eauto. Qed.

Lemma list_insert_wp h l xs (index : nat) e n Q w :
  dlist h l xs -> e ∉ xs -> h !! e = Some n -> (index <= length xs)%nat -> lenZ xs < UINT64_MAX ->
  (forall h' l', dlist h' l' (take index xs ++ e :: drop index xs) -> frame h h' (e :: xs) ->
     Q (h', l') w) ->
  wp (jaeger_list_insert h l (Z.of_nat index) (Some e)) Q w.
Proof.
  intros Hl He Hn Hi Hb HQ. destruct index as [|i]; [by eapply insert_front_wp|].
  destruct (lookup_lt_is_Some_2 xs i) as [a Ha]; [lia|].
  rewrite (take_S_r _ _ _ Ha), <- app_assoc in HQ. cbn [app] in HQ.
  replace (Z.of_nat (S i)) with (lenZ (take i xs) + 1) by lists.
  pose proof (take_drop_middle _ _ _ Ha) as Hxs.
  eapply insert_after_wp; rewrite ?Hxs; done.
Qed.

Lemma list_append_wp h l xs e n Q w :
  dlist h l xs -> e ∉ xs -> h !! e = Some n -> lenZ xs < UINT64_MAX ->
  (forall h' l', dlist h' l' (xs ++ [e]) -> frame h h' (e :: xs) -> Q (h', l') w) ->
  wp (jaeger_list_append h l (Some e)) Q w.
Proof.
  intros Hl He Hn Hb HQ. unfold jaeger_list_append.
  destruct Hl as (Hh & Hd & Hnd & Hs) eqn:E. clear E.
  destruct (snoc_cases xs) as [->|(ys & a & ->)]; rewrite Hs.
  - cbn. by eapply (insert_front_wp h l []).
  - replace (lenZ (ys ++ [a])) with (lenZ ys + 1) by (rewrite length_app; cbn; lia).
    eapply (insert_after_wp h l ys a []); [done..|].
    intros h' l' ? ?. apply HQ; [|done]. by rewrite <- app_assoc.
Qed.

(** The links after [a] has been unlinked. *)
Lemma dseg_unlinked h h' ys a zs :
  dseg h None (ys ++ a :: zs) None ->
  (forall ys' y, ys = ys' ++ [y] ->
     h' !! y = Some (ListNode (last_of ys' None) (first_of zs None)) /\
     forall x, x ∈ ys' -> h' !! x = h !! x) ->
  (forall z zs', zs = z :: zs' ->
     h' !! z = Some (ListNode (last_of ys None) (first_of zs' None)) /\
     forall x, x ∈ zs' -> h' !! x = h !! x) ->
  dseg h' None (ys ++ zs) None.
Proof.
  intros Hd Hy Hz. apply dseg_app in Hd as [Hdy [_ Hdz]]. apply dseg_app. split.
  - destruct (snoc_cases ys) as [->|(ys' & y & ->)]; [done|].
    destruct (Hy ys' y eq_refl) as [Hl Hf]. by eapply dseg_relink_last.
  - destruct zs as [|z zs]; [done|]. destruct (Hz z zs eq_refl) as [Hl Hf].
    by eapply dseg_relink.
Qed.

Lemma remove_head (ys : list nat) a zs :
  a ∉ ys ->
  (if bool_decide (first_of (ys ++ a :: zs) None = Some a) then first_of zs None
   else first_of (ys ++ a :: zs) None) = first_of (ys ++ zs) None.
Proof.
  intros Ha. destruct ys as [|y ys]; cbn.
  - by rewrite bool_decide_eq_true_2.
  - rewrite bool_decide_eq_false_2; [done|]. intros [= ->]. set_solver.
Qed.

Lemma NoDup_snoc_app (ys : list nat) y zs : NoDup ((ys ++ [y]) ++ zs) -> y ∉ ys.
Proof. rewrite <- app_assoc. cbn. by intros [? _]%NoDup_middle. Qed.

(** The writes to the successor and to the predecessor of a removed node. *)
Ltac unlink_next Hzs Hndz :=
  let Hz := fresh "Hz" in let Hzz := fresh "Hzz" in
  destruct Hzs as [Hz Hzs]; apply NoDup_cons in Hndz as [Hzz _];
  eapply wp_set_prev; [by lookups|]; cbn [next].

Ltac unlink_prev Hys Hnd :=
  let Hy := fresh "Hy" in let Hn := fresh "Hn" in
  pose proof (NoDup_snoc_app _ _ _ Hnd) as Hn;
  pose proof (proj2 (proj1 (dseg_app _ _ _ _ _) Hys)) as [Hy _];
  apply wp_bind; eapply wp_set_next; [by lookups|]; cbn [prev first_of].

Ltac unlink_frame := let x := fresh "x" in let Hx := fresh "Hx" in
  intros x Hx; lookups.

Lemma node_remove_wp h l ys a zs Q w :
  dlist h l (ys ++ a :: zs) -> lenZ (ys ++ a :: zs) <= UINT64_MAX ->
  (forall h' l', dlist h' l' (ys ++ zs) -> frame h h' (ys ++ a :: zs) ->
     h' !! a = Some (ListNode None None) -> Q (h', l') w) ->
  wp (jaeger_list_node_remove h l (Some a)) Q w.
Proof.
  intros (Hh & Hd & Hnd & Hs) Hb HQ. unfold jaeger_list_node_remove.
  destruct (NoDup_middle _ _ _ Hnd) as (Hay & Haz & Hndz & Hyz).
  pose proof (proj2 (proj1 (dseg_app _ _ _ _ _) Hd)) as [Ha Hzs].
  pose proof (proj1 (proj1 (dseg_app _ _ _ _ _) Hd)) as Hys.
  rewrite Hh, Hs. wp_step. wp_step. apply wp_bind. eapply wp_deref; [done|].
  cbn [next prev]. rewrite remove_head by done.
  rewrite length_app in *. cbn [length] in *.
  replace (u64 (Z.of_nat (length ys + S (length zs)) - 1)) with (lenZ (ys ++ zs)).
  2: { rewrite length_app. unfold UINT64_MAX in Hb. rewrite wrap_small; lia. }
  assert (dlist_ok : forall h', dseg h' None (ys ++ zs) None ->
    dlist h' (JList (first_of (ys ++ zs) None) (lenZ (ys ++ zs))) (ys ++ zs)).
  { intros h' Hd'. repeat split; [done|]. apply NoDup_app in Hnd as (? & _ & _).
    apply NoDup_app. repeat split; done. }
  assert (ends : forall h2, h2 !! a = Some (ListNode (last_of ys None) (first_of zs None)) ->
    dseg h2 None (ys ++ zs) None -> frame h h2 (ys ++ a :: zs) ->
    wp (' h3 ← set_next h2 (Some a) None;
        ' h4 ← set_prev h3 (Some a) None;
        ret (h4, JList (first_of (ys ++ zs) None) (lenZ (ys ++ zs)))) Q w).
  { intros h2 Ha2 Hd2 Hf2. apply wp_bind. eapply wp_set_next; [done|].
    apply wp_bind. eapply wp_set_prev; [by lookups|]. apply wp_ret, HQ; [|..|lookups].
    - apply dlist_ok. eapply dseg_frame; [exact Hd2|]. intros x Hx. lookups.
    - intros x Hx. rewrite <- Hf2 by done. lookups. }
  clear HQ dlist_ok. apply wp_bind.
  destruct (snoc_cases ys) as [->|(ys' & y & ->)]; destruct zs as [|z zs];
    cbn [first_of]; rewrite ?last_of_snoc; cbn [last_of last].
  - apply wp_ret, wp_bind, wp_ret. by apply ends.
  - unlink_next Hzs Hndz. apply wp_bind, wp_ret, ends; [by lookups| |unlink_frame].
    apply (dseg_unlinked h _ [] a); [done|by intros [] ?|].
    intros ? ? [= <- <-]. split; [by lookups|]. intros x Hx. lookups.
  - apply wp_ret. unlink_prev Hys Hnd.
    apply ends; [by lookups| |unlink_frame].
    apply (dseg_unlinked h _ (ys' ++ [y]) a []); [done| |done].
    intros ? ? [-> ->]%app_inj_tail. split; [by lookups|]. intros x Hx. lookups.
  - unlink_next Hzs Hndz. unlink_prev Hys Hnd.
    apply ends; [by lookups| |unlink_frame].
    apply (dseg_unlinked h _ (ys' ++ [y]) a (z :: zs)); [done|..].
    + intros ? ? [-> ->]%app_inj_tail. split; [by lookups|]. intros x Hx. lookups.
    + intros ? ? [= <- <-]. rewrite last_of_snoc. split; [by lookups|].
      intros x Hx. lookups.
Qed.

Lemma dseg_dom h prv xs nxt x : dseg h prv xs nxt -> x ∈ xs -> x ∈ dom h.
Proof.
  revert prv. induction xs as [|y ys IH]; intros prv; [set_solver|].
  intros [Hy Hys] [->|Hx]%elem_of_cons; [by apply elem_of_dom|by eapply IH].
Qed.

(** *** Histories of operations *)

Inductive list_op :=
  | OpInsert (index : nat) (e : nat)
  | OpAppend (e : nat)
  | OpRemove (a : nat)
  | OpGet (index : nat).

(** A history on the heap: what the lookups return, the heap and the list. *)
Fixpoint list_run (ops : list list_op) (h : heap) (l : jaeger_list)
    : M (list ptr * heap * jaeger_list) :=
  match ops with
  | [] => ret ([], h, l)
  | OpInsert index e :: ops =>
      ' (h, l) ← jaeger_list_insert h l (Z.of_nat index) (Some e); list_run ops h l
  | OpAppend e :: ops => ' (h, l) ← jaeger_list_append h l (Some e); list_run ops h l
  | OpRemove a :: ops => ' (h, l) ← jaeger_list_node_remove h l (Some a); list_run ops h l
  | OpGet index :: ops =>
      p ← jaeger_list_get h l (Z.of_nat index);
      ' (ps, h, l) ← list_run ops h l;
      ret (p :: ps, h, l)
  end.

(** The same history on a sequence; [None]: an operation has no meaning there
    (a node inserted twice, a position beyond the end, a node not in the list). *)
Fixpoint seq_run (ops : list list_op) (xs : list nat) : option (list ptr * list nat) :=
  match ops with
  | [] => Some ([], xs)
  | OpInsert index e :: ops =>
      if bool_decide (e ∉ xs /\ (index <= length xs)%nat)
      then seq_run ops (take index xs ++ e :: drop index xs) else None
  | OpAppend e :: ops => if bool_decide (e ∉ xs) then seq_run ops (xs ++ [e]) else None
  | OpRemove a :: ops =>
      if bool_decide (a ∈ xs) then seq_run ops (filter (fun x => x <> a) xs) else None
  | OpGet index :: ops =>
      match seq_run ops xs with Some (ps, xs') => Some (xs !! index :: ps, xs') | None => None end
  end.

(** The nodes a history inserts. *)
Definition op_nodes (op : list_op) : list nat :=
  match op with OpInsert _ e | OpAppend e => [e] | _ => [] end.
Definition ops_nodes (ops : list list_op) : list nat := concat (map op_nodes ops).

Lemma filter_others (ys : list nat) a zs :
  NoDup (ys ++ a :: zs) -> filter (fun x => x <> a) (ys ++ a :: zs) = ys ++ zs.
Proof.
  intros Hnd. destruct (NoDup_middle _ _ _ Hnd) as (Hay & Haz & _).
  assert (forall l : list nat, a ∉ l -> filter (fun x => x <> a) l = l) as Hid.
  { intros l. induction l as [|x l IH]; intros Hl; [done|].
    apply not_elem_of_cons in Hl as [? ?]. rewrite filter_cons_True by done. by rewrite IH. }
  rewrite filter_app, filter_cons_False by (intros H; by apply H). by rewrite !Hid.
Qed.

(** What the operations leave in place: the nodes they touch stay allocated. *)
Definition same_nodes (h h' : heap) : Prop := forall x, is_Some (h !! x) -> is_Some (h' !! x).

Lemma dlist_alloc h l xs x : dlist h l xs -> x ∈ xs -> is_Some (h !! x).
Proof. intros (_ & Hd & _) Hx. apply elem_of_dom. by eapply dseg_dom. Qed.

Lemma frame_same_nodes h h' l' xs ys :
  frame h h' ys -> dlist h' l' xs -> (forall y, y ∈ ys -> y ∈ xs \/ is_Some (h' !! y)) ->
  same_nodes h h'.
Proof.
  intros Hf Hl Hy x Hx. destruct (decide (x ∈ ys)) as [Hin|Hout]; [|by rewrite Hf].
  destruct (Hy x Hin); [by eapply dlist_alloc|done].
Qed.

Lemma list_run_wp ops h l xs ps xs' Q w :
  dlist h l xs -> seq_run ops xs = Some (ps, xs') ->
  (forall e, e ∈ ops_nodes ops -> is_Some (h !! e)) -> lenZ xs + lenZ ops < UINT64_MAX ->
  (forall h' l', dlist h' l' xs' -> frame h h' (ops_nodes ops ++ xs) -> Q (ps, h', l') w) ->
  wp (list_run ops h l) Q w.
Proof.
  revert h l xs ps xs' Q. induction ops as [|op ops IH];
    intros h l xs ps xs' Q Hl Hseq Hall Hlen HQ; cbn [list_run seq_run length] in *.
  { injection Hseq as <- <-. by apply wp_ret, HQ. }
  assert (forall h1 l1 xs1, dlist h1 l1 xs1 -> seq_run ops xs1 = Some (ps, xs') ->
    frame h h1 (op_nodes op ++ xs) -> same_nodes h h1 ->
    (forall x, x ∈ xs1 -> x ∈ op_nodes op ++ xs) -> lenZ xs1 <= lenZ xs + 1 ->
    wp (list_run ops h1 l1) Q w) as Hnext.
  { intros h1 l1 xs1 Hl1 Hs1 Hf1 Hn1 Hin1 Hlen1. eapply IH; [done|done| |lia|].
    - intros e He. apply Hn1, Hall. unfold ops_nodes. cbn. apply elem_of_app. by right.
    - intros h2 l2 Hl2 Hf2. apply HQ; [done|]. intros x Hx. unfold ops_nodes in *. cbn in Hx.
      rewrite !not_elem_of_app in Hx. destruct Hx as [[Ho Hos] Hxs].
      rewrite Hf2, Hf1; [done|by apply not_elem_of_app|].
      apply not_elem_of_app. split; [done|]. intros Hx%Hin1. apply elem_of_app in Hx. tauto. }
  assert (forall e, e ∈ op_nodes op -> is_Some (h !! e)) as Hop.
  { intros e He. apply Hall. unfold ops_nodes. cbn. apply elem_of_app. by left. }
  destruct op as [index e|e|a|index]; cbn [op_nodes] in *.
  - case_bool_decide as Hv; [|done]. destruct Hv as [He Hi].
    destruct (Hop e) as [n Hn]; [by left|]. wp_step.
    eapply list_insert_wp; [done|done|done|done|lia|]. intros h1 l1 Hl1 Hf1.
    assert (forall x, x ∈ take index xs ++ e :: drop index xs <-> x ∈ e :: xs) as Hin.
    { intros x. rewrite <- (take_drop index xs) at 3. set_solver. }
    eapply Hnext; [done|done|done| |set_solver|].
    + eapply frame_same_nodes; [done..|]. intros y Hy. left. by apply Hin.
    + rewrite length_app. cbn [length]. rewrite length_take, length_drop. lia.
  - case_bool_decide as He; [|done]. destruct (Hop e) as [n Hn]; [by left|]. wp_step.
    eapply list_append_wp; [done|done|done|lia|]. intros h1 l1 Hl1 Hf1.
    eapply Hnext; [done|done|done| |set_solver|rewrite length_app; cbn; lia].
    eapply frame_same_nodes; [done..|]. intros y Hy. left. set_solver.
  - case_bool_decide as Ha; [|done]. apply list_elem_of_split in Ha as (ys & zs & ->). wp_step.
    pose proof Hl as (_ & _ & Hnd & _). rewrite filter_others in Hseq by done.
    eapply node_remove_wp; [done|lia|]. intros h1 l1 Hl1 Hf1 Ha1.
    eapply Hnext; [done|done|done| |set_solver|rewrite !length_app; cbn; lia].
    eapply frame_same_nodes; [done..|]. intros y [Hy|[->|Hy]%elem_of_cons]%elem_of_app;
      [set_solver|right; by eexists|set_solver].
  - destruct (seq_run ops xs) as [[ps1 xs1]|] eqn:Es; [|done]. injection Hseq as <- <-. wp_step.
    eapply list_get_wp; [done|lia|]. rewrite Nat2Z.id. wp_step.
    eapply IH; [done|exact Es|done|lia|]. intros h1 l1 Hl1 Hf1. apply wp_ret. by apply HQ.
Qed.

(** Documented behaviour of a node's destructor: it frees the node and leaves
    the other nodes alone. *)
Definition frees_node (destroy : nat -> heap -> M heap) : Prop :=
  forall a h w, destroy a h w = Ok (delete a h) w.

Lemma list_clear_loop_wp destroy h prv xs fuel Q w :
  frees_node destroy -> dseg h prv xs None -> NoDup xs -> (length xs <= fuel)%nat ->
  (forall h', frame h h' xs -> (forall x, x ∈ xs -> h' !! x = None) -> Q h' w) ->
  wp (list_clear_loop destroy fuel h (first_of xs None)) Q w.
Proof.
  intros Hfree. revert h prv xs Q. induction fuel as [|fuel IH]; intros h prv [|x xs] Q;
    cbn [first_of list_clear_loop dseg length]; intros Hd Hnd Hf HQ.
  1,3: apply wp_ret, HQ; [done|intros x Hx; by apply not_elem_of_nil in Hx].
  - lia.
  - destruct Hd as [Hx Hxs]. apply NoDup_cons in Hnd as [Hxx Hnd].
    apply wp_bind. eapply wp_deref; [done|]. apply wp_bind.
    unfold wp at 1. rewrite Hfree. cbn [next]. eapply IH; [|done|lia|].
    + eapply dseg_frame; [done|]. intros y Hy. rewrite lookup_delete_ne by set_solver. done.
    + intros h' Hframe Hgone. apply HQ.
      * intros y Hy. rewrite Hframe by set_solver. by rewrite lookup_delete_ne by set_solver.
      * intros y [->|Hy]%elem_of_cons; [|by apply Hgone].
        rewrite Hframe by done. apply lookup_delete_eq.
Qed.

Lemma dseg_length h prv xs nxt :
  dseg h prv xs nxt -> NoDup xs -> (length xs <= base.size h)%nat.
Proof.
  intros Hd Hnd. rewrite <- (size_list_to_set (C := gset nat)), <- size_dom by done.
  apply subseteq_size. intros x Hx%elem_of_list_to_set. by eapply dseg_dom.
Qed.
End Facts.

(** ** Properties *)

(** Insertion at a position not beyond the end splices the node into the
    sequence there, and leaves every other node of the heap alone. *)
Theorem jaeger_list_insert_spec (env : Env) h l xs (index : nat) e w :
  dlist h l xs -> e ∉ xs -> is_Some (h !! e) -> (index <= length xs)%nat ->
  lenZ xs < UINT64_MAX ->
  exists h' l', jaeger_list_insert h l (Z.of_nat index) (Some e) w = Ok (h', l') w /\
    dlist h' l' (take index xs ++ e :: drop index xs) /\ frame h h' (e :: xs).
Proof.
  intros Hl He [n Hn] Hi Hb.
  assert (wp (jaeger_list_insert h l (Z.of_nat index) (Some e)) (fun r w' => w' = w /\
    dlist r.1 r.2 (take index xs ++ e :: drop index xs) /\ frame h r.1 (e :: xs)) w) as H
    by by eapply list_insert_wp.
  apply wp_returns in H as ([h' l'] & w' & ? & -> & ? & ?). eauto.
Qed.

(** Removing a node of the list, wherever it is, unlinks exactly that node:
    the others keep their order and links, the size goes down, and the removed
    node's own links are cleared. *)
Theorem jaeger_list_node_remove_spec (env : Env) h l ys a zs w :
  dlist h l (ys ++ a :: zs) -> lenZ (ys ++ a :: zs) <= UINT64_MAX ->
  exists h' l', jaeger_list_node_remove h l (Some a) w = Ok (h', l') w /\
    dlist h' l' (ys ++ zs) /\ frame h h' (ys ++ a :: zs) /\
    h' !! a = Some (ListNode None None).
Proof.
  intros Hl Hb.
  assert (wp (jaeger_list_node_remove h l (Some a)) (fun r w' => w' = w /\
    dlist r.1 r.2 (ys ++ zs) /\ frame h r.1 (ys ++ a :: zs) /\
    r.1 !! a = Some (ListNode None None)) w) as H by (by eapply node_remove_wp).
  apply wp_returns in H as ([h' l'] & w' & ? & -> & ?). naive_solver.
Qed.

(** C36: Refinement: any history of insertions, removals and lookups that makes sense
    on sequences returns what it returns there, whatever the addresses of the
    nodes; it leaves a list of the final sequence, linked in both directions,
    and no node changed that it was not given. *)
Theorem jaeger_list_refines_sequence (env : Env) ops h l xs ps xs' w :
  dlist h l xs -> seq_run ops xs = Some (ps, xs') ->
  (forall e, e ∈ ops_nodes ops -> is_Some (h !! e)) -> lenZ xs + lenZ ops < UINT64_MAX ->
  exists h' l', list_run ops h l w = Ok (ps, h', l') w /\ dlist h' l' xs' /\
    frame h h' (ops_nodes ops ++ xs).
Proof.
  intros Hl Hs Hall Hlen.
  assert (wp (list_run ops h l) (fun r w' => w' = w /\ r.1.1 = ps /\ dlist r.1.2 r.2 xs' /\
    frame h r.1.2 (ops_nodes ops ++ xs)) w) as H by by eapply list_run_wp.
  apply wp_returns in H as ([[ps1 h'] l'] & w' & E & -> & <- & ?). by exists h', l'.
Qed.

(** Clearing a list terminates, destroys each of its nodes once (the next
    node is read before the current one is freed) and no other node, and
    leaves an empty list. *)
Theorem jaeger_list_clear_spec (env : Env) destroy h l xs w :
  frees_node destroy -> dlist h l xs ->
  exists h', jaeger_list_clear destroy h (Some l) w
      = Ok (h', Some JAEGERTRACINGC_LIST_INIT) w /\
    frame h h' xs /\ forall x, x ∈ xs -> h' !! x = None.
Proof.
  intros Hfree (Hh & Hd & Hnd & Hs).
  assert (wp (jaeger_list_clear destroy h (Some l)) (fun r w' => w' = w /\
    r.2 = Some JAEGERTRACINGC_LIST_INIT /\ frame h r.1 xs /\
    forall x, x ∈ xs -> r.1 !! x = None) w) as H.
  { unfold jaeger_list_clear. rewrite Hh. apply wp_bind.
    eapply list_clear_loop_wp; [done..|by eapply dseg_length|].
    intros h' ? ?. apply wp_ret. by repeat split. }
  apply wp_returns in H as ([h' l'] & w' & ? & -> & Hl' & ?). cbn in Hl'. subst. eauto.
Qed.

(** Three linked nodes 1, 2, 3 and a free node 7. *)
Definition sample_heap : heap :=
  list_to_map [(1%nat, ListNode None (Some 2%nat)); (2%nat, ListNode (Some 1%nat) (Some 3%nat));
               (3%nat, ListNode (Some 2%nat) None); (7%nat, ListNode None None)].
Definition sample_list : jaeger_list := JList (Some 1%nat) 3.

Lemma sample_dlist : dlist sample_heap sample_list [1%nat; 2%nat; 3%nat].
Proof.
  split; [reflexivity|]. split; [repeat split|]. split; [|reflexivity].
  repeat constructor; set_solver.
Qed.

Lemma jaeger_list_insert_spec_witness :
  exists h' l', @jaeger_list_insert sample_env sample_heap sample_list 2 (Some 7%nat)
      initial_world = Ok (h', l') initial_world /\
    dlist h' l' [1%nat; 2%nat; 7%nat; 3%nat] /\
    frame sample_heap h' [7%nat; 1%nat; 2%nat; 3%nat].
Proof.
  apply (jaeger_list_insert_spec sample_env sample_heap sample_list [1%nat; 2%nat; 3%nat] 2 7).
  - apply sample_dlist.
  - set_solver.
  - vm_compute. eauto.
  - cbn. lia.
  - reflexivity.
Defined.

Lemma jaeger_list_node_remove_spec_witness :
  exists h' l', @jaeger_list_node_remove sample_env sample_heap sample_list (Some 2%nat)
      initial_world = Ok (h', l') initial_world /\
    dlist h' l' [1%nat; 3%nat] /\ frame sample_heap h' [1%nat; 2%nat; 3%nat] /\
    h' !! 2%nat = Some (ListNode None None).
Proof.
  apply (jaeger_list_node_remove_spec sample_env sample_heap sample_list [1%nat] 2 [3%nat]).
  - apply sample_dlist.
  - done.
Defined.

Lemma jaeger_list_clear_spec_witness :
  exists h', @jaeger_list_clear (fun a h => ret (delete a h)) sample_heap
      (Some sample_list) initial_world = Ok (h', Some JAEGERTRACINGC_LIST_INIT) initial_world /\
    frame sample_heap h' [1%nat; 2%nat; 3%nat] /\
    forall x, x ∈ [1%nat; 2%nat; 3%nat] -> h' !! x = None.
Proof.
  apply (jaeger_list_clear_spec sample_env (fun a h => ret (delete a h))).
  - done.
  - apply sample_dlist.
Defined.

Definition sample_ops : list list_op := [OpInsert 2 7; OpGet 2; OpRemove 1; OpGet 0; OpGet 5].

Lemma jaeger_list_refines_sequence_witness :
  exists h' l', @list_run sample_env sample_ops sample_heap sample_list initial_world
      = Ok ([Some 7; Some 2; None]%nat, h', l') initial_world /\ dlist h' l' [2; 7; 3]%nat /\
    frame sample_heap h' [7; 1; 2; 3]%nat.
Proof.
  apply (jaeger_list_refines_sequence sample_env sample_ops sample_heap sample_list [1; 2; 3]%nat).
  - apply sample_dlist.
  - reflexivity.
  - intros e [->|He]%elem_of_cons; [by eexists|by apply not_elem_of_nil in He].
  - unfold UINT64_MAX. cbn. lia.
Defined.
