(* ===== verification/Hashtable.v ===== *)
(** * Key-value pairs and the hash table (key_value.c, hashtable.c)

    The chained hash table that holds baggage. A bucket is the sequence of the
    pairs of its linked list (DList.v relates the list operations used here,
    append, removal of a node and clearing, to list.c); the buckets of a
    destroyed table are NULL. *)
From S2P Require Import Prelude Machine CString Siphash Float Random.

(** ** Definitions *)

Record jaeger_key_value := KeyValue { key : cstr; kv_value : cstr }.

Record jaeger_hashtable := Hashtable {
  ht_size : Z;
  ht_order : Z;
  ht_buckets : option (list (list jaeger_key_value));
}.

Definition JAEGERTRACINGC_HASHTABLE_INIT_ORDER : Z := 4.
Definition JAEGERTRACINGC_HASHTABLE_INIT : jaeger_hashtable := Hashtable 0 0 None.

Section Definitions.
Context {env : Env}.

(** [None] is a [false] return, with both strings NULL. *)
Definition jaeger_key_value_init (key value : cstr) : M (option jaeger_key_value) :=
  k ← jaeger_strdup key;
  match k with
  | None => ret None
  | Some k =>
      v ← jaeger_strdup value;
      match v with
      | None => ret None
      | Some v => ret (Some (KeyValue k v))
      end
  end.

(** The members as they are in memory, NULL or a copied string. *)
Record raw_key_value := RawKeyValue { raw_key : option cstr; raw_value : option cstr }.
Definition JAEGERTRACINGC_KEY_VALUE_INIT : raw_key_value := RawKeyValue None None.

(** Frees each string that is not NULL, and makes its pointer NULL. *)
Definition jaeger_key_value_destroy (kv : option raw_key_value) : option raw_key_value :=
  match kv with
  | None => None
  | Some kv =>
      let kv := match raw_key kv with
                | Some _ => RawKeyValue None (raw_value kv)
                | None => kv
                end in
      Some (match raw_value kv with
            | Some _ => RawKeyValue (raw_key kv) None
            | None => kv
            end)
  end.

(** [jaeger_key_value_init] on the members: the returned flag and what is left
    in [*kv]. *)
Definition key_value_init_members (key value : cstr) : M (bool * raw_key_value) :=
  let cleanup kv := ret (false, default kv (jaeger_key_value_destroy (Some kv))) in
  let kv := JAEGERTRACINGC_KEY_VALUE_INIT in
  k ← jaeger_strdup key;
  let kv := RawKeyValue k (raw_value kv) in
  match raw_key kv with
  | None => cleanup kv
  | Some _ =>
      v ← jaeger_strdup value;
      let kv := RawKeyValue (raw_key kv) v in
      match raw_value kv with
      | None => cleanup kv
      | Some _ => ret (true, kv)
      end
  end.

Definition jaeger_key_value_copy (src : jaeger_key_value) : M (option jaeger_key_value) :=
  jaeger_key_value_init (key src) (kv_value src).

Definition jaeger_key_value_node_new (data : jaeger_key_value)
    : M (option jaeger_key_value) :=
  granted ← jaeger_malloc;
  if (granted : bool) then ret (Some data) else ret None.

(** [1u << order]: undefined from 32 on. *)
Definition shift1 (order : Z) : M Z :=
  if (0 <=? order) && (order <? 32) then ret (2 ^ order) else fail IntOverflow.

(** The loop clears [&buckets[i]]; with NULL buckets that is NULL for bucket 0,
    which [jaeger_list_clear] ignores, and an invalid list for the others. *)
Definition jaeger_hashtable_clear (hashtable : jaeger_hashtable) : M jaeger_hashtable :=
  bucket_count ← shift1 (ht_order hashtable);
  match ht_buckets hashtable with
  | Some bs =>
      ret (Hashtable 0 (ht_order hashtable) (Some (replicate (Z.to_nat bucket_count) [])))
  | None =>
      if bucket_count >? 1 then fail NullDeref
      else ret (Hashtable 0 (ht_order hashtable) None)
  end.

Definition jaeger_hashtable_destroy (hashtable : option jaeger_hashtable)
    : M (option jaeger_hashtable) :=
  match hashtable with
  | None => ret None
  | Some hashtable =>
      h ← jaeger_hashtable_clear hashtable;
      ret (Some (Hashtable (ht_size h) (ht_order h) None))
  end.

(** The returned flag and the table left in [*hashtable]. *)
Definition jaeger_hashtable_init : M (bool * jaeger_hashtable) :=
  bucket_count ← shift1 JAEGERTRACINGC_HASHTABLE_INIT_ORDER;
  granted ← jaeger_malloc;
  if (granted : bool) then
    ret (true, Hashtable 0 JAEGERTRACINGC_HASHTABLE_INIT_ORDER
           (Some (replicate (Z.to_nat bucket_count) [])))
  else
    h ← jaeger_hashtable_destroy (Some JAEGERTRACINGC_HASHTABLE_INIT);
    ret (false, default JAEGERTRACINGC_HASHTABLE_INIT h).

(** The static array [seed] and the flag of [hash_seed]. *)
Record seed_state := SeedState { seed_filled : bool; seed_bytes : list Z }.
Definition seed_state_init : seed_state := SeedState false (replicate 16 0).

Definition fill_seed (bytes : list Z) : M (list Z) := random_seed bytes.

Definition hash_seed (s : seed_state) : M (list Z * seed_state) :=
  if seed_filled s then ret (seed_bytes s, s)
  else bytes ← fill_seed (seed_bytes s); ret (bytes, SeedState true bytes).

(** The bytes of the key under the process-wide seed: [seed] is what
    [hash_seed] gives, the same at every call ([hash_seed_stable]). *)
Definition jaeger_hashtable_hash (key : cstr) : Z := jaeger_siphash (map code key) seed.

(** [hash_code & (bucket_count - 1)]. *)
Definition bucket_index (bucket_count : Z) (key : cstr) : nat :=
  Z.to_nat (Z.land (jaeger_hashtable_hash key) (bucket_count - 1)).

(** [jaeger_list_append(&buckets[index], entry)]. *)
Definition bucket_append (index : nat) (entry : jaeger_key_value)
    (buckets : list (list jaeger_key_value)) : M (list (list jaeger_key_value)) :=
  match buckets !! index with
  | Some bucket => ret (<[index := bucket ++ [entry]]> buckets)
  | None => fail OutOfBounds
  end.

(** Moves the entries of the old buckets, in order, to the new ones. *)
Fixpoint rehash_entries (new_bucket_count : Z) (entries : list jaeger_key_value)
    (new_buckets : list (list jaeger_key_value)) : M (list (list jaeger_key_value)) :=
  match entries with
  | [] => ret new_buckets
  | entry :: entries =>
      bs ← bucket_append (bucket_index new_bucket_count (key entry)) entry new_buckets;
      rehash_entries new_bucket_count entries bs
  end.

Definition jaeger_hashtable_rehash (hashtable : jaeger_hashtable)
    : M (bool * jaeger_hashtable) :=
  new_bucket_count ← shift1 (ht_order hashtable + 1);
  granted ← jaeger_malloc;
  if (granted : bool) then
    match ht_buckets hashtable with
    | None => fail NullDeref
    | Some buckets =>
        bs ← rehash_entries new_bucket_count (concat buckets)
               (replicate (Z.to_nat new_bucket_count) []);
        ret (true, Hashtable (ht_size hashtable) (ht_order hashtable + 1) (Some bs))
    end
  else ret (false, hashtable).

(** The walk along a bucket: the position of the first node with the key. *)
Fixpoint find_node (k : cstr) (bucket : list jaeger_key_value) : option nat :=
  match bucket with
  | [] => None
  | kv :: bucket =>
      if strcmp (key kv) k =? 0 then Some O else S <$> find_node k bucket
  end.

Record jaeger_hashtable_lookup_result := LookupResult {
  lr_node : option nat;                 (* position in the bucket *)
  lr_index : nat;
  lr_bucket : list jaeger_key_value;
}.

Definition jaeger_hashtable_internal_lookup (hashtable : jaeger_hashtable) (k : cstr)
    : M jaeger_hashtable_lookup_result :=
  bucket_count ← shift1 (ht_order hashtable);
  let index := bucket_index bucket_count k in
  match ht_buckets hashtable with
  | None => fail NullDeref
  | Some buckets =>
      match buckets !! index with
      | None => fail OutOfBounds
      | Some bucket => ret (LookupResult (find_node k bucket) index bucket)
      end
  end.

Definition jaeger_hashtable_find (hashtable : jaeger_hashtable) (k : cstr)
    : M (option jaeger_key_value) :=
  result ← jaeger_hashtable_internal_lookup hashtable k;
  match lr_node result with
  | None => ret None
  | Some i => ret (lr_bucket result !! i)
  end.

Definition set_bucket (hashtable : jaeger_hashtable) (size : Z) (index : nat)
    (bucket : list jaeger_key_value) : jaeger_hashtable :=
  Hashtable size (ht_order hashtable)
    (fmap (fun bs => <[index := bucket]> bs) (ht_buckets hashtable)).

(** [((double) size + 1) / bucket_count >= 1.0]. Sizes are far below 2^53 and
    [bucket_count] is a power of two, so the quotient is exact and the
    comparison is that of the integers. *)
Definition over_threshold (size bucket_count : Z) : bool := size + 1 >=? bucket_count.
Definition over_threshold_double (size bucket_count : Z) : bool :=
  dle (double_of_Z 1)
    (ddiv (dadd (double_of_Z size) (double_of_Z 1)) (double_of_Z bucket_count)).

(** [jaeger_hashtable_put] from the lookup on. *)
Definition put_entry (hashtable : jaeger_hashtable) (k value : cstr)
    : M (bool * jaeger_hashtable) :=
  result ← jaeger_hashtable_internal_lookup hashtable k;
  let bucket := lr_bucket result in
  match lr_node result with
  | Some i =>
      value_copy ← jaeger_strdup value;
      match value_copy, bucket !! i with
      | Some value_copy, Some entry =>
          ret (true, set_bucket hashtable (ht_size hashtable) (lr_index result)
                       (<[i := KeyValue (key entry) value_copy]> bucket))
      | _, _ => ret (false, hashtable)
      end
  | None =>
      kv ← jaeger_key_value_init k value;
      match kv with
      | None => ret (false, hashtable)
      | Some kv =>
          entry ← jaeger_key_value_node_new kv;
          match entry with
          | None => ret (false, hashtable)
          | Some entry =>
              ret (true, set_bucket hashtable (u64 (ht_size hashtable + 1))
                           (lr_index result) (bucket ++ [entry]))
          end
      end
  end.

Definition jaeger_hashtable_put (hashtable : jaeger_hashtable) (k value : cstr)
    : M (bool * jaeger_hashtable) :=
  bucket_count ← shift1 (ht_order hashtable);
  ' (ok, hashtable) ←
    (if over_threshold (ht_size hashtable) bucket_count
     then jaeger_hashtable_rehash hashtable else ret (true, hashtable));
  if negb ok then ret (false, hashtable) else put_entry hashtable k value.

Definition jaeger_hashtable_remove (hashtable : jaeger_hashtable) (k : cstr)
    : M jaeger_hashtable :=
  result ← jaeger_hashtable_internal_lookup hashtable k;
  match lr_node result with
  | Some i =>
      ret (set_bucket hashtable (ht_size hashtable) (lr_index result)
             (delete i (lr_bucket result)))
  | None => ret hashtable
  end.

(** The loop of the build without [__builtin_clz]. *)
Fixpoint least_order (fuel : nat) (order size : Z) : Z :=
  match fuel with
  | O => order
  | S fuel => if 2 ^ order <? size then least_order fuel (order + 1) size else order
  end.

(** [sizeof(size) * CHAR_BIT - __builtin_clz(size)] is the number of bits. *)
Definition jaeger_hashtable_minimal_order (size : Z) : Z :=
  if size <? JAEGERTRACINGC_HASHTABLE_INIT_ORDER then JAEGERTRACINGC_HASHTABLE_INIT_ORDER
  else if have_builtin then Z.log2 size + 1
  else least_order 32 0 size.

Fixpoint copy_entries (dst : jaeger_hashtable) (entries : list jaeger_key_value)
    : M (bool * jaeger_hashtable) :=
  match entries with
  | [] => ret (true, dst)
  | kv :: entries =>
      ' (ok, dst) ← jaeger_hashtable_put dst (key kv) (kv_value kv);
      if (ok : bool) then copy_entries dst entries else ret (false, dst)
  end.

Definition copy_cleanup (dst : jaeger_hashtable) : M (bool * jaeger_hashtable) :=
  dst' ← jaeger_hashtable_destroy (Some dst);
  ret (false, default dst dst').

Definition jaeger_hashtable_copy (src : jaeger_hashtable) : M (bool * jaeger_hashtable) :=
  if ht_size src =? 0 then jaeger_hashtable_init
  else
    let order := jaeger_hashtable_minimal_order (u32 (ht_size src)) in
    bucket_count ← shift1 order;
    granted ← jaeger_malloc;
    if negb granted then copy_cleanup JAEGERTRACINGC_HASHTABLE_INIT
    else
      let dst := Hashtable 0 order (Some (replicate (Z.to_nat bucket_count) [])) in
      len ← shift1 (ht_order src);
      match ht_buckets src with
      | None => fail NullDeref
      | Some buckets =>
          ' (ok, dst) ← copy_entries dst (concat buckets);
          if negb ok then copy_cleanup dst
          else c_assert (ht_size dst =? ht_size src);; ret (true, dst)
      end.
End Definitions.

(** *** The abstract map, and histories of operations *)

Inductive map_op := OpPut (k v : cstr) | OpRemove (k : cstr) | OpFind (k : cstr).

(** What each operation returns on a finite map: [Some v] for a found value. *)
Fixpoint spec_run (ops : list map_op) (m : gmap cstr cstr)
    : list (option cstr) * gmap cstr cstr :=
  match ops with
  | [] => ([], m)
  | OpPut k v :: ops => spec_run ops (<[k := v]> m)
  | OpRemove k :: ops => spec_run ops (delete k m)
  | OpFind k :: ops => let '(rs, m') := spec_run ops m in (m !! k :: rs, m')
  end.

(** The same history on the hash table; [None] when a put fails. *)
Fixpoint ht_run {env : Env} (ops : list map_op) (h : jaeger_hashtable)
    : M (option (list (option cstr) * jaeger_hashtable)) :=
  match ops with
  | [] => ret (Some ([], h))
  | OpPut k v :: ops =>
      ' (ok, h) ← jaeger_hashtable_put h k v;
      if (ok : bool) then ht_run ops h else ret None
  | OpRemove k :: ops => h ← jaeger_hashtable_remove h k; ht_run ops h
  | OpFind k :: ops =>
      kv ← jaeger_hashtable_find h k;
      r ← ht_run ops h;
      ret (match r with
           | Some (rs, h') => Some ((kv_value <$> kv) :: rs, h')
           | None => None
           end)
  end.

Definition op_short (op : map_op) : Prop :=
  match op with OpPut k v => lenZ k < INT_MAX /\ lenZ v < INT_MAX | _ => True end.

(** ** Lemmas *)

(** The floating-point comparison of [jaeger_hashtable_put] and the integer
    one agree on every size up to 300 and table up to 512 buckets. *)
Example over_threshold_agrees :
  forallb (fun size => forallb (fun order =>
      Bool.eqb (over_threshold size (2 ^ order)) (over_threshold_double size (2 ^ order)))
    (seqZ 0 10)) (seqZ 0 301) = true.
Proof. vm_compute. reflexivity. Qed.

(** The map a sequence of entries stands for. *)
Definition pairs (es : list jaeger_key_value) : list (cstr * cstr) :=
  (fun kv => (key kv, kv_value kv)) <$> es.
Definition entries_map (es : list jaeger_key_value) : gmap cstr cstr :=
  list_to_map (pairs es).

Section Facts.
Context {env : Env}.
Implicit Types (bs : list (list jaeger_key_value)) (w : world).

(** Well-formed buckets: one per index, each entry in the bucket of its hash. *)
Definition placed (order : Z) bs : Prop :=
  length bs = Z.to_nat (2 ^ order) /\
  forall i b, bs !! i = Some b -> Forall (fun kv => bucket_index (2 ^ order) (key kv) = i) b.

(** The invariant of a live table: placement, keys stored once, and a load
    (as counted by the table) below one entry per bucket. *)
Record ht_inv (h : jaeger_hashtable) bs : Prop := {
  inv_buckets : ht_buckets h = Some bs;
  inv_order : 0 <= ht_order h < 32;
  inv_load : 0 <= ht_size h < 2 ^ ht_order h;
  inv_placed : placed (ht_order h) bs;
  inv_nodup : NoDup (key <$> concat bs);
}.

(** The table holds the map [m]; its count is right when [counted]. *)
Definition represents (h : jaeger_hashtable) (m : gmap cstr cstr) : Prop :=
  exists bs, ht_inv h bs /\ m = entries_map (concat bs).
Definition counted (h : jaeger_hashtable) (m : gmap cstr cstr) : Prop :=
  ht_size h = Z.of_nat (base.size m).

Lemma bucket_index_lt order k :
  0 <= order -> (bucket_index (2 ^ order) k < Z.to_nat (2 ^ order))%nat.
Proof.
  intros Ho. unfold bucket_index. rewrite Z.sub_1_r, <- Z.ones_equiv, Z.land_ones by done.
  assert (0 < 2 ^ order) by (apply Z.pow_pos_nonneg; lia).
  pose proof (Z.mod_pos_bound (jaeger_hashtable_hash k) (2 ^ order) ltac:(done)). lia.
Qed.

Lemma placed_lookup order bs k :
  0 <= order -> placed order bs -> exists b, bs !! bucket_index (2 ^ order) k = Some b.
Proof.
  intros Ho [Hl _]. apply lookup_lt_is_Some_2. rewrite Hl. by apply bucket_index_lt.
Qed.

(** Replacing a bucket: the other entries are untouched. *)
Lemma concat_insert bs i b b' :
  bs !! i = Some b ->
  exists rest, concat bs ≡ₚ b ++ rest /\ concat (<[i := b']> bs) ≡ₚ b' ++ rest.
Proof.
  intros Hb. pose proof (lookup_lt_Some _ _ _ Hb).
  exists (concat (take i bs) ++ concat (drop (S i) bs)). split.
  - rewrite <- (take_drop_middle _ _ _ Hb) at 1. rewrite concat_app. cbn.
    rewrite !app_assoc. apply Permutation_app_tail, Permutation_app_comm.
  - rewrite insert_take_drop by done. rewrite concat_app. cbn.
    rewrite !app_assoc. apply Permutation_app_tail, Permutation_app_comm.
Qed.

Lemma placed_insert order bs i b :
  placed order bs -> Forall (fun kv => bucket_index (2 ^ order) (key kv) = i) b ->
  placed order (<[i := b]> bs).
Proof.
  intros [Hl Hp] Hb. split; [by rewrite length_insert|].
  intros j c. destruct (decide (i = j)) as [<-|].
  - intros Hc. apply list_lookup_insert_Some in Hc as [(_ & <- & _)|[? _]]; done.
  - rewrite list_lookup_insert_ne by done. apply Hp.
Qed.

(** An entry of the table is in the bucket of its key. *)
Lemma placed_elem order bs kv b :
  placed order bs -> kv ∈ concat bs ->
  bs !! bucket_index (2 ^ order) (key kv) = Some b -> kv ∈ b.
Proof.
  intros [_ Hp] Hin Hb. apply list_elem_of_In, in_concat in Hin as (c & Hc & Hkv).
  apply list_elem_of_In in Hc, Hkv. apply list_elem_of_lookup in Hc as [i Hi].
  pose proof (Hp i c Hi) as HF. rewrite Forall_forall in HF.
  rewrite (HF kv Hkv) in Hb. congruence.
Qed.

Lemma find_node_Some k b i :
  find_node k b = Some i -> exists kv, b !! i = Some kv /\ key kv = k.
Proof.
  revert i. induction b as [|kv b IH]; intros i; cbn; [done|].
  destruct (Z.eqb_spec (strcmp (key kv) k) 0) as [He|Hne].
  - intros [= <-]. exists kv. split; [done|]. by apply strcmp_eq.
  - destruct (find_node k b) as [j|]; cbn; [|done]. intros [= <-]. by apply IH.
Qed.

Lemma find_node_None k b : find_node k b = None -> k ∉ (key <$> b).
Proof.
  induction b as [|kv b IH]; cbn; [intros _; apply not_elem_of_nil|].
  destruct (Z.eqb_spec (strcmp (key kv) k) 0) as [He|Hne]; [done|].
  destruct (find_node k b); cbn; [done|]. intros _.
  apply not_elem_of_cons. split; [|by apply IH].
  intros ->. by rewrite strcmp_refl in Hne.
Qed.

(** *** Entries as maps *)

Lemma pairs_keys es : (pairs es).*1 = key <$> es.
Proof. unfold pairs. rewrite <- list_fmap_compose. done. Qed.

Lemma entries_map_perm es es' :
  es ≡ₚ es' -> NoDup (key <$> es) -> entries_map es = entries_map es'.
Proof.
  intros Hp Hnd. apply list_to_map_proper; [by rewrite pairs_keys|].
  unfold pairs. by rewrite Hp.
Qed.

Lemma entries_map_cons kv es :
  entries_map (kv :: es) = <[key kv := kv_value kv]> (entries_map es).
Proof. done. Qed.

Lemma entries_map_None k es : k ∉ (key <$> es) -> entries_map es !! k = None.
Proof. intros H. apply not_elem_of_list_to_map_1. by rewrite pairs_keys. Qed.

Lemma entries_map_Some kv es :
  NoDup (key <$> es) -> kv ∈ es -> entries_map es !! key kv = Some (kv_value kv).
Proof.
  intros Hnd Hin. apply elem_of_list_to_map_1; [by rewrite pairs_keys|].
  unfold pairs. apply list_elem_of_fmap. eauto.
Qed.

Lemma entries_map_size es :
  NoDup (key <$> es) -> base.size (entries_map es) = length es.
Proof.
  induction es as [|kv es IH]; [done|]. intros [Hk Hnd]%NoDup_cons.
  rewrite entries_map_cons, map_size_insert_None by (by apply entries_map_None).
  cbn. by rewrite IH.
Qed.

(** *** Operations *)

Lemma shift1_wp order Q w : 0 <= order < 32 -> Q (2 ^ order) w -> wp (shift1 order) Q w.
Proof.
  intros Ho HQ. unfold shift1.
  by rewrite (proj2 (Z.leb_le _ _)), (proj2 (Z.ltb_lt _ _)) by lia.
Qed.

Lemma internal_lookup_wp h bs k Q w :
  ht_inv h bs ->
  (forall b, bs !! bucket_index (2 ^ ht_order h) k = Some b ->
     Q (LookupResult (find_node k b) (bucket_index (2 ^ ht_order h) k) b) w) ->
  wp (jaeger_hashtable_internal_lookup h k) Q w.
Proof.
  intros [Hb Ho _ Hp _] HQ. unfold jaeger_hashtable_internal_lookup.
  apply wp_bind, shift1_wp; [lia|]. rewrite Hb.
  destruct (placed_lookup _ _ k (proj1 Ho) Hp) as [b Hbk]. rewrite Hbk.
  by apply wp_ret, HQ.
Qed.

(** What the walk along the bucket tells about the whole table. *)
Lemma find_node_map h bs k b :
  ht_inv h bs -> bs !! bucket_index (2 ^ ht_order h) k = Some b ->
  match find_node k b with
  | Some i => exists kv, b !! i = Some kv /\ key kv = k /\
                entries_map (concat bs) !! k = Some (kv_value kv)
  | None => k ∉ (key <$> concat bs)
  end.
Proof.
  intros Hinv Hb. destruct (find_node k b) as [i|] eqn:Hf.
  - destruct (find_node_Some _ _ _ Hf) as (kv & Hi & Hk). exists kv.
    split; [done|]. split; [done|]. rewrite <- Hk.
    apply entries_map_Some; [apply Hinv|]. apply list_elem_of_In, in_concat.
    exists b. split; apply list_elem_of_In; by eapply list_elem_of_lookup_2.
  - intros (kv & -> & Hkv)%list_elem_of_fmap.
    apply (find_node_None _ _ Hf). apply list_elem_of_fmap. exists kv. split; [done|].
    eapply placed_elem; [apply Hinv|done|done].
Qed.

Lemma find_wp h m k Q w :
  represents h m -> Q (KeyValue k <$> m !! k) w -> wp (jaeger_hashtable_find h k) Q w.
Proof.
  intros (bs & Hinv & ->) HQ. unfold jaeger_hashtable_find.
  apply wp_bind. eapply internal_lookup_wp; [done|]. intros b Hb. cbn [lr_node lr_bucket].
  pose proof (find_node_map h bs k b Hinv Hb) as Hf.
  destruct (find_node k b) as [i|].
  - destruct Hf as ([k' v] & Hi & Hk & Hm). cbn in Hk, Hm. subst.
    apply wp_ret. by rewrite Hi, Hm in *.
  - apply wp_ret. by rewrite entries_map_None in HQ.
Qed.

Lemma rehash_entries_wp order es bs Q w :
  0 <= order -> placed order bs ->
  (forall bs', placed order bs' -> concat bs' ≡ₚ es ++ concat bs -> Q bs' w) ->
  wp (rehash_entries (2 ^ order) es bs) Q w.
Proof.
  intros Ho. revert bs. induction es as [|kv es IH]; intros bs Hp HQ.
  { by apply wp_ret, HQ. }
  cbn [rehash_entries]. apply wp_bind. unfold bucket_append.
  destruct (placed_lookup _ _ (key kv) Ho Hp) as [b Hb]. rewrite Hb. apply wp_ret, IH.
  - apply placed_insert; [done|]. apply Forall_app. split; [by eapply Hp|].
    by apply Forall_singleton.
  - intros bs' Hp' Hperm. apply HQ; [done|]. rewrite Hperm.
    destruct (concat_insert bs _ b (b ++ [kv]) Hb) as (rest & H1 & H2).
    rewrite H2, H1, <- (app_assoc b). cbn. rewrite (Permutation_app_comm b).
    cbn. rewrite (Permutation_app_comm rest). symmetry. apply Permutation_middle.
Qed.

Lemma placed_empty order : placed order (replicate (Z.to_nat (2 ^ order)) []).
Proof.
  split; [apply length_replicate|]. intros i b Hb.
  apply lookup_replicate in Hb as [-> _]. constructor.
Qed.

Lemma concat_empty n : concat (replicate n ([] : list jaeger_key_value)) = [].
Proof. by induction n. Qed.

Lemma rehash_wp h bs Q w :
  ht_inv h bs -> ht_order h < 31 ->
  (forall w', alloc_only w w' -> ~ plenty w -> Q (false, h) w') ->
  (forall h' bs' w', alloc_only w w' -> ht_inv h' bs' -> ht_size h' = ht_size h ->
     ht_order h' = ht_order h + 1 -> concat bs' ≡ₚ concat bs -> Q (true, h') w') ->
  wp (jaeger_hashtable_rehash h) Q w.
Proof.
  intros [Hb Ho Hl Hp Hnd] H31 HF HT. unfold jaeger_hashtable_rehash.
  apply wp_bind, shift1_wp; [lia|]. wp_step. wp_step. wp_step.
  - rewrite Hb. apply wp_bind, rehash_entries_wp; [lia|apply placed_empty|].
    intros bs' Hp' Hperm. rewrite concat_empty, app_nil_r in Hperm.
    apply wp_ret, (HT _ bs'); try done. split; cbn; [done|lia| |done|].
    + rewrite Z.pow_add_r by lia. lia.
    + by rewrite Hperm.
  - apply wp_ret, HF; [done|]. intros Hpl. by specialize (Hplenty Hpl).
Qed.

(** Writing a bucket back. *)
Lemma set_bucket_inv h bs i b size :
  ht_inv h bs -> 0 <= size < 2 ^ ht_order h ->
  Forall (fun kv => bucket_index (2 ^ ht_order h) (key kv) = i) b ->
  NoDup (key <$> concat (<[i := b]> bs)) ->
  ht_inv (set_bucket h size i b) (<[i := b]> bs).
Proof.
  intros [Hb Ho Hl Hp Hnd] Hs HF Hnd'. split; cbn; [by rewrite Hb|done|done| |done].
  by apply placed_insert.
Qed.

Lemma key_value_init_wp k v Q w :
  short k -> short v ->
  (forall w', alloc_only w w' -> ~ plenty w -> Q None w') ->
  (forall w', alloc_only w w' -> Q (Some (KeyValue k v)) w') ->
  wp (jaeger_key_value_init k v) Q w.
Proof.
  intros Hk Hv HN HS. unfold jaeger_key_value_init.
  apply wp_bind, wp_strdup; [done|intros; by apply wp_ret, HN|].
  intros w1 H1. apply wp_bind, wp_strdup; [done|..].
  - intros w2 H2 Hno. apply wp_ret, HN; [by etrans|]. eauto with jaeger.
  - intros w2 H2. apply wp_ret, HS. by etrans.
Qed.

Lemma insert_perm {A} (l : list A) i x y :
  l !! i = Some x -> exists r, l ≡ₚ x :: r /\ <[i := y]> l ≡ₚ y :: r.
Proof.
  intros Hi. pose proof (lookup_lt_Some _ _ _ Hi). exists (take i l ++ drop (S i) l). split.
  - rewrite <- (take_drop_middle _ _ _ Hi) at 1. symmetry. apply Permutation_middle.
  - rewrite insert_take_drop by done. symmetry. apply Permutation_middle.
Qed.

(** The size after a key of [m] or a new one is put. *)
Definition size_after (m : gmap cstr cstr) (k : cstr) (size : Z) : Z :=
  match m !! k with Some _ => size | None => size + 1 end.

Lemma put_replace h bs k v b i kv :
  ht_inv h bs -> bs !! bucket_index (2 ^ ht_order h) k = Some b ->
  b !! i = Some kv -> key kv = k ->
  represents (set_bucket h (ht_size h) (bucket_index (2 ^ ht_order h) k)
                (<[i := KeyValue (key kv) v]> b))
             (<[k := v]> (entries_map (concat bs))).
Proof.
  intros Hinv Hb Hi Hk. destruct (inv_placed _ _ Hinv) as [_ Hp].
  destruct (insert_perm b i kv (KeyValue (key kv) v) Hi) as (r & Hr & Hr').
  destruct (concat_insert bs _ b (<[i := KeyValue (key kv) v]> b) Hb) as (rest & H1 & H2).
  apply (Permutation_app_tail rest) in Hr, Hr'.
  pose proof (Permutation_trans H1 Hr) as H1'. pose proof (Permutation_trans H2 Hr') as H2'.
  clear H1 H2. rename H1' into H1, H2' into H2. cbn [app] in H1, H2. pose proof (inv_nodup _ _ Hinv) as Hnd.
  assert (NoDup (key <$> concat (<[bucket_index (2 ^ ht_order h) k :=
    <[i := KeyValue (key kv) v]> b]> bs))) as Hnd' by (rewrite H2; rewrite H1 in Hnd; done).
  eexists. split.
  - apply set_bucket_inv; [done|apply Hinv| |done].
    apply Forall_insert; [by eapply Hp|]. cbn. by rewrite Hk.
  - rewrite (entries_map_perm _ _ H2 Hnd'), (entries_map_perm _ _ H1 Hnd). cbn [app].
    rewrite !entries_map_cons. cbn. rewrite Hk. by rewrite insert_insert_eq.
Qed.

Lemma put_new h bs k v b :
  ht_inv h bs -> bs !! bucket_index (2 ^ ht_order h) k = Some b ->
  k ∉ (key <$> concat bs) -> ht_size h + 1 < 2 ^ ht_order h ->
  represents (set_bucket h (ht_size h + 1) (bucket_index (2 ^ ht_order h) k)
                (b ++ [KeyValue k v]))
             (<[k := v]> (entries_map (concat bs))).
Proof.
  intros Hinv Hb Hk Hl. destruct (inv_placed _ _ Hinv) as [_ Hp].
  destruct (concat_insert bs _ b (b ++ [KeyValue k v]) Hb) as (rest & H1 & H2).
  assert (concat (<[bucket_index (2 ^ ht_order h) k := b ++ [KeyValue k v]]> bs)
          ≡ₚ KeyValue k v :: concat bs) as H3.
  { rewrite H2, H1. rewrite <- app_assoc. symmetry. apply Permutation_middle. }
  pose proof (inv_nodup _ _ Hinv) as Hnd. pose proof (inv_load _ _ Hinv).
  assert (NoDup (key <$> concat (<[bucket_index (2 ^ ht_order h) k :=
    b ++ [KeyValue k v]]> bs))) as Hnd' by (rewrite H3; by apply NoDup_cons_2).
  eexists. split.
  - apply set_bucket_inv; [done|lia| |done].
    apply Forall_app. split; [by eapply Hp|by apply Forall_singleton].
  - by rewrite (entries_map_perm _ _ H3 Hnd').
Qed.

Lemma put_entry_wp h bs k v Q w :
  ht_inv h bs -> short k -> short v -> ht_size h + 1 < 2 ^ ht_order h ->
  (forall w', alloc_only w w' -> ~ plenty w -> Q (false, h) w') ->
  (forall h' w', alloc_only w w' -> represents h' (<[k := v]> (entries_map (concat bs))) ->
     ht_size h' = size_after (entries_map (concat bs)) k (ht_size h) -> Q (true, h') w') ->
  wp (put_entry h k v) Q w.
Proof.
  intros Hinv Hk Hv Hl HF HT. unfold put_entry. apply wp_bind.
  eapply internal_lookup_wp; [done|]. intros b Hb. cbn [lr_node lr_bucket lr_index].
  pose proof (find_node_map h bs k b Hinv Hb) as Hf. unfold size_after in HT.
  destruct (find_node k b) as [i|].
  - destruct Hf as (kv & Hi & Hkv & Hm). rewrite Hm in HT.
    apply wp_bind, wp_strdup; [done|intros; by apply wp_ret, HF|].
    intros w' Hw. rewrite Hi. apply wp_ret, HT; [done| |done]. by apply put_replace.
  - rewrite entries_map_None in HT by done.
    apply wp_bind, key_value_init_wp; [done|done|intros; by apply wp_ret, HF|].
    intros w' Hw. apply wp_bind. unfold jaeger_key_value_node_new. wp_steps.
    + assert (u64 (ht_size h + 1) = ht_size h + 1) as ->.
      { pose proof (inv_load _ _ Hinv). pose proof (inv_order _ _ Hinv).
        assert (2 ^ ht_order h <= 2 ^ 32) by (apply Z.pow_le_mono_r; lia).
        apply wrap_small. lia. }
      apply HT; [by etrans|by apply put_new|done].
    + apply HF; [by etrans|]. intros Hpl. apply (plenty_alloc_only _ _ Hw) in Hpl.
      by specialize (Hplenty Hpl).
Qed.

Lemma size_order h bs n :
  ht_inv h bs -> 0 <= n -> ht_size h + 1 < 2 ^ n -> ht_size h + 1 >= 2 ^ ht_order h ->
  ht_order h < n.
Proof.
  intros Hinv Hn H1 H2. apply (Z.pow_lt_mono_r_iff 2); [lia..|]. lia.
Qed.

(** The allocation-failure branch may leave a table that has been rehashed. *)
Lemma put_wp h m k v Q w :
  represents h m -> short k -> short v -> ht_size h + 1 < 2 ^ 31 ->
  (forall h' w', alloc_only w w' -> ~ plenty w -> represents h' m ->
     ht_size h' = ht_size h -> Q (false, h') w') ->
  (forall h' w', alloc_only w w' -> represents h' (<[k := v]> m) ->
     ht_size h' = size_after m k (ht_size h) -> Q (true, h') w') ->
  wp (jaeger_hashtable_put h k v) Q w.
Proof.
  intros (bs & Hinv & ->) Hk Hv Hs HF HT. unfold jaeger_hashtable_put.
  apply wp_bind, shift1_wp; [apply Hinv|]. apply wp_bind. unfold over_threshold.
  destruct (Z.geb_spec (ht_size h + 1) (2 ^ ht_order h)) as [Hover|Hunder].
  - apply (rehash_wp h bs); [done|apply (size_order h bs); [done|lia..]| |].
    + intros w' Hw Hno. apply wp_ret, HF; [done|done|by exists bs|done].
    + intros h' bs' w' Hw Hinv' Es Eo Hperm. cbn [negb].
      assert (entries_map (concat bs') = entries_map (concat bs)) as Em
        by (apply entries_map_perm; [done|apply Hinv']).
      apply (put_entry_wp h' bs'); [done..| | |].
      * rewrite Es, Eo, Z.pow_add_r by (destruct (inv_order _ _ Hinv); lia).
        destruct (inv_load _ _ Hinv). lia.
      * intros w2 Hw2 Hno. apply HF; [by etrans|eauto with jaeger|by exists bs'|done].
      * rewrite Em, Es. intros h2 w2 Hw2 Hr Hsz. apply HT; [by etrans|done|done].
  - apply wp_ret. cbn [negb]. apply (put_entry_wp h bs); try done.
    intros w2 Hw2 Hno. apply HF; [done|done|by exists bs|done].
Qed.

Lemma counted_insert (h h' : jaeger_hashtable) m k v :
  counted h m -> ht_size h' = size_after m k (ht_size h) -> counted h' (<[k := v]> m).
Proof.
  unfold counted, size_after. intros Hc ->. rewrite map_size_insert.
  destruct (m !! k); cbn; lia.
Qed.

Lemma empty_represents order :
  0 <= order < 32 ->
  represents (Hashtable 0 order (Some (replicate (Z.to_nat (2 ^ order)) []))) ∅.
Proof.
  intros Ho. exists (replicate (Z.to_nat (2 ^ order)) []). split.
  - split; cbn; [done|done| |apply placed_empty|rewrite concat_empty; constructor].
    split; [done|]. apply Z.pow_pos_nonneg; lia.
  - by rewrite concat_empty.
Qed.

(** A table whose buckets have been released, or never allocated. *)
Definition released (h : jaeger_hashtable) : Prop := ht_buckets h = None /\ ht_size h = 0.

Lemma destroy_wp h bs Q w :
  ht_inv h bs -> Q (Some (Hashtable 0 (ht_order h) None)) w ->
  wp (jaeger_hashtable_destroy (Some h)) Q w.
Proof.
  intros [Hb Ho _ _ _] HQ. unfold jaeger_hashtable_destroy, jaeger_hashtable_clear.
  apply wp_bind, wp_bind, shift1_wp; [done|]. by rewrite Hb.
Qed.

Lemma hashtable_init_wp Q w :
  (forall h w', alloc_only w w' -> represents h ∅ -> counted h ∅ -> Q (true, h) w') ->
  (forall h w', alloc_only w w' -> ~ plenty w -> released h -> Q (false, h) w') ->
  wp jaeger_hashtable_init Q w.
Proof.
  intros HT HF. unfold jaeger_hashtable_init, JAEGERTRACINGC_HASHTABLE_INIT_ORDER.
  apply wp_bind, shift1_wp; [lia|]. wp_steps.
  - apply HT; [done|by apply (empty_represents 4)|done].
  - unfold jaeger_hashtable_destroy, jaeger_hashtable_clear. cbn.
    apply HF; [done| |done]. intros Hpl. by specialize (Hplenty Hpl).
Qed.

Lemma hashtable_remove_wp h m k Q w :
  represents h m ->
  (forall h', represents h' (delete k m) -> ht_size h' = ht_size h -> Q h' w) ->
  wp (jaeger_hashtable_remove h k) Q w.
Proof.
  intros (bs & Hinv & ->) HQ. unfold jaeger_hashtable_remove.
  apply wp_bind. eapply internal_lookup_wp; [done|]. intros b Hb. cbn [lr_node lr_bucket lr_index].
  pose proof (find_node_map h bs k b Hinv Hb) as Hf. pose proof (inv_nodup _ _ Hinv) as Hnd.
  destruct (find_node k b) as [i|].
  - destruct Hf as (kv & Hi & Hkv & Hm).
    destruct (concat_insert bs _ b (delete i b) Hb) as (rest & H1 & H2).
    pose proof (Permutation_trans H1 (Permutation_app_tail rest (delete_Permutation b i kv Hi)))
      as H1'. cbn [app] in H1'. rewrite H1' in Hnd. cbn in Hnd.
    apply NoDup_cons in Hnd as [Hkn Hnd].
    assert (NoDup (key <$> concat (<[bucket_index (2 ^ ht_order h) k := delete i b]> bs)))
      as Hnd' by (by rewrite H2).
    apply wp_ret, HQ; [|done]. eexists. split.
    + apply set_bucket_inv; [done|apply Hinv| |done].
      apply Forall_delete. by eapply (inv_placed _ _ Hinv).
    + rewrite (entries_map_perm _ _ H1' (inv_nodup _ _ Hinv)), (entries_map_perm _ _ H2 Hnd').
      rewrite entries_map_cons, Hkv, delete_insert_eq. apply delete_id.
      apply entries_map_None. by rewrite <- Hkv.
  - apply wp_ret, HQ; [|done]. rewrite delete_id by (by apply entries_map_None).
    by exists bs.
Qed.

Lemma least_order_range fuel order size :
  0 <= order -> order <= least_order fuel order size <= order + Z.of_nat fuel.
Proof.
  revert order. induction fuel as [|fuel IH]; intros order Ho; cbn [least_order]; [lia|].
  destruct (2 ^ order <? size); [|lia]. specialize (IH (order + 1)). lia.
Qed.

(** The loop finds the least order whose table has [size] buckets. *)
Lemma least_order_spec fuel order size :
  0 <= order -> size <= 2 ^ (order + Z.of_nat fuel) ->
  size <= 2 ^ least_order fuel order size /\
  forall o, order <= o < least_order fuel order size -> 2 ^ o < size.
Proof.
  revert order. induction fuel as [|fuel IH]; intros order Ho Hs; cbn [least_order].
  { split; [by rewrite Z.add_0_r in Hs|lia]. }
  destruct (Z.ltb_spec (2 ^ order) size) as [Hlt|Hge]; [|split; [done|lia]].
  destruct (IH (order + 1)) as [H1 H2]; [lia|by replace (order + 1 + Z.of_nat fuel)
    with (order + Z.of_nat (S fuel)) by lia|].
  split; [done|]. intros o Hoo. destruct (decide (o = order)) as [->|]; [done|].
  apply H2. lia.
Qed.

Lemma minimal_order_spec size :
  0 <= size < 2 ^ 31 ->
  0 <= jaeger_hashtable_minimal_order size < 32 /\
  size <= 2 ^ jaeger_hashtable_minimal_order size.
Proof.
  intros Hs. unfold jaeger_hashtable_minimal_order, JAEGERTRACINGC_HASHTABLE_INIT_ORDER.
  destruct (Z.ltb_spec size 4); [cbn; lia|]. destruct have_builtin.
  - assert (Z.log2 size < 31) by (apply Z.log2_lt_pow2; lia).
    pose proof (Z.log2_nonneg size). pose proof (Z.log2_spec size ltac:(lia)).
    replace (Z.succ (Z.log2 size)) with (Z.log2 size + 1) in * by lia. lia.
  - destruct (least_order_spec 32 0 size) as [H1 H2]; [lia|cbn; lia|].
    split; [|done]. pose proof (least_order_range 32 0 size ltac:(lia)).
    destruct (decide (least_order 32 0 size = 32)) as [Heq|]; [|lia].
    specialize (H2 31). lia.
Qed.

Definition put_all (m : gmap cstr cstr) (es : list jaeger_key_value) : gmap cstr cstr :=
  foldl (fun m kv => <[key kv := kv_value kv]> m) m es.

Lemma put_all_union m es :
  NoDup (key <$> es) -> put_all m es = entries_map es ∪ m.
Proof.
  revert m. induction es as [|kv es IH]; intros m.
  - intros _. unfold put_all, entries_map. cbn. by rewrite (left_id_L ∅ (∪)).
  - rewrite fmap_cons. intros [Hk Hnd]%NoDup_cons. unfold put_all in IH |- *.
    cbn [foldl]. rewrite IH by done.
    rewrite <- insert_union_r by (by apply entries_map_None).
    by rewrite entries_map_cons, insert_union_l.
Qed.

Definition short_entry (kv : jaeger_key_value) : Prop := short (key kv) /\ short (kv_value kv).

Lemma copy_entries_wp h m es Q w :
  represents h m -> counted h m -> Forall short_entry es ->
  ht_size h + lenZ es < 2 ^ 31 ->
  (forall h' w', alloc_only w w' -> represents h' (put_all m es) ->
     counted h' (put_all m es) -> Q (true, h') w') ->
  (forall h' bs w', alloc_only w w' -> ~ plenty w -> ht_inv h' bs -> Q (false, h') w') ->
  wp (copy_entries h es) Q w.
Proof.
  intros Hr Hc HF. revert h m w Hr Hc. induction HF as [|kv es [Hk Hv] _ IH];
    intros h m w Hr Hc Hs HT HQ; cbn [copy_entries length] in *.
  { by apply wp_ret, HT. }
  apply wp_bind. eapply (put_wp h m); [done..|lia| |].
  - intros h' w' Hw Hno (bs & Hinv & _) _. by apply (HQ h' bs).
  - intros h' w' Hw Hr' Hsz. pose proof (counted_insert _ _ _ _ (kv_value kv) Hc Hsz) as Hc'.
    apply (IH h' _ w' Hr' Hc').
    + rewrite Hsz. unfold size_after. destruct (m !! key kv); lia.
    + intros h2 w2 Hw2 Hr2 Hc2. apply HT; [by etrans|done|done].
    + intros h2 bs w2 Hw2 Hno Hinv. apply (HQ h2 bs); [by etrans|eauto with jaeger|done].
Qed.

Definition short_map (m : gmap cstr cstr) : Prop :=
  forall k v, m !! k = Some v -> short k /\ short v.

Lemma copy_wp h m Q w :
  represents h m -> counted h m -> short_map m -> ht_size h < 2 ^ 31 ->
  (forall h' w', alloc_only w w' -> represents h' m -> counted h' m -> Q (true, h') w') ->
  (forall h' w', alloc_only w w' -> ~ plenty w -> released h' -> Q (false, h') w') ->
  wp (jaeger_hashtable_copy h) Q w.
Proof.
  intros (bs & Hinv & ->) Hc Hsm Hs HT HF. pose proof (inv_load _ _ Hinv) as Hl.
  pose proof (inv_nodup _ _ Hinv) as Hnd.
  unfold counted in Hc. rewrite entries_map_size in Hc by done.
  unfold jaeger_hashtable_copy. destruct (Z.eqb_spec (ht_size h) 0) as [Hz|Hz].
  { destruct (concat bs) as [|? ?]; [|cbn in Hc; lia]. by apply hashtable_init_wp. }
  unfold wrap. rewrite Z.mod_small by lia.
  destruct (minimal_order_spec (ht_size h)) as [Ho _]; [lia|].
  apply wp_bind, shift1_wp; [done|]. wp_step. wp_step. unfold copy_cleanup.
  destruct granted; cbn [negb].
  2: { apply HF; [done| |done]. intros Hpl. by specialize (Hplenty Hpl). }
  apply wp_bind, shift1_wp; [apply Hinv|]. rewrite (inv_buckets _ _ Hinv). apply wp_bind.
  eapply (copy_entries_wp _ ∅); [by apply empty_represents|done| |cbn; lia|..].
  - apply Forall_forall. intros [k v] Hkv. apply (Hsm k v).
    by apply (entries_map_Some (KeyValue k v)).
  - rewrite put_all_union, (right_id_L ∅ (∪)) by done. intros h' w2 Hw2 Hr' Hc'.
    cbn [negb]. apply wp_bind, wp_assert; [|apply wp_ret, HT; [by etrans|done|done]].
    apply Z.eqb_eq. unfold counted in Hc'. rewrite entries_map_size in Hc' by done. lia.
  - intros h' bs' w2 Hw2 Hno Hinv'. cbn [negb]. apply wp_bind.
    eapply destroy_wp; [done|]. apply wp_ret, HF; [by etrans| |done].
    intros Hpl. by apply Hno, (plenty_alloc_only w).
Qed.
End Facts.

(** *** Histories *)

Lemma ht_run_wp {env : Env} ops h m Q w :
  plenty w -> represents h m -> Forall op_short ops -> ht_size h + lenZ ops < 2 ^ 31 ->
  (forall h' w', alloc_only w w' -> represents h' (spec_run ops m).2 ->
     Q (Some ((spec_run ops m).1, h')) w') ->
  wp (ht_run ops h) Q w.
Proof.
  intros Hpl Hr HF. revert h m w Q Hpl Hr.
  induction HF as [|[k v|k|k] ops Hop _ IH]; intros h m w Q Hpl Hr Hs HQ;
    cbn [ht_run spec_run length] in *.
  - by apply wp_ret, HQ.
  - destruct Hop. apply wp_bind. eapply (put_wp h m); [done..|lia|done|].
    intros h' w' Hw Hr' Hsz. apply (IH h' (<[k := v]> m)); [eauto with jaeger|done| |].
    + rewrite Hsz. unfold size_after. destruct (m !! k); lia.
    + intros h2 w2 Hw2. apply HQ. by etrans.
  - apply wp_bind. eapply (hashtable_remove_wp h m); [done|]. intros h' Hr' Hsz.
    apply (IH h' (delete k m)); [done|done|lia|done].
  - apply wp_bind. eapply (find_wp h m); [done|]. apply wp_bind.
    apply (IH h m); [done|done|lia|]. intros h' w' Hw Hr'. apply wp_ret.
    destruct (spec_run ops m) as [rs m']. cbn in *.
    specialize (HQ h' w' Hw Hr'). by destruct (m !! k).
Qed.

(** ** Properties *)

(** The members of a pair: both strings when the copies were made, and both
    NULL, whatever was allocated before, when one could not be. *)
Theorem key_value_init_members_spec (env : Env) k v w :
  key_value_init_members k v w =
  (kv ← jaeger_key_value_init k v;
   ret match kv with
       | Some kv => (true, RawKeyValue (Some (key kv)) (Some (kv_value kv)))
       | None => (false, JAEGERTRACINGC_KEY_VALUE_INIT)
       end) w.
Proof.
  unfold key_value_init_members, jaeger_key_value_init, bind.
  destruct (jaeger_strdup k w) as [[k'|] w1|]; [|done..]. cbn.
  by destruct (jaeger_strdup v w1) as [[v'|] w2|].
Qed.

(** The seed of the process: the first call reads the entropy source, and every
    later call, in whatever world, gives the same sixteen bytes and reads
    nothing. *)
Theorem hash_seed_stable (env : Env) w :
  exists bytes s w', hash_seed seed_state_init w = Ok (bytes, s) w' /\ length bytes = 16%nat /\
    forall w2, hash_seed s w2 = Ok (bytes, s) w2.
Proof.
  destruct (random_seed_spec env (replicate 16 0) w) as (bytes & w' & Hr & Hl & _).
  exists bytes, (SeedState true bytes), w'. split_and!; [|by rewrite Hl, length_replicate|done].
  unfold hash_seed, fill_seed, bind. cbn [seed_state_init seed_filled seed_bytes]. by rewrite Hr.
Qed.

(** Putting a key: the table then holds the updated map and its count is the
    map's size; when memory runs out, and only then, the call fails and the
    table (rehashed or not) still holds the old map. *)
Theorem jaeger_hashtable_put_spec (env : Env) h m k v w :
  represents h m -> counted h m -> short k -> short v -> ht_size h + 1 < 2 ^ 31 ->
  exists ok h' w', jaeger_hashtable_put h k v w = Ok (ok, h') w' /\
    if ok then represents h' (<[k := v]> m) /\ counted h' (<[k := v]> m)
    else ~ plenty w /\ represents h' m /\ counted h' m.
Proof.
  intros Hr Hc Hk Hv Hs.
  assert (wp (jaeger_hashtable_put h k v) (fun r _ =>
    if r.1 then represents r.2 (<[k := v]> m) /\ counted r.2 (<[k := v]> m)
    else ~ plenty w /\ represents r.2 m /\ counted r.2 m) w) as H.
  { apply (put_wp h m); try done.
    - intros h' w' _ Hno Hr' Hsz. split; [done|]. split; [done|].
      unfold counted in *. cbn. congruence.
    - intros h' w' _ Hr' Hsz. split; [done|]. by eapply counted_insert. }
  apply wp_returns in H as ([ok h'] & w' & ? & ?). eauto 6.
Qed.

(** Looking a key up returns its entry, or NULL when the map has none. *)
Theorem jaeger_hashtable_find_spec (env : Env) h m k w :
  represents h m ->
  jaeger_hashtable_find h k w = Ok (KeyValue k <$> m !! k) w.
Proof.
  intros Hr.
  assert (wp (jaeger_hashtable_find h k)
            (fun r w' => r = KeyValue k <$> m !! k /\ w' = w) w) as H
    by (by eapply find_wp).
  by apply wp_returns in H as (? & ? & -> & -> & ->).
Qed.

(** Removing a key removes it from the map, but [size] keeps its value: the
    count is wrong as soon as the key was present. *)
Theorem jaeger_hashtable_remove_spec (env : Env) h m k w :
  represents h m -> counted h m ->
  exists h', jaeger_hashtable_remove h k w = Ok h' w /\
    represents h' (delete k m) /\ ht_size h' = ht_size h /\
    (is_Some (m !! k) -> ~ counted h' (delete k m)).
Proof.
  intros Hr Hc.
  assert (wp (jaeger_hashtable_remove h k) (fun h' w' => w' = w /\
    represents h' (delete k m) /\ ht_size h' = ht_size h) w) as H
    by (by eapply hashtable_remove_wp).
  apply wp_returns in H as (h' & ? & ? & -> & Hr' & Hsz). exists h'.
  repeat split; [done..|]. intros [v Hv]. unfold counted in *. rewrite Hsz, Hc.
  rewrite map_size_delete_Some by done.
  assert (base.size m <> 0%nat) by (rewrite map_size_non_empty_iff; by intros ->). lia.
Qed.

(** Copying a table whose count is right never fails an assertion: the copy
    holds the same map, or, when memory runs out and only then, it has been
    released. *)
Theorem jaeger_hashtable_copy_spec (env : Env) h m w :
  represents h m -> counted h m -> short_map m -> ht_size h < 2 ^ 31 ->
  exists ok h' w', jaeger_hashtable_copy h w = Ok (ok, h') w' /\
    if ok then represents h' m /\ counted h' m else ~ plenty w /\ released h'.
Proof.
  intros Hr Hc Hk Hs.
  assert (wp (jaeger_hashtable_copy h) (fun r _ =>
    if r.1 then represents r.2 m /\ counted r.2 m else ~ plenty w /\ released r.2) w) as H
    by (by apply (copy_wp h m)).
  apply wp_returns in H as ([ok h'] & w' & ? & ?). eauto 6.
Qed.

(** C21: Refinement: while memory lasts, any history of puts, removals and lookups
    on the hash table returns what the same history returns on a finite map,
    through every rehash, and leaves a table that holds the final map. *)
Theorem jaeger_hashtable_refines_map (env : Env) ops h m w :
  plenty w -> represents h m -> Forall op_short ops -> ht_size h + lenZ ops < 2 ^ 31 ->
  exists h' w', ht_run ops h w = Ok (Some ((spec_run ops m).1, h')) w' /\
    represents h' (spec_run ops m).2.
Proof.
  intros Hpl Hr HF Hs.
  assert (wp (ht_run ops h) (fun r _ => exists h',
    r = Some ((spec_run ops m).1, h') /\ represents h' (spec_run ops m).2) w) as H
    by (apply (ht_run_wp ops h m); eauto).
  apply wp_returns in H as (? & w' & ? & h' & -> & ?). eauto.
Qed.

(** The stale count is observable: putting one key, removing it and copying
    the table fails the final assertion of [jaeger_hashtable_copy]. *)
Theorem remove_then_copy_asserts :
  let ops := [OpPut (lit "user") (lit "alice"); OpRemove (lit "user")] in
  @bind _ _ (@jaeger_hashtable_init sample_env) (fun '(_, h) =>
    bind (@ht_run sample_env ops h) (fun r =>
      match r with
      | Some (_, h) => bind (@jaeger_hashtable_copy sample_env h) (fun r => ret (fst r))
      | None => ret false
      end)) initial_world
  = Fault AssertFailed.
Proof. vm_compute. reflexivity. Qed.

(** An empty table, and one entry. *)
Definition empty_table : jaeger_hashtable := Hashtable 0 4 (Some (replicate 16 [])).
Definition one_entry : jaeger_hashtable :=
  match @jaeger_hashtable_put sample_env empty_table (lit "k") (lit "v") initial_world with
  | Ok (_, h) _ => h
  | Fault _ => empty_table
  end.

Lemma empty_table_represents : @represents sample_env empty_table ∅.
Proof. by apply (@empty_represents sample_env 4). Qed.

Lemma one_entry_represents :
  @represents sample_env one_entry {[lit "k" := lit "v"]} /\
  counted one_entry {[lit "k" := lit "v"]}.
Proof.
  assert (wp (@jaeger_hashtable_put sample_env empty_table (lit "k") (lit "v")) (fun r w' =>
    @represents sample_env r.2 {[lit "k" := lit "v"]} /\
    counted r.2 {[lit "k" := lit "v"]}) initial_world) as H.
  { apply (@put_wp sample_env empty_table ∅); try done.
    - apply empty_table_represents.
    - intros h' w' _ Hno. by destruct (Hno plenty_sample). }
  unfold one_entry. unfold wp in H.
  destruct (@jaeger_hashtable_put sample_env empty_table (lit "k") (lit "v")
              initial_world) as [[ok h'] w'|f]; [exact H|destruct H].
Qed.

Lemma jaeger_hashtable_put_spec_witness :
  exists ok h' w', @jaeger_hashtable_put sample_env one_entry (lit "a") (lit "b")
      initial_world = Ok (ok, h') w' /\
    if ok then @represents sample_env h' (<[lit "a" := lit "b"]> {[lit "k" := lit "v"]}) /\
               counted h' (<[lit "a" := lit "b"]> {[lit "k" := lit "v"]})
    else ~ @plenty sample_env initial_world /\
         @represents sample_env h' {[lit "k" := lit "v"]} /\
         counted h' {[lit "k" := lit "v"]}.
Proof.
  apply (jaeger_hashtable_put_spec sample_env one_entry {[lit "k" := lit "v"]});
    [apply one_entry_represents..|done|done|vm_compute; reflexivity].
Defined.

Lemma jaeger_hashtable_find_spec_witness :
  @jaeger_hashtable_find sample_env one_entry (lit "k") initial_world
  = Ok (KeyValue (lit "k") <$> ({[lit "k" := lit "v"]} : gmap cstr cstr) !! lit "k")
       initial_world.
Proof.
  apply (jaeger_hashtable_find_spec sample_env one_entry {[lit "k" := lit "v"]}).
  apply one_entry_represents.
Defined.

Lemma jaeger_hashtable_remove_spec_witness :
  exists h', @jaeger_hashtable_remove sample_env one_entry (lit "k") initial_world
      = Ok h' initial_world /\
    @represents sample_env h' (delete (lit "k") {[lit "k" := lit "v"]}) /\
    ht_size h' = ht_size one_entry /\
    (is_Some (({[lit "k" := lit "v"]} : gmap cstr cstr) !! lit "k") ->
       ~ counted h' (delete (lit "k") {[lit "k" := lit "v"]})).
Proof.
  apply (jaeger_hashtable_remove_spec sample_env one_entry {[lit "k" := lit "v"]});
    apply one_entry_represents.
Defined.

Lemma jaeger_hashtable_copy_spec_witness :
  exists ok h' w', @jaeger_hashtable_copy sample_env one_entry initial_world
      = Ok (ok, h') w' /\
    if ok then @represents sample_env h' {[lit "k" := lit "v"]} /\
               counted h' {[lit "k" := lit "v"]}
    else ~ @plenty sample_env initial_world /\ released h'.
Proof.
  apply (jaeger_hashtable_copy_spec sample_env one_entry {[lit "k" := lit "v"]});
    [apply one_entry_represents..| |vm_compute; reflexivity].
  intros k v H. apply lookup_singleton_Some in H as [<- <-]. done.
Defined.

Definition sample_history : list map_op :=
  [OpPut (lit "a") (lit "1"); OpFind (lit "a"); OpRemove (lit "a"); OpFind (lit "a")].

Example sample_history_spec : (spec_run sample_history ∅).1 = [Some (lit "1"); None].
Proof. vm_compute. reflexivity. Qed.

Lemma jaeger_hashtable_refines_map_witness :
  exists h' w', @ht_run sample_env sample_history empty_table initial_world
      = Ok (Some ((spec_run sample_history ∅).1, h')) w' /\
    @represents sample_env h' (spec_run sample_history ∅).2.
Proof.
  apply (jaeger_hashtable_refines_map sample_env sample_history empty_table ∅ initial_world).
  - apply plenty_sample.
  - apply empty_table_represents.
  - repeat constructor.
  - reflexivity.
Defined.
