(* ===== verification/Strings.v ===== *)
(** * String utilities (strings.h)

    URI encoding and decoding of header values, key normalisation, and the
    parser of comma-separated baggage. *)
From S2P Require Import Prelude Machine CString Siphash Hashtable.

(** ** Definitions *)

Definition decode_hex (ch : ascii) : Z :=
  if islower ch then
    if code ch >? code "f" then -1 else code ch - code "a" + 10
  else if isupper ch then
    if code ch >? code "F" then -1 else code ch - code "A" + 10
  else if isdigit ch then code ch - code "0"
  else -1.

(** The characters [encode_uri_value] keeps besides letters and digits. *)
Definition uri_reserved : list ascii :=
  lit ";/?:@&=+$,-_.!~*'()".
Definition uri_plain (ch : ascii) : bool := isalnum ch || bool_decide (ch ∈ uri_reserved).

(** The states of the decoder; the last one carries [first_nibble]. *)
Inductive decode_state :=
  | default_state
  | percent_state
  | first_hex_state (first_nibble : Z).

Definition DEL : ascii := chr 0x7f.

(** The opentracing-c error codes the client returns. *)
Inductive opentracing_propagation_error_code :=
  | error_success
  | error_unknown
  | error_span_context_corrupted
  | error_invalid_span_context.

#[export] Instance error_code_eq_dec : EqDecision opentracing_propagation_error_code.
Proof. solve_decision. Defined.

Section Definitions.
Context {env : Env}.

Definition encode_hex (num : Z) : M ascii :=
  c_assert ((num >=? 0) && (num <? 16));;
  if num <? 10 then ret (chr (code "0" + num)) else ret (chr (code "a" + (num - 10))).

(** APPEND_CHAR: [dst] is the output so far. *)
Definition append_char (src_len : Z) (dst : cstr) (x : ascii) : M cstr :=
  c_assert (lenZ dst + 1 <=? src_len + 1);;
  c_assert (schar x <? 0x7f);;
  ret (dst ++ [x]).

(** One iteration of the loop. *)
Definition decode_step (src_len : Z) (st : decode_state) (dst : cstr) (ch : ascii)
    : M (decode_state * cstr) :=
  match st with
  | default_state =>
      if bool_decide (ch = "%"%char) then ret (percent_state, dst)
      else dst ← append_char src_len dst ch; ret (default_state, dst)
  | percent_state =>
      let first_nibble := decode_hex ch in
      if first_nibble =? -1 then
        dst ← append_char src_len dst "%";
        dst ← append_char src_len dst ch;
        ret (default_state, dst)
      else ret (first_hex_state first_nibble, dst)
  | first_hex_state first_nibble =>
      let second_nibble := decode_hex ch in
      if second_nibble =? -1 then
        dst ← append_char src_len dst "%";
        x ← encode_hex first_nibble;
        dst ← append_char src_len dst x;
        dst ← append_char src_len dst ch;
        ret (default_state, dst)
      else
        dst ← append_char src_len dst
                (chr (Z.lor (Z.shiftl (Z.land (u8 first_nibble) 0xf) 4)
                            (Z.land (u8 second_nibble) 0xf)));
        ret (default_state, dst)
  end.

Fixpoint decode_loop (src_len : Z) (src : cstr) (st : decode_state) (dst : cstr)
    : M (decode_state * cstr) :=
  match src with
  | [] => ret (st, dst)
  | ch :: src =>
      ' (st, dst) ← decode_step src_len st dst ch;
      decode_loop src_len src st dst
  end.

(** The switch after the loop, and the terminating NUL. *)
Definition decode_finish (src_len : Z) (st : decode_state) (dst : cstr) : M cstr :=
  dst ← (match st with
         | percent_state => append_char src_len dst "%"
         | first_hex_state first_nibble =>
             dst ← append_char src_len dst "%";
             x ← encode_hex first_nibble;
             append_char src_len dst x
         | default_state => ret dst
         end);
  _ ← append_char src_len dst nul;
  ret dst.

(** The bytes written to [dst], without the final NUL. *)
Definition decode_uri_value (src : cstr) : M cstr :=
  let src_len := to_signed 32 (strlen src) in
  ' (st, dst) ← decode_loop src_len (take (Z.to_nat src_len) src) default_state [];
  decode_finish src_len st dst.

Definition encode_char (ch : ascii) : M cstr :=
  if uri_plain ch then ret [ch]
  else
    let first_nibble := Z.land (Z.shiftr (u32 (schar ch)) 4) 0xf in
    let second_nibble := Z.land (u8 (schar ch)) 0xf in
    x ← encode_hex first_nibble;
    y ← encode_hex second_nibble;
    ret ["%"%char; x; y].

Fixpoint encode_loop (src : cstr) : M cstr :=
  match src with
  | [] => ret []
  | ch :: src => x ← encode_char ch; rest ← encode_loop src; ret (x ++ rest)
  end.

Definition encode_uri_value (src : cstr) : M cstr :=
  encode_loop (take (Z.to_nat (to_signed 32 (strlen src))) src).

Definition copy_str (src : cstr) : M cstr := ret src.

Definition to_lowercase (src : cstr) : M cstr :=
  ret (map tolower (take (Z.to_nat (to_signed 32 (strlen src))) src)).

(** *** Baggage text *)

Definition parse_key_value (baggage : jaeger_hashtable) (str : cstr)
    : M (opentracing_propagation_error_code * jaeger_hashtable) :=
  match strtok_r "=" str with
  | None => ret (error_span_context_corrupted, baggage)
  | Some (key, rest) =>
      match strtok_r "=" rest with
      | None => ret (error_span_context_corrupted, baggage)
      | Some (value, _) =>
          ' (ok, baggage) ← jaeger_hashtable_put baggage key value;
          if negb ok then ret (error_unknown, baggage) else ret (error_success, baggage)
      end
  end.

(** [while (kv_str != NULL)]: each turn consumes a token of [str]. *)
Fixpoint parse_map_loop (fuel : nat) (baggage : jaeger_hashtable) (str : cstr)
    : M (opentracing_propagation_error_code * jaeger_hashtable) :=
  match strtok_r "," str with
  | None => ret (error_success, baggage)
  | Some (kv_str, rest) =>
      match fuel with
      | O => fail OutOfFuel
      | S fuel =>
          ' (result, baggage) ← parse_key_value baggage kv_str;
          if negb (bool_decide (result = error_success)) then ret (result, baggage)
          else parse_map_loop fuel baggage rest
      end
  end.

Definition parse_comma_separated_map (baggage : jaeger_hashtable) (str : cstr)
    : M (opentracing_propagation_error_code * jaeger_hashtable) :=
  parse_map_loop (S (length str)) baggage str.
End Definitions.

(** *** What the decoder writes, without its assertions *)

(** The hexadecimal digit [encode_hex] writes. *)
Definition hex_char (num : Z) : ascii :=
  if num <? 10 then chr (code "0" + num) else chr (code "a" + (num - 10)).

Fixpoint decode_text (st : decode_state) (src : cstr) : cstr :=
  match src, st with
  | [], default_state => []
  | [], percent_state => ["%"%char]
  | [], first_hex_state n => ["%"%char; hex_char n]
  | ch :: src, default_state =>
      if bool_decide (ch = "%"%char) then decode_text percent_state src
      else ch :: decode_text default_state src
  | ch :: src, percent_state =>
      if decode_hex ch =? -1 then "%"%char :: ch :: decode_text default_state src
      else decode_text (first_hex_state (decode_hex ch)) src
  | ch :: src, first_hex_state n =>
      if decode_hex ch =? -1 then
        "%"%char :: hex_char n :: ch :: decode_text default_state src
      else chr (n * 16 + decode_hex ch) :: decode_text default_state src
  end.

(** How many characters of the source a state has consumed without output. *)
Definition pending (st : decode_state) : Z :=
  match st with default_state => 0 | percent_state => 1 | first_hex_state _ => 2 end.

Definition state_ok (st : decode_state) : Prop :=
  match st with first_hex_state n => 0 <= n < 16 | _ => True end.

(** The text of a list of baggage items: [k1=v1,k2=v2]. *)
Definition pair_text (kv : jaeger_key_value) : cstr := key kv ++ "="%char :: kv_value kv.
Fixpoint map_text (kvs : list jaeger_key_value) : cstr :=
  match kvs with
  | [] => []
  | [kv] => pair_text kv
  | kv :: kvs => pair_text kv ++ ","%char :: map_text kvs
  end.

(** Items that the text can carry. *)
Definition item_ok (kv : jaeger_key_value) : Prop :=
  key kv <> [] /\ kv_value kv <> [] /\
  ("="%char ∉ key kv /\ ","%char ∉ key kv) /\
  ("="%char ∉ kv_value kv /\ ","%char ∉ kv_value kv).

(** ** Lemmas *)

Lemma decode_hex_range ch : decode_hex ch = -1 \/ 0 <= decode_hex ch < 16.
Proof.
  assert (forall c, (decode_hex c =? -1) || ((0 <=? decode_hex c) && (decode_hex c <? 16))
    = true) as H by (apply forall_ascii; vm_compute; reflexivity).
  specialize (H ch). apply orb_true_iff in H as [H|H]; [left; lia|right; lia].
Qed.

Lemma decode_nibbles a b :
  0 <= a < 16 -> 0 <= b < 16 ->
  Z.lor (Z.shiftl (Z.land (u8 a) 0xf) 4) (Z.land (u8 b) 0xf) = a * 16 + b.
Proof.
  intros Ha Hb.
  assert (forallb (fun a => forallb (fun b =>
    Z.lor (Z.shiftl (Z.land (u8 a) 0xf) 4) (Z.land (u8 b) 0xf) =? a * 16 + b)
    (seqZ 0 16)) (seqZ 0 16) = true) as H by (vm_compute; reflexivity).
  rewrite forallb_forall in H. specialize (H a). rewrite forallb_forall in H.
  apply Z.eqb_eq, H; apply list_elem_of_In, elem_of_seqZ; lia.
Qed.

Lemma schar_DEL x : (schar x <? 0x7f) = negb (bool_decide (x = DEL)).
Proof.
  assert (forall x, Bool.eqb (schar x <? 0x7f) (negb (bool_decide (x = DEL))) = true) as H
    by (apply forall_ascii; vm_compute; reflexivity).
  by apply eqb_prop.
Qed.

Section Facts.
Context {env : Env}.
Implicit Types (w : world).

Lemma encode_hex_eq num w : 0 <= num < 16 -> encode_hex num w = Ok (hex_char num) w.
Proof.
  intros Hn. unfold encode_hex, hex_char.
  rewrite (proj2 (Z.ltb_lt num 16)), (proj2 (Z.geb_le num 0)) by lia. cbn.
  by destruct (num <? 10).
Qed.

(** Whether the characters [out] pass the assertions of APPEND_CHAR. *)
Definition writable (out : cstr) : bool := ndebug || negb (bool_decide (DEL ∈ out)).

Lemma writable_nil : writable [] = true.
Proof. unfold writable. rewrite bool_decide_eq_false_2 by set_solver. apply orb_true_r. Qed.

Lemma writable_cons x out : writable (x :: out) = writable [x] && writable out.
Proof.
  unfold writable. rewrite (bool_decide_ext (DEL ∈ x :: out) (x = DEL \/ DEL ∈ out)) by set_solver.
  rewrite (bool_decide_ext (DEL ∈ [x]) (x = DEL)) by set_solver. rewrite bool_decide_or.
  by destruct ndebug, (bool_decide (x = DEL)), (bool_decide (DEL ∈ out)).
Qed.

Lemma writable_char x : x <> DEL -> writable [x] = true.
Proof.
  intros Hx. unfold writable. rewrite bool_decide_eq_false_2 by set_solver. apply orb_true_r.
Qed.

Lemma writable_hex n : 0 <= n < 16 -> writable [hex_char n] = true.
Proof.
  intros Hn. apply writable_char.
  assert (n ∈ seqZ 0 16) as Hin by (apply elem_of_seqZ; lia). clear Hn.
  revert n Hin. apply Forall_forall. by repeat constructor.
Qed.

Lemma append_char_eq src_len dst x w :
  lenZ dst <= src_len ->
  append_char src_len dst x w
  = if writable [x] then Ok (dst ++ [x]) w else Fault AssertFailed.
Proof.
  intros Hl. unfold append_char, writable. rewrite (proj2 (Z.leb_le _ _)) by lia.
  rewrite schar_DEL, (bool_decide_ext (DEL ∈ [x]) (x = DEL)) by set_solver.
  unfold bind, c_assert. by destruct (bool_decide (x = DEL)), ndebug.
Qed.

(** The same with a continuation. *)
Lemma append_char_bind {A} src_len dst x (k : cstr -> M A) w :
  lenZ dst <= src_len ->
  bind (append_char src_len dst x) k w
  = if writable [x] then k (dst ++ [x]) w else Fault AssertFailed.
Proof. intros Hl. unfold bind. rewrite append_char_eq by done. by destruct writable. Qed.

Lemma encode_hex_bind {A} num (k : ascii -> M A) w :
  0 <= num < 16 -> bind (encode_hex num) k w = k (hex_char num) w.
Proof. intros Hn. unfold bind. by rewrite encode_hex_eq. Qed.

Lemma bind_ret {A B} (a : A) (k : A -> M B) w : bind (ret a) k w = k a w.
Proof. done. Qed.

Lemma bind_assoc {A B C} (m : M A) (k : A -> M B) (l : B -> M C) w :
  bind (bind m k) l w = bind m (fun a => bind (k a) l) w.
Proof. unfold bind. by destruct (m w). Qed.

(** Runs the next operation of the decoder at the head of the goal. *)
Ltac decode_run :=
  repeat first
    [ rewrite bind_assoc | rewrite bind_ret
    | rewrite append_char_bind by (rewrite ?length_app; cbn [length pending] in *; lia);
      rewrite ?(writable_char "%") by done;
      rewrite ?(writable_char nul) by done;
      rewrite ?writable_hex by done
    | rewrite encode_hex_bind by done ];
  cbn beta iota.

Lemma decode_finish_eq src_len st dst w :
  state_ok st -> lenZ dst + pending st <= src_len ->
  decode_finish src_len st dst w
  = if writable (decode_text st []) then Ok (dst ++ decode_text st []) w
    else Fault AssertFailed.
Proof.
  intros Hok Hl. unfold decode_finish.
  destruct st as [| |n]; cbn [pending decode_text state_ok] in *.
  - do 2 decode_run. by rewrite writable_nil, app_nil_r.
  - do 3 decode_run. by rewrite ?writable_char.
  - do 6 decode_run. rewrite writable_cons, writable_hex, ?writable_char by done.
    by rewrite <- app_assoc.
Qed.

Lemma decode_loop_eq src_len src st dst w :
  state_ok st -> lenZ dst + pending st + lenZ src <= src_len ->
  bind (decode_loop src_len src st dst) (fun '(st, dst) => decode_finish src_len st dst) w
  = if writable (decode_text st src) then Ok (dst ++ decode_text st src) w
    else Fault AssertFailed.
Proof.
  revert st dst. induction src as [|ch src IH]; intros st dst Hok Hl.
  { apply decode_finish_eq; [done|cbn in Hl; lia]. }
  assert (next : forall out, lenZ (dst ++ out) + lenZ src <= src_len ->
    bind (decode_loop src_len src default_state (dst ++ out))
      (fun '(st, dst) => decode_finish src_len st dst) w
    = if writable (decode_text default_state src)
      then Ok (dst ++ out ++ decode_text default_state src) w else Fault AssertFailed).
  { intros out Ho. rewrite IH by (done || (cbn; lia)). by rewrite <- app_assoc. }
  cbn [decode_loop length] in *. pose proof (decode_hex_range ch).
  destruct st as [| |n]; cbn [decode_step decode_text pending state_ok] in *.
  - case_bool_decide.
    + do 2 decode_run. apply IH; [done|cbn; lia].
    + do 3 decode_run. rewrite (writable_cons _ (decode_text _ _)).
      destruct (writable [ch]); [|done].
      decode_run. apply (next [ch]). lists.
  - destruct (Z.eqb_spec (decode_hex ch) (-1)).
    + do 4 decode_run. rewrite (writable_cons _ (_ :: _)), (writable_cons _ (decode_text _ _)).
      rewrite ?(writable_char "%") by done.
      cbn [andb]. destruct (writable [ch]); [|done].
      decode_run. rewrite <- app_assoc. apply (next ["%"%char; ch]). lists.
    + do 2 decode_run. apply IH; cbn; lia.
  - destruct (Z.eqb_spec (decode_hex ch) (-1)).
    + do 6 decode_run. rewrite (writable_cons _ (_ :: _ :: _)), (writable_cons _ (_ :: _)),
        (writable_cons _ (decode_text _ _)).
      rewrite ?(writable_char "%"), ?writable_hex by done.
      cbn [andb]. destruct (writable [ch]); [|done].
      decode_run. rewrite <- !app_assoc. apply (next ["%"%char; hex_char n; ch]). lists.
    + do 3 decode_run. rewrite decode_nibbles by lia.
      rewrite (writable_cons _ (decode_text _ _)).
      destruct (writable [chr (n * 16 + decode_hex ch)]); [|done].
      apply (next [chr (n * 16 + decode_hex ch)]). lists.
Qed.

Lemma decode_text_length st src :
  lenZ (decode_text st src) <= pending st + lenZ src.
Proof.
  revert st. induction src as [|ch src IH]; intros st; destruct st as [| |n];
    cbn [decode_text pending]; try (cbn; lia).
  - case_bool_decide; [etrans; [apply IH|]|pose proof (IH default_state)];
      cbn [pending length] in *; lia.
  - destruct (_ =? _); [pose proof (IH default_state)|etrans; [apply IH|]];
      cbn [pending length] in *; lia.
  - pose proof (IH default_state). destruct (_ =? _); cbn [pending length] in *; lia.
Qed.

Lemma int_strlen s : lenZ s < INT_MAX -> to_signed 32 (strlen s) = lenZ s.
Proof.
  unfold INT_MAX, strlen, to_signed. intros Hs. rewrite wrap_small by lia.
  by rewrite (proj2 (Z.ltb_lt _ _)) by (cbn; lia).
Qed.

Lemma decode_eq src w :
  lenZ src < INT_MAX ->
  decode_uri_value src w
  = if writable (decode_text default_state src) then Ok (decode_text default_state src) w
    else Fault AssertFailed.
Proof.
  intros Hs. unfold decode_uri_value. pose proof (int_strlen src Hs) as Hl.
  rewrite Hl, Nat2Z.id, take_ge by lia. rewrite decode_loop_eq; [done|done|cbn; lia].
Qed.

(** *** Encoding *)

Definition encoded (ch : ascii) : cstr :=
  if uri_plain ch then [ch]
  else ["%"%char; hex_char (code ch / 16); hex_char (code ch mod 16)].
Definition encode_text (s : cstr) : cstr := concat (map encoded s).

Lemma code_nibbles ch : 0 <= code ch / 16 < 16 /\ 0 <= code ch mod 16 < 16.
Proof.
  pose proof (code_range ch). pose proof (Z.mod_pos_bound (code ch) 16 ltac:(lia)).
  split; [|done]. split; [apply Z.div_pos; lia|apply Z.div_lt_upper_bound; lia].
Qed.

Lemma encode_char_eq ch w : encode_char ch w = Ok (encoded ch) w.
Proof.
  unfold encode_char, encoded. destruct (uri_plain ch); [done|].
  assert (forall ch, (Z.land (Z.shiftr (u32 (schar ch)) 4) 0xf =? code ch / 16) &&
    (Z.land (u8 (schar ch)) 0xf =? code ch mod 16) = true) as Hn
    by (apply forall_ascii; vm_compute; reflexivity).
  specialize (Hn ch). apply andb_true_iff in Hn as [H1%Z.eqb_eq H2%Z.eqb_eq].
  rewrite H1, H2. destruct (code_nibbles ch).
  by rewrite !encode_hex_bind.
Qed.

Lemma encode_loop_eq s w : encode_loop s w = Ok (encode_text s) w.
Proof.
  induction s as [|ch s IH]; [done|]. cbn [encode_loop].
  unfold bind. rewrite encode_char_eq. by rewrite IH.
Qed.

Lemma encode_eq s w : lenZ s < INT_MAX -> encode_uri_value s w = Ok (encode_text s) w.
Proof.
  intros Hs. unfold encode_uri_value.
  by rewrite (int_strlen s Hs), Nat2Z.id, take_ge, encode_loop_eq by lia.
Qed.

Lemma encode_text_length s : lenZ (encode_text s) <= 3 * lenZ s.
Proof.
  induction s as [|ch s IH]; [done|]. unfold encode_text in *. cbn [map concat].
  assert (length (encoded ch) <= 3)%nat
    by (unfold encoded; destruct (uri_plain ch); cbn; lia).
  rewrite length_app. cbn [length]. lia.
Qed.

Lemma encode_text_no_nul s : nul ∉ encode_text s.
Proof.
  induction s as [|ch s IH]; [apply not_elem_of_nil|]. unfold encode_text in *. cbn [map concat].
  assert (forall ch, negb (bool_decide (nul ∈ encoded ch)) = true) as H
    by (apply forall_ascii; vm_compute; reflexivity).
  specialize (H ch). apply negb_true_iff, bool_decide_eq_false in H. set_solver.
Qed.

Lemma decode_encoded ch s :
  decode_text default_state (encoded ch ++ s) = ch :: decode_text default_state s.
Proof.
  unfold encoded. destruct (uri_plain ch) eqn:Hp.
  - cbn. rewrite bool_decide_eq_false_2; [done|]. by intros ->.
  - destruct (code_nibbles ch) as [H1 H2].
    assert (forall n, n ∈ seqZ 0 16 -> decode_hex (hex_char n) = n) as Hd
      by (apply Forall_forall; by repeat constructor).
    cbn [app decode_text]. rewrite bool_decide_eq_true_2 by done.
    rewrite !Hd by (apply elem_of_seqZ; lia).
    rewrite !(proj2 (Z.eqb_neq _ _)) by lia. f_equal.
    rewrite <- (chr_code ch) at 3. f_equal. pose proof (Z.div_mod (code ch) 16 ltac:(lia)). lia.
Qed.

Lemma decode_encode_text s : decode_text default_state (encode_text s) = s.
Proof.
  induction s as [|ch s IH]; [done|]. unfold encode_text in *. cbn [map concat].
  by rewrite decode_encoded, IH.
Qed.

(** *** Baggage *)

(** A table that holds some map, with the right count. *)
Definition baggage_valid (h : jaeger_hashtable) : Prop :=
  exists m, represents h m /\ counted h m.

Lemma parse_key_value_wp h str Q w :
  baggage_valid h -> lenZ str < INT_MAX -> ht_size h + 1 < 2 ^ 31 ->
  (forall e h' w', alloc_only w w' -> baggage_valid h' ->
     ht_size h' <= ht_size h + 1 -> Q (e, h') w') ->
  wp (parse_key_value h str) Q w.
Proof.
  intros (m & Hr & Hc) Hs Hsz HQ. assert (baggage_valid h) by (by exists m).
  unfold parse_key_value. destruct (strtok_r "=" str) as [[k rest]|] eqn:Hk.
  2: { apply wp_ret, HQ; [done|done|lia]. }
  apply strtok_r_length in Hk. destruct (strtok_r "=" rest) as [[v rest']|] eqn:Hv.
  2: { apply wp_ret, HQ; [done|done|lia]. }
  apply strtok_r_length in Hv. apply wp_bind.
  eapply (put_wp h m); [done|unfold short; lia|unfold short; lia|done| |].
  - intros h' w' Hw _ Hr' Hz. apply wp_ret, HQ; [done| |lia].
    exists m. split; [done|]. unfold counted in *. congruence.
  - intros h' w' Hw Hr' Hz. apply wp_ret, HQ; [done| |].
    + eexists. split; [done|]. by eapply counted_insert.
    + rewrite Hz. unfold size_after. destruct (m !! k); lia.
Qed.

Lemma parse_map_loop_wp fuel h str Q w :
  baggage_valid h -> lenZ str < INT_MAX -> ht_size h + lenZ str < 2 ^ 31 ->
  (length str < fuel)%nat ->
  (forall e h' w', alloc_only w w' -> baggage_valid h' ->
     ht_size h' <= ht_size h + lenZ str -> Q (e, h') w') ->
  wp (parse_map_loop fuel h str) Q w.
Proof.
  revert h str w. induction fuel as [|fuel IH]; intros h str w Hv Hs Hsz Hf HQ; [lia|].
  cbn [parse_map_loop]. destruct (strtok_r "," str) as [[kv rest]|] eqn:Hk.
  2: { apply wp_ret, HQ; [done|done|lia]. }
  pose proof (strtok_r_length _ _ _ _ Hk). apply strtok_r_shorter in Hk as [Hk Hne].
  assert (0 < length kv)%nat by (destruct kv; [done|cbn; lia]).
  apply wp_bind, parse_key_value_wp; [done|lia|lia|].
  intros e h' w' Hw Hv' Hz. case_bool_decide; cbn [negb].
  - apply IH; [done|lia|lia|lia|]. intros e2 h2 w2 Hw2 Hv2 Hz2.
    apply HQ; [by etrans|done|lia].
  - apply wp_ret, HQ; [done|done|lia].
Qed.

Lemma put_pair_wp h m kv Q w :
  plenty w -> represents h m -> item_ok kv -> short_entry kv -> ht_size h + 1 < 2 ^ 31 ->
  (forall h' w', alloc_only w w' -> represents h' (<[key kv := kv_value kv]> m) ->
     ht_size h' = size_after m (key kv) (ht_size h) -> Q (error_success, h') w') ->
  wp (parse_key_value h (pair_text kv)) Q w.
Proof.
  intros Hp Hr (Hk & Hv & [Hke Hkc] & [Hve Hvc]) [Hks Hvs] Hsz HQ.
  unfold parse_key_value, pair_text. rewrite strtok_r_app, strtok_r_last by done.
  apply wp_bind. eapply (put_wp h m); [done..|].
  intros h' w' Hw Hr' Hz. by apply wp_ret, HQ.
Qed.

Lemma pair_text_token kv :
  item_ok kv -> pair_text kv <> [] /\ ","%char ∉ pair_text kv.
Proof.
  intros (Hk & _ & [_ Hkc] & [_ Hvc]). unfold pair_text. split.
  - by destruct (key kv).
  - set_solver.
Qed.

Lemma parse_map_text_wp fuel h m kvs Q w :
  plenty w -> represents h m -> Forall item_ok kvs -> Forall short_entry kvs ->
  ht_size h + lenZ kvs < 2 ^ 31 -> (length kvs < fuel)%nat ->
  (forall h' w', alloc_only w w' -> represents h' (put_all m kvs) ->
     (counted h m -> counted h' (put_all m kvs)) -> Q (error_success, h') w') ->
  wp (parse_map_loop fuel h (map_text kvs)) Q w.
Proof.
  revert h m kvs w. induction fuel as [|fuel IH]; intros h m kvs w Hp Hr Hok Hsh Hsz Hf HQ;
    [lia|]. destruct kvs as [|kv kvs]; [by apply wp_ret, HQ|].
  apply Forall_cons in Hok as [Hkv Hok]. apply Forall_cons in Hsh as [Hks Hsh].
  destruct (pair_text_token kv Hkv) as [Hne Hnc]. cbn [length] in *.
  assert (strtok_r "," (map_text (kv :: kvs)) = Some (pair_text kv, map_text kvs)) as Htok.
  { cbn [map_text]. destruct kvs as [|kv' kvs]; [by apply strtok_r_last|].
    by apply strtok_r_app. }
  cbn [parse_map_loop]. rewrite Htok. apply wp_bind.
  apply (put_pair_wp h m); [done..|lia|]. intros h' w' Hw Hr' Hz.
  rewrite bool_decide_eq_true_2 by done. cbn [negb].
  apply (IH h' (<[key kv := kv_value kv]> m)); [eauto with jaeger|done..| |lia|].
  - rewrite Hz. unfold size_after. destruct (m !! key kv); lia.
  - intros h2 w2 Hw2 Hr2 Hc2. apply HQ; [by etrans|done|].
    intros Hc. apply Hc2. by eapply counted_insert.
Qed.

Lemma map_text_length kvs : Forall item_ok kvs -> (length kvs <= length (map_text kvs))%nat.
Proof.
  induction 1 as [|kv kvs Hkv _ IH]; [done|].
  destruct (pair_text_token kv Hkv) as [Hne _].
  assert (0 < length (pair_text kv))%nat by (destruct (pair_text kv); [done|cbn; lia]).
  destruct kvs as [|kv' kvs]; [cbn in *; lia|].
  change (map_text (kv :: kv' :: kvs)) with (pair_text kv ++ ","%char :: map_text (kv' :: kvs)).
  rewrite length_app. cbn [length] in *. lia.
Qed.
End Facts.

(** ** Properties *)

(** Decoding a header value never writes more characters than it reads (the
    destination has [strlen(src) + 1] bytes), and it returns the decoded text
    in every case but one: an assertion fails when the text holds a DEL
    character, raw or as %7f, in a build with assertions. *)
Theorem decode_uri_value_spec (env : Env) src w :
  lenZ src < INT_MAX ->
  lenZ (decode_text default_state src) <= lenZ src /\
  decode_uri_value src w
  = if ndebug || negb (bool_decide (DEL ∈ decode_text default_state src))
    then Ok (decode_text default_state src) w else Fault AssertFailed.
Proof.
  intros Hs. split; [apply (decode_text_length default_state)|].
  by rewrite decode_eq.
Qed.

(** Encoding then decoding a value gives it back: the encoded text is at most
    three times as long (the size its buffer has), has no NUL, and decodes
    without a failed assertion, for every value without DEL. *)
Theorem uri_roundtrip (env : Env) s w :
  3 * lenZ s < INT_MAX -> DEL ∉ s ->
  exists t, encode_uri_value s w = Ok t w /\ lenZ t <= 3 * lenZ s /\ nul ∉ t /\
    decode_uri_value t w = Ok s w.
Proof.
  intros Hs Hdel. pose proof (encode_text_length s) as Hl. exists (encode_text s).
  split; [by apply encode_eq; lia|]. split; [done|]. split; [apply encode_text_no_nul|].
  rewrite decode_eq, decode_encode_text by lia. unfold writable.
  by rewrite bool_decide_eq_false_2, orb_true_r.
Qed.

(** The baggage parser terminates on every text, whatever is malformed in it,
    without a fault; the table it leaves still holds a map with a right count,
    and gained at most one entry per character. *)
Theorem parse_comma_separated_map_safe (env : Env) h str w :
  baggage_valid h -> lenZ str < INT_MAX -> ht_size h + lenZ str < 2 ^ 31 ->
  exists e h' w', parse_comma_separated_map h str w = Ok (e, h') w' /\
    baggage_valid h' /\ ht_size h' <= ht_size h + lenZ str.
Proof.
  intros Hv Hs Hsz.
  assert (wp (parse_comma_separated_map h str) (fun r _ =>
    baggage_valid r.2 /\ ht_size r.2 <= ht_size h + lenZ str) w) as H
    by (apply parse_map_loop_wp; auto; lia).
  apply wp_returns in H as ([e h'] & w' & ? & ?). eauto 6.
Qed.

(** Parsing the text of well-formed items, while memory lasts, adds exactly
    those items to the baggage, later ones replacing earlier ones. *)
Theorem parse_comma_separated_map_text (env : Env) h m kvs w :
  plenty w -> represents h m -> counted h m -> Forall item_ok kvs ->
  Forall short_entry kvs -> ht_size h + lenZ kvs < 2 ^ 31 ->
  exists h' w', parse_comma_separated_map h (map_text kvs) w = Ok (error_success, h') w' /\
    represents h' (put_all m kvs) /\ counted h' (put_all m kvs).
Proof.
  intros Hp Hr Hc Hok Hsh Hsz. pose proof (map_text_length _ Hok) as Hlen.
  assert (wp (parse_comma_separated_map h (map_text kvs)) (fun r _ => r.1 = error_success /\
    represents r.2 (put_all m kvs) /\ counted r.2 (put_all m kvs)) w) as H.
  { apply (parse_map_text_wp _ h m); [done..|lia|]. naive_solver. }
  apply wp_returns in H as ([e h'] & w' & ? & He & ?). cbn in He. subst. eauto 6.
Qed.

Lemma decode_uri_value_spec_witness :
  lenZ (decode_text default_state (lit "a%20b")) <= 5 /\
  @decode_uri_value sample_env (lit "a%20b") initial_world
  = if false || negb (bool_decide (DEL ∈ decode_text default_state (lit "a%20b")))
    then Ok (decode_text default_state (lit "a%20b")) initial_world
    else Fault AssertFailed.
Proof. by apply (decode_uri_value_spec sample_env (lit "a%20b") initial_world). Defined.

Example decode_aborts_on_del :
  @decode_uri_value sample_env (lit "%7f") initial_world = Fault AssertFailed.
Proof. vm_compute. reflexivity. Qed.

Lemma uri_roundtrip_witness :
  exists t, @encode_uri_value sample_env (lit "50% off") initial_world = Ok t initial_world /\
    lenZ t <= 3 * 7 /\ nul ∉ t /\
    @decode_uri_value sample_env t initial_world = Ok (lit "50% off") initial_world.
Proof.
  apply (uri_roundtrip sample_env (lit "50% off")); [done|].
  by apply (bool_decide_unpack _).
Defined.

Lemma empty_table_valid : @baggage_valid sample_env empty_table.
Proof. exists ∅. split; [apply empty_table_represents|done]. Qed.

Lemma parse_comma_separated_map_safe_witness :
  exists e h' w', @parse_comma_separated_map sample_env empty_table (lit "a=,,=b=c")
      initial_world = Ok (e, h') w' /\
    @baggage_valid sample_env h' /\ ht_size h' <= 0 + 8.
Proof.
  apply (parse_comma_separated_map_safe sample_env empty_table (lit "a=,,=b=c"));
    [apply empty_table_valid|done|done].
Defined.

Definition sample_items : list jaeger_key_value :=
  [KeyValue (lit "user") (lit "alice"); KeyValue (lit "region") (lit "eu")].

Lemma parse_comma_separated_map_text_witness :
  exists h' w', @parse_comma_separated_map sample_env empty_table (map_text sample_items)
      initial_world = Ok (error_success, h') w' /\
    @represents sample_env h' (put_all ∅ sample_items) /\
    counted h' (put_all ∅ sample_items).
Proof.
  apply (parse_comma_separated_map_text sample_env empty_table ∅ sample_items);
    [apply plenty_sample|apply empty_table_represents|done| |by repeat constructor|done].
  repeat (apply Forall_cons; split); try apply Forall_nil; try done;
    repeat split; try done; by apply (bool_decide_unpack _).
Defined.
