(* ===== verification/Metrics.v ===== *)
(** * Metrics (metrics.c)

    Counters and gauges behind their interfaces, the null implementations,
    and the container of the client's metrics. The totals live in cells of
    the machine, so that a counter held by several components is shared. *)
From S2P Require Import Prelude Machine.

(** ** Definitions *)

(** A [jaeger_counter*] or [jaeger_gauge*] that is not NULL: the shared null
    instance, or a default one with its 64-bit cell. *)
Inductive jaeger_counter :=
  | null_counter
  | jaeger_default_counter (total : nat).
Inductive jaeger_gauge :=
  | null_gauge
  | jaeger_default_gauge (amount : nat).

Section Cells.
(** Accesses to the cells, and [__atomic_add_fetch] with its wrap-around. *)
Definition set_cells (cells : gmap nat Z) (next : nat) (w : world) : world :=
  World (w_allocator w) (w_allocs w) (w_mono w) (w_real w) (w_entropy w)
    (w_rng w) cells next.

Definition new_cell : M nat := fun w =>
  Ok (w_next_cell w)
     (set_cells (<[w_next_cell w := 0]> (w_cells w)) (S (w_next_cell w)) w).

Definition write_cell (c : nat) (f : Z -> Z) : M unit := fun w =>
  match w_cells w !! c with
  | Some v => Ok tt (set_cells (<[c := to_signed 64 (f v)]> (w_cells w)) (w_next_cell w) w)
  | None => Fault NullDeref
  end.

Definition free_cell (c : nat) : M unit := fun w =>
  match w_cells w !! c with
  | Some _ => Ok tt (set_cells (delete c (w_cells w)) (w_next_cell w) w)
  | None => Fault DoubleFree
  end.
End Cells.

Definition jaeger_default_counter_inc (total : nat) (delta : Z) : M unit :=
  write_cell total (fun t => t + delta).
Definition null_counter_inc (delta : Z) : M unit := ret tt.

Definition jaeger_default_gauge_update (cell : nat) (amount : Z) : M unit :=
  write_cell cell (fun _ => amount).
Definition null_gauge_update (amount : Z) : M unit := ret tt.

(** [counter->inc(counter, delta)] and [gauge->update(gauge, amount)]. *)
Definition inc (counter : option jaeger_counter) (delta : Z) : M unit :=
  match counter with
  | None => fail NullDeref
  | Some null_counter => null_counter_inc delta
  | Some (jaeger_default_counter total) => jaeger_default_counter_inc total delta
  end.

Definition update (gauge : option jaeger_gauge) (amount : Z) : M unit :=
  match gauge with
  | None => fail NullDeref
  | Some null_gauge => null_gauge_update amount
  | Some (jaeger_default_gauge cell) => jaeger_default_gauge_update cell amount
  end.

Definition jaeger_null_counter : jaeger_counter := null_counter.
Definition jaeger_null_gauge : jaeger_gauge := null_gauge.

Definition jaeger_default_counter_init : M jaeger_counter :=
  c ← new_cell; ret (jaeger_default_counter c).
Definition jaeger_default_gauge_init : M jaeger_gauge :=
  c ← new_cell; ret (jaeger_default_gauge c).

(** The members of the container, in the order of the X macros. *)
Inductive counter_name :=
  | traces_started_sampled
  | traces_started_not_sampled
  | traces_joined_sampled
  | traces_joined_not_sampled
  | spans_started
  | spans_finished
  | spans_sampled
  | spans_not_sampled
  | decoding_errors
  | reporter_success
  | reporter_failure
  | reporter_dropped
  | sampler_retrieved
  | sampler_updated
  | sampler_update_failure
  | sampler_query_failure
  | baggage_update_success
  | baggage_update_failure
  | baggage_truncate
  | baggage_restrictions_update_success
  | baggage_restrictions_update_failure.

#[export] Instance counter_name_eq_dec : EqDecision counter_name.
Proof. solve_decision. Defined.

Definition JAEGERTRACINGC_METRICS_COUNTERS : list counter_name :=
  [traces_started_sampled; traces_started_not_sampled; traces_joined_sampled;
   traces_joined_not_sampled; spans_started; spans_finished; spans_sampled;
   spans_not_sampled; decoding_errors; reporter_success; reporter_failure;
   reporter_dropped; sampler_retrieved; sampler_updated; sampler_update_failure;
   sampler_query_failure; baggage_update_success; baggage_update_failure;
   baggage_truncate; baggage_restrictions_update_success;
   baggage_restrictions_update_failure].

Record jaeger_metrics := Metrics {
  counter : counter_name -> option jaeger_counter;
  reporter_queue_length : option jaeger_gauge;
}.

Definition set_counter (m : jaeger_metrics) (n : counter_name) (c : option jaeger_counter)
    : jaeger_metrics :=
  Metrics (fun k => if decide (k = n) then c else counter m k) (reporter_queue_length m).

Definition jaeger_null_metrics : jaeger_metrics :=
  Metrics (fun _ => Some jaeger_null_counter) (Some jaeger_null_gauge).

Section Definitions.
Context {env : Env}.

(** [d->destroy(d); jaeger_free(member)]: only a default instance was
    allocated; freeing the static null instance is undefined. *)
Definition free_counter (c : jaeger_counter) : M unit :=
  match c with
  | null_counter => fail BadFree
  | jaeger_default_counter total => free_cell total
  end.
Definition free_gauge (g : jaeger_gauge) : M unit :=
  match g with
  | null_gauge => fail BadFree
  | jaeger_default_gauge cell => free_cell cell
  end.

Fixpoint destroy_counters (names : list counter_name) (metrics : jaeger_metrics)
    : M jaeger_metrics :=
  match names with
  | [] => ret metrics
  | n :: names =>
      match counter metrics n with
      | None => destroy_counters names metrics
      | Some c => free_counter c;; destroy_counters names (set_counter metrics n None)
      end
  end.

Definition jaeger_metrics_destroy (metrics : option jaeger_metrics)
    : M (option jaeger_metrics) :=
  match metrics with
  | None => ret None
  | Some metrics =>
      metrics ← destroy_counters JAEGERTRACINGC_METRICS_COUNTERS metrics;
      match reporter_queue_length metrics with
      | None => ret (Some metrics)
      | Some g => free_gauge g;; ret (Some (Metrics (counter metrics) None))
      end
  end.

(** JAEGERTRACINGC_METRICS_ALLOC_INIT on each counter: once an allocation has
    failed, nothing more is allocated. *)
Fixpoint alloc_counters (names : list counter_name) (success : bool)
    (metrics : jaeger_metrics) : M (bool * jaeger_metrics) :=
  match names with
  | [] => ret (success, metrics)
  | n :: names =>
      if success then
        granted ← jaeger_malloc;
        if (granted : bool) then
          c ← jaeger_default_counter_init;
          alloc_counters names true (set_counter metrics n (Some c))
        else alloc_counters names false metrics
      else alloc_counters names false metrics
  end.

Definition alloc_gauge (success : bool) (metrics : jaeger_metrics)
    : M (bool * jaeger_metrics) :=
  if success then
    granted ← jaeger_malloc;
    if (granted : bool) then
      g ← jaeger_default_gauge_init;
      ret (true, Metrics (counter metrics) (Some g))
    else ret (false, metrics)
  else ret (false, metrics).

Definition jaeger_default_metrics_init : M (bool * jaeger_metrics) :=
  let metrics := Metrics (fun _ => None) None in
  ' (success, metrics) ← alloc_counters JAEGERTRACINGC_METRICS_COUNTERS true metrics;
  ' (success, metrics) ← alloc_gauge success metrics;
  if success then ret (true, metrics)
  else
    m ← jaeger_metrics_destroy (Some metrics);
    ret (false, default metrics m).
End Definitions.

(** The cell of a member: a counter, or the gauge for [None]. *)
Definition cell_of (m : jaeger_metrics) (k : option counter_name) : option nat :=
  match k with
  | Some n =>
      match counter m n with Some (jaeger_default_counter c) => Some c | _ => None end
  | None =>
      match reporter_queue_length m with
      | Some (jaeger_default_gauge c) => Some c
      | _ => None
      end
  end.

(** The current total of a member. *)
Definition total (m : jaeger_metrics) (k : option counter_name) (w : world) : option Z :=
  match cell_of m k with Some c => w_cells w !! c | None => None end.

(** ** Lemmas *)

Definition members_distinct (m : jaeger_metrics) : Prop :=
  forall k1 k2 c, cell_of m k1 = Some c -> cell_of m k2 = Some c -> k1 = k2.

(** Every member is a live default instance of its own. *)
Definition metrics_wf (m : jaeger_metrics) (w : world) : Prop :=
  (forall k, exists v, total m k w = Some v) /\ members_distinct m.

(** New cells are never live ones. *)
Definition cells_below (w : world) : Prop :=
  forall c, is_Some (w_cells w !! c) -> (c < w_next_cell w)%nat.

(** Between construction and destruction: the live cells created since [w0]
    are exactly those of the members, and they hold 0. *)
Record held (w0 w : world) (m : jaeger_metrics) : Prop := {
  held_alloc : w_allocator w = w_allocator w0;
  held_next : (w_next_cell w0 <= w_next_cell w)%nat;
  held_kept c : (c < w_next_cell w0)%nat -> w_cells w !! c = w_cells w0 !! c;
  held_live c v : (w_next_cell w0 <= c)%nat -> w_cells w !! c = Some v ->
    v = 0 /\ exists k, cell_of m k = Some c;
  held_cells k c : cell_of m k = Some c ->
    (w_next_cell w0 <= c < w_next_cell w)%nat /\ is_Some (w_cells w !! c);
  held_distinct : members_distinct m;
  held_counters n : counter m n <> Some null_counter;
  held_gauge : reporter_queue_length m <> Some null_gauge;
}.

Lemma counters_complete n : n ∈ JAEGERTRACINGC_METRICS_COUNTERS.
Proof. apply (bool_decide_unpack _). by destruct n. Qed.

Lemma counters_nodup : NoDup JAEGERTRACINGC_METRICS_COUNTERS.
Proof. by apply (bool_decide_unpack _). Qed.

Lemma set_counter_eq m n c : counter (set_counter m n c) n = c.
Proof. cbn. by rewrite decide_True. Qed.

Lemma cell_of_set_counter m n c k :
  cell_of (set_counter m n c) k
  = if decide (k = Some n)
    then match c with Some (jaeger_default_counter x) => Some x | _ => None end
    else cell_of m k.
Proof.
  destruct k as [k|]; cbn; [|by rewrite decide_False].
  destruct (decide (k = n)) as [->|Hne]; [by rewrite decide_True|].
  rewrite decide_False; [done|congruence].
Qed.

Lemma cell_of_set_gauge m g k k0 :
  k0 = None -> cell_of (Metrics (counter m) g) k
  = if decide (k = k0) then match g with Some (jaeger_default_gauge x) => Some x | _ => None end
    else cell_of m k.
Proof. intros ->. by destruct k. Qed.

(** Changing the cell of one member, in the metrics and in the memory. *)
Lemma held_change w0 w m k m' w' (o : option nat) :
  held w0 w m -> w_allocator w' = w_allocator w ->
  (forall j, cell_of m' j = if decide (j = k) then o else cell_of m j) ->
  (forall n, counter m' n <> Some null_counter) ->
  reporter_queue_length m' <> Some null_gauge ->
  (w_next_cell w <= w_next_cell w')%nat ->
  match o with
  | Some c => cell_of m k = None /\ c = w_next_cell w /\ w_next_cell w' = S c /\
      w_cells w' = <[c := 0]> (w_cells w)
  | None => exists c, cell_of m k = Some c /\ w_cells w' = delete c (w_cells w)
  end ->
  held w0 w' m'.
Proof.
  intros [Ha Hn Hk Hl Hc Hd Hnc Hng] Ha' Hof Hnc' Hng' Hn' Ho.
  destruct o as [c|]; [destruct Ho as (Hnone & -> & HS & Hw)|destruct Ho as (c & Hkc & Hw)];
    split; try done; try lia; try congruence; rewrite ?Hw.
  - intros c Hcl. rewrite lookup_insert_ne by lia. by apply Hk.
  - intros c v Hcl. rewrite lookup_insert_Some. intros [[<- <-]|[Hne Hv]].
    + split; [done|]. exists k. by rewrite Hof, decide_True.
    + destruct (Hl c v Hcl Hv) as [-> [j Hj]]. split; [done|]. exists j.
      rewrite Hof, decide_False; [done|]. intros ->. congruence.
  - intros j c. rewrite Hof. case_decide; [intros [= <-]|].
    + split; [lia|]. rewrite lookup_insert_eq. eauto.
    + intros Hj. destruct (Hc j c Hj) as [? ?]. split; [lia|].
      rewrite lookup_insert_ne by lia. done.
  - intros j1 j2 c. rewrite !Hof. repeat case_decide; subst; try done.
    + intros [= <-] Hj. destruct (Hc _ _ Hj). lia.
    + intros Hj [= <-]. destruct (Hc _ _ Hj). lia.
    + apply Hd.
  - intros x Hx. destruct (Hc _ _ Hkc). rewrite lookup_delete_ne by lia. by apply Hk.
  - intros x v Hx. rewrite lookup_delete_Some. intros [Hne Hv].
    destruct (Hl x v Hx Hv) as [-> [j Hj]]. split; [done|]. exists j.
    rewrite Hof, decide_False; [done|]. intros ->. congruence.
  - intros j x. rewrite Hof. case_decide as Hjk; [done|]. intros Hj.
    destruct (Hc j x Hj) as [? ?]. split; [lia|]. rewrite lookup_delete_ne; [done|].
    intros <-. by apply Hjk, (Hd j k c).
  - intros j1 j2 x. rewrite !Hof. repeat case_decide; subst; try done. apply Hd.
Qed.

(** The members named in [names] are set. *)
Definition all_set (names : list counter_name) (m : jaeger_metrics) : Prop :=
  forall n, n ∈ names -> is_Some (cell_of m (Some n)).

Section Facts.
Context {env : Env}.
Implicit Types (w : world).

Lemma held_alloc_only w0 w w' m : alloc_only w w' -> held w0 w m -> held w0 w' m.
Proof.
  intros (Ha & _ & _ & _ & _ & Hc & Hn) [].
  split; rewrite ?Hc, ?Hn; try done. congruence.
Qed.

Lemma new_counter_wp w0 w m n Q :
  held w0 w m -> cell_of m (Some n) = None ->
  (forall c w', w_allocator w' = w_allocator w ->
     held w0 w' (set_counter m n (Some (jaeger_default_counter c))) ->
     Q (jaeger_default_counter c) w') ->
  wp jaeger_default_counter_init Q w.
Proof.
  intros Hh Hnone HQ. unfold jaeger_default_counter_init. apply wp_bind. cbn.
  apply HQ; [done|]. eapply (held_change w0 w m (Some n) _ _ (Some (w_next_cell w)));
    [done|done| | | | |].
  - intros j. apply (cell_of_set_counter m n (Some (jaeger_default_counter _)) j).
  - intros k. cbn. case_decide; [done|]. apply (held_counters _ _ _ Hh).
  - apply (held_gauge _ _ _ Hh).
  - cbn. lia.
  - done.
Qed.

Lemma alloc_counters_failed names m Q w :
  Q (false, m) w -> wp (alloc_counters names false m) Q w.
Proof. induction names; cbn; auto. Qed.

Lemma alloc_counters_wp names w0 w m Q :
  held w0 w m -> NoDup names -> (forall n, n ∈ names -> cell_of m (Some n) = None) ->
  reporter_queue_length m = None ->
  (forall m' w', held w0 w' m' -> all_set names m' ->
     (forall k, is_Some (cell_of m k) -> is_Some (cell_of m' k)) ->
     reporter_queue_length m' = None -> Q (true, m') w') ->
  (forall m' w', held w0 w' m' -> ~ plenty w -> Q (false, m') w') ->
  wp (alloc_counters names true m) Q w.
Proof.
  revert w m. induction names as [|n names IH]; intros w m Hh Hnd Hnone Hg HT HF;
    cbn [alloc_counters].
  { apply wp_ret, HT; try done. intros n Hn. by apply not_elem_of_nil in Hn. }
  apply NoDup_cons in Hnd as [Hnn Hnd]. wp_step. wp_step. wp_step.
  - apply wp_bind. eapply (new_counter_wp w0 w' m n); [by eapply held_alloc_only| |].
    { apply Hnone, elem_of_cons. auto. }
    intros c w1 Hw1 Hh1. apply (IH _ _ Hh1 Hnd); [|done|..].
    + intros j Hj. rewrite cell_of_set_counter, decide_False by congruence.
      apply Hnone, elem_of_cons. auto.
    + intros m2 w2 Hh2 Hall Hmono Hg2. apply HT; [done| | |done].
      * intros j [->|Hj]%elem_of_cons; [|by apply Hall]. apply Hmono.
        rewrite cell_of_set_counter, decide_True; eauto.
      * intros k Hk. apply Hmono. rewrite cell_of_set_counter.
        case_decide; [eauto|done].
    + intros m2 w2 Hh2 Hno. apply HF; [done|]. intros Hp. apply Hno.
      destruct (plenty_alloc_only _ _ Halloc Hp). split; [congruence|done].
  - apply alloc_counters_failed, HF; [by eapply held_alloc_only|].
    intros Hp. by specialize (Hplenty Hp).
Qed.

Lemma alloc_gauge_wp w0 w m Q :
  held w0 w m -> reporter_queue_length m = None ->
  (forall m' w', held w0 w' m' -> is_Some (cell_of m' None) -> counter m' = counter m ->
     Q (true, m') w') ->
  (forall m' w', held w0 w' m' -> ~ plenty w -> Q (false, m') w') ->
  wp (alloc_gauge true m) Q w.
Proof.
  intros Hh Hg HT HF. unfold alloc_gauge. wp_step. wp_step.
  pose proof (held_alloc_only _ _ _ _ Halloc Hh) as Hh1. wp_step.
  - apply wp_bind. unfold jaeger_default_gauge_init. apply wp_bind. cbn.
    apply HT; [|cbn; eauto|done].
    eapply (held_change w0 w' m None _ _ (Some (w_next_cell w')));
      [done|done| |apply Hh1|done|cbn; lia|].
    + intros j. by apply (cell_of_set_gauge m (Some (jaeger_default_gauge _))).
    + cbn. by rewrite Hg.
  - apply wp_ret, HF; [done|]. intros Hp. by specialize (Hplenty Hp).
Qed.

Lemma free_cell_wp c Q w :
  is_Some (w_cells w !! c) ->
  Q tt (set_cells (delete c (w_cells w)) (w_next_cell w) w) -> wp (free_cell c) Q w.
Proof. intros [v Hv] HQ. unfold wp, free_cell. by rewrite Hv. Qed.

Lemma destroy_counters_wp names w0 w m Q :
  held w0 w m ->
  (forall m' w', held w0 w' m' -> (forall n, n ∈ names -> counter m' n = None) ->
     (forall n, counter m n = None -> counter m' n = None) -> Q m' w') ->
  wp (destroy_counters names m) Q w.
Proof.
  revert w m. induction names as [|n names IH]; intros w m Hh HQ; cbn [destroy_counters].
  { apply wp_ret, HQ; try done. intros n Hn. by apply not_elem_of_nil in Hn. }
  destruct (counter m n) as [[|c]|] eqn:Hn; [by destruct (held_counters _ _ _ Hh n)| |].
  - assert (cell_of m (Some n) = Some c) as Hcell by (cbn; by rewrite Hn).
    apply wp_bind, free_cell_wp; [by apply (held_cells _ _ _ Hh (Some n))|].
    apply IH.
    + eapply (held_change w0 w m (Some n) _ _ None); [done|done| | | |done|].
      * intros j. apply (cell_of_set_counter m n None j).
      * intros k. cbn. case_decide; [done|]. apply (held_counters _ _ _ Hh).
      * apply (held_gauge _ _ _ Hh).
      * eauto.
    + intros m2 w2 Hh2 Hall Hmono. apply HQ; [done| |].
      * intros j [->|Hj]%elem_of_cons; [|by apply Hall]. apply Hmono.
        by rewrite set_counter_eq.
      * intros j Hj. apply Hmono. cbn. by case_decide.
  - apply IH; [done|]. intros m2 w2 Hh2 Hall Hmono. apply HQ; [done| |done].
    intros j [->|Hj]%elem_of_cons; auto.
Qed.

(** Destroying gives every cell back. *)
Lemma metrics_destroy_wp w0 w m Q :
  cells_below w0 -> held w0 w m ->
  (forall m' w', w_cells w' = w_cells w0 -> w_allocator w' = w_allocator w0 ->
     (forall n, counter m' n = None) -> reporter_queue_length m' = None ->
     Q (Some m') w') ->
  wp (jaeger_metrics_destroy (Some m)) Q w.
Proof.
  intros Hb Hh HQ. unfold jaeger_metrics_destroy. apply wp_bind.
  eapply destroy_counters_wp; [done|]. intros m1 w1 Hh1 Hnone _.
  assert (Hnone' : forall n, counter m1 n = None)
    by (intros n; apply Hnone, counters_complete).
  assert (finish : forall m2 w2, held w0 w2 m2 -> (forall k, cell_of m2 k = None) ->
    w_cells w2 = w_cells w0).
  { intros m2 w2 Hh2 Hall. apply map_eq. intros c.
    destruct (decide (c < w_next_cell w0)%nat); [by apply (held_kept _ _ _ Hh2)|].
    destruct (w_cells w0 !! c) eqn:E; [exfalso; specialize (Hb c); rewrite E in Hb; eauto|].
    destruct (w_cells w2 !! c) eqn:E2; [|done].
    destruct (held_live _ _ _ Hh2 c z) as [_ [k Hk]]; [lia|done|]. congruence. }
  destruct (reporter_queue_length m1) as [[|g]|] eqn:Hg;
    [by destruct (held_gauge _ _ _ Hh1)| |].
  - assert (cell_of m1 None = Some g) as Hcell by (cbn; by rewrite Hg).
    apply wp_bind, free_cell_wp; [by apply (held_cells _ _ _ Hh1 None)|]. apply wp_ret.
    assert (held w0 (set_cells (delete g (w_cells w1)) (w_next_cell w1) w1)
              (Metrics (counter m1) None)) as Hh2.
    { eapply (held_change w0 w1 m1 None _ _ None); [done|done| |apply Hh1|done|done|eauto].
      intros j. by apply (cell_of_set_gauge m1 None). }
    apply HQ; [|apply Hh2|done|done]. apply (finish _ _ Hh2).
    intros [n|]; cbn; [by rewrite Hnone'|done].
  - apply wp_ret, HQ; [|apply Hh1|done|done]. apply (finish _ _ Hh1).
    intros [n|]; cbn; [by rewrite Hnone'|by rewrite Hg].
Qed.

Lemma held_start w : cells_below w -> held w w (Metrics (fun _ => None) None).
Proof.
  intros Hb. split; try done.
  - intros c v Hc Hv. specialize (Hb c). rewrite Hv in Hb. destruct (Hb ltac:(eauto)); lia.
  - by intros [n|] c.
  - by intros [n|].
Qed.

Lemma default_metrics_init_wp w Q :
  cells_below w ->
  (forall m w', held w w' m -> (forall k, is_Some (cell_of m k)) -> Q (true, m) w') ->
  (forall m w', ~ plenty w -> w_cells w' = w_cells w -> (forall n, counter m n = None) ->
     reporter_queue_length m = None -> Q (false, m) w') ->
  wp jaeger_default_metrics_init Q w.
Proof.
  intros Hb HT HF. pose proof (held_start w Hb) as Hh. unfold jaeger_default_metrics_init.
  assert (undo : forall m1 w1, held w w1 m1 -> ~ plenty w ->
    wp (m' ← jaeger_metrics_destroy (Some m1); ret (false, default m1 m')) Q w1).
  { intros m1 w1 Hh1 Hno. apply wp_bind. eapply (metrics_destroy_wp w w1); [done|done|].
    intros m' w' Hc _ Hcn Hgn. by apply wp_ret, HF. }
  apply wp_bind. eapply (alloc_counters_wp _ w); [done|apply counters_nodup|done|done|..].
  - intros m1 w1 Hh1 Hall _ Hg1. apply wp_bind.
    eapply (alloc_gauge_wp w); [done|done|..].
    + intros m2 w2 Hh2 Hg2 Hc2. apply wp_ret, HT; [done|]. intros [n|]; [|done].
      cbn. rewrite Hc2. apply (Hall n), counters_complete.
    + intros m2 w2 Hh2 Hno. apply undo; [done|]. intros [Ha Hok]. apply Hno.
      split; [|done]. rewrite (held_alloc _ _ _ Hh1). done.
  - intros m1 w1 Hh1 Hno. apply wp_bind. cbn [alloc_gauge]. apply wp_ret. by apply undo.
Qed.
End Facts.

(** The effect of [inc] on the totals. *)
Lemma inc_total m n v delta w :
  metrics_wf m w -> total m (Some n) w = Some v ->
  exists w', inc (counter m n) delta w = Ok tt w' /\ metrics_wf m w' /\
    total m (Some n) w' = Some (to_signed 64 (v + delta)) /\
    (forall k, k <> Some n -> total m k w' = total m k w) /\ same_allocator w w'.
Proof.
  intros [Hl Hd] Hv. unfold total in Hv.
  destruct (cell_of m (Some n)) as [c|] eqn:Hc; [|done].
  assert (inc (counter m n) delta w
    = write_cell c (fun t => t + delta) w) as ->.
  { cbn in Hc. destruct (counter m n) as [[|c']|]; try done. by injection Hc as <-. }
  unfold write_cell. rewrite Hv. eexists. split; [done|].
  assert (forall k, total m k (set_cells (<[c := to_signed 64 (v + delta)]> (w_cells w))
      (w_next_cell w) w)
    = if decide (k = Some n) then Some (to_signed 64 (v + delta)) else total m k w) as Ht.
  { intros k. unfold total. cbn [w_cells set_cells]. case_decide as Hk.
    - subst. by rewrite Hc, lookup_insert_eq.
    - destruct (cell_of m k) as [c'|] eqn:Hck; [|done]. rewrite lookup_insert_ne; [done|].
      intros <-. by apply Hk, (Hd k (Some n) c). }
  repeat split.
  - intros k. rewrite Ht. case_decide; [eauto|apply Hl].
  - done.
  - by rewrite Ht, decide_True.
  - intros k Hk. by rewrite Ht, decide_False.
Qed.

(** Totals depend on the cells only. *)
Lemma total_cells m k w w' : w_cells w' = w_cells w -> total m k w' = total m k w.
Proof. intros Ec. unfold total. by rewrite Ec. Qed.

Lemma metrics_wf_cells m w w' : w_cells w' = w_cells w -> metrics_wf m w -> metrics_wf m w'.
Proof. intros Ec [H1 H2]. split; [|done]. intros k. rewrite (total_cells m k w) by done. apply H1. Qed.

Lemma metrics_wf_progress m w w' : progress w w' -> metrics_wf m w -> metrics_wf m w'.
Proof. intros (_ & _ & Ec & _). by apply metrics_wf_cells. Qed.

(** One more of a counter. *)
Definition counted_one (m : jaeger_metrics) (n : counter_name) (w w' : world) : Prop :=
  (forall v, total m (Some n) w = Some v -> total m (Some n) w' = Some (to_signed 64 (v + 1))) /\
  forall k, k <> Some n -> total m k w' = total m k w.

Lemma counted_one_cells m n w0 w w' :
  w_cells w0 = w_cells w -> counted_one m n w w' -> counted_one m n w0 w'.
Proof.
  intros Ec [H1 H2]. split.
  - intros v Hv. apply H1. by rewrite (total_cells m _ w0 w).
  - intros k Hk. rewrite (total_cells m k w w0) by done. by apply H2.
Qed.

Lemma counted_one_after m n w w1 w' :
  w_cells w' = w_cells w1 -> counted_one m n w w1 -> counted_one m n w w'.
Proof.
  intros Ec [H1 H2]. split.
  - intros v Hv. rewrite (total_cells m _ w1) by done. by apply H1.
  - intros k Hk. rewrite (total_cells m k w1) by done. by apply H2.
Qed.

Lemma counter_present m n w :
  metrics_wf m w -> bool_decide (is_Some (counter m n)) = true.
Proof.
  intros [Hl _]. apply bool_decide_eq_true_2. destruct (Hl (Some n)) as [v Hv].
  unfold total, cell_of in Hv. by destruct (counter m n).
Qed.

Lemma inc_one_wp m n Q w :
  metrics_wf m w ->
  (forall w', same_allocator w w' -> metrics_wf m w' -> counted_one m n w w' -> Q tt w') ->
  wp (inc (counter m n) 1) Q w.
Proof.
  intros Hm HQ. destruct (proj1 Hm (Some n)) as [v Hv].
  destruct (inc_total m n v 1 w Hm Hv) as (w' & E & Hm' & Hv' & Ho & Ha).
  unfold wp. rewrite E. apply HQ; [done|done|]. split; [|done]. intros v0 Hv0. congruence.
Qed.

(** ** Properties *)

(** Building the default metrics gives 21 counters and a gauge in distinct
    cells that all hold 0, and touches no other cell; or, when memory runs out
    and only then, it fails with every member NULL and no cell leaked. *)
Theorem jaeger_default_metrics_init_spec (env : Env) w :
  cells_below w ->
  exists ok m w', jaeger_default_metrics_init w = Ok (ok, m) w' /\
    if ok then metrics_wf m w' /\ (forall k, total m k w' = Some 0) /\
      (forall c, (c < w_next_cell w)%nat -> w_cells w' !! c = w_cells w !! c)
    else ~ plenty w /\ w_cells w' = w_cells w /\
      (forall n, counter m n = None) /\ reporter_queue_length m = None.
Proof.
  intros Hb.
  assert (wp jaeger_default_metrics_init (fun r w' =>
    if r.1 then metrics_wf r.2 w' /\ (forall k, total r.2 k w' = Some 0) /\
      (forall c, (c < w_next_cell w)%nat -> w_cells w' !! c = w_cells w !! c)
    else ~ plenty w /\ w_cells w' = w_cells w /\
      (forall n, counter r.2 n = None) /\ reporter_queue_length r.2 = None) w) as H.
  { apply default_metrics_init_wp; [done| |done].
    intros m w' Hh Hall. cbn.
    assert (forall k, total m k w' = Some 0) as Hz.
    { intros k. destruct (Hall k) as [c Hc]. unfold total. rewrite Hc.
      destruct (held_cells _ _ _ Hh k c Hc) as [[? _] [v Hv]].
      destruct (held_live _ _ _ Hh c v) as [-> _]; done. }
    repeat split; [eauto|apply Hh|done|apply Hh]. }
  apply wp_returns in H as ([ok m] & w' & ? & ?). eauto 6.
Qed.

(** Incrementing a counter of well-formed metrics adds to its own total, in
    64-bit arithmetic, and changes no other counter and not the gauge. *)
Theorem counter_inc_spec m n v delta w :
  metrics_wf m w -> total m (Some n) w = Some v ->
  exists w', inc (counter m n) delta w = Ok tt w' /\ metrics_wf m w' /\
    total m (Some n) w' = Some (to_signed 64 (v + delta)) /\
    forall k, k <> Some n -> total m k w' = total m k w.
Proof. intros Hm Hv. destruct (inc_total m n v delta w Hm Hv) as (w' & ? & ? & ? & ? & _). eauto. Qed.

Lemma initial_cells_below : cells_below initial_world.
Proof. intros c [v Hv]. done. Qed.

Lemma jaeger_default_metrics_init_spec_witness :
  exists ok m w', @jaeger_default_metrics_init sample_env initial_world = Ok (ok, m) w' /\
    if ok then metrics_wf m w' /\ (forall k, total m k w' = Some 0) /\
      (forall c, (c < 0)%nat -> w_cells w' !! c = w_cells initial_world !! c)
    else ~ @plenty sample_env initial_world /\ w_cells w' = w_cells initial_world /\
      (forall n, counter m n = None) /\ reporter_queue_length m = None.
Proof.
  apply (jaeger_default_metrics_init_spec sample_env initial_world).
  apply initial_cells_below.
Defined.

(** Metrics of which two members have cells of their own. *)
Definition sample_metrics : jaeger_metrics :=
  Metrics (fun n => Some (jaeger_default_counter (match n with
    | traces_started_sampled => 0 | traces_started_not_sampled => 1
    | traces_joined_sampled => 2 | traces_joined_not_sampled => 3 | spans_started => 4
    | spans_finished => 5 | spans_sampled => 6 | spans_not_sampled => 7
    | decoding_errors => 8 | reporter_success => 9 | reporter_failure => 10
    | reporter_dropped => 11 | sampler_retrieved => 12 | sampler_updated => 13
    | sampler_update_failure => 14 | sampler_query_failure => 15
    | baggage_update_success => 16 | baggage_update_failure => 17
    | baggage_truncate => 18 | baggage_restrictions_update_success => 19
    | baggage_restrictions_update_failure => 20 end)%nat))
    (Some (jaeger_default_gauge 21)).
Definition metrics_world : world :=
  set_cells (list_to_map (map (fun c => (c, 0)) (seq 0 22))) 22 initial_world.

Lemma sample_metrics_wf : metrics_wf sample_metrics metrics_world.
Proof.
  split.
  - intros [n|]; [|by exists 0]. exists 0. by destruct n.
  - intros [n1|] [n2|] c H1 H2; cbn in *; [|destruct n1; congruence
      |destruct n2; congruence|done].
    destruct n1, n2; congruence.
Qed.

Lemma counter_inc_spec_witness :
  exists w', inc (counter sample_metrics spans_started) 1 metrics_world = Ok tt w' /\
    metrics_wf sample_metrics w' /\
    total sample_metrics (Some spans_started) w' = Some (to_signed 64 (0 + 1)) /\
    forall k, k <> Some spans_started ->
      total sample_metrics k w' = total sample_metrics k metrics_world.
Proof.
  apply (counter_inc_spec sample_metrics spans_started 0);
    [apply sample_metrics_wf|reflexivity].
Defined.
