(* ===== verification/Tag.v ===== *)
(** * Tags and log records (tag.c, log_record.c)

    Tags are the generated Protocol Buffers key-value messages; log records
    are a timestamp with a vector of tags. Both are copied, converted from the
    OpenTracing values, and (log records) to their messages. *)
From S2P Require Import Prelude Machine Vector CString Float Clock TraceId.

(** ** Definitions *)

(** JAEGER__MODEL__VALUE_TYPE__... *)
Inductive value_type := V_STRING | V_BOOL | V_INT64 | V_FLOAT64 | V_BINARY.

#[export] Instance value_type_eq_dec : EqDecision value_type.
Proof. solve_decision. Defined.

(** [Jaeger__Model__KeyValue]: every member is present, [v_type] says which
    one counts. *)
Record jaeger_tag := Tag {
  tag_key : option cstr;
  v_type : value_type;
  v_str : option cstr;
  v_bool : bool;
  v_int64 : Z;
  v_float64 : double;
  v_binary : ProtobufCBinaryData;
}.

#[export] Instance zero_tag : ZeroBytes jaeger_tag :=
  Tag None V_STRING None false 0 (S754_zero false) (BinaryData 0 None).

(** [Jaeger__Model__Log]: the timestamp message as seconds and nanoseconds. *)
Record Jaeger__Model__Log := PbLog {
  pb_timestamp : option (Z * Z);
  pb_n_fields : Z;
  pb_fields : option (list (option jaeger_tag));
}.

(** What the generated code defines (the static initialisers), and the sizes
    of the elements of the client's vectors, which depend on it and the ABI. *)
Class Protobuf := {
  JAEGERTRACINGC_TAG_INIT : jaeger_tag;
  JAEGER__MODEL__LOG__INIT : Jaeger__Model__Log;
  sizeof_tag : Z;
  sizeof_log_record : Z;
  sizeof_span_ref : Z;
  sizeof_tag_range : 0 < sizeof_tag <= 1024;
  sizeof_log_record_range : 0 < sizeof_log_record <= 1024;
  sizeof_span_ref_range : 0 < sizeof_span_ref <= 1024;
}.

(** [opentracing_value]; [ot_other] is any type the switch does not name. *)
Inductive opentracing_value :=
  | ot_null
  | ot_bool (b : bool)
  | ot_uint64 (z : Z)
  | ot_int64 (z : Z)
  | ot_double (d : double)
  | ot_string (s : cstr)
  | ot_other.

Section TagDefinitions.
Context {env : Env} {pb : Protobuf}.

Definition jaeger_tag_destroy (tag : option jaeger_tag) : option jaeger_tag :=
  match tag with
  | None => None
  | Some tag =>
      Some (match v_type tag with
      | V_STRING => Tag None V_STRING None (v_bool tag) (v_int64 tag) (v_float64 tag)
                      (v_binary tag)
      | V_BINARY => Tag None V_BINARY (v_str tag) (v_bool tag) (v_int64 tag) (v_float64 tag)
                      (BinaryData (pb_len (v_binary tag)) None)
      | t => Tag None t (v_str tag) (v_bool tag) (v_int64 tag) (v_float64 tag) (v_binary tag)
      end)
  end.

Definition set_tag_key (tag : jaeger_tag) (key : option cstr) : jaeger_tag :=
  Tag key (v_type tag) (v_str tag) (v_bool tag) (v_int64 tag) (v_float64 tag) (v_binary tag).

Definition jaeger_tag_init (tag : jaeger_tag) (key : cstr) : M (bool * jaeger_tag) :=
  k ← jaeger_strdup key;
  match k with
  | None => ret (false, set_tag_key tag None)
  | Some k => ret (true, set_tag_key tag (Some k))
  end.

(** The [cleanup] label: whatever was copied is freed. *)
Definition tag_copy_cleanup : M (bool * jaeger_tag) := ret (false, JAEGERTRACINGC_TAG_INIT).

Definition jaeger_tag_copy (src : jaeger_tag) : M (bool * jaeger_tag) :=
  match tag_key src with
  | None => c_assert false;; fail NullDeref
  | Some key =>
      ' (ok, dst) ← jaeger_tag_init JAEGERTRACINGC_TAG_INIT key;
      if negb ok then ret (false, dst)
      else
        let with_type t := Tag (tag_key dst) t (v_str dst) (v_bool dst) (v_int64 dst)
                             (v_float64 dst) (v_binary dst) in
        match v_type src with
        | V_STRING =>
            match v_str src with
            | None => ret (true, with_type V_STRING)
            | Some s =>
                copy ← jaeger_strdup s;
                match copy with
                | None => tag_copy_cleanup
                | Some s' => ret (true, Tag (tag_key dst) V_STRING (Some s') (v_bool dst)
                                          (v_int64 dst) (v_float64 dst) (v_binary dst))
                end
            end
        | V_BINARY =>
            match pb_data (v_binary src) with
            | Some bytes =>
                if pb_len (v_binary src) >? 0 then
                  granted ← jaeger_malloc;
                  if negb granted then tag_copy_cleanup
                  else
                    (* the copy's [len] is left as it was *)
                    ret (true, Tag (tag_key dst) V_BINARY (v_str dst) (v_bool dst)
                                 (v_int64 dst) (v_float64 dst)
                                 (BinaryData (pb_len (v_binary dst))
                                    (Some (take (Z.to_nat (pb_len (v_binary src))) bytes))))
                else ret (true, with_type V_BINARY)
            | None => ret (true, with_type V_BINARY)
            end
        | V_FLOAT64 => ret (true, Tag (tag_key dst) V_FLOAT64 (v_str dst) (v_bool dst)
                                    (v_int64 dst) (v_float64 src) (v_binary dst))
        | V_BOOL => ret (true, Tag (tag_key dst) V_BOOL (v_str dst) (v_bool src)
                                 (v_int64 dst) (v_float64 dst) (v_binary dst))
        | V_INT64 => ret (true, Tag (tag_key dst) V_INT64 (v_str dst) (v_bool dst)
                                  (v_int64 src) (v_float64 dst) (v_binary dst))
        end
  end.

(** The tag [src] built from a key and a value; [None] when the function
    returns early. *)
Definition tag_source (key : cstr) (value : opentracing_value) : M (option jaeger_tag) :=
  let src := set_tag_key JAEGERTRACINGC_TAG_INIT (Some key) in
  let with_int z := Tag (Some key) V_INT64 (v_str src) (v_bool src) z (v_float64 src)
                      (v_binary src) in
  match value with
  | ot_null => ret (Some src)
  | ot_bool b => ret (Some (Tag (Some key) V_BOOL (v_str src) b (v_int64 src)
                              (v_float64 src) (v_binary src)))
  | ot_uint64 z => ret (Some (with_int (to_signed 64 z)))
  | ot_int64 z => ret (Some (with_int z))
  | ot_double d => ret (Some (Tag (Some key) V_FLOAT64 (v_str src) (v_bool src)
                                (v_int64 src) d (v_binary src)))
  | ot_string s =>
      copy ← jaeger_strdup s;
      match copy with
      | None => ret None
      | Some s' => ret (Some (Tag (Some key) V_STRING (Some s') (v_bool src) (v_int64 src)
                                (v_float64 src) (v_binary src)))
      end
  | ot_other => ret None
  end.

Definition jaeger_tag_from_key_value (dst : jaeger_tag) (key : option cstr)
    (value : opentracing_value) : M (bool * jaeger_tag) :=
  match key with
  | None => ret (false, dst)
  | Some key =>
      src ← tag_source key value;
      match src with
      | None => ret (false, dst)
      | Some src => jaeger_tag_copy src
      end
  end.

(** [jaeger_tag_copy_wrapper] of a vector copy. *)
Definition jaeger_tag_copy_wrapper (_ : jaeger_tag) (src : jaeger_tag)
    : M (bool * jaeger_tag) := jaeger_tag_copy src.

Definition jaeger_tag_vector_append (vec : jaeger_vector jaeger_tag) (tag : jaeger_tag)
    : M (bool * jaeger_vector jaeger_tag) :=
  ' (ptr, vec) ← jaeger_vector_append vec;
  match ptr with
  | None => ret (false, vec)
  | Some _ =>
      ' (ok, copy) ← jaeger_tag_copy tag;
      vec ← store vec ptr copy;
      if negb ok then ret (false, set_len vec (len vec - 1)) else ret (true, vec)
  end.
End TagDefinitions.

(** *** Log records *)

Record jaeger_log_record := LogRecord {
  timestamp : jaeger_timestamp;
  fields : jaeger_vector jaeger_tag;
}.

(** [opentracing_log_record]: the fields are keys and values. *)
Record opentracing_log_record := OtLogRecord {
  ot_timestamp : jaeger_timestamp;
  ot_fields : list (option cstr * opentracing_value);
}.

Section LogDefinitions.
Context {env : Env} {pb : Protobuf}.

Definition jaeger_log_record_destroy (log_record : option jaeger_log_record)
    : option jaeger_log_record :=
  match log_record with
  | None => None
  | Some r => Some (LogRecord (timestamp r) (jaeger_vector_destroy (fields r)))
  end.

Definition jaeger_log_record_init : M (bool * jaeger_log_record) :=
  now ← jaeger_timestamp_now;
  ' (ok, vec) ← jaeger_vector_init JAEGERTRACINGC_VECTOR_INIT sizeof_tag;
  ret (ok, LogRecord now vec).

Definition log_record_cleanup (r : jaeger_log_record) : bool * jaeger_log_record :=
  (false, default r (jaeger_log_record_destroy (Some r))).

Definition jaeger_log_record_copy (src : jaeger_log_record) : M (bool * jaeger_log_record) :=
  ' (ok, dst) ← jaeger_log_record_init;
  if negb ok then ret (log_record_cleanup dst)
  else
    ' (ok, vec) ← jaeger_vector_copy jaeger_tag_copy_wrapper (fields dst) (fields src);
    if negb ok then ret (log_record_cleanup (LogRecord (timestamp dst) vec))
    else ret (true, LogRecord (timestamp src) vec).

(** The loop over the fields: one that cannot be converted is dropped. *)
Fixpoint log_fields_loop (fs : list (option cstr * opentracing_value))
    (vec : jaeger_vector jaeger_tag) : M (jaeger_vector jaeger_tag) :=
  match fs with
  | [] => ret vec
  | (key, value) :: fs =>
      ' (tag, vec) ← jaeger_vector_append vec;
      c_assert (bool_decide (is_Some tag));;
      old ← load vec tag;
      ' (ok, new) ← jaeger_tag_from_key_value old key value;
      vec ← store vec tag new;
      log_fields_loop fs (if (ok : bool) then vec else set_len vec (len vec - 1))
  end.

Definition jaeger_log_record_from_opentracing (src : opentracing_log_record)
    : M (bool * jaeger_log_record) :=
  ' (ok, dst) ← jaeger_log_record_init;
  if negb ok then ret (log_record_cleanup dst)
  else
    ' (ok, vec) ← jaeger_vector_reserve (fields dst) (lenZ (ot_fields src));
    if negb ok then ret (log_record_cleanup (LogRecord (timestamp dst) vec))
    else
      vec ← log_fields_loop (ot_fields src) vec;
      ret (true, LogRecord (ot_timestamp src) vec).

Definition jaeger_log_record_protobuf_destroy (log_record : option Jaeger__Model__Log)
    : option Jaeger__Model__Log :=
  match log_record with
  | None => None
  | Some _ => Some JAEGER__MODEL__LOG__INIT
  end.

Definition jaeger_log_record_to_protobuf (src : jaeger_log_record)
    : M (bool * Jaeger__Model__Log) :=
  granted ← jaeger_malloc;
  if negb granted then ret (false, JAEGER__MODEL__LOG__INIT)
  else
    let ts := (tv_sec (timestamp src), to_signed 32 (tv_nsec (timestamp src))) in
    copied ← jaeger_vector_protobuf_copy jaeger_tag_copy_wrapper (fields src);
    match copied with
    | None => ret (false, JAEGER__MODEL__LOG__INIT)
    | Some (data, n) => ret (true, PbLog (Some ts) n data)
    end.
End LogDefinitions.

(** ** Lemmas *)

(** What a tag means: its key, and the member its type selects. *)
Inductive payload :=
  | PStr (s : option cstr)
  | PBool (b : bool)
  | PInt (z : Z)
  | PFloat (d : double)
  | PBin (bytes : list Z).

Definition payload_of (t : jaeger_tag) : payload :=
  match v_type t with
  | V_STRING => PStr (v_str t)
  | V_BOOL => PBool (v_bool t)
  | V_INT64 => PInt (v_int64 t)
  | V_FLOAT64 => PFloat (v_float64 t)
  | V_BINARY => PBin (take (Z.to_nat (pb_len (v_binary t))) (default [] (pb_data (v_binary t))))
  end.

Definition tag_value (t : jaeger_tag) : option cstr * payload := (tag_key t, payload_of t).

Section Meaning.
Context {pb : Protobuf}.

(** Values that can be copied: a string that is there; one that is not, when
    the generated initialiser has none either; and no binary data, whose length
    is not copied. *)
Definition copyable_value (t : jaeger_tag) : Prop :=
  match v_type t with
  | V_STRING =>
      match v_str t with Some s => short s | None => v_str JAEGERTRACINGC_TAG_INIT = None end
  | V_BINARY => False
  | _ => True
  end.

(** Tags that can be copied have a key as well. *)
Definition copyable (t : jaeger_tag) : Prop :=
  (exists k, tag_key t = Some k /\ short k) /\ copyable_value t.

(** The meaning of an OpenTracing value: a null value is recorded as what the
    generated initialiser holds, and the types the switch does not name are
    not recorded. *)
Definition value_payload (v : opentracing_value) : option payload :=
  match v with
  | ot_bool b => Some (PBool b)
  | ot_uint64 z => Some (PInt (to_signed 64 z))
  | ot_int64 z => Some (PInt z)
  | ot_double d => Some (PFloat d)
  | ot_string s => Some (PStr (Some s))
  | ot_null => Some (payload_of JAEGERTRACINGC_TAG_INIT)
  | ot_other => None
  end.

Definition field_value (f : option cstr * opentracing_value) : option (option cstr * payload) :=
  match f.1, value_payload f.2 with
  | Some k, Some p => Some (Some k, p)
  | _, _ => None
  end.

Definition field_ok (f : option cstr * opentracing_value) : Prop :=
  (forall k, f.1 = Some k -> short k) /\
  match f.2 with
  | ot_null => copyable_value JAEGERTRACINGC_TAG_INIT
  | ot_string s => short s
  | _ => True
  end.
End Meaning.

Section Facts.
Context {env : Env} {pb : Protobuf}.
Implicit Types (w : world).

Lemma tag_copy_wp src Q w :
  copyable src ->
  (forall dst w', alloc_only w w' -> tag_value dst = tag_value src -> Q (true, dst) w') ->
  (forall dst w', alloc_only w w' -> ~ plenty w -> Q (false, dst) w') ->
  wp (jaeger_tag_copy src) Q w.
Proof.
  intros [(k & Hk & Hks) Ht] HT HF. unfold jaeger_tag_copy, jaeger_tag_init. rewrite Hk.
  apply wp_bind, wp_bind, wp_strdup; [done|intros; by apply wp_ret, HF|].
  intros w1 Hw1. apply wp_ret. cbn [negb]. unfold tag_value, payload_of in HT. rewrite Hk in HT.
  unfold copyable_value in Ht. destruct (v_type src); try done; try (by apply wp_ret, HT).
  destruct (v_str src) as [s|]; [|apply wp_ret, HT; [done|by rewrite <-Ht]].
  apply wp_bind, wp_strdup; [done| |].
  - intros w2 Hw2 Hno. apply HF; [by etrans|eauto with jaeger].
  - intros w2 Hw2. apply wp_ret, HT; [by etrans|done].
Qed.

Lemma tag_source_wp k v p Q w :
  value_payload v = Some p -> field_ok (Some k, v) ->
  (forall src w', alloc_only w w' -> copyable src -> tag_value src = (Some k, p) ->
     Q (Some src) w') ->
  (forall w', alloc_only w w' -> ~ plenty w -> Q None w') ->
  wp (tag_source k v) Q w.
Proof.
  intros Hp [Hk Hs] HT HF. specialize (Hk k eq_refl). unfold tag_source.
  destruct v as [|b|z|z|d|s|]; cbn in Hp, Hs; try done; injection Hp as <-;
    try (by apply wp_ret, HT; [|split; [exists k|]|]).
  apply wp_bind, wp_strdup; [done|intros; by apply wp_ret, HF|].
  intros w' Hw. apply wp_ret, HT; [done| |done]. split; [by exists k|done].
Qed.

Lemma from_key_value_wp dst f Q w :
  field_ok f ->
  (forall tag w', alloc_only w w' -> field_value f = Some (tag_value tag) ->
     Q (true, tag) w') ->
  (forall tag w', alloc_only w w' -> (plenty w -> field_value f = None) -> Q (false, tag) w') ->
  wp (jaeger_tag_from_key_value dst f.1 f.2) Q w.
Proof.
  destruct f as [[k|] v]; intros Hok HT HF; unfold jaeger_tag_from_key_value;
    cbn [fst snd] in *; [|by apply wp_ret, HF].
  destruct (value_payload v) as [p|] eqn:Hp.
  - assert (field_value (Some k, v) = Some (Some k, p)) as Hf
      by (unfold field_value; cbn; by rewrite Hp).
    apply wp_bind. eapply tag_source_wp; [done|done|..].
    + intros src w1 Hw1 Hc Hval. apply tag_copy_wp; [done|..].
      * intros tag w2 Hw2 Htag. apply HT; [by etrans|]. by rewrite Hf, Htag, Hval.
      * intros tag w2 Hw2 Hno. apply HF; [by etrans|]. intros Hpl.
        by apply (plenty_alloc_only _ _ Hw1) in Hpl.
    + intros w1 Hw1 Hno. apply wp_ret, HF; [done|]. by intros Hpl.
  - destruct v; try done. apply wp_bind, wp_ret, wp_ret, HF; [done|done].
Qed.

Lemma sizeof_tag_fits : sizeof_tag * JAEGERTRACINGC_VECTOR_INIT_CAPACITY <= INT_MAX.
Proof.
  pose proof sizeof_tag_range. unfold JAEGERTRACINGC_VECTOR_INIT_CAPACITY, INT_MAX. lia.
Qed.

Lemma progress_alloc (w w1 w2 : world) : alloc_only w1 w2 -> progress w w1 -> progress w w2.
Proof. intros H2 H1. etrans; [exact H1|by apply alloc_progress]. Qed.

(** A new log record. Reading the real-time clock is its only other effect. *)
Lemma log_record_init_wp Q w :
  (forall r w', progress w w' -> vector_wf (fields r) ->
     contents (fields r) = [] -> len (fields r) = 0 ->
     capacity (fields r) = JAEGERTRACINGC_VECTOR_INIT_CAPACITY ->
     type_size (fields r) = sizeof_tag -> Q (true, r) w') ->
  (forall r w', progress w w' -> ~ plenty w -> Q (false, r) w') ->
  wp jaeger_log_record_init Q w.
Proof.
  intros HT HF. unfold jaeger_log_record_init. apply wp_bind. cbn. apply wp_bind.
  apply init_wp; [apply sizeof_tag_range|apply sizeof_tag_fits|..].
  - intros v w' Ha Hwf Hc Hl Hcap Hts. apply wp_ret, HT; [by eapply progress_alloc|done..].
  - intros w' Ha Hno. apply wp_ret, HF; [by eapply progress_alloc|].
    intros [Hp Hok]. by apply Hno.
Qed.

Lemma log_record_copy_wp src Q w :
  vector_wf (fields src) -> Forall copyable (contents (fields src)) ->
  2048 * Z.max (len (fields src)) 10 <= INT_MAX ->
  (forall r w', progress w w' -> timestamp r = timestamp src ->
     map tag_value (contents (fields r)) = map tag_value (contents (fields src)) ->
     vector_wf (fields r) -> Q (true, r) w') ->
  (forall r w', progress w w' -> ~ plenty w -> Q (false, r) w') ->
  wp (jaeger_log_record_copy src) Q w.
Proof.
  intros Hwf Hcopy Hfit HT HF. unfold jaeger_log_record_copy. apply wp_bind.
  apply log_record_init_wp; [|intros; by apply wp_ret, HF].
  intros r w1 Ha1 Hwf1 Hc1 Hl1 Hcap1 Hts1. cbn [negb]. apply wp_bind.
  pose proof sizeof_tag_range.
  apply (vector_copy_wp jaeger_tag_copy_wrapper copyable
           (fun b a => tag_value a = tag_value b) alloc_only (fun _ _ H => H)
           plenty_alloc_only (fun _ => True)); [done| |done|done|done| |done|done|].
  - intros old b w2 _ Hb. apply tag_copy_wp; [done|..].
    + intros dst w3 Hw3 Hv. split; [done|]. by split.
    + intros dst w3 Hw3 Hno. split; [done|]. by split.
  - unfold fits. rewrite Hts1, Hcap1. unfold JAEGERTRACINGC_VECTOR_INIT_CAPACITY. nia.
  - intros ok v w2 Hw2 Hwf2 Hts2 Hok Hpl. pose proof (progress_alloc w _ _ Hw2 Ha1).
    destruct ok; cbn [negb]; apply wp_ret.
    + apply HT; [done|done| |done]. cbn [fields]. specialize (Hok eq_refl).
      clear -Hok. induction Hok as [|b a bs as' Hab _ IH]; [done|]. cbn. by f_equal.
    + apply HF; [done|]. intros Hp. assert (false = true) by (apply Hpl; by eapply plenty_progress).
      done.
Qed.

Lemma log_fields_loop_wp fs vec Q w :
  vector_wf vec -> Forall field_ok fs -> len vec + lenZ fs <= capacity vec ->
  capacity vec <= INT_MAX ->
  (forall vec' w', alloc_only w w' -> vector_wf vec' ->
     (plenty w -> map tag_value (contents vec')
                  = map tag_value (contents vec) ++ omap field_value fs) -> Q vec' w') ->
  wp (log_fields_loop fs vec) Q w.
Proof.
  intros Hwf HF. revert vec w Hwf.
  induction HF as [|f fs Hf _ IH]; intros vec w Hwf Hroom Hmax HQ; cbn [log_fields_loop].
  { apply wp_ret, HQ; [done|done|]. by rewrite app_nil_r. }
  destruct f as [key value]. cbn [length] in Hroom.
  pose proof (wf_len _ Hwf). pose proof (length_contents _ Hwf) as Hlc.
  wp_step. apply append_room_wp; [done|lia|lia|].
  intros v1 slot Hwf1 El1 Et1 Ec1 Econt1. cbn beta iota. wp_step. wp_step. wp_step.
  eapply load_wp; [done|lia| |].
  { rewrite Econt1, lookup_app_r by lia. by replace (_ - _)%nat with 0%nat by lia. }
  assert (store_new : forall (ok : bool) (tag : jaeger_tag) w1, alloc_only w w1 ->
    (plenty w -> omap field_value [(key, value)] = if ok then [tag_value tag] else []) ->
    wp (vec ← store v1 (Some (len vec)) tag;
        log_fields_loop fs (if ok then vec else set_len vec (len vec - 1))) Q w1).
  { intros ok tag w1 Hw1 Hval. wp_step. apply store_wp; [done|lia|].
    intros v2 Hwf2 El2 Ec2 Et2 Econt2.
    assert (contents v2 = contents vec ++ [tag]) as Hc2.
    { rewrite Econt2, Econt1, insert_app_r_alt by lia.
      by replace (_ - _)%nat with 0%nat by lia. }
    set (v3 := if ok then v2 else set_len v2 (len v2 - 1)).
    assert (vector_wf v3) by (subst v3; destruct ok; [done|apply set_len_wf; [done|lia]]).
    assert (contents v3 = contents vec ++ (if ok then [tag] else [])) as Hc3.
    { subst v3. destruct ok; [done|]. rewrite app_nil_r.
      rewrite contents_set_len, Hc2, El2, El1, Z.add_simpl_r by lia.
      by rewrite take_app_le, take_ge by lia. }
    assert (len v3 <= len vec + 1 /\ capacity v3 = capacity vec) as [? ?]
      by (subst v3; destruct ok; cbn; lia).
    apply IH; [done|lia|lia|]. intros v4 w4 Hw4 Hwf4 Hv4. apply HQ; [by etrans|done|].
    intros Hpl. rewrite Hv4 by eauto with jaeger. rewrite Hc3, map_app, <- app_assoc.
    change (omap field_value ((key, value) :: fs))
      with (omap field_value ([(key, value)] ++ fs)).
    rewrite omap_app, Hval by done. by destruct ok. }
  wp_step. apply (from_key_value_wp slot (key, value)); [done|..].
  - intros tag w1 Hw1 Hval. apply (store_new true); [done|]. intros _. cbn. by rewrite Hval.
  - intros tag w1 Hw1 Hval. apply (store_new false); [done|]. intros Hpl. cbn.
    by rewrite Hval.
Qed.
(** A record made from an OpenTracing one: while memory lasts, it has every
    field that can be converted. *)
Lemma log_record_from_wp src Q w :
  Forall field_ok (ot_fields src) -> 2048 * Z.max (lenZ (ot_fields src)) 10 <= INT_MAX ->
  (forall r w', progress w w' -> vector_wf (fields r) ->
     timestamp r = ot_timestamp src ->
     (plenty w -> map tag_value (contents (fields r)) = omap field_value (ot_fields src)) ->
     Q (true, r) w') ->
  (forall r w', progress w w' -> ~ plenty w -> Q (false, r) w') ->
  wp (jaeger_log_record_from_opentracing src) Q w.
Proof.
  intros HF Hfit HT HN. pose proof sizeof_tag_range.
  unfold jaeger_log_record_from_opentracing.
  apply wp_bind, log_record_init_wp; [|intros; by apply wp_ret, HN].
  intros r w1 Ha1 Hwf1 Hc1 Hl1 Hcap1 Hts1. cbn [negb]. apply wp_bind.
  apply reserve_wp; [done| | |].
  - unfold fits. rewrite Hts1, Hcap1. unfold JAEGERTRACINGC_VECTOR_INIT_CAPACITY. nia.
  - intros w2 Hw2 Hno. pose proof (progress_alloc w _ _ Hw2 Ha1). apply wp_ret, HN; [done|].
    intros Hp. destruct Hno. by eapply plenty_progress.
  - intros v w2 Hw2 Hwf2 El2 Et2 Ec2 Hge _ Hmax _. cbn [negb]. apply wp_bind.
    rewrite Hcap1 in Hmax. unfold JAEGERTRACINGC_VECTOR_INIT_CAPACITY in Hmax.
    pose proof (progress_alloc w _ _ Hw2 Ha1) as Ha2.
    apply log_fields_loop_wp; [done|done|lia|lia|].
    intros v3 w3 Hw3 Hwf3 Hv3. apply wp_ret, HT; [by eapply progress_alloc|done|done|].
    intros Hp. cbn [fields]. rewrite Hv3, Ec2, Hc1; [done|]. by eapply plenty_progress.
Qed.

(** Converting a record to its message. *)
Lemma log_record_to_protobuf_wp src Q w :
  vector_wf (fields src) -> Forall copyable (contents (fields src)) ->
  16 * Z.max (len (fields src)) 10 <= INT_MAX ->
  (forall msg w', alloc_only w w' ->
     pb_timestamp msg = Some (tv_sec (timestamp src), to_signed 32 (tv_nsec (timestamp src))) ->
     copied_list (fun t t' => tag_value t' = tag_value t) (contents (fields src))
       (pb_fields msg, pb_n_fields msg) -> Q (true, msg) w') ->
  (forall msg w', alloc_only w w' -> ~ plenty w -> Q (false, msg) w') ->
  wp (jaeger_log_record_to_protobuf src) Q w.
Proof.
  intros Hwf Hc Hfit HT HN. unfold jaeger_log_record_to_protobuf. wp_step. wp_step.
  destruct granted; cbn [negb].
  2: { apply wp_ret, HN; [done|]. intros Hp. by specialize (Hplenty Hp). }
  apply wp_bind.
  apply (protobuf_copy_wp jaeger_tag_copy_wrapper copyable
           (fun t t' => tag_value t' = tag_value t) alloc_only (fun _ _ H => H)
           plenty_alloc_only (fun _ => True)); try done.
  - intros old b w2 _ Hb. apply tag_copy_wp; [done|..]; by intros.
  - intros r w2 Hw2 Hpl Hcp. destruct r as [[data n]|]; apply wp_ret.
    + apply HT; [by etrans|done|]. by apply Hcp.
    + apply HN; [by etrans|]. intros Hp. destruct Hpl as (? & ? & ?); [|done].
      by apply (plenty_alloc_only w).
Qed.
End Facts.

(** ** Properties *)

(** Converting an OpenTracing key and value: on success the tag has that key
    and that value with the type the client maps it to; while memory lasts
    the conversion fails only for a missing key or a type it does not map. *)
Theorem jaeger_tag_from_key_value_spec (env : Env) (pb : Protobuf) dst f w :
  field_ok f ->
  exists ok tag w', jaeger_tag_from_key_value dst f.1 f.2 w = Ok (ok, tag) w' /\
    if ok then field_value f = Some (tag_value tag) else (plenty w -> field_value f = None).
Proof.
  intros Hf.
  assert (wp (jaeger_tag_from_key_value dst f.1 f.2) (fun r _ =>
    if r.1 then field_value f = Some (tag_value r.2)
    else (plenty w -> field_value f = None)) w) as H by (by apply from_key_value_wp).
  apply wp_returns in H as ([ok tag] & w' & ? & ?). eauto 6.
Qed.

(** Copying a tag keeps its key and its typed value (types other than
    BINARY), and fails for want of memory only. *)
Theorem jaeger_tag_copy_spec (env : Env) (pb : Protobuf) src w :
  copyable src ->
  exists ok dst w', jaeger_tag_copy src w = Ok (ok, dst) w' /\
    if ok then tag_value dst = tag_value src else ~ plenty w.
Proof.
  intros Hc.
  assert (wp (jaeger_tag_copy src) (fun r _ =>
    if r.1 then tag_value r.2 = tag_value src else ~ plenty w) w) as H
    by (by apply tag_copy_wp).
  apply wp_returns in H as ([ok dst] & w' & ? & ?). eauto 6.
Qed.

(** A copied BINARY tag loses its value: the bytes are copied, but the copy's
    length stays the initialiser's 0. *)
Theorem jaeger_tag_copy_binary_empty (env : Env) (pb : Protobuf) src k bytes w :
  tag_key src = Some k -> short k -> v_type src = V_BINARY ->
  v_binary src = BinaryData (lenZ bytes) (Some bytes) -> bytes <> [] ->
  pb_len (v_binary JAEGERTRACINGC_TAG_INIT) = 0 -> plenty w ->
  exists dst w', jaeger_tag_copy src w = Ok (true, dst) w' /\
    payload_of src = PBin bytes /\ payload_of dst = PBin [] /\
    pb_data (v_binary dst) = Some bytes.
Proof.
  intros Hk Hs Ht Hb Hne Hinit Hp.
  assert (0 < lenZ bytes) by (destruct bytes; [done|cbn; lia]).
  assert (wp (jaeger_tag_copy src) (fun r _ => r.1 = true /\ payload_of src = PBin bytes /\
    payload_of r.2 = PBin [] /\ pb_data (v_binary r.2) = Some bytes) w) as H0.
  { unfold jaeger_tag_copy, jaeger_tag_init. rewrite Hk, Ht, Hb.
    apply wp_bind, wp_bind, wp_strdup; [done|by intros|]. intros w1 Hw1. apply wp_ret.
    cbn [negb pb_data pb_len]. rewrite Z.gtb_ltb, (proj2 (Z.ltb_lt _ _)) by done.
    wp_step. wp_step. rewrite Hplenty by eauto with jaeger. cbn [negb]. apply wp_ret.
    unfold payload_of. rewrite Ht, Hb. cbn. rewrite Hinit, Nat2Z.id, take_ge by lia. done. }
  apply wp_returns in H0 as ([ok dst] & w' & ? & Hok & ?). cbn in Hok. subst. eauto.
Qed.

(** Converting an OpenTracing log record, while memory lasts, gives a record
    with its timestamp and exactly the fields that can be converted, in their
    order; it never faults. *)
Theorem jaeger_log_record_from_opentracing_spec (env : Env) (pb : Protobuf) src w :
  Forall field_ok (ot_fields src) -> 2048 * Z.max (lenZ (ot_fields src)) 10 <= INT_MAX ->
  exists ok r w', jaeger_log_record_from_opentracing src w = Ok (ok, r) w' /\
    (plenty w -> ok = true /\ timestamp r = ot_timestamp src /\
       map tag_value (contents (fields r)) = omap field_value (ot_fields src)).
Proof.
  intros HF Hfit.
  assert (wp (jaeger_log_record_from_opentracing src) (fun p _ =>
    plenty w -> p.1 = true /\ timestamp p.2 = ot_timestamp src /\
       map tag_value (contents (fields p.2)) = omap field_value (ot_fields src)) w) as H0.
  { apply log_record_from_wp; [done|done| |by intros]. intros r w' _ _ Ht Hv Hp. auto. }
  apply wp_returns in H0 as ([ok r] & w' & ? & ?). eauto 6.
Qed.

(** A concrete instance of the generated initialisers. *)
Definition sample_pb : Protobuf.
Proof.
  refine {| JAEGERTRACINGC_TAG_INIT := zero_bytes;
            JAEGER__MODEL__LOG__INIT := PbLog None 0 None;
            sizeof_tag := 96; sizeof_log_record := 48; sizeof_span_ref := 136 |}; lia.
Defined.
#[local] Existing Instance sample_pb.

Lemma jaeger_tag_from_key_value_spec_witness :
  exists ok tag w',
    @jaeger_tag_from_key_value sample_env sample_pb zero_bytes (Some (lit "n")) (ot_int64 7)
      initial_world = Ok (ok, tag) w' /\
    if ok then field_value (Some (lit "n"), ot_int64 7) = Some (tag_value tag)
    else (@plenty sample_env initial_world ->
          field_value (Some (lit "n"), ot_int64 7) = None).
Proof.
  apply (jaeger_tag_from_key_value_spec sample_env sample_pb zero_bytes
           (Some (lit "n"), ot_int64 7)).
  split; [|done]. intros k [= <-]. done.
Defined.

Definition sample_tag : jaeger_tag :=
  Tag (Some (lit "http.status_code")) V_INT64 None false 200 (S754_zero false)
    (BinaryData 0 None).
Definition binary_tag : jaeger_tag :=
  Tag (Some (lit "payload")) V_BINARY None false 0 (S754_zero false)
    (BinaryData 3 (Some [1; 2; 3])).

Lemma jaeger_tag_copy_spec_witness :
  exists ok dst w', @jaeger_tag_copy sample_env sample_pb sample_tag initial_world
      = Ok (ok, dst) w' /\
    if ok then tag_value dst = tag_value sample_tag else ~ @plenty sample_env initial_world.
Proof.
  apply (jaeger_tag_copy_spec sample_env sample_pb sample_tag).
  split; [|done]. exists (lit "http.status_code"). done.
Defined.

Lemma jaeger_tag_copy_binary_empty_witness :
  exists dst w', @jaeger_tag_copy sample_env sample_pb binary_tag initial_world
      = Ok (true, dst) w' /\
    payload_of binary_tag = PBin [1; 2; 3] /\ payload_of dst = PBin [] /\
    pb_data (v_binary dst) = Some [1; 2; 3].
Proof.
  apply (jaeger_tag_copy_binary_empty sample_env sample_pb binary_tag (lit "payload") [1; 2; 3]);
    try done.
Defined.

Definition sample_log : opentracing_log_record :=
  OtLogRecord (TimeValue 1 2)
    [(Some (lit "event"), ot_string (lit "error")); (None, ot_bool true);
     (Some (lit "retry"), ot_bool true)].

Lemma jaeger_log_record_from_opentracing_spec_witness :
  exists ok r w', @jaeger_log_record_from_opentracing sample_env sample_pb sample_log
      initial_world = Ok (ok, r) w' /\
    (@plenty sample_env initial_world -> ok = true /\ timestamp r = TimeValue 1 2 /\
       map tag_value (contents (fields r))
       = omap field_value (ot_fields sample_log)).
Proof.
  apply (jaeger_log_record_from_opentracing_spec sample_env sample_pb sample_log); [|done].
  repeat constructor; cbn; try done; by intros k [= <-].
Defined.
