(* ===== verification/SpanContext.v ===== *)
(** * Span contexts and references (span.c)

    The propagated part of a span: identifiers, sampling flags, baggage and
    debug identifier, under a mutex; its construction, copy and destruction,
    its text form (the value of the trace-context header) and the references
    between spans with their Protocol Buffers form. *)
From S2P Require Import Prelude Machine Vector CString TraceId Threading Hashtable Tag.

(** ** Definitions *)

Definition jaeger_sampling_flag_sampled : Z := 1.
Definition jaeger_sampling_flag_debug : Z := 2.

Definition JAEGERTRACINGC_SPAN_CONTEXT_MAX_STR_LEN : Z :=
  JAEGERTRACINGC_TRACE_ID_MAX_STR_LEN + 21.

Record jaeger_span_context := SpanContext {
  trace_id : jaeger_trace_id;
  span_id : Z;
  flags : Z;
  baggage : jaeger_hashtable;
  debug_id : option cstr;
  ctx_mutex : jaeger_mutex;
}.

Definition JAEGERTRACINGC_SPAN_CONTEXT_INIT : jaeger_span_context :=
  SpanContext JAEGERTRACINGC_TRACE_ID_INIT 0 0 JAEGERTRACINGC_HASHTABLE_INIT None
    JAEGERTRACINGC_MUTEX_INIT.

(** [jaeger_span_ref_type] is an enumeration; the initialiser is -1. *)
Record jaeger_span_ref := SpanRef {
  ref_context : jaeger_span_context;
  ref_type : Z;
}.

#[export] Instance zero_span_ref : ZeroBytes jaeger_span_ref :=
  SpanRef (SpanContext (TraceId 0 0) 0 0 (Hashtable 0 0 None) None false) 0.

(** [Jaeger__Model__SpanRef]. *)
Record Jaeger__Model__SpanRef := PbSpanRef {
  pbr_trace_id : ProtobufCBinaryData;
  pbr_span_id : ProtobufCBinaryData;
  pbr_ref_type : Z;
}.

#[export] Instance zero_pb_span_ref : ZeroBytes Jaeger__Model__SpanRef :=
  PbSpanRef (BinaryData 0 None) (BinaryData 0 None) 0.

Definition set_baggage (ctx : jaeger_span_context) (h : jaeger_hashtable) :=
  SpanContext (trace_id ctx) (span_id ctx) (flags ctx) h (debug_id ctx) (ctx_mutex ctx).
Definition set_flags (ctx : jaeger_span_context) (f : Z) :=
  SpanContext (trace_id ctx) (span_id ctx) f (baggage ctx) (debug_id ctx) (ctx_mutex ctx).
Definition set_debug_id (ctx : jaeger_span_context) (d : option cstr) :=
  SpanContext (trace_id ctx) (span_id ctx) (flags ctx) (baggage ctx) d (ctx_mutex ctx).
Definition set_ctx_mutex (ctx : jaeger_span_context) (m : jaeger_mutex) :=
  SpanContext (trace_id ctx) (span_id ctx) (flags ctx) (baggage ctx) (debug_id ctx) m.

Section Definitions.
Context {env : Env} {pb : Protobuf}.

Definition jaeger_span_context_destroy (d : option jaeger_span_context)
    : M (option jaeger_span_context) :=
  match d with
  | None => ret None
  | Some ctx =>
      h ← jaeger_hashtable_destroy (Some (baggage ctx));
      ' (_, m) ← jaeger_mutex_destroy (ctx_mutex ctx);
      ret (Some (SpanContext (trace_id ctx) (span_id ctx) (flags ctx)
                   (default (baggage ctx) h) None m))
  end.

Definition jaeger_span_context_init : M (bool * jaeger_span_context) :=
  ' (ok, h) ← jaeger_hashtable_init;
  ret (ok, set_baggage JAEGERTRACINGC_SPAN_CONTEXT_INIT h).

(** The callback [f] threads its argument and says whether to go on; [break]
    leaves the loop over one bucket only. *)
Fixpoint foreach_bucket {A} (f : A -> cstr -> cstr -> M (bool * A)) (arg : A)
    (bucket : list jaeger_key_value) : M A :=
  match bucket with
  | [] => ret arg
  | kv :: bucket =>
      ' (continue, arg) ← f arg (key kv) (kv_value kv);
      if (continue : bool) then foreach_bucket f arg bucket else ret arg
  end.

Fixpoint foreach_buckets {A} (f : A -> cstr -> cstr -> M (bool * A)) (arg : A)
    (buckets : list (list jaeger_key_value)) : M A :=
  match buckets with
  | [] => ret arg
  | b :: buckets => arg ← foreach_bucket f arg b; foreach_buckets f arg buckets
  end.

Definition jaeger_span_context_foreach_baggage_item {A} (ctx : jaeger_span_context)
    (f : A -> cstr -> cstr -> M (bool * A)) (arg : A) : M (A * jaeger_span_context) :=
  m ← jaeger_mutex_lock (ctx_mutex ctx);
  arg ← (match ht_buckets (baggage ctx) with
         | None => fail NullDeref
         | Some buckets => foreach_buckets f arg buckets
         end);
  m ← jaeger_mutex_unlock m;
  ret (arg, set_ctx_mutex ctx m).

(** The source's mutex is unlocked again on both paths. *)
Definition jaeger_span_context_copy (src : jaeger_span_context)
    : M (bool * jaeger_span_context) :=
  ' (src_mutex, dst_mutex) ← jaeger_lock (ctx_mutex src) JAEGERTRACINGC_MUTEX_INIT;
  ' (ok, h) ← jaeger_hashtable_copy (baggage src);
  let dst := set_baggage JAEGERTRACINGC_SPAN_CONTEXT_INIT h in
  if negb ok then
    src_mutex ← jaeger_mutex_unlock src_mutex;
    dst_mutex ← jaeger_mutex_unlock dst_mutex;
    d ← jaeger_span_context_destroy (Some (set_ctx_mutex dst dst_mutex));
    ret (false, default dst d)
  else
    src_mutex ← jaeger_mutex_unlock src_mutex;
    dst_mutex ← jaeger_mutex_unlock dst_mutex;
    ret (true, SpanContext (trace_id src) (span_id src) (flags src) h None dst_mutex).

Definition jaeger_span_context_is_valid (ctx : jaeger_span_context) : bool :=
  negb (high (trace_id ctx) =? 0) || negb (low (trace_id ctx) =? 0).

Definition jaeger_span_context_is_debug_id_container_only (ctx : jaeger_span_context) : bool :=
  negb (jaeger_span_context_is_valid ctx) && bool_decide (is_Some (debug_id ctx)).

(** *** The text form *)

(** [":%" PRIx64 ":%" PRIx8]. *)
Definition context_tail (span_id flags : Z) : cstr :=
  ":"%char :: print_hex span_id ++ ":"%char :: print_hex flags.

(** The returned length, the string left in the buffer, and the context whose
    mutex has been taken and released. *)
Definition jaeger_span_context_format (ctx : jaeger_span_context) (buffer_len : Z)
    : M (Z * option cstr) :=
  c_assert (buffer_len >=? 0);;
  ' (trace_id_len, text) ← jaeger_trace_id_format (trace_id ctx) buffer_len;
  m ← jaeger_mutex_lock (ctx_mutex ctx);
  let flags := flags ctx in
  m ← jaeger_mutex_unlock m;
  let tail := context_tail (span_id ctx) flags in
  if trace_id_len >? buffer_len then ret (trace_id_len + fst (snprintf 0 tail), text)
  else
    let '(n, written) := snprintf (buffer_len - trace_id_len) tail in
    ret (n, match text, written with
            | Some text, Some written => Some (text ++ written)
            | _, _ => text
            end).

(** The loop over the tokens; [None] is the jump to [cleanup] with a [false]
    result. *)
Fixpoint scan_loop (n : nat) (i : Z) (text : cstr) (acc : jaeger_trace_id * Z * Z)
    : option (jaeger_trace_id * Z * Z) :=
  match n with
  | O => Some acc
  | S n =>
      let '(tid, sid, fl) := acc in
      match strtok_r ":" text with
      | None => if i =? 3 then scan_loop n (i + 1) [] acc else None
      | Some (token, rest) =>
          if i =? 0 then
            match jaeger_trace_id_scan token with
            | None => None
            | Some tid => scan_loop n (i + 1) rest (tid, sid, fl)
            end
          else if i =? 1 then
            match strtoull 16 token with
            | (sid, []) => scan_loop n (i + 1) rest (tid, sid, fl)
            | _ => None
            end
          else if i =? 2 then
            match strtoull 16 token with
            | (v, []) => scan_loop n (i + 1) rest (tid, sid, u8 v)
            | _ => None
            end
          else scan_loop n (i + 1) rest acc
      end
  end.

Definition jaeger_span_context_scan (ctx : jaeger_span_context) (str : cstr)
    : M (bool * jaeger_span_context) :=
  buffer ← jaeger_strdup str;
  match buffer with
  | None => ret (false, ctx)
  | Some buffer =>
      match scan_loop 4 0 buffer (JAEGERTRACINGC_TRACE_ID_INIT, 0, 0) with
      | None => ret (false, ctx)
      | Some (tid, sid, fl) =>
          m ← jaeger_mutex_lock (ctx_mutex ctx);
          m ← jaeger_mutex_unlock m;
          ret (true, SpanContext tid sid fl (baggage ctx) (debug_id ctx) m)
      end
  end.

(** *** References *)

Definition jaeger_span_ref_init : M (bool * jaeger_span_ref) :=
  ' (ok, ctx) ← jaeger_span_context_init; ret (ok, SpanRef ctx (-1)).

Definition jaeger_span_ref_destroy (span_ref : option jaeger_span_ref)
    : M (option jaeger_span_ref) :=
  match span_ref with
  | None => ret None
  | Some r =>
      ctx ← jaeger_span_context_destroy (Some (ref_context r));
      ret (Some (SpanRef (default (ref_context r) ctx) (ref_type r)))
  end.

Definition jaeger_span_ref_copy (dst src : jaeger_span_ref) : M (bool * jaeger_span_ref) :=
  ' (ok, ctx) ← jaeger_span_context_copy (ref_context src);
  if negb ok then ret (false, SpanRef ctx (ref_type dst))
  else ret (true, SpanRef ctx (ref_type src)).

Definition jaeger_span_ref_protobuf_destroy (span_ref : option Jaeger__Model__SpanRef)
    : option Jaeger__Model__SpanRef :=
  match span_ref with
  | None => None
  | Some r => Some (PbSpanRef (BinaryData 0 None) (BinaryData 0 None) (pbr_ref_type r))
  end.

(** JAEGER__MODEL__SPAN_REF__INIT contributes the [ref_type] that is kept on
    failure. *)
Context (JAEGER__MODEL__SPAN_REF__INIT : Jaeger__Model__SpanRef).

Definition jaeger_span_ref_to_protobuf (src : jaeger_span_ref)
    : M (bool * Jaeger__Model__SpanRef) :=
  let dst := JAEGER__MODEL__SPAN_REF__INIT in
  granted ← jaeger_malloc;
  if negb granted then
    ret (false, PbSpanRef (BinaryData 16 None) (pbr_span_id dst) (pbr_ref_type dst))
  else
    granted ← jaeger_malloc;
    if negb granted then
      ret (false, PbSpanRef (BinaryData 0 None) (BinaryData 0 None) (pbr_ref_type dst))
    else
      m ← jaeger_mutex_lock (ctx_mutex (ref_context src));
      tid ← jaeger_trace_id_to_protobuf (BinaryData 16 (Some (replicate 16 0)))
              (trace_id (ref_context src));
      m ← jaeger_mutex_unlock m;
      ret (true, PbSpanRef tid
             (BinaryData 8 (Some (le_bytes 8 (span_id (ref_context src))))) (ref_type src)).
End Definitions.

(** ** Lemmas *)

(** A context between two calls: baggage [m], and an unlocked mutex. *)
Record context_ok {env : Env} (ctx : jaeger_span_context) (m : gmap cstr cstr) : Prop := {
  ctx_baggage : represents (baggage ctx) m;
  ctx_counted : counted (baggage ctx) m;
  ctx_short : short_map m;
  ctx_size : ht_size (baggage ctx) < 2 ^ 31 - 1;
  ctx_unlocked : ctx_mutex ctx = false;
}.

(** Identifiers and flags within their widths. *)
Definition ids_wf (ctx : jaeger_span_context) : Prop :=
  trace_id_wf (trace_id ctx) /\ 0 <= span_id ctx <= UINT64_MAX /\ 0 <= flags ctx < 256.

Definition context_text (ctx : jaeger_span_context) : cstr :=
  trace_id_text (trace_id ctx) ++ context_tail (span_id ctx) (flags ctx).

Section Facts.
Context {env : Env}.
Implicit Types (w : world).

Lemma print_hex_8_length n : 0 <= n < 256 -> (length (print_hex n) <= 2)%nat.
Proof.
  intros Hn. assert (n ∈ seqZ 0 256) as Hin by (apply elem_of_seqZ; lia). clear Hn.
  assert (forallb (fun n => (length (print_hex n) <=? 2)%nat) (seqZ 0 256) = true) as H
    by (vm_compute; reflexivity).
  rewrite forallb_forall in H. apply Nat.leb_le, H. by apply list_elem_of_In.
Qed.

Lemma context_text_length ctx :
  ids_wf ctx -> lenZ (context_text ctx) <= JAEGERTRACINGC_SPAN_CONTEXT_MAX_STR_LEN.
Proof.
  intros (_ & _ & Hf). unfold context_text, context_tail.
  pose proof (trace_id_text_length (trace_id ctx)). pose proof (print_hex_length (span_id ctx)).
  pose proof (print_hex_8_length (flags ctx) Hf).
  rewrite length_app. cbn [length]. rewrite length_app. cbn [length].
  change JAEGERTRACINGC_SPAN_CONTEXT_MAX_STR_LEN with 53. lia.
Qed.

Lemma colon_not_hex : is_digit_of 16 ":" = false.
Proof. done. Qed.

Lemma strtoull_print_hex_all n : 0 <= n <= UINT64_MAX -> strtoull 16 (print_hex n) = (n, []).
Proof.
  intros Hn. rewrite <- (app_nil_r (print_hex n)). apply strtoull_print_hex; auto.
Qed.

(** The scanner on the text of a context: three tokens, each read back. *)
Lemma scan_loop_text ctx :
  ids_wf ctx ->
  scan_loop 4 0 (context_text ctx) (JAEGERTRACINGC_TRACE_ID_INIT, 0, 0)
  = Some (trace_id ctx, span_id ctx, flags ctx).
Proof.
  intros (Ht & Hs & Hf). unfold context_text, context_tail.
  pose proof (trace_id_text_length (trace_id ctx)) as Hlt.
  cbn [scan_loop Z.eqb Z.add Pos.add Pos.succ]. rewrite strtok_r_app.
  2: { intros E. rewrite E in Hlt. cbn in Hlt. lia. }
  2: { by apply trace_id_text_no_char. }
  rewrite trace_id_scan_text by done.
  rewrite strtok_r_app by (apply print_hex_nonempty || by apply print_hex_no_char).
  cbn [Z.eqb Z.add Pos.add Pos.succ Pos.eqb]. rewrite strtoull_print_hex_all by done.
  rewrite strtok_r_last by (apply print_hex_nonempty || by apply print_hex_no_char).
  rewrite strtoull_print_hex_all by (unfold UINT64_MAX; lia).
  cbn. by rewrite wrap_small.
Qed.

Lemma context_scan_wp ctx str Q w :
  short str -> ctx_mutex ctx = false ->
  (forall w', alloc_only w w' -> Q (false, ctx) w') ->
  (forall tid sid fl w', alloc_only w w' ->
     scan_loop 4 0 str (JAEGERTRACINGC_TRACE_ID_INIT, 0, 0) = Some (tid, sid, fl) ->
     Q (true, SpanContext tid sid fl (baggage ctx) (debug_id ctx) false) w') ->
  wp (jaeger_span_context_scan ctx str) Q w.
Proof.
  intros Hs Hm HF HT. unfold jaeger_span_context_scan.
  apply wp_bind, wp_strdup; [done|intros; by apply wp_ret, HF|].
  intros w' Hw. destruct (scan_loop _ _ _ _) as [[[tid sid] fl]|]; [|by apply wp_ret, HF].
  rewrite Hm. apply wp_bind, mutex_lock_wp, wp_bind, mutex_unlock_wp, wp_ret. by apply HT.
Qed.

(** The same when the text is that of a context and memory lasts. *)
Lemma context_scan_text_wp ctx src Q w :
  plenty w -> ids_wf src -> ctx_mutex ctx = false ->
  (forall w', alloc_only w w' ->
     Q (true, SpanContext (trace_id src) (span_id src) (flags src) (baggage ctx)
                (debug_id ctx) false) w') ->
  wp (jaeger_span_context_scan ctx (context_text src)) Q w.
Proof.
  intros Hp Hi Hm HT. pose proof (context_text_length src Hi) as Hl.
  change JAEGERTRACINGC_SPAN_CONTEXT_MAX_STR_LEN with 53 in Hl.
  unfold jaeger_span_context_scan.
  apply wp_bind, wp_strdup; [unfold INT_MAX; lia|by intros|].
  intros w' Hw. rewrite scan_loop_text, Hm by done.
  apply wp_bind, mutex_lock_wp, wp_bind, mutex_unlock_wp, wp_ret. by apply HT.
Qed.

Lemma context_format_wp ctx buffer_len Q w :
  ids_wf ctx -> ctx_mutex ctx = false ->
  JAEGERTRACINGC_SPAN_CONTEXT_MAX_STR_LEN < buffer_len ->
  Q (lenZ (context_tail (span_id ctx) (flags ctx)), Some (context_text ctx)) w ->
  wp (jaeger_span_context_format ctx buffer_len) Q w.
Proof.
  intros Hi Hm Hb HQ. pose proof (context_text_length ctx Hi) as Hl.
  change JAEGERTRACINGC_SPAN_CONTEXT_MAX_STR_LEN with 53 in *.
  assert (lenZ (context_text ctx) = lenZ (trace_id_text (trace_id ctx))
    + lenZ (context_tail (span_id ctx) (flags ctx))) as Hsum
    by (unfold context_text; rewrite length_app; lia).
  unfold jaeger_span_context_format. wp_step. apply wp_assert; [rewrite Z.geb_leb; lia|].
  apply wp_bind, trace_id_format_wp; [lia|]. unfold snprintf. rewrite Hm.
  apply wp_bind, mutex_lock_wp, wp_bind, mutex_unlock_wp.
  rewrite Z.gtb_ltb, (proj2 (Z.ltb_ge _ _)) by lia.
  rewrite (proj2 (Z.leb_gt (buffer_len - _) 0)), (proj2 (Z.leb_gt buffer_len 0)) by lia.
  rewrite !take_ge by lia. by apply wp_ret.
Qed.

Lemma context_init_wp Q w :
  (forall ctx w', alloc_only w w' -> context_ok ctx ∅ -> ids_wf ctx -> debug_id ctx = None ->
     trace_id ctx = JAEGERTRACINGC_TRACE_ID_INIT -> Q (true, ctx) w') ->
  (forall ctx w', alloc_only w w' -> ~ plenty w -> released (baggage ctx) ->
     Q (false, ctx) w') ->
  wp jaeger_span_context_init Q w.
Proof.
  intros HT HF. unfold jaeger_span_context_init. apply wp_bind, hashtable_init_wp.
  - intros h w' Hw Hr Hc. apply wp_ret, HT; try done.
    split; cbn; try done. by rewrite Hc.
  - intros h w' Hw Hno Hrel. by apply wp_ret, HF.
Qed.

Lemma context_copy_wp src m Q w :
  plenty w -> context_ok src m ->
  (forall dst w', alloc_only w w' -> context_ok dst m -> trace_id dst = trace_id src ->
     span_id dst = span_id src -> flags dst = flags src -> debug_id dst = None ->
     Q (true, dst) w') ->
  wp (jaeger_span_context_copy src) Q w.
Proof.
  intros Hp [Hr Hc Hs Hz Hm] HQ. unfold jaeger_span_context_copy. rewrite Hm.
  apply wp_bind, jaeger_lock_wp, wp_bind.
  apply (copy_wp (baggage src) m); [done..|lia| |by intros].
  intros h w' Hw Hr' Hc'. cbn [negb].
  apply wp_bind, mutex_unlock_wp, wp_bind, mutex_unlock_wp, wp_ret, HQ; try done.
  split; cbn; try done. unfold counted in *. lia.
Qed.

Lemma context_destroy_wp ctx m Q w :
  context_ok ctx m ->
  (forall ctx', released (baggage ctx') -> debug_id ctx' = None -> Q (Some ctx') w) ->
  wp (jaeger_span_context_destroy (Some ctx)) Q w.
Proof.
  intros [(bs & Hinv & _) _ _ _ Hm] HQ. unfold jaeger_span_context_destroy.
  apply wp_bind. eapply destroy_wp; [done|]. rewrite Hm. apply wp_bind, wp_ret, wp_ret.
  by apply HQ.
Qed.
End Facts.

(** ** Properties *)

(** C30: Formatting a context into a buffer of the declared maximum and scanning
    the text gives back the trace identifier, span identifier and flags, and
    leaves the scanning context's baggage and debug identifier alone. *)
Theorem span_context_roundtrip (env : Env) ctx ctx0 buffer_len w :
  plenty w -> ids_wf ctx -> ctx_mutex ctx = false -> ctx_mutex ctx0 = false ->
  JAEGERTRACINGC_SPAN_CONTEXT_MAX_STR_LEN < buffer_len ->
  exists n text ctx' w',
    jaeger_span_context_format ctx buffer_len w = Ok (n, Some text) w /\
    lenZ text <= JAEGERTRACINGC_SPAN_CONTEXT_MAX_STR_LEN /\
    jaeger_span_context_scan ctx0 text w = Ok (true, ctx') w' /\
    trace_id ctx' = trace_id ctx /\ span_id ctx' = span_id ctx /\ flags ctx' = flags ctx /\
    baggage ctx' = baggage ctx0 /\ debug_id ctx' = debug_id ctx0.
Proof.
  intros Hp Hi Hm Hm0 Hb.
  assert (wp (jaeger_span_context_format ctx buffer_len) (fun r w' => w' = w /\
    r.2 = Some (context_text ctx)) w) as Hf by (by apply context_format_wp).
  apply wp_returns in Hf as ([n text] & w1 & Hf & -> & Ht). cbn in Ht. subst text.
  assert (wp (jaeger_span_context_scan ctx0 (context_text ctx)) (fun r _ => r = (true,
    SpanContext (trace_id ctx) (span_id ctx) (flags ctx) (baggage ctx0) (debug_id ctx0)
      false)) w) as Hs by (by apply context_scan_text_wp).
  apply wp_returns in Hs as (r & w2 & Hs & ->).
  eexists n, _, _, w2. split; [done|]. split; [by apply context_text_length|]. done.
Qed.

(** The value returned by the formatter when everything fits is the length of
    the part after the trace identifier, not of the text written. *)
Theorem span_context_format_returns_tail (env : Env) ctx buffer_len w :
  ids_wf ctx -> ctx_mutex ctx = false ->
  JAEGERTRACINGC_SPAN_CONTEXT_MAX_STR_LEN < buffer_len ->
  exists n text, jaeger_span_context_format ctx buffer_len w = Ok (n, Some text) w /\
    n < lenZ text.
Proof.
  intros Hi Hm Hb.
  assert (wp (jaeger_span_context_format ctx buffer_len) (fun r w' => w' = w /\
    r = (lenZ (context_tail (span_id ctx) (flags ctx)), Some (context_text ctx))) w) as H
    by (by apply context_format_wp).
  apply wp_returns in H as (r & w' & H & -> & ->). eexists _, _. split; [done|].
  pose proof (trace_id_text_length (trace_id ctx)). unfold context_text.
  rewrite length_app. lia.
Qed.

(** Copying a context, while memory lasts, keeps its identifiers, flags and
    baggage, leaves both mutexes unlocked, and drops the debug identifier. *)
Theorem jaeger_span_context_copy_spec (env : Env) src m w :
  plenty w -> context_ok src m ->
  exists dst w', jaeger_span_context_copy src w = Ok (true, dst) w' /\ context_ok dst m /\
    trace_id dst = trace_id src /\ span_id dst = span_id src /\ flags dst = flags src /\
    debug_id dst = None.
Proof.
  intros Hp Hc.
  assert (wp (jaeger_span_context_copy src) (fun r _ => r.1 = true /\ context_ok r.2 m /\
    trace_id r.2 = trace_id src /\ span_id r.2 = span_id src /\ flags r.2 = flags src /\
    debug_id r.2 = None) w) as H by (by apply (context_copy_wp src m)).
  apply wp_returns in H as ([ok dst] & w' & ? & Hok & ?). cbn in Hok. subst. eauto.
Qed.

(** An environment in which only the first request is granted. *)
Definition starved_env : Env := {|
  sys_malloc_ok n := (n =? 0)%nat;
  clock_monotonic := @clock_monotonic sample_env;
  clock_realtime := @clock_realtime sample_env;
  rand_r := @rand_r sample_env;
  entropy := @entropy sample_env;
  entropy_source := HAVE_GETRANDOM;
  fopen_ok _ := true;
  stale_state := [0; 0; 0; 0];
  seed := @seed sample_env;
  ndebug := false;
  mt := true;
  have_builtin := true;
  pthread_key_create_ok := true;
  pthread_setspecific_ok := true;
|}.

Definition sample_context : jaeger_span_context :=
  SpanContext (TraceId 1 2) 3 1 one_entry None false.

(** When memory runs out while the baggage is copied, the half-made table is
    destroyed twice, and the second destruction dereferences NULL buckets. *)
Theorem span_context_copy_double_destroy :
  @jaeger_span_context_copy starved_env sample_context initial_world = Fault NullDeref.
Proof. vm_compute. reflexivity. Qed.

Lemma sample_context_ok : @context_ok sample_env sample_context {[lit "k" := lit "v"]}.
Proof.
  destruct one_entry_represents as [Hr Hc]. split.
  - exact Hr.
  - exact Hc.
  - intros k v H. apply lookup_singleton_Some in H as [<- <-].
    split; vm_compute; reflexivity.
  - change (ht_size one_entry < 2 ^ 31 - 1). rewrite Hc, map_size_singleton. lia.
  - reflexivity.
Qed.

Lemma sample_ids_wf : ids_wf sample_context.
Proof. unfold ids_wf, trace_id_wf, UINT64_MAX. cbn. lia. Qed.

Lemma span_context_roundtrip_witness :
  exists n text ctx' w',
    @jaeger_span_context_format sample_env sample_context 54 initial_world
      = Ok (n, Some text) initial_world /\
    lenZ text <= JAEGERTRACINGC_SPAN_CONTEXT_MAX_STR_LEN /\
    @jaeger_span_context_scan sample_env JAEGERTRACINGC_SPAN_CONTEXT_INIT text initial_world
      = Ok (true, ctx') w' /\
    trace_id ctx' = trace_id sample_context /\ span_id ctx' = span_id sample_context /\
    flags ctx' = flags sample_context /\
    baggage ctx' = baggage JAEGERTRACINGC_SPAN_CONTEXT_INIT /\
    debug_id ctx' = debug_id JAEGERTRACINGC_SPAN_CONTEXT_INIT.
Proof.
  apply (span_context_roundtrip sample_env sample_context JAEGERTRACINGC_SPAN_CONTEXT_INIT 54);
    [apply plenty_sample|apply sample_ids_wf|reflexivity..].
Defined.

Lemma span_context_format_returns_tail_witness :
  exists n text, @jaeger_span_context_format sample_env sample_context 54 initial_world
      = Ok (n, Some text) initial_world /\ n < lenZ text.
Proof.
  apply (span_context_format_returns_tail sample_env sample_context 54);
    [apply sample_ids_wf|reflexivity..].
Defined.

Lemma jaeger_span_context_copy_spec_witness :
  exists dst w', @jaeger_span_context_copy sample_env sample_context initial_world
      = Ok (true, dst) w' /\
    @context_ok sample_env dst {[lit "k" := lit "v"]} /\
    trace_id dst = trace_id sample_context /\ span_id dst = span_id sample_context /\
    flags dst = flags sample_context /\ debug_id dst = None.
Proof.
  apply (jaeger_span_context_copy_spec sample_env sample_context {[lit "k" := lit "v"]});
    [apply plenty_sample|apply sample_context_ok].
Defined.
