(* ===== verification/Span.v ===== *)
(** * Spans (span.c)

    A span: its identity and baggage (the context), operation name, times,
    tags, logs and references, under a mutex. Its operations, its copy, and
    its Protocol Buffers message. What happens to a finished span is up to the
    tracer, which is a parameter here. *)
From S2P Require Import Prelude Machine Vector CString Clock TraceId Threading Hashtable Tag.
From S2P Require Import SpanContext.

(** ** Definitions *)

Definition JAEGERTRACINGC_SAMPLING_PRIORITY : cstr := lit "sampling.priority".

Record jaeger_span := Span {
  tracer : option nat;
  context : jaeger_span_context;
  operation_name : option cstr;
  start_time_system : jaeger_timestamp;
  start_time_steady : jaeger_duration;
  duration : jaeger_duration;
  tags : jaeger_vector jaeger_tag;
  logs : jaeger_vector jaeger_log_record;
  refs : jaeger_vector jaeger_span_ref;
  span_mutex : jaeger_mutex;
}.

Definition JAEGERTRACINGC_SPAN_INIT : jaeger_span :=
  Span None JAEGERTRACINGC_SPAN_CONTEXT_INIT None (TimeValue 0 0) (TimeValue 0 0)
    (TimeValue 0 0) JAEGERTRACINGC_VECTOR_INIT JAEGERTRACINGC_VECTOR_INIT
    JAEGERTRACINGC_VECTOR_INIT JAEGERTRACINGC_MUTEX_INIT.

Record opentracing_finish_span_options := FinishSpanOptions {
  finish_time : jaeger_duration;
  log_records : option (list opentracing_log_record);
  num_log_records : Z;
}.

Definition JAEGERTRACINGC_FINISH_SPAN_OPTIONS_INIT : opentracing_finish_span_options :=
  FinishSpanOptions (TimeValue 0 0) None 0.

(** [Jaeger__Model__Span]: the members the client sets. *)
Record Jaeger__Model__Span := PbSpan {
  pbs_trace_id : ProtobufCBinaryData;
  pbs_span_id : ProtobufCBinaryData;
  pbs_operation_name : option cstr;
  pbs_references : option (list (option Jaeger__Model__SpanRef));
  pbs_n_references : Z;
  pbs_logs : option (list (option Jaeger__Model__Log));
  pbs_n_logs : Z;
  pbs_tags : option (list (option jaeger_tag));
  pbs_n_tags : Z;
}.

#[export] Instance zero_log_record : ZeroBytes jaeger_log_record :=
  LogRecord (TimeValue 0 0) (Vector 0 0 None 0).
#[export] Instance zero_pb_log : ZeroBytes Jaeger__Model__Log := PbLog None 0 None.

(** *** Assignments to members *)

Definition set_tracer (s : jaeger_span) (t : option nat) : jaeger_span :=
  Span t (context s) (operation_name s) (start_time_system s) (start_time_steady s)
    (duration s) (tags s) (logs s) (refs s) (span_mutex s).
Definition set_context (s : jaeger_span) (c : jaeger_span_context) : jaeger_span :=
  Span (tracer s) c (operation_name s) (start_time_system s) (start_time_steady s)
    (duration s) (tags s) (logs s) (refs s) (span_mutex s).
Definition set_name (s : jaeger_span) (n : option cstr) : jaeger_span :=
  Span (tracer s) (context s) n (start_time_system s) (start_time_steady s)
    (duration s) (tags s) (logs s) (refs s) (span_mutex s).
Definition set_times (s : jaeger_span) (system : jaeger_timestamp) (steady d : jaeger_duration)
    : jaeger_span :=
  Span (tracer s) (context s) (operation_name s) system steady d
    (tags s) (logs s) (refs s) (span_mutex s).
Definition set_tags (s : jaeger_span) (v : jaeger_vector jaeger_tag) : jaeger_span :=
  Span (tracer s) (context s) (operation_name s) (start_time_system s) (start_time_steady s)
    (duration s) v (logs s) (refs s) (span_mutex s).
Definition set_logs (s : jaeger_span) (v : jaeger_vector jaeger_log_record) : jaeger_span :=
  Span (tracer s) (context s) (operation_name s) (start_time_system s) (start_time_steady s)
    (duration s) (tags s) v (refs s) (span_mutex s).
Definition set_refs (s : jaeger_span) (v : jaeger_vector jaeger_span_ref) : jaeger_span :=
  Span (tracer s) (context s) (operation_name s) (start_time_system s) (start_time_steady s)
    (duration s) (tags s) (logs s) v (span_mutex s).
Definition set_mutex (s : jaeger_span) (m : jaeger_mutex) : jaeger_span :=
  Span (tracer s) (context s) (operation_name s) (start_time_system s) (start_time_steady s)
    (duration s) (tags s) (logs s) (refs s) m.

Section Definitions.
Context {env : Env} {pb : Protobuf}.

(** JAEGERTRACINGC_VECTOR_FOR_EACH: [op] on the address of each element. *)
Fixpoint vector_for_each {A} (op : A -> M A) (n : nat) (i : Z) (vec : jaeger_vector A)
    : M (jaeger_vector A) :=
  match n with
  | O => ret vec
  | S n =>
      a ← load vec (jaeger_vector_offset vec i);
      a ← op a;
      vec ← store vec (jaeger_vector_offset vec i) a;
      vector_for_each op n (i + 1) vec
  end.

Definition for_each {A} (op : A -> M A) (vec : jaeger_vector A) : M (jaeger_vector A) :=
  vector_for_each op (Z.to_nat (jaeger_vector_length vec)) 0 vec.

Definition jaeger_span_destroy (d : option jaeger_span) : M (option jaeger_span) :=
  match d with
  | None => ret None
  | Some s =>
      let s := set_name (set_tracer s None) None in
      tg ← for_each (fun t => ret (default t (jaeger_tag_destroy (Some t)))) (tags s);
      lg ← for_each (fun l => ret (default l (jaeger_log_record_destroy (Some l)))) (logs s);
      rf ← for_each (fun r => r' ← jaeger_span_ref_destroy (Some r); ret (default r r')) (refs s);
      ctx ← jaeger_span_context_destroy (Some (context s));
      ' (_, m) ← jaeger_mutex_destroy (span_mutex s);
      ret (Some (Span (tracer s) (default (context s) ctx) (operation_name s)
                   (start_time_system s) (start_time_steady s) (duration s)
                   (jaeger_vector_destroy tg) (jaeger_vector_destroy lg)
                   (jaeger_vector_destroy rf) m))
  end.

Definition jaeger_span_init_vectors (s : jaeger_span) : M (bool * jaeger_span) :=
  ' (ok, v) ← jaeger_vector_init (tags s) sizeof_tag;
  let s := set_tags s v in
  if negb ok then ret (false, s)
  else
    ' (ok, v) ← jaeger_vector_init (logs s) sizeof_log_record;
    let s := set_logs s v in
    if negb ok then ret (false, s)
    else
      ' (ok, v) ← jaeger_vector_init (refs s) sizeof_span_ref;
      let s := set_refs s v in
      if negb ok then ret (false, s) else ret (true, s).

Definition jaeger_span_is_sampled_no_locking (s : jaeger_span) : bool :=
  negb (Z.land (flags (context s)) jaeger_sampling_flag_sampled =? 0).

Definition jaeger_span_log_no_locking (s : jaeger_span) (log_record : opentracing_log_record)
    : M jaeger_span :=
  ' (log_record_copy, v) ← jaeger_vector_append (logs s);
  match log_record_copy with
  | None => ret (set_logs s v)
  | Some _ =>
      v ← store v log_record_copy (LogRecord (TimeValue 0 0) JAEGERTRACINGC_VECTOR_INIT);
      ' (ok, r) ← jaeger_log_record_from_opentracing log_record;
      v ← store v log_record_copy r;
      if negb ok then ret (set_logs s (set_len v (len v - 1))) else ret (set_logs s v)
  end.

Fixpoint log_records_loop (n : nat) (rs : list opentracing_log_record) (s : jaeger_span)
    : M jaeger_span :=
  match n, rs with
  | O, _ => ret s
  | S _, [] => fail OutOfBounds
  | S n, r :: rs => s ← jaeger_span_log_no_locking s r; log_records_loop n rs s
  end.

(** *** Finishing: [T] is the state the tracer keeps. *)

Section Finish.
Context {T : Type} (jaeger_tracer_report_span : T -> jaeger_span -> M (T * jaeger_span)).

(** What is done to a sampled span under its mutex. *)
Definition finish_sampled (s : jaeger_span) (options : opentracing_finish_span_options)
    : M jaeger_span :=
  finish_time ← (if (tv_sec (finish_time options) =? 0) && (tv_nsec (finish_time options) =? 0)
                 then jaeger_duration_now else ret (finish_time options));
  ' (result, d) ← jaeger_time_subtract finish_time (start_time_steady s);
  c_assert result;;
  c_assert ((num_log_records options =? 0) || bool_decide (is_Some (log_records options)));;
  log_records_loop (Z.to_nat (num_log_records options)) (default [] (log_records options))
    (set_times s (start_time_system s) (start_time_steady s) d).

Definition finish_locked (s : jaeger_span) (options : opentracing_finish_span_options)
    : M jaeger_span :=
  m ← jaeger_mutex_lock (span_mutex s);
  let s := set_mutex s m in
  s ← (if jaeger_span_is_sampled_no_locking s then finish_sampled s options else ret s);
  m ← jaeger_mutex_unlock (span_mutex s);
  ret (set_mutex s m).

Definition finish_with_options (t : T) (s : jaeger_span)
    (options : opentracing_finish_span_options) : M (T * jaeger_span) :=
  s ← finish_locked s options;
  match tracer s with
  | None => fail NullDeref
  | Some _ => jaeger_tracer_report_span t s
  end.

Definition jaeger_span_finish_with_options (t : T) (s : jaeger_span)
    (options : option opentracing_finish_span_options) : M (T * jaeger_span) :=
  match options with
  | None => finish_with_options t s JAEGERTRACINGC_FINISH_SPAN_OPTIONS_INIT
  | Some options => finish_with_options t s options
  end.

Definition jaeger_span_finish (t : T) (s : jaeger_span) : M (T * jaeger_span) :=
  jaeger_span_finish_with_options t s None.
End Finish.

(** *** Operations under the span's mutexes *)

(** [jaeger_lock(&span->mutex, &span->context.mutex)] and its release. *)
Definition lock_span (s : jaeger_span) : M jaeger_span :=
  ' (m, cm) ← jaeger_lock (span_mutex s) (ctx_mutex (context s));
  ret (set_context (set_mutex s m) (set_ctx_mutex (context s) cm)).

Definition unlock_span (s : jaeger_span) : M jaeger_span :=
  m ← jaeger_mutex_unlock (span_mutex s);
  cm ← jaeger_mutex_unlock (ctx_mutex (context s));
  ret (set_context (set_mutex s m) (set_ctx_mutex (context s) cm)).

Definition jaeger_span_is_sampled (s : jaeger_span) : M (bool * jaeger_span) :=
  s ← lock_span s;
  let result := jaeger_span_is_sampled_no_locking s in
  s ← unlock_span s;
  ret (result, s).

Definition jaeger_span_set_operation_name (s : jaeger_span) (name : cstr) : M jaeger_span :=
  m ← jaeger_mutex_lock (span_mutex s);
  let s := set_mutex s m in
  s ← (if negb (jaeger_span_is_sampled_no_locking s) then ret s
       else
         operation_name_copy ← jaeger_strdup name;
         match operation_name_copy with
         | None => ret s
         | Some _ => ret (set_name s operation_name_copy)
         end);
  m ← jaeger_mutex_unlock (span_mutex s);
  ret (set_mutex s m).

Definition jaeger_span_set_baggage_item (s : jaeger_span) (k v : cstr) : M jaeger_span :=
  s ← lock_span s;
  ' (_, h) ← jaeger_hashtable_put (baggage (context s)) k v;
  unlock_span (set_context s (set_baggage (context s) h)).

Definition jaeger_span_baggage_item (s : jaeger_span) (k : cstr) : M (option cstr * jaeger_span) :=
  s ← lock_span s;
  kv ← jaeger_hashtable_find (baggage (context s)) k;
  s ← unlock_span s;
  match kv with
  | None => ret (None, s)
  | Some kv => ret (Some (kv_value kv), s)
  end.

Definition jaeger_span_set_tag_no_locking (s : jaeger_span) (k : cstr) (value : opentracing_value)
    : M jaeger_span :=
  ' (tag_copy, v) ← jaeger_vector_append (tags s);
  match tag_copy with
  | None => ret (set_tags s v)
  | Some _ =>
      old ← load v tag_copy;
      ' (ok, tag) ← jaeger_tag_from_key_value old (Some k) value;
      v ← store v tag_copy tag;
      if negb ok then ret (set_tags s (set_len v (len v - 1))) else ret (set_tags s v)
  end.

Definition jaeger_span_set_sampling_priority (s : jaeger_span) (value : opentracing_value)
    : M (bool * jaeger_span) :=
  match value with
  | ot_int64 z | ot_uint64 z =>
      s ← lock_span s;
      let ctx := context s in
      let success := negb (z =? 0) in
      let fl :=
        if success then
          Z.lor (u8 (Z.lor (flags ctx) jaeger_sampling_flag_debug)) jaeger_sampling_flag_sampled
        else u8 (Z.land (flags ctx) (u8 (Z.lnot jaeger_sampling_flag_sampled))) in
      s ← unlock_span (set_context s (set_flags ctx fl));
      ret (success, s)
  | _ => ret (false, s)
  end.

(** The rest of [jaeger_span_set_tag], after the sampling priority. *)
Definition set_tag_locked (s : jaeger_span) (k : cstr) (value : opentracing_value)
    : M jaeger_span :=
  m ← jaeger_mutex_lock (span_mutex s);
  let s := set_mutex s m in
  s ← (if jaeger_span_is_sampled_no_locking s then jaeger_span_set_tag_no_locking s k value
       else ret s);
  m ← jaeger_mutex_unlock (span_mutex s);
  ret (set_mutex s m).

Definition jaeger_span_set_tag (s : jaeger_span) (k : cstr) (value : opentracing_value)
    : M jaeger_span :=
  if strcmp k JAEGERTRACINGC_SAMPLING_PRIORITY =? 0 then
    ' (ok, s) ← jaeger_span_set_sampling_priority s value;
    if negb ok then ret s else set_tag_locked s k value
  else set_tag_locked s k value.

(** The rest of [jaeger_span_log], once the record has its timestamp. *)
Definition log_locked (s : jaeger_span) (log_record : opentracing_log_record) : M jaeger_span :=
  m ← jaeger_mutex_lock (span_mutex s);
  let s := set_mutex s m in
  s ← (if jaeger_span_is_sampled_no_locking s then jaeger_span_log_no_locking s log_record
       else ret s);
  m ← jaeger_mutex_unlock (span_mutex s);
  ret (set_mutex s m).

(** [num_fields] is the length of [fields]. *)
Definition jaeger_span_log (s : jaeger_span) (fields : list (option cstr * opentracing_value))
    : M jaeger_span :=
  timestamp ← jaeger_timestamp_now;
  log_locked s (OtLogRecord timestamp fields).

(** *** Construction and copy *)

Definition jaeger_span_init : M (bool * jaeger_span) :=
  ' (ok, ctx) ← jaeger_span_context_init;
  let s := set_context JAEGERTRACINGC_SPAN_INIT ctx in
  if negb ok then ret (false, s)
  else
    ' (ok, s) ← jaeger_span_init_vectors s;
    if negb ok then
      d ← jaeger_span_destroy (Some s);
      ret (false, default s d)
    else ret (true, s).

Definition jaeger_log_record_copy_wrapper (_ : jaeger_log_record) (src : jaeger_log_record)
    : M (bool * jaeger_log_record) := jaeger_log_record_copy src.

(** The copying itself, while both mutexes are held: [false] is the jump to
    [cleanup]. *)
Definition copy_members (dst src : jaeger_span) : M (bool * jaeger_span) :=
  let dst := set_times dst (start_time_system src) (start_time_steady src) (duration src) in
  name ← (match operation_name src with
          | None => fail NullDeref
          | Some name => jaeger_strdup name
          end);
  let dst := set_name dst name in
  ' (ok, ctx) ← jaeger_span_context_copy (context src);
  let dst := set_context dst ctx in
  if negb ok then ret (false, dst)
  else if bool_decide (name = None) then ret (false, dst)
  else
    ' (ok, v) ← jaeger_vector_copy jaeger_tag_copy_wrapper (tags dst) (tags src);
    let dst := set_tags dst v in
    if negb ok then ret (false, dst)
    else
      ' (ok, v) ← jaeger_vector_copy jaeger_log_record_copy_wrapper (logs dst) (logs src);
      let dst := set_logs dst v in
      if negb ok then ret (false, dst)
      else
        ' (ok, v) ← jaeger_vector_copy jaeger_span_ref_copy (refs dst) (refs src);
        let dst := set_refs dst v in
        ret (ok, dst).

(** The copy, and the source with its mutex as it is left. *)
Definition jaeger_span_copy (src : jaeger_span) : M (bool * jaeger_span * jaeger_span) :=
  ' (ok, dst) ← jaeger_span_init_vectors JAEGERTRACINGC_SPAN_INIT;
  if negb ok then ret (false, dst, src)
  else
    ' (dm, sm) ← jaeger_lock (span_mutex dst) (span_mutex src);
    ' (ok, dst) ← copy_members (set_mutex dst dm) src;
    if (ok : bool) then
      dm ← jaeger_mutex_unlock (span_mutex dst);
      sm ← jaeger_mutex_unlock sm;
      ret (true, set_mutex dst dm, set_mutex src sm)
    else
      sm ← jaeger_mutex_unlock sm;
      dm ← jaeger_mutex_unlock (span_mutex dst);
      d ← jaeger_span_destroy (Some (set_mutex dst dm));
      ret (false, default dst d, set_mutex src sm).
End Definitions.

(** *** The message *)

(** The static initialisers of the generated code. *)
Class SpanMessages := {
  JAEGER__MODEL__SPAN_REF__INIT : Jaeger__Model__SpanRef;
  JAEGER__MODEL__SPAN__INIT : Jaeger__Model__Span;
}.

Section Messages.
Context {env : Env} {pb : Protobuf} {msgs : SpanMessages}.

(** The elements [i..num-1]: each that is not NULL is destroyed and freed. *)
Fixpoint list_destroy_loop {A} (destroy : A -> M unit) (n : nat) (data : list (option A))
    : M unit :=
  match n, data with
  | O, _ => ret tt
  | S _, [] => fail OutOfBounds
  | S n, None :: data => list_destroy_loop destroy n data
  | S n, Some a :: data => destroy a;; list_destroy_loop destroy n data
  end.

Definition jaeger_protobuf_list_destroy {A} (destroy : A -> M unit)
    (data : option (list (option A))) (num : Z) : M unit :=
  if num =? 0 then ret tt
  else
    c_assert (num >? 0);;
    match data with
    | None => c_assert false;; fail NullDeref
    | Some data => list_destroy_loop destroy (Z.to_nat num) data
    end.

Definition jaeger_span_protobuf_destroy (span : option Jaeger__Model__Span)
    : M (option Jaeger__Model__Span) :=
  match span with
  | None => ret None
  | Some s =>
      jaeger_protobuf_list_destroy
        (fun r => ret (let _ := jaeger_span_ref_protobuf_destroy (Some r) in tt))
        (pbs_references s) (pbs_n_references s);;
      jaeger_protobuf_list_destroy
        (fun l => ret (let _ := jaeger_log_record_protobuf_destroy (Some l) in tt))
        (pbs_logs s) (pbs_n_logs s);;
      jaeger_protobuf_list_destroy
        (fun t => ret (let _ := jaeger_tag_destroy (Some t) in tt))
        (pbs_tags s) (pbs_n_tags s);;
      ret (Some (PbSpan (BinaryData 0 None) (BinaryData 0 None) None
                   None (pbs_n_references s) None (pbs_n_logs s) None (pbs_n_tags s)))
  end.

Definition jaeger_log_record_to_protobuf_wrapper (_ : Jaeger__Model__Log)
    (src : jaeger_log_record) : M (bool * Jaeger__Model__Log) :=
  jaeger_log_record_to_protobuf src.
Definition jaeger_span_ref_to_protobuf_wrapper (_ : Jaeger__Model__SpanRef)
    (src : jaeger_span_ref) : M (bool * Jaeger__Model__SpanRef) :=
  jaeger_span_ref_to_protobuf JAEGER__MODEL__SPAN_REF__INIT src.

(** The members filled in while both mutexes are held: [false] is a jump to
    [cleanup]. *)
Definition to_protobuf_locked (dst : Jaeger__Model__Span) (src : jaeger_span)
    : M (bool * Jaeger__Model__Span) :=
  tid ← jaeger_trace_id_to_protobuf (pbs_trace_id dst) (trace_id (context src));
  let sid := BinaryData 8 (Some (le_bytes 8 (span_id (context src)))) in
  name ← (match operation_name src with
          | None => fail NullDeref
          | Some name => jaeger_strdup name
          end);
  let dst := PbSpan tid sid name (pbs_references dst) (pbs_n_references dst)
               (pbs_logs dst) (pbs_n_logs dst) (pbs_tags dst) (pbs_n_tags dst) in
  if bool_decide (name = None) then ret (false, dst)
  else
    r ← jaeger_vector_protobuf_copy jaeger_tag_copy_wrapper (tags src);
    match r with
    | None => ret (false, dst)
    | Some (tg, n_tg) =>
        let dst := PbSpan tid sid name (pbs_references dst) (pbs_n_references dst)
                     (pbs_logs dst) (pbs_n_logs dst) tg n_tg in
        r ← jaeger_vector_protobuf_copy jaeger_log_record_to_protobuf_wrapper (logs src);
        match r with
        | None => ret (false, dst)
        | Some (lg, n_lg) =>
            let dst := PbSpan tid sid name (pbs_references dst) (pbs_n_references dst)
                         lg n_lg tg n_tg in
            r ← jaeger_vector_protobuf_copy jaeger_span_ref_to_protobuf_wrapper (refs src);
            match r with
            | None => ret (false, dst)
            | Some (rf, n_rf) => ret (true, PbSpan tid sid name rf n_rf lg n_lg tg n_tg)
            end
        end
    end.

(** The [cleanup] label: it unlocks, whether the mutexes were locked or not. *)
Definition to_protobuf_cleanup (dst : Jaeger__Model__Span) (src : jaeger_span)
    : M (bool * Jaeger__Model__Span * jaeger_span) :=
  src ← unlock_span src;
  _ ← jaeger_span_protobuf_destroy (Some dst);
  ret (false, JAEGER__MODEL__SPAN__INIT, src).

Definition jaeger_span_to_protobuf (src : jaeger_span)
    : M (bool * Jaeger__Model__Span * jaeger_span) :=
  let init := JAEGER__MODEL__SPAN__INIT in
  let with_ids tid sid := PbSpan tid sid (pbs_operation_name init) (pbs_references init)
    (pbs_n_references init) (pbs_logs init) (pbs_n_logs init) (pbs_tags init)
    (pbs_n_tags init) in
  granted ← jaeger_malloc;
  if negb granted then to_protobuf_cleanup (with_ids (BinaryData 16 None) (pbs_span_id init)) src
  else
    let tid := BinaryData 16 (Some (replicate 16 0)) in
    granted ← jaeger_malloc;
    if negb granted then to_protobuf_cleanup (with_ids tid (BinaryData 8 None)) src
    else
      src ← lock_span src;
      ' (ok, dst) ← to_protobuf_locked
                      (with_ids tid (BinaryData 8 (Some (replicate 8 0)))) src;
      if (ok : bool) then src ← unlock_span src; ret (true, dst, src)
      else to_protobuf_cleanup dst src.
End Messages.

(** ** Lemmas *)

(** A span between two calls: baggage [m], unlocked mutexes, flags of a byte,
    vectors of the right element sizes. *)
Record span_ok {env : Env} {pb : Protobuf} (s : jaeger_span) (m : gmap cstr cstr) : Prop := {
  span_unlocked : span_mutex s = false;
  span_context_ok : context_ok (context s) m;
  span_flags : 0 <= flags (context s) < 256;
  span_tags : vector_wf (tags s) /\ type_size (tags s) = sizeof_tag;
  span_logs : vector_wf (logs s) /\ type_size (logs s) = sizeof_log_record;
  span_refs : vector_wf (refs s) /\ type_size (refs s) = sizeof_span_ref;
}.

(** [n] more elements overflow no [int]. *)
Definition roomy_for {A} (v : jaeger_vector A) (n : Z) : Prop :=
  2048 * (Z.max (capacity v) (2 * (len v + n)) + 1) <= INT_MAX.
Abbreviation roomy v := (roomy_for v 1).

(** [v] is [v0] after at most one element more, its storage at most doubled. *)
Definition grown {A} (v0 v : jaeger_vector A) : Prop :=
  len v <= len v0 + 1 /\ capacity v <= Z.max (capacity v0) (2 * (len v0 + 1)).

Definition log_value (r : jaeger_log_record) : jaeger_timestamp * list (option cstr * payload) :=
  (timestamp r, map tag_value (contents (fields r))).

Definition ot_log_value {pb : Protobuf} (r : opentracing_log_record)
    : jaeger_timestamp * list (option cstr * payload) :=
  (ot_timestamp r, omap field_value (ot_fields r)).

Definition ot_log_ok {pb : Protobuf} (r : opentracing_log_record) : Prop :=
  Forall field_ok (ot_fields r) /\ 2048 * Z.max (lenZ (ot_fields r)) 10 <= INT_MAX.

(** What a value of the tag [sampling.priority] says: sample, or do not. *)
Definition priority_of (v : opentracing_value) : option bool :=
  match v with
  | ot_int64 z | ot_uint64 z => Some (negb (z =? 0))
  | _ => None
  end.

(** The sampling flags after [jaeger_span_set_tag], and whether it goes on to
    record the tag. *)
Definition flags_after (k : cstr) (v : opentracing_value) (f : Z) : Z :=
  if decide (k = JAEGERTRACINGC_SAMPLING_PRIORITY) then
    match priority_of v with
    | Some true => Z.lor f 3
    | Some false => Z.land f 254
    | None => f
    end
  else f.

Definition records_tag (k : cstr) (v : opentracing_value) (f : Z) : bool :=
  if decide (k = JAEGERTRACINGC_SAMPLING_PRIORITY)
  then bool_decide (priority_of v = Some true) else Z.testbit f 0.

Section Facts.
Context {env : Env} {pb : Protobuf}.
Implicit Types (w : world).

Lemma roomy_fits {A} (v : jaeger_vector A) :
  0 < type_size v <= 1024 -> 0 < capacity v -> roomy v -> fits v (capacity v + 1).
Proof. unfold roomy_for, fits. nia. Qed.

Lemma sampled_testbit s : jaeger_span_is_sampled_no_locking s = Z.testbit (flags (context s)) 0.
Proof.
  unfold jaeger_span_is_sampled_no_locking, jaeger_sampling_flag_sampled.
  destruct (Z.testbit (flags (context s)) 0) eqn:E; [apply negb_true_iff|apply negb_false_iff].
  - apply Z.eqb_neq. intros H. apply (f_equal (fun z => Z.testbit z 0)) in H.
    rewrite Z.land_spec, E in H. done.
  - apply Z.eqb_eq, Z.bits_inj'. intros n Hn. rewrite Z.land_spec, Z.bits_0.
    destruct (decide (n = 0)) as [->|]; [by rewrite E|].
    rewrite (Z.bits_above_log2 1) by (cbn; lia). apply andb_false_r.
Qed.

Lemma lock_span_wp s Q w :
  span_mutex s = false -> ctx_mutex (context s) = false ->
  Q (set_context (set_mutex s true) (set_ctx_mutex (context s) true)) w ->
  wp (lock_span s) Q w.
Proof.
  intros Hm Hc HQ. unfold lock_span. rewrite Hm, Hc.
  by apply wp_bind, jaeger_lock_wp, wp_ret.
Qed.

Lemma unlock_span_wp s Q w :
  span_mutex s = true -> ctx_mutex (context s) = true ->
  Q (set_context (set_mutex s false) (set_ctx_mutex (context s) false)) w ->
  wp (unlock_span s) Q w.
Proof.
  intros Hm Hc HQ. unfold unlock_span. rewrite Hm, Hc.
  by apply wp_bind, mutex_unlock_wp, wp_bind, mutex_unlock_wp, wp_ret.
Qed.

(** An element appended and assigned; [false] takes it off again. *)
Lemma append_store_contents {A} (v v1 v2 : jaeger_vector A) slot a :
  vector_wf v -> vector_wf v2 -> len v1 = len v + 1 -> len v2 = len v1 ->
  contents v1 = contents v ++ [slot] ->
  contents v2 = <[Z.to_nat (len v) := a]> (contents v1) ->
  contents v2 = contents v ++ [a] /\
  contents (set_len v2 (len v2 - 1)) = contents v /\
  vector_wf (set_len v2 (len v2 - 1)).
Proof.
  intros Hwf Hwf2 El1 El2 E1 E2. pose proof (length_contents _ Hwf). pose proof (wf_len _ Hwf).
  assert (contents v2 = contents v ++ [a]) as Hc.
  { rewrite E2, E1, insert_app_r_alt by lia. by replace (_ - _)%nat with 0%nat by lia. }
  split; [done|]. split; [|apply set_len_wf; [done|lia]].
  rewrite contents_set_len, Hc by lia. rewrite take_app_le, take_ge by lia. done.
Qed.

Lemma omap_one {A B} (f : A -> option B) a :
  omap f [a] = match f a with Some b => [b] | None => [] end.
Proof. done. Qed.

Lemma span_set_tag_no_locking_wp s k value Q w :
  vector_wf (tags s) -> type_size (tags s) = sizeof_tag -> roomy (tags s) ->
  field_ok (Some k, value) ->
  (forall v w', alloc_only w w' -> vector_wf v -> type_size v = sizeof_tag ->
     grown (tags s) v ->
     (plenty w -> map tag_value (contents v)
                  = map tag_value (contents (tags s)) ++ omap field_value [(Some k, value)]) ->
     Q (set_tags s v) w') ->
  wp (jaeger_span_set_tag_no_locking s k value) Q w.
Proof.
  intros Hwf Hts Hroom Hf HQ. unfold jaeger_span_set_tag_no_locking. apply wp_bind.
  pose proof sizeof_tag_range.
  apply append_bounded_wp; [done|apply roomy_fits; [lia|apply Hwf|done]| |].
  { intros w1 Hw1 Hno. apply wp_ret, HQ; try done. unfold grown. lia. }
  intros v1 slot w1 Hw1 Hwf1 El1 Et1 Hcap1 Ec1. cbn beta iota.
  pose proof (length_contents _ Hwf). pose proof (wf_len _ Hwf).
  apply wp_bind. eapply load_wp; [done|lia| |].
  { rewrite Ec1, lookup_app_r by lia. by replace (_ - _)%nat with 0%nat by lia. }
  apply wp_bind, (from_key_value_wp slot (Some k, value)); [done|..].
  - intros tag w2 Hw2 Hv. apply wp_bind, store_wp; [done|lia|].
    intros v2 Hwf2 El2 Ecap2 Et2 Ec2. cbn [negb].
    destruct (append_store_contents _ _ _ _ _ Hwf Hwf2 El1 El2 Ec1 Ec2) as (Ec & _ & _).
    apply wp_ret, HQ; [by etrans|done|lia|split; lia|]. intros _. by rewrite Ec, map_app, omap_one, Hv.
  - intros tag w2 Hw2 Hv. apply wp_bind, store_wp; [done|lia|].
    intros v2 Hwf2 El2 Ecap2 Et2 Ec2. cbn [negb].
    destruct (append_store_contents _ _ _ _ _ Hwf Hwf2 El1 El2 Ec1 Ec2) as (_ & Ec & Hwf3).
    apply wp_ret, HQ; [by etrans|done|cbn; lia|split; cbn; lia|]. intros Hpl.
    rewrite Ec, omap_one, Hv by eauto with jaeger. by rewrite app_nil_r.
Qed.

Lemma span_log_no_locking_wp s r Q w :
  vector_wf (logs s) -> type_size (logs s) = sizeof_log_record -> roomy (logs s) ->
  ot_log_ok r ->
  (forall v w', progress w w' -> vector_wf v ->
     type_size v = sizeof_log_record -> capacity v <= Z.max (capacity (logs s)) (2 * (len (logs s) + 1)) ->
     len v <= len (logs s) + 1 ->
     (plenty w -> map log_value (contents v)
                  = map log_value (contents (logs s)) ++ [ot_log_value r]) ->
     Q (set_logs s v) w') ->
  wp (jaeger_span_log_no_locking s r) Q w.
Proof.
  intros Hwf Hts Hroom [Hf Hfit] HQ. unfold jaeger_span_log_no_locking. apply wp_bind.
  pose proof sizeof_log_record_range. pose proof (wf_capacity _ Hwf).
  apply append_bounded_wp; [done|apply roomy_fits; [lia|apply Hwf|done]| |].
  { intros w1 Ha Hno. apply wp_ret, HQ; [by apply alloc_progress|done|done|lia|lia|]. by intros. }
  intros v1 slot w1 Hw1 Hwf1 El1 Et1 Hcap1 Ec1. cbn beta iota. pose proof (alloc_progress _ _ Hw1) as Ha1.
  pose proof (wf_len _ Hwf).
  apply wp_bind, store_wp; [done|lia|]. intros v2 Hwf2 El2 Ecap2 Et2 Ec2.
  apply wp_bind, log_record_from_wp; [done|done|..].
  - intros r' w2 Ha2 _ Hr1 Hr2. apply wp_bind, store_wp; [done|lia|].
    intros v3 Hwf3 El3 Ecap3 Et3 Ec3. cbn [negb].
    destruct (append_store_contents (logs s) v1 v3 slot r' Hwf Hwf3) as (Ec & _ & _);
      [lia|lia|done|by rewrite Ec3, Ec2, list_insert_insert_eq|].
    apply wp_ret, HQ; [by etrans|done|lia|lia|lia|]. intros Hpl.
    rewrite Ec, map_app. cbn. unfold log_value, ot_log_value. rewrite Hr1, Hr2; [done|].
    by apply (plenty_alloc_only w).
  - intros r' w2 Ha2 Hno. apply wp_bind, store_wp; [done|lia|].
    intros v3 Hwf3 El3 Ecap3 Et3 Ec3. cbn [negb].
    destruct (append_store_contents (logs s) v1 v3 slot r' Hwf Hwf3) as (_ & Ec & Hwf4);
      [lia|lia|done|by rewrite Ec3, Ec2, list_insert_insert_eq|].
    apply wp_ret, HQ; [by etrans|done|cbn; lia|cbn; lia|cbn; lia|]. intros Hpl. destruct Hno.
    by apply (plenty_alloc_only w).
Qed.

(** *** Sampling flags *)

Lemma forall_byte (P : Z -> bool) n :
  0 <= n < 256 -> forallb P (seqZ 0 256) = true -> P n = true.
Proof.
  intros Hn HP. rewrite forallb_forall in HP. apply HP, list_elem_of_In, elem_of_seqZ. lia.
Qed.

Lemma sampled_flags f :
  0 <= f < 256 ->
  Z.lor (u8 (Z.lor f jaeger_sampling_flag_debug)) jaeger_sampling_flag_sampled = Z.lor f 3 /\
  u8 (Z.land f (u8 (Z.lnot jaeger_sampling_flag_sampled))) = Z.land f 254 /\
  0 <= Z.lor f 3 < 256 /\ 0 <= Z.land f 254 < 256 /\
  Z.testbit (Z.lor f 3) 0 = true /\ Z.testbit (Z.land f 254) 0 = false.
Proof.
  intros Hf. unfold jaeger_sampling_flag_debug, jaeger_sampling_flag_sampled.
  set (P f := (Z.lor (u8 (Z.lor f 2)) 1 =? Z.lor f 3) && (u8 (Z.land f (u8 (Z.lnot 1))) =? Z.land f 254)
    && (0 <=? Z.lor f 3) && (Z.lor f 3 <? 256) && (0 <=? Z.land f 254) && (Z.land f 254 <? 256)
    && Z.testbit (Z.lor f 3) 0 && negb (Z.testbit (Z.land f 254) 0)).
  assert (P f = true) as H by (apply (forall_byte P); [done|vm_compute; reflexivity]).
  unfold P in H.
  reflect_bools. auto 10.
Qed.

(** A span with its mutexes taken and released is the same span. *)
Lemma relocked s :
  span_mutex s = false -> ctx_mutex (context s) = false ->
  set_context (set_mutex (set_context (set_mutex s true) (set_ctx_mutex (context s) true)) false)
    (set_ctx_mutex (set_ctx_mutex (context s) true) false) = s.
Proof. destruct s as [? [] ? ? ? ? ? ? ? ?]. cbn. by intros -> ->. Qed.

Lemma unlocked_same s : span_mutex s = false -> set_mutex s false = s.
Proof. destruct s. cbn. by intros ->. Qed.

Lemma set_context_same s : set_context s (context s) = s.
Proof. by destruct s. Qed.

Lemma set_flags_same c : set_flags c (flags c) = c.
Proof. by destruct c. Qed.

Lemma sampling_priority_wp s m value Q w :
  span_ok s m ->
  Q (bool_decide (priority_of value = Some true),
     set_context s (set_flags (context s)
       (flags_after JAEGERTRACINGC_SAMPLING_PRIORITY value (flags (context s))))) w ->
  wp (jaeger_span_set_sampling_priority s value) Q w.
Proof.
  intros [Hm [_ _ _ _ Hc] Hf _ _ _] HQ. unfold flags_after in HQ.
  rewrite decide_True in HQ by done.
  destruct (sampled_flags _ Hf) as (E1 & E2 & _).
  assert (number : forall z, priority_of value = Some (negb (z =? 0)) ->
    wp (s ← lock_span s;
        let ctx := context s in
        let success := negb (z =? 0) in
        let fl := if success then
            Z.lor (u8 (Z.lor (flags ctx) jaeger_sampling_flag_debug)) jaeger_sampling_flag_sampled
          else u8 (Z.land (flags ctx) (u8 (Z.lnot jaeger_sampling_flag_sampled))) in
        s ← unlock_span (set_context s (set_flags ctx fl));
        ret (success, s)) Q w).
  { intros z Hz. rewrite Hz in HQ. apply wp_bind, lock_span_wp; [done|done|]. cbv zeta.
    apply wp_bind, unlock_span_wp; [done|done|]. apply wp_ret. cbn [context set_context flags
      set_ctx_mutex]. rewrite E1, E2.
    destruct (z =? 0); cbn [negb] in *.
    - rewrite (bool_decide_eq_false_2 (Some false = Some true)) in HQ by done.
      replace (set_context _ _) with (set_context s (set_flags (context s)
        (Z.land (flags (context s)) 254))); [done|].
      destruct s as [? [] ? ? ? ? ? ? ? ?]. cbn in *. by subst.
    - rewrite (bool_decide_eq_true_2 (Some true = Some true)) in HQ by done.
      replace (set_context _ _) with (set_context s (set_flags (context s)
        (Z.lor (flags (context s)) 3))); [done|].
      destruct s as [? [] ? ? ? ? ? ? ? ?]. cbn in *. by subst. }
  destruct value as [|b|z|z|d|str|]; cbn [jaeger_span_set_sampling_priority];
    try (by apply number);
    (apply wp_ret; cbn [priority_of] in HQ; rewrite bool_decide_eq_false_2 in HQ by done;
     by rewrite set_flags_same, set_context_same in HQ).
Qed.

Lemma set_tag_locked_wp s k value Q w :
  span_mutex s = false -> vector_wf (tags s) -> type_size (tags s) = sizeof_tag ->
  roomy (tags s) -> field_ok (Some k, value) ->
  (forall v w', alloc_only w w' -> vector_wf v -> type_size v = sizeof_tag ->
     grown (tags s) v ->
     (plenty w -> map tag_value (contents v) = map tag_value (contents (tags s)) ++
        (if Z.testbit (flags (context s)) 0 then omap field_value [(Some k, value)] else [])) ->
     Q (set_tags s v) w') ->
  wp (set_tag_locked s k value) Q w.
Proof.
  intros Hm Hwf Hts Hroom Hf HQ. unfold set_tag_locked. rewrite Hm.
  apply wp_bind, mutex_lock_wp. cbv zeta. apply wp_bind. rewrite sampled_testbit.
  change (flags (context (set_mutex s true))) with (flags (context s)).
  destruct (Z.testbit (flags (context s)) 0).
  - apply span_set_tag_no_locking_wp; [done..|]. intros v w1 Hw1 Hwf1 Ht1 Hg Hv.
    apply wp_bind, mutex_unlock_wp, wp_ret.
    replace (set_mutex _ _) with (set_tags s v); [by apply HQ|].
    destruct s. cbn in *. by subst.
  - apply wp_ret, wp_bind, mutex_unlock_wp, wp_ret.
    replace (set_mutex _ _) with (set_tags s (tags s)); [|destruct s; cbn in *; by subst].
    apply HQ; [done..|unfold grown; lia|]. intros _. by rewrite app_nil_r.
Qed.

Lemma span_set_tag_wp s m k value Q w :
  span_ok s m -> roomy (tags s) -> field_ok (Some k, value) ->
  (forall v w', alloc_only w w' -> vector_wf v -> type_size v = sizeof_tag ->
     (plenty w -> map tag_value (contents v) = map tag_value (contents (tags s)) ++
        (if records_tag k value (flags (context s))
         then omap field_value [(Some k, value)] else [])) ->
     Q (set_tags (set_context s (set_flags (context s)
          (flags_after k value (flags (context s))))) v) w') ->
  wp (jaeger_span_set_tag s k value) Q w.
Proof.
  intros Hok Hroom Hf HQ. pose proof Hok as [Hm _ Hfl [Hwf Hts] _ _].
  destruct (sampled_flags _ Hfl) as (_ & _ & _ & _ & Hb & _).
  unfold jaeger_span_set_tag, records_tag in *.
  destruct (Z.eqb_spec (strcmp k JAEGERTRACINGC_SAMPLING_PRIORITY) 0) as [E|E];
    rewrite strcmp_eq in E.
  - subst k. rewrite decide_True in HQ by done. apply wp_bind, (sampling_priority_wp s m); [done|].
    set (f := flags_after _ _ _) in *.
    destruct (bool_decide_reflect (priority_of value = Some true)) as [Hp|Hp]; cbn [negb].
    + apply set_tag_locked_wp; [done..|]. intros v w1 Hw1 Hwf1 Ht1 _ Hv.
      apply HQ; [done..|]. intros Hpl. rewrite (Hv Hpl). cbn [context set_context flags set_flags].
      replace (Z.testbit f 0) with true; [done|]. subst f. unfold flags_after.
      by rewrite decide_True, Hp by done.
    + apply wp_ret. replace (set_context s _) with (set_tags (set_context s (set_flags (context s) f))
        (tags s)); [|by destruct s]. apply HQ; [done..|]. intros _. by rewrite app_nil_r.
  - unfold flags_after in HQ. rewrite !decide_False in HQ by done.
    rewrite set_flags_same, set_context_same in HQ. apply set_tag_locked_wp; [done..|].
    intros v w1 Hw1 Hwf1 Ht1 _. by apply HQ.
Qed.

(** *** Finishing *)

Lemma log_records_loop_wp rs s Q w :
  vector_wf (logs s) -> type_size (logs s) = sizeof_log_record ->
  roomy_for (logs s) (lenZ rs) -> Forall ot_log_ok rs ->
  (forall v w', progress w w' -> vector_wf v ->
     (plenty w -> map log_value (contents v)
                  = map log_value (contents (logs s)) ++ map ot_log_value rs) ->
     Q (set_logs s v) w') ->
  wp (log_records_loop (length rs) rs s) Q w.
Proof.
  intros Hwf Hts Hroom Hrs. revert s w Hwf Hts Hroom.
  induction Hrs as [|r rs Hr _ IH]; intros s w Hwf Hts Hroom HQ; cbn [length log_records_loop].
  { replace s with (set_logs s (logs s)) by (by destruct s).
    apply wp_ret, HQ; [done|done|]. intros _. by rewrite app_nil_r. }
  unfold roomy_for in Hroom. cbn [length] in Hroom.
  apply wp_bind, span_log_no_locking_wp; [done|done|unfold roomy_for; lia|done|].
  intros v w1 Ha1 Hwf1 Hts1 Hcap1 Hl1 Hv. apply IH; [done|done| |].
  - unfold roomy_for. cbn [logs set_logs]. lia.
  - intros v2 w2 Ha2 Hwf2 Hv2. cbn [logs set_logs] in Hv2.
    change (set_logs (set_logs s v) v2) with (set_logs s v2).
    apply HQ; [by etrans|done|]. intros Hp. rewrite Hv2, Hv; [|done|].
    + by rewrite <- app_assoc.
    + by eapply plenty_progress.
Qed.

(** The time a span is finished at. *)
Definition finish_at (options : opentracing_finish_span_options) w : jaeger_duration :=
  if (tv_sec (finish_time options) =? 0) && (tv_nsec (finish_time options) =? 0)
  then clock_monotonic (w_mono w) else finish_time options.

Lemma finish_locked_wp s options Q w :
  span_mutex s = false -> vector_wf (logs s) -> type_size (logs s) = sizeof_log_record ->
  num_log_records options = lenZ (default [] (log_records options)) ->
  roomy_for (logs s) (num_log_records options) ->
  Forall ot_log_ok (default [] (log_records options)) ->
  normalised (start_time_steady s) -> normalised (finish_at options w) ->
  nanoseconds (start_time_steady s) <= nanoseconds (finish_at options w) ->
  (Z.testbit (flags (context s)) 0 = false -> Q s w) ->
  (forall d v w', nanoseconds d = nanoseconds (finish_at options w)
                                  - nanoseconds (start_time_steady s) ->
     vector_wf v ->
     (plenty w -> map log_value (contents v) = map log_value (contents (logs s))
        ++ map ot_log_value (default [] (log_records options))) ->
     Z.testbit (flags (context s)) 0 = true ->
     Q (set_logs (set_times s (start_time_system s) (start_time_steady s) d) v) w') ->
  wp (finish_locked s options) Q w.
Proof.
  intros Hm Hwf Hts Hnum Hroom Hlogs Hn1 Hn2 Hle HF HT. unfold finish_locked. rewrite Hm.
  apply wp_bind, mutex_lock_wp. cbv zeta. apply wp_bind. rewrite sampled_testbit.
  change (flags (context (set_mutex s true))) with (flags (context s)).
  destruct (Z.testbit (flags (context s)) 0).
  2: { apply wp_ret, wp_bind, mutex_unlock_wp, wp_ret.
       change (set_mutex (set_mutex s true) false) with (set_mutex s false).
       rewrite unlocked_same by done. by apply HF. }
  assert (wp (if (tv_sec (finish_time options) =? 0) && (tv_nsec (finish_time options) =? 0)
              then jaeger_duration_now else ret (finish_time options))
    (fun f w' => f = finish_at options w /\ progress w w') w) as Htime
    by (unfold finish_at; destruct (_ && _); repeat split; cbn; lia).
  unfold finish_sampled. apply wp_bind. eapply wp_mono; [exact Htime|].
  intros f w1 [-> Ha1]. apply wp_bind, time_subtract_wp; [done|done|]. intros d Hd _.
  apply wp_bind, wp_assert; [by apply Z.leb_le|].
  apply wp_bind, wp_assert.
  { destruct (log_records options); [by rewrite orb_true_r|]. by rewrite Hnum. }
  rewrite Hnum, Nat2Z.id. apply log_records_loop_wp; [done|done|by rewrite <- Hnum|done|].
  intros v w2 Ha2 Hwf2 Hv. apply wp_bind, mutex_unlock_wp, wp_ret.
  replace (set_mutex _ false)
    with (set_logs (set_times s (start_time_system s) (start_time_steady s) d) v).
  2: { destruct s. cbn in *. by subst. }
  apply HT; [done|done| |done]. intros Hp. apply Hv. by eapply plenty_progress.
Qed.

(** *** Baggage *)

Lemma set_baggage_item_wp s m k v Q w :
  plenty w -> span_ok s m -> short k -> short v -> ht_size (baggage (context s)) < 2 ^ 31 - 2 ->
  (forall h w', alloc_only w w' -> span_ok (set_context s (set_baggage (context s) h))
       (<[k := v]> m) -> Q (set_context s (set_baggage (context s) h)) w') ->
  wp (jaeger_span_set_baggage_item s k v) Q w.
Proof.
  intros Hp [Hm [Hr Hc Hs Hz Hcm] Hf Ht Hl Hrf] Hk Hv Hsz HQ.
  unfold jaeger_span_set_baggage_item. apply wp_bind, lock_span_wp; [done|done|].
  apply wp_bind, (put_wp _ m); [done|done|done|cbn; lia|by intros|].
  intros h w1 Hw1 Hr1 Hs1. cbn beta iota. apply unlock_span_wp; [done|done|].
  replace (set_context (set_mutex _ _) _) with (set_context s (set_baggage (context s) h)).
  2: { destruct s as [? [] ? ? ? ? ? ? ? ?]. cbn in *. by subst. }
  apply HQ; [done|]. cbn [context set_context set_ctx_mutex baggage] in Hs1.
  split; try done. split; cbn [context set_context set_baggage baggage ctx_mutex]; try done.
  - by eapply counted_insert.
  - intros k' v'. destruct (decide (k' = k)) as [->|].
    + rewrite lookup_insert_eq. by intros [= <-].
    + rewrite lookup_insert_ne by done. apply Hs.
  - rewrite Hs1. unfold size_after. destruct (m !! k); cbn; lia.
Qed.

Lemma baggage_item_wp s m k Q w :
  span_ok s m -> Q (m !! k, s) w -> wp (jaeger_span_baggage_item s k) Q w.
Proof.
  intros [Hm [Hr _ _ _ Hcm] _ _ _ _] HQ. unfold jaeger_span_baggage_item.
  apply wp_bind, lock_span_wp; [done|done|]. apply wp_bind, (find_wp _ m); [done|].
  apply wp_bind, unlock_span_wp; [done|done|].
  cbn [context set_context]. rewrite relocked by done. by destruct (m !! k); apply wp_ret.
Qed.

(** *** Copies and messages *)

Definition ref_ok (r : jaeger_span_ref) : Prop := exists m, context_ok (ref_context r) m.

(** The same reference: its type, and its context but for the debug id. *)
Definition same_ref (r r' : jaeger_span_ref) : Prop :=
  ref_type r' = ref_type r /\ trace_id (ref_context r') = trace_id (ref_context r) /\
  span_id (ref_context r') = span_id (ref_context r) /\
  flags (ref_context r') = flags (ref_context r) /\
  exists m, context_ok (ref_context r) m /\ context_ok (ref_context r') m.

Definition log_ok (r : jaeger_log_record) : Prop :=
  vector_wf (fields r) /\ Forall copyable (contents (fields r)) /\
  2048 * Z.max (len (fields r)) 10 <= INT_MAX.

(** What can be copied: a name, and elements that can be copied, not too many
    for the buffers of the copy. *)
Record span_copyable (s : jaeger_span) (name : cstr) : Prop := {
  copy_name : operation_name s = Some name /\ short name;
  copy_tags : Forall copyable (contents (tags s)) /\ 2048 * Z.max (len (tags s)) 10 <= INT_MAX;
  copy_logs : Forall log_ok (contents (logs s)) /\ 2048 * Z.max (len (logs s)) 10 <= INT_MAX;
  copy_refs : Forall ref_ok (contents (refs s)) /\ 2048 * Z.max (len (refs s)) 10 <= INT_MAX;
}.

Lemma init_vectors_wp s Q w :
  plenty w ->
  (forall tg lg rf w', alloc_only w w' ->
     (vector_wf tg /\ type_size tg = sizeof_tag /\ len tg = 0 /\ capacity tg = 10) ->
     (vector_wf lg /\ type_size lg = sizeof_log_record /\ len lg = 0 /\ capacity lg = 10) ->
     (vector_wf rf /\ type_size rf = sizeof_span_ref /\ len rf = 0 /\ capacity rf = 10) ->
     Q (true, set_refs (set_logs (set_tags s tg) lg) rf) w') ->
  wp (jaeger_span_init_vectors s) Q w.
Proof.
  intros Hp HQ. unfold jaeger_span_init_vectors.
  pose proof sizeof_tag_range. pose proof sizeof_log_record_range.
  pose proof sizeof_span_ref_range.
  apply wp_bind, init_wp; [lia|unfold JAEGERTRACINGC_VECTOR_INIT_CAPACITY, INT_MAX; lia| |by intros].
  intros tg w1 Hw1 Hwf1 _ Hl1 Hc1 Ht1. cbn [negb].
  apply wp_bind, init_wp; [lia|unfold JAEGERTRACINGC_VECTOR_INIT_CAPACITY, INT_MAX; lia| |].
  2: { intros w2 _ []. by apply (plenty_alloc_only w). }
  intros lg w2 Hw2 Hwf2 _ Hl2 Hc2 Ht2. cbn [negb].
  apply wp_bind, init_wp; [lia|unfold JAEGERTRACINGC_VECTOR_INIT_CAPACITY, INT_MAX; lia| |].
  2: { intros w3 _ []. apply (plenty_alloc_only w1); [done|]. by apply (plenty_alloc_only w). }
  intros rf w3 Hw3 Hwf3 _ Hl3 Hc3 Ht3. cbn [negb]. apply wp_ret, HQ; [by do 2 etrans|done..].
Qed.

(** One vector of the copy, in a world with memory. *)
Lemma span_vector_copy_wp {A B} {zA : ZeroBytes A} {zB : ZeroBytes B}
    (copy : A -> B -> M (bool * A)) (Pre : B -> Prop) (P : B -> A -> Prop)
    (vec : jaeger_vector A) (src : jaeger_vector B) Q w :
  (forall old b w', plenty w' -> Pre b ->
     wp (copy old b) (fun r w2 => same_allocator w' w2 /\ r.1 = true /\ P b r.2) w') ->
  plenty w -> vector_wf vec -> len vec = 0 -> capacity vec = 10 -> 0 < type_size vec <= 1024 ->
  vector_wf src -> Forall Pre (contents src) -> 2048 * Z.max (len src) 10 <= INT_MAX ->
  (forall v w', same_allocator w w' -> vector_wf v -> type_size v = type_size vec ->
     Forall2 P (contents src) (contents v) -> Q (true, v) w') ->
  wp (jaeger_vector_copy copy vec src) Q w.
Proof.
  intros Hcopy Hp Hwf Hl Hc Hts Hs HPre Hfit HQ.
  apply (vector_copy_wp copy Pre P same_allocator alloc_only_same_allocator
           plenty_same_allocator plenty plenty_same_allocator); try done.
  - intros old b w1 Hp1 Hb. eapply wp_mono; [by apply Hcopy|]. by intros r w2 (? & ? & ?).
  - unfold fits. rewrite Hc. nia.
  - intros ok v w1 Hw1 Hwf1 Ht1 Hok Hpl. rewrite Hpl by done. apply HQ; auto.
Qed.

Lemma span_ref_copy_ok (old r : jaeger_span_ref) w :
  plenty w -> ref_ok r ->
  wp (jaeger_span_ref_copy old r)
    (fun p w2 => same_allocator w w2 /\ p.1 = true /\ same_ref r p.2) w.
Proof.
  intros Hp [m Hr]. unfold jaeger_span_ref_copy. apply wp_bind, (context_copy_wp _ m); [done|done|].
  intros dst w1 Hw1 Hok Ht Hs Hf _. cbn [negb]. apply wp_ret.
  split; [by apply alloc_only_same_allocator|]. split; [done|].
  unfold same_ref. cbn. eauto 10.
Qed.

Lemma tag_copy_ok (old t : jaeger_tag) w :
  plenty w -> copyable t ->
  wp (jaeger_tag_copy_wrapper old t)
    (fun p w2 => same_allocator w w2 /\ p.1 = true /\ tag_value p.2 = tag_value t) w.
Proof.
  intros Hp Ht. apply tag_copy_wp; [done| |by intros]. intros dst w1 Hw1 Hv.
  split; [by apply alloc_only_same_allocator|done].
Qed.

Lemma log_copy_ok (old r : jaeger_log_record) w :
  plenty w -> log_ok r ->
  wp (jaeger_log_record_copy_wrapper old r)
    (fun p w2 => same_allocator w w2 /\ p.1 = true /\ log_value p.2 = log_value r) w.
Proof.
  intros Hp (Hwf & Hc & Hfit). apply log_record_copy_wp; [done..| |by intros].
  intros r' w1 Ha Ht Hv _. split; [by apply progress_same_allocator|]. split; [done|].
  unfold log_value. cbn. by rewrite Ht, Hv.
Qed.

Lemma Forall2_map_eq {A B C} (f : A -> C) (g : B -> C) l l' :
  Forall2 (fun a b => g b = f a) l l' -> map g l' = map f l.
Proof. induction 1; cbn; congruence. Qed.

(** The copy of [src] while its mutex is held. *)
Record span_copied (src dst : jaeger_span) (m : gmap cstr cstr) : Prop := {
  copied_context : context_ok (context dst) m /\ trace_id (context dst) = trace_id (context src) /\
    span_id (context dst) = span_id (context src) /\ flags (context dst) = flags (context src);
  copied_name : operation_name dst = operation_name src;
  copied_times : start_time_system dst = start_time_system src /\
    start_time_steady dst = start_time_steady src /\ duration dst = duration src;
  copied_tags : map tag_value (contents (tags dst)) = map tag_value (contents (tags src));
  copied_logs : map log_value (contents (logs dst)) = map log_value (contents (logs src));
  copied_refs : Forall2 same_ref (contents (refs src)) (contents (refs dst));
}.

Lemma copy_members_wp src m name tg lg rf Q w :
  plenty w -> span_ok src m -> span_copyable src name ->
  (vector_wf tg /\ type_size tg = sizeof_tag /\ len tg = 0 /\ capacity tg = 10) ->
  (vector_wf lg /\ type_size lg = sizeof_log_record /\ len lg = 0 /\ capacity lg = 10) ->
  (vector_wf rf /\ type_size rf = sizeof_span_ref /\ len rf = 0 /\ capacity rf = 10) ->
  (forall dst w', same_allocator w w' -> span_copied src dst m -> span_mutex dst = true ->
     (vector_wf (tags dst) /\ type_size (tags dst) = sizeof_tag) ->
     (vector_wf (logs dst) /\ type_size (logs dst) = sizeof_log_record) ->
     (vector_wf (refs dst) /\ type_size (refs dst) = sizeof_span_ref) -> Q (true, dst) w') ->
  wp (copy_members (set_mutex (set_refs (set_logs (set_tags JAEGERTRACINGC_SPAN_INIT tg) lg) rf)
        true) src) Q w.
Proof.
  intros Hp [Hm Hctx Hf [Ht1 Ht2] [Hl1 Hl2] [Hr1 Hr2]] [[Hn Hns] [Hct Hft] [Hcl Hfl] [Hcr Hfr]]
    (Htg & Htt & Ht0 & Htc) (Hlg & Hlt & Hl0 & Hlc) (Hrf & Hrt & Hr0 & Hrc) HQ.
  pose proof sizeof_tag_range. pose proof sizeof_log_record_range.
  pose proof sizeof_span_ref_range.
  unfold copy_members. rewrite Hn. apply wp_bind, wp_strdup; [done|by intros|].
  intros w1 Hw1. pose proof (plenty_alloc_only _ _ Hw1 Hp) as Hp1. apply wp_bind, (context_copy_wp _ m); [done|done|].
  intros ctx w2 Hw2 Hctx' Etid Esid Efl _. pose proof (plenty_alloc_only _ _ Hw2 Hp1) as Hp2.
  cbn [negb]. rewrite bool_decide_eq_false_2 by done.
  apply wp_bind, (span_vector_copy_wp _ copyable (fun t t' => tag_value t' = tag_value t));
    [apply tag_copy_ok|done|done|done|done|cbn; lia|done|done|done|].
  intros v1 w3 Hw3 Hv1 Hs1 HF1. pose proof (plenty_same_allocator _ _ Hw3 Hp2) as Hp3. cbn [negb].
  apply wp_bind, (span_vector_copy_wp _ log_ok (fun r r' => log_value r' = log_value r));
    [apply log_copy_ok|done|done|done|done|cbn; lia|done|done|done|].
  intros v2 w4 Hw4 Hv2 Hs2 HF2. pose proof (plenty_same_allocator _ _ Hw4 Hp3) as Hp4. cbn [negb].
  apply wp_bind, (span_vector_copy_wp _ ref_ok same_ref);
    [apply span_ref_copy_ok|done|done|done|done|cbn; lia|done|done|done|].
  intros v3 w5 Hw5 Hv3 Hs3 HF3. apply wp_ret, HQ; cbn in *; try (by split; [|congruence]); [|split; cbn|done].
  - etrans; [by apply alloc_only_same_allocator|]. etrans; [by apply alloc_only_same_allocator|].
    etrans; [done|]. by etrans.
  - done.
  - by rewrite Hn.
  - done.
  - by apply Forall2_map_eq.
  - by apply Forall2_map_eq.
  - done.
Qed.

(** A vector turned into an array of messages, in a world with memory. *)
Lemma span_vector_protobuf_wp {A B} {zA : ZeroBytes A} {zB : ZeroBytes B}
    (copy : A -> B -> M (bool * A)) (Pre : B -> Prop) (P : B -> A -> Prop)
    (src : jaeger_vector B) Q w :
  (forall old b w', plenty w' -> Pre b ->
     wp (copy old b) (fun r w2 => alloc_only w' w2 /\ r.1 = true /\ P b r.2) w') ->
  plenty w -> vector_wf src -> Forall Pre (contents src) -> 2048 * Z.max (len src) 10 <= INT_MAX ->
  (forall data n w', alloc_only w w' -> copied_list P (contents src) (data, n) ->
     Q (Some (data, n)) w') ->
  wp (jaeger_vector_protobuf_copy copy src) Q w.
Proof.
  intros Hcopy Hp Hs HPre Hfit HQ.
  apply (protobuf_copy_wp copy Pre P alloc_only (fun _ _ H => H)
           plenty_alloc_only plenty plenty_alloc_only); try done; [|lia|].
  - intros old b w1 Hp1 Hb. eapply wp_mono; [by apply Hcopy|]. by intros r w2 (? & ? & ?).
  - intros r w1 Hw1 Hpl Hcp. destruct (Hpl Hp) as (data & n & ->). apply HQ; auto.
Qed.

Definition trace_id_bytes (t : jaeger_trace_id) : ProtobufCBinaryData :=
  BinaryData 16 (Some (le_bytes 8 (high t) ++ le_bytes 8 (low t))).
Definition span_id_bytes (i : Z) : ProtobufCBinaryData := BinaryData 8 (Some (le_bytes 8 i)).

Definition same_tag (t t' : jaeger_tag) : Prop := tag_value t' = tag_value t.

(** What a message says of a log record, a reference, a span. *)
Definition log_message (r : jaeger_log_record) (msg : Jaeger__Model__Log) : Prop :=
  pb_timestamp msg = Some (tv_sec (timestamp r), to_signed 32 (tv_nsec (timestamp r))) /\
  copied_list same_tag (contents (fields r)) (pb_fields msg, pb_n_fields msg).

Definition ref_message (r : jaeger_span_ref) (msg : Jaeger__Model__SpanRef) : Prop :=
  msg = PbSpanRef (trace_id_bytes (trace_id (ref_context r)))
          (span_id_bytes (span_id (ref_context r))) (ref_type r).

Record span_message (s : jaeger_span) (msg : Jaeger__Model__Span) : Prop := {
  message_trace_id : pbs_trace_id msg = trace_id_bytes (trace_id (context s));
  message_span_id : pbs_span_id msg = span_id_bytes (span_id (context s));
  message_name : pbs_operation_name msg = operation_name s;
  message_tags : copied_list same_tag (contents (tags s)) (pbs_tags msg, pbs_n_tags msg);
  message_logs : copied_list log_message (contents (logs s)) (pbs_logs msg, pbs_n_logs msg);
  message_refs :
    copied_list ref_message (contents (refs s)) (pbs_references msg, pbs_n_references msg);
}.

Lemma trace_id_to_protobuf_wp bytes t Q w :
  length bytes = 16%nat -> Q (trace_id_bytes t) w ->
  wp (jaeger_trace_id_to_protobuf (BinaryData 16 (Some bytes)) t) Q w.
Proof.
  intros Hl HQ. unfold jaeger_trace_id_to_protobuf. do 4 wp_step. cbn [pb_data]. rewrite Hl.
  cbn [Z.of_nat Pos.of_succ_nat Pos.succ Z.ltb Z.compare Pos.compare Pos.compare_cont].
  apply wp_ret. rewrite drop_ge, app_nil_r by lia. done.
Qed.

Context {msgs : SpanMessages}.

Lemma tag_message_ok (old t : jaeger_tag) w :
  plenty w -> copyable t ->
  wp (jaeger_tag_copy_wrapper old t)
    (fun p w2 => alloc_only w w2 /\ p.1 = true /\ same_tag t p.2) w.
Proof. intros Hp Ht. apply tag_copy_wp; [done| |by intros]. by intros dst w1 Hw1 Hv. Qed.

Lemma log_message_ok (old : Jaeger__Model__Log) r w :
  plenty w -> log_ok r ->
  wp (jaeger_log_record_to_protobuf_wrapper old r)
    (fun p w2 => alloc_only w w2 /\ p.1 = true /\ log_message r p.2) w.
Proof.
  intros Hp (Hwf & Hc & Hfit). apply log_record_to_protobuf_wp; [done|done|lia| |by intros].
  intros msg w1 Hw1 Ht Hcp. by split.
Qed.

Lemma ref_message_ok (old : Jaeger__Model__SpanRef) r w :
  plenty w -> ref_ok r ->
  wp (jaeger_span_ref_to_protobuf_wrapper old r)
    (fun p w2 => alloc_only w w2 /\ p.1 = true /\ ref_message r p.2) w.
Proof.
  intros Hp [m Hr]. unfold jaeger_span_ref_to_protobuf_wrapper, jaeger_span_ref_to_protobuf.
  do 2 wp_step. rewrite Hplenty by done. cbn [negb]. do 2 wp_step.
  rewrite Hplenty0 by (by apply (plenty_alloc_only w)). cbn [negb].
  rewrite (ctx_unlocked _ _ Hr). apply wp_bind, mutex_lock_wp, wp_bind.
  apply trace_id_to_protobuf_wp; [done|]. apply wp_bind, mutex_unlock_wp, wp_ret.
  split; [by etrans|]. done.
Qed.

Lemma to_protobuf_locked_wp src name dst Q w :
  plenty w -> span_copyable src name ->
  vector_wf (tags src) -> vector_wf (logs src) -> vector_wf (refs src) ->
  pbs_trace_id dst = BinaryData 16 (Some (replicate 16 0)) ->
  (forall msg w', alloc_only w w' -> span_message src msg -> Q (true, msg) w') ->
  wp (to_protobuf_locked dst src) Q w.
Proof.
  intros Hp [[Hn Hns] [Hct Hft] [Hcl Hfl] [Hcr Hfr]] Ht Hl Hr Hid HQ.
  unfold to_protobuf_locked. rewrite Hid. apply wp_bind, trace_id_to_protobuf_wp; [done|].
  rewrite Hn. apply wp_bind, wp_strdup; [done|by intros|]. intros w1 Hw1.
  pose proof (plenty_alloc_only _ _ Hw1 Hp) as Hp1. rewrite bool_decide_eq_false_2 by done.
  apply wp_bind, (span_vector_protobuf_wp _ copyable same_tag); [apply tag_message_ok|done..|].
  intros tg ntg w2 Hw2 Htg. pose proof (plenty_alloc_only _ _ Hw2 Hp1) as Hp2.
  apply wp_bind, (span_vector_protobuf_wp _ log_ok log_message); [apply log_message_ok|done..|].
  intros lg nlg w3 Hw3 Hlg. pose proof (plenty_alloc_only _ _ Hw3 Hp2) as Hp3.
  apply wp_bind, (span_vector_protobuf_wp _ ref_ok ref_message); [apply ref_message_ok|done..|].
  intros rf nrf w4 Hw4 Hrf. apply wp_ret, HQ; [|by split].
  etrans; [done|]. etrans; [done|]. by etrans.
Qed.

Lemma span_copy_wp src m name Q w :
  plenty w -> span_ok src m -> span_copyable src name ->
  (forall dst w', same_allocator w w' -> span_ok dst m -> span_copied src dst m ->
     Q (true, dst, src) w') ->
  wp (jaeger_span_copy src) Q w.
Proof.
  intros Hp Hok Hc HQ. pose proof (span_unlocked _ _ Hok) as Hm.
  unfold jaeger_span_copy. apply wp_bind, init_vectors_wp; [done|].
  intros tg lg rf w1 Hw1 Htg Hlg Hrf. cbn [negb]. rewrite Hm. apply wp_bind, jaeger_lock_wp.
  apply wp_bind, (copy_members_wp src m name); [by apply (plenty_alloc_only w)|done..|].
  intros dst w2 Hw2 Hcp Hdm Ht Hl Hr. cbn beta iota. rewrite Hdm.
  apply wp_bind, mutex_unlock_wp, wp_bind, mutex_unlock_wp, wp_ret.
  pose proof Hcp as [(Hctx & _ & _ & Efl) _ _ _ _ _]. rewrite (unlocked_same src) by done.
  apply HQ; [etrans; [by apply alloc_only_same_allocator|done]| |].
  - split; try done. cbn. rewrite Efl. apply (span_flags _ _ Hok).
  - destruct Hcp. by split.
Qed.

Lemma span_to_protobuf_wp src m name Q w :
  plenty w -> span_ok src m -> span_copyable src name ->
  (forall msg w', alloc_only w w' -> span_message src msg -> Q (true, msg, src) w') ->
  wp (jaeger_span_to_protobuf src) Q w.
Proof.
  intros Hp [Hm Hctx Hf [Ht _] [Hl _] [Hr _]] Hc HQ.
  unfold jaeger_span_to_protobuf. cbv zeta. do 2 wp_step. rewrite Hplenty by done. cbn [negb].
  do 2 wp_step. rewrite Hplenty0 by (by apply (plenty_alloc_only w)). cbn [negb].
  apply wp_bind, lock_span_wp; [done|apply Hctx|].
  apply wp_bind, (to_protobuf_locked_wp _ name).
  - apply (plenty_alloc_only w'); [done|]. by apply (plenty_alloc_only w).
  - by destruct Hc.
  - done.
  - done.
  - done.
  - done.
  - intros msg w2 Hw2 Hmsg. cbn beta iota. apply wp_bind, unlock_span_wp; [done|done|].
    apply wp_ret. cbn [context set_context]. rewrite relocked by (done || apply Hctx).
    apply HQ; [etrans; [exact Halloc|]; by etrans|]. by destruct Hmsg.
Qed.
End Facts.

(** ** Properties *)

(** C32: Setting a tag: the value of [sampling.priority] sets or clears the
    sampling flags first (and ends the call when it is not a non-zero
    integer); after that the tag is recorded if and only if the span is
    sampled. Nothing else of the span changes, and while memory lasts the
    recorded tag has the key and the value given: a null value is recorded as
    the value the generated initialiser of a tag holds, and a value of a type
    [opentracing_value] does not name is not recorded. *)
Theorem jaeger_span_set_tag_spec (env : Env) (pb : Protobuf) s m k value w :
  span_ok s m -> roomy (tags s) -> field_ok (Some k, value) ->
  exists v w',
    jaeger_span_set_tag s k value w
    = Ok (set_tags (set_context s (set_flags (context s)
            (flags_after k value (flags (context s))))) v) w' /\
    vector_wf v /\
    (plenty w -> map tag_value (contents v) = map tag_value (contents (tags s)) ++
       (if records_tag k value (flags (context s))
        then omap field_value [(Some k, value)] else [])).
Proof.
  intros Hok Hroom Hf.
  assert (wp (jaeger_span_set_tag s k value) (fun s' w' => exists v,
    s' = set_tags (set_context s (set_flags (context s)
            (flags_after k value (flags (context s))))) v /\ vector_wf v /\
    (plenty w -> map tag_value (contents v) = map tag_value (contents (tags s)) ++
       (if records_tag k value (flags (context s))
        then omap field_value [(Some k, value)] else []))) w) as H
    by (apply (span_set_tag_wp s m); eauto).
  apply wp_returns in H as (s' & w' & H & v & -> & ? & ?). eauto.
Qed.

(** C31: Finishing a span hands it to the tracer exactly once, as the last step. A
    sampled span is handed over with the duration from its start to the finish
    time (the monotonic clock's when none is given) and, while memory lasts,
    the log records of the options appended to its own; a span that is not
    sampled is handed over unchanged. *)
Theorem jaeger_span_finish_spec (env : Env) (pb : Protobuf) (T : Type)
    (report : T -> jaeger_span -> M (T * jaeger_span)) t s m options w :
  span_ok s m -> is_Some (tracer s) ->
  num_log_records options = lenZ (default [] (log_records options)) ->
  roomy_for (logs s) (num_log_records options) ->
  Forall ot_log_ok (default [] (log_records options)) ->
  normalised (start_time_steady s) -> normalised (finish_at options w) ->
  nanoseconds (start_time_steady s) <= nanoseconds (finish_at options w) ->
  exists s' w',
    jaeger_span_finish_with_options report t s (Some options) w = report t s' w' /\
    if Z.testbit (flags (context s)) 0 then
      exists d v, s' = set_logs (set_times s (start_time_system s) (start_time_steady s) d) v /\
        nanoseconds d = nanoseconds (finish_at options w) - nanoseconds (start_time_steady s) /\
        (plenty w -> map log_value (contents v) = map log_value (contents (logs s))
           ++ map ot_log_value (default [] (log_records options)))
    else s' = s.
Proof.
  intros [Hm _ _ _ [Hwf Hts] _] [tr Htr] Hnum Hroom Hlogs Hn1 Hn2 Hle.
  assert (wp (finish_locked s options) (fun s' _ => tracer s' = Some tr /\
    if Z.testbit (flags (context s)) 0 then
      exists d v, s' = set_logs (set_times s (start_time_system s) (start_time_steady s) d) v /\
        nanoseconds d = nanoseconds (finish_at options w) - nanoseconds (start_time_steady s) /\
        (plenty w -> map log_value (contents v) = map log_value (contents (logs s))
           ++ map ot_log_value (default [] (log_records options)))
    else s' = s) w) as H.
  { apply finish_locked_wp; try done.
    - by intros ->.
    - intros d v w' Hd _ Hv ->. split; [done|]. eauto. }
  apply wp_returns in H as (s' & w' & H & Htr' & Hs'). exists s', w'. split; [|done].
  cbn [jaeger_span_finish_with_options]. unfold finish_with_options, bind. by rewrite H, Htr'.
Qed.

(** Setting a baggage item, while memory lasts, makes exactly that key map to
    that value: every later lookup on the span agrees. *)
Theorem span_baggage_roundtrip (env : Env) (pb : Protobuf) s m k v w :
  plenty w -> span_ok s m -> short k -> short v -> ht_size (baggage (context s)) < 2 ^ 31 - 2 ->
  exists s' w', jaeger_span_set_baggage_item s k v w = Ok s' w' /\ span_ok s' (<[k := v]> m) /\
    forall k' w2, jaeger_span_baggage_item s' k' w2 = Ok (<[k := v]> m !! k', s') w2.
Proof.
  intros Hp Hok Hk Hv Hsz.
  assert (wp (jaeger_span_set_baggage_item s k v) (fun s' _ => span_ok s' (<[k := v]> m)) w) as H
    by (by apply (set_baggage_item_wp s m)).
  apply wp_returns in H as (s' & w' & H & Hok'). exists s', w'. split; [done|]. split; [done|].
  intros k' w2.
  assert (wp (jaeger_span_baggage_item s' k') (fun r w' => r = (<[k := v]> m !! k', s') /\ w' = w2)
    w2) as H2 by (by apply (baggage_item_wp s' (<[k := v]> m))).
  by apply wp_returns in H2 as (r & w3 & H2 & -> & ->).
Qed.

(** Copying a span, while memory lasts, gives a span with the same identity,
    baggage, name, times, tags, logs and references, in a good state, and
    leaves the source as it was. *)
Theorem jaeger_span_copy_spec (env : Env) (pb : Protobuf) src m name w :
  plenty w -> span_ok src m -> span_copyable src name ->
  exists dst w', jaeger_span_copy src w = Ok (true, dst, src) w' /\ span_ok dst m /\
    span_copied src dst m.
Proof.
  intros Hp Hok Hc.
  assert (wp (jaeger_span_copy src) (fun r _ => r.1.1 = true /\ r.2 = src /\
    span_ok r.1.2 m /\ span_copied src r.1.2 m) w) as H.
  { apply (span_copy_wp src m name); [done|done|done|]. by intros dst w' _ Hdst Hcp. }
  apply wp_returns in H as ([[ok dst] s'] & w' & H & Hok' & Hs' & ?). cbn in *. subst. eauto.
Qed.

(** Converting a span to its message, while memory lasts: the message carries
    the identifiers, the name, and every tag, log record and reference of the
    span, and the span is left unlocked and unchanged. *)
Theorem jaeger_span_to_protobuf_spec (env : Env) (pb : Protobuf) (msgs : SpanMessages)
    src m name w :
  plenty w -> span_ok src m -> span_copyable src name ->
  exists msg w', jaeger_span_to_protobuf src w = Ok (true, msg, src) w' /\ span_message src msg.
Proof.
  intros Hp Hok Hc.
  assert (wp (jaeger_span_to_protobuf src) (fun r _ => r.1.1 = true /\ r.2 = src /\
    span_message src r.1.2) w) as H.
  { apply (span_to_protobuf_wp src m name); [done|done|done|]. by intros msg w' _ Hmsg. }
  apply wp_returns in H as ([[ok msg] s'] & w' & H & Hok' & Hs' & ?). cbn in *. subst. eauto.
Qed.

(** *** Witnesses *)

Definition sample_vec {A} {zero : ZeroBytes A} (l : list A) (ts : Z) : jaeger_vector A :=
  Vector (lenZ l) 10 (Some (l ++ replicate (10 - length l) zero_bytes)) ts.

Lemma sample_vec_ok {A} {zero : ZeroBytes A} (l : list A) ts :
  (length l <= 10)%nat -> 0 < ts ->
  vector_wf (sample_vec l ts) /\ type_size (sample_vec l ts) = ts.
Proof.
  intros Hl Hts. split; [|done]. split; cbn; [done|lia|lia|].
  eexists. split; [done|]. rewrite length_app, length_replicate. lia.
Qed.

Lemma sample_vec_contents {A} {zero : ZeroBytes A} (l : list A) ts :
  contents (sample_vec l ts) = l.
Proof. unfold contents. cbn. by rewrite Nat2Z.id, take_app_le, take_ge by lia. Qed.

Definition sample_span : jaeger_span :=
  Span (Some 0%nat) sample_context (Some (lit "get")) (TimeValue 1500000000 0) (TimeValue 1 0)
    (TimeValue 0 0) (sample_vec [sample_tag] 96)
    (sample_vec [LogRecord (TimeValue 5 6) (sample_vec [sample_tag] 96)] 48)
    (sample_vec [SpanRef sample_context 1] 136) false.

Lemma sample_span_ok : @span_ok sample_env sample_pb sample_span {[lit "k" := lit "v"]}.
Proof.
  split.
  - reflexivity.
  - exact sample_context_ok.
  - cbn. lia.
  - apply (@sample_vec_ok jaeger_tag zero_tag [sample_tag] 96); cbn; lia.
  - apply (@sample_vec_ok jaeger_log_record zero_log_record
             [LogRecord (TimeValue 5 6) (sample_vec [sample_tag] 96)] 48); cbn; lia.
  - apply (@sample_vec_ok jaeger_span_ref zero_span_ref [SpanRef sample_context 1] 136);
      cbn; lia.
Qed.

#[local] Existing Instance sample_pb.

Lemma sample_tag_copyable : copyable sample_tag.
Proof.
  split; [|exact I]. exists (lit "http.status_code"). split; [reflexivity|].
  vm_compute. reflexivity.
Qed.

Lemma sample_span_copyable : @span_copyable sample_env sample_pb sample_span (lit "get").
Proof.
  split; (split; [|vm_compute; first [reflexivity | discriminate]]).
  - reflexivity.
  - constructor; [exact sample_tag_copyable|constructor].
  - constructor; [|constructor]. split; [|split].
    + apply (@sample_vec_ok jaeger_tag zero_tag [sample_tag] 96); cbn; lia.
    + constructor; [exact sample_tag_copyable|constructor].
    + vm_compute. discriminate.
  - constructor; [|constructor]. exists {[lit "k" := lit "v"]}. exact sample_context_ok.
Qed.

(** An environment where every request is refused. *)
Definition oom_env : Env := {|
  sys_malloc_ok _ := false;
  clock_monotonic := @clock_monotonic sample_env;
  clock_realtime := @clock_realtime sample_env;
  rand_r := @rand_r sample_env;
  entropy := @entropy sample_env;
  entropy_source := HAVE_GETRANDOM;
  fopen_ok _ := true;
  stale_state := [0; 0; 0; 0];
  seed := @seed sample_env;
  ndebug := false;
  mt := true;
  have_builtin := true;
  pthread_key_create_ok := true;
  pthread_setspecific_ok := true;
|}.

Definition sample_messages : SpanMessages := {|
  JAEGER__MODEL__SPAN_REF__INIT := zero_bytes;
  JAEGER__MODEL__SPAN__INIT :=
    PbSpan (BinaryData 0 None) (BinaryData 0 None) (Some []) None 0 None 0 None 0;
|}.

(** When the first request for memory is refused, the conversion unlocks the
    span's mutex, which it has not locked yet. *)
Theorem span_to_protobuf_unlocks_unlocked :
  @jaeger_span_to_protobuf oom_env sample_pb sample_messages sample_span initial_world
  = Fault BadUnlock.
Proof. reflexivity. Qed.

Lemma jaeger_span_set_tag_spec_witness :
  exists v w',
    @jaeger_span_set_tag sample_env sample_pb sample_span JAEGERTRACINGC_SAMPLING_PRIORITY
      (ot_int64 1) initial_world
    = Ok (set_tags (set_context sample_span (set_flags sample_context 3)) v) w' /\
    vector_wf v /\
    (@plenty sample_env initial_world ->
     map tag_value (contents v) = map tag_value (contents (tags sample_span)) ++
       omap field_value [(Some JAEGERTRACINGC_SAMPLING_PRIORITY, ot_int64 1)]).
Proof.
  apply (jaeger_span_set_tag_spec sample_env sample_pb sample_span _
           JAEGERTRACINGC_SAMPLING_PRIORITY (ot_int64 1) initial_world sample_span_ok).
  - vm_compute. discriminate.
  - split; [|exact I]. intros k [= <-]. vm_compute. reflexivity.
Defined.

Definition sample_options : opentracing_finish_span_options :=
  FinishSpanOptions (TimeValue 3 500)
    (Some [OtLogRecord (TimeValue 2 0) [(Some (lit "event"), ot_bool true)]]) 1.

Lemma sample_finish_normalised :
  normalised (start_time_steady sample_span) /\
  normalised (@finish_at sample_env sample_options initial_world) /\
  nanoseconds (start_time_steady sample_span)
  <= nanoseconds (@finish_at sample_env sample_options initial_world).
Proof. repeat split; vm_compute; first [reflexivity | discriminate]. Qed.

Lemma jaeger_span_finish_spec_witness :
  exists s' w',
    @jaeger_span_finish_with_options sample_env sample_pb nat (fun n s => ret (S n, s)) 0%nat
      sample_span (Some sample_options) initial_world = Ok (1%nat, s') w' /\
    exists d v, s' = set_logs (set_times sample_span (start_time_system sample_span)
                                 (start_time_steady sample_span) d) v /\
      nanoseconds d = nanoseconds (@finish_at sample_env sample_options initial_world)
                      - nanoseconds (start_time_steady sample_span) /\
      (@plenty sample_env initial_world ->
       map log_value (contents v) = map log_value (contents (logs sample_span))
         ++ map ot_log_value (default [] (log_records sample_options))).
Proof.
  destruct sample_finish_normalised as (H1 & H2 & H3).
  apply (jaeger_span_finish_spec sample_env sample_pb nat (fun n s => ret (S n, s)) 0%nat
           sample_span _ sample_options initial_world sample_span_ok).
  - exists 0%nat. reflexivity.
  - reflexivity.
  - vm_compute. discriminate.
  - constructor; [|constructor]. split; [|vm_compute; discriminate].
    constructor; [|constructor]. split; [|exact I]. intros k [= <-]. vm_compute. reflexivity.
  - exact H1.
  - exact H2.
  - exact H3.
Defined.

Lemma span_baggage_roundtrip_witness :
  exists s' w', @jaeger_span_set_baggage_item sample_env sample_span (lit "user") (lit "7")
      initial_world = Ok s' w' /\
    @span_ok sample_env sample_pb s' (<[lit "user" := lit "7"]> {[lit "k" := lit "v"]}) /\
    forall k' w2, @jaeger_span_baggage_item sample_env s' k' w2
      = Ok ((<[lit "user" := lit "7"]> {[lit "k" := lit "v"]} : gmap cstr cstr) !! k', s') w2.
Proof.
  apply (span_baggage_roundtrip sample_env sample_pb sample_span _ (lit "user") (lit "7")
           initial_world plenty_sample sample_span_ok);
    vm_compute; reflexivity.
Defined.

Lemma jaeger_span_copy_spec_witness :
  exists dst w', @jaeger_span_copy sample_env sample_pb sample_span initial_world
      = Ok (true, dst, sample_span) w' /\
    @span_ok sample_env sample_pb dst {[lit "k" := lit "v"]} /\
    @span_copied sample_env sample_span dst {[lit "k" := lit "v"]}.
Proof.
  apply (jaeger_span_copy_spec sample_env sample_pb sample_span _ (lit "get") initial_world
           plenty_sample sample_span_ok sample_span_copyable).
Defined.

Lemma jaeger_span_to_protobuf_spec_witness :
  exists msg w', @jaeger_span_to_protobuf sample_env sample_pb sample_messages sample_span
      initial_world = Ok (true, msg, sample_span) w' /\ span_message sample_span msg.
Proof.
  apply (jaeger_span_to_protobuf_spec sample_env sample_pb sample_messages sample_span _
           (lit "get") initial_world plenty_sample sample_span_ok sample_span_copyable).
Defined.
