(* ===== verification/Baggage.v ===== *)
(** * Baggage restrictions (baggage.c)

    The setter of baggage items that enforces a restriction: which keys are
    allowed and how long their values may be. The restriction comes from a
    manager, an interface with one implementation in the source. *)
From S2P Require Import Prelude Machine Vector CString Clock Threading Hashtable Metrics Tag SpanContext Span.

(** ** Definitions *)

Record jaeger_baggage_restriction := BaggageRestriction {
  key_allowed : bool;
  max_value_len : Z;
}.

(** *** The interface ([jaeger_baggage_restriction_manager]): the service, which
    may be NULL, and the key *)
Class BaggageManager (R : Type) := {
  get_restriction : R -> option cstr -> cstr -> jaeger_baggage_restriction;
}.

Record jaeger_default_baggage_restriction_manager := DefaultBaggageManager {
  default_max_value_len : Z;
}.

Definition jaeger_default_baggage_restriction_manager_get_restriction
    (manager : jaeger_default_baggage_restriction_manager) (service : option cstr) (key : cstr)
    : jaeger_baggage_restriction :=
  BaggageRestriction true (default_max_value_len manager).

#[export] Instance default_baggage_manager_ops
    : BaggageManager jaeger_default_baggage_restriction_manager :=
  {| get_restriction := jaeger_default_baggage_restriction_manager_get_restriction |}.

Definition jaeger_default_baggage_restriction_manager_init (max_value_len : Z)
    : jaeger_default_baggage_restriction_manager :=
  DefaultBaggageManager max_value_len.

Record jaeger_baggage_setter (R : Type) := BaggageSetter {
  manager : R;
  setter_metrics : option jaeger_metrics;
}.
Arguments BaggageSetter {R} manager setter_metrics.
Arguments manager {R} _.
Arguments setter_metrics {R} _.

Definition LOG_FIELD (key value : cstr) : option cstr * opentracing_value :=
  (Some key, ot_string value).
Definition BOOL_STR (x : bool) : cstr := if x then lit "true" else lit "false".

Definition baggage_fields (key value : cstr) (prev_item truncated key_allowed : bool)
    : list (option cstr * opentracing_value) :=
  [LOG_FIELD (lit "event") (lit "baggage"); LOG_FIELD (lit "key") key;
   LOG_FIELD (lit "value") value; LOG_FIELD (lit "override") (BOOL_STR prev_item);
   LOG_FIELD (lit "truncated") (BOOL_STR truncated);
   LOG_FIELD (lit "invalid") (BOOL_STR (negb key_allowed))].

Section Setter.
Context {env : Env} {pb : Protobuf} {R : Type} {restrictions : BaggageManager R}.

(** The label [log]. *)
Definition log_baggage (s : jaeger_span) (key value : cstr)
    (prev_item truncated key_allowed : bool) : M jaeger_span :=
  if jaeger_span_is_sampled_no_locking s then
    timestamp ← jaeger_timestamp_now;
    jaeger_span_log_no_locking s
      (OtLogRecord timestamp (baggage_fields key value prev_item truncated key_allowed))
  else ret s.

Definition put_baggage (s : jaeger_span) (key value : cstr) : M jaeger_span :=
  ' (_, h) ← jaeger_hashtable_put (baggage (context s)) key value;
  ret (set_context s (set_baggage (context s) h)).

(** [service_name]: that of the tracer the span points to. *)
Definition jaeger_baggage_setter_set_baggage (setter : jaeger_baggage_setter R)
    (service_name : nat -> option cstr) (s : jaeger_span) (key value : cstr) : M jaeger_span :=
  match tracer s with
  | None => fail NullDeref
  | Some t =>
      let restriction := get_restriction (manager setter) (service_name t) key in
      if negb (key_allowed restriction) then log_baggage s key value false false false
      else
        let truncated := strlen value >? max_value_len restriction in
        (if (truncated : bool) then
           match setter_metrics setter with
           | None => ret tt
           | Some metrics => inc (counter metrics baggage_truncate) 1
           end
         else ret tt);;
        kv ← jaeger_hashtable_find (baggage (context s)) key;
        let prev_item := bool_decide (is_Some kv) in
        if truncated then
          granted ← jaeger_malloc;
          if negb granted then ret s
          else
            s ← put_baggage s key (take (Z.to_nat (max_value_len restriction)) value);
            log_baggage s key value prev_item truncated true
        else
          s ← put_baggage s key value;
          log_baggage s key value prev_item truncated true
  end.
End Setter.

(** ** Lemmas *)

Section BaggageFacts.
Context {env : Env} {pb : Protobuf}.
Implicit Types (w : world) (s : jaeger_span) (m : gmap cstr cstr).

(** A field of a log record whose value is text, and one that is true or false. *)
Definition text_field (name text : cstr) : option cstr * payload := (Some name, PStr (Some text)).
Definition flag_field (name : cstr) (b : bool) : option cstr * payload :=
  text_field name (if b then lit "true" else lit "false").

(** The log record of a set item: it tells the whole value. *)
Definition baggage_log (key value : cstr) (override truncated invalid : bool)
    : list (option cstr * payload) :=
  [text_field (lit "event") (lit "baggage"); text_field (lit "key") key;
   text_field (lit "value") value; flag_field (lit "override") override;
   flag_field (lit "truncated") truncated; flag_field (lit "invalid") invalid].

Lemma baggage_fields_log key value prev_item truncated key_allowed :
  omap field_value (baggage_fields key value prev_item truncated key_allowed)
  = baggage_log key value prev_item truncated (negb key_allowed).
Proof. reflexivity. Qed.

(** One more log of a sampled span, with the given fields. *)
Definition logged s s' (fields : list (option cstr * payload)) : Prop :=
  if Z.testbit (flags (context s)) 0 then
    exists timestamp, map log_value (contents (logs s'))
      = map log_value (contents (logs s)) ++ [(timestamp, fields)]
  else logs s' = logs s.

Lemma with_context_ok s m m' c :
  span_ok s m -> context_ok c m' -> flags c = flags (context s) -> span_ok (set_context s c) m'.
Proof. intros [Hm _ Hf Ht Hl Hr] Hc Ef. split; try done. cbn. by rewrite Ef. Qed.

Lemma with_logs_ok s m v :
  span_ok s m -> vector_wf v -> type_size v = sizeof_log_record -> span_ok (set_logs s v) m.
Proof. intros [] ? ?. by split. Qed.

Lemma put_baggage_wp s m key value Q w :
  plenty w -> span_ok s m -> short key -> short value ->
  ht_size (baggage (context s)) < 2 ^ 31 - 2 ->
  (forall s' w', alloc_only w w' -> span_ok s' (<[key := value]> m) -> logs s' = logs s ->
     flags (context s') = flags (context s) -> Q s' w') ->
  wp (put_baggage s key value) Q w.
Proof.
  intros Hp Hok Hk Hv Hsz HQ. pose proof Hok as [_ [Hr Hc Hs Hz Hcm] _ _ _ _].
  unfold put_baggage. apply wp_bind, (put_wp _ m); [done|done|done|cbn; lia|by intros|].
  intros h w1 Hw1 Hr1 Hs1. apply wp_ret, HQ; [done| |done|done].
  eapply with_context_ok; [done| |done].
  split; cbn [set_baggage baggage ctx_mutex]; try done.
  - by eapply counted_insert.
  - intros k' v'. destruct (decide (k' = key)) as [->|].
    + rewrite lookup_insert_eq. by intros [= <-].
    + rewrite lookup_insert_ne by done. apply Hs.
  - rewrite Hs1. unfold size_after. destruct (m !! key); cbn; lia.
Qed.

Lemma log_field_ok key value : short key -> short value -> field_ok (LOG_FIELD key value).
Proof. intros Hk Hv. split; [by intros ? [= <-]|done]. Qed.

Lemma short_bool b : short (BOOL_STR b).
Proof. by destruct b. Qed.

Lemma baggage_fields_ok timestamp key value prev truncated allowed :
  short key -> short value ->
  ot_log_ok (OtLogRecord timestamp (baggage_fields key value prev truncated allowed)).
Proof.
  intros Hk Hv. split; [|by vm_compute].
  repeat (apply Forall_cons; split; [apply log_field_ok; done || apply short_bool|]).
  apply Forall_nil_2.
Qed.

Lemma log_baggage_wp s m key value prev truncated allowed Q w :
  plenty w -> span_ok s m -> short key -> short value -> roomy (logs s) ->
  (forall s' w', progress w w' -> span_ok s' m ->
     logged s s' (baggage_log key value prev truncated (negb allowed)) -> Q s' w') ->
  wp (log_baggage s key value prev truncated allowed) Q w.
Proof.
  intros Hp Hok Hk Hv Hroom HQ. unfold log_baggage. rewrite sampled_testbit.
  unfold logged in HQ. destruct (Z.testbit (flags (context s)) 0); [|by apply wp_ret, HQ].
  pose proof Hok as [_ _ _ _ [Hwf Hts] _]. apply wp_bind. cbn.
  apply span_log_no_locking_wp; [done|done|done| |].
  { by apply baggage_fields_ok. }
  intros v w' Hw' Hwf' Hts' _ _ Hl. apply HQ; [|by apply with_logs_ok|].
  - destruct Hw' as (?&?&?&?). by repeat split.
  - eexists. cbn [logs set_logs]. rewrite Hl by done.
    unfold ot_log_value. cbn [ot_fields ot_timestamp]. by rewrite baggage_fields_log.
Qed.

(** What is stored for a key the restriction allows. *)
Definition stored (r : jaeger_baggage_restriction) (value : cstr) : cstr :=
  take (Z.to_nat (max_value_len r)) value.

(** The baggage after an item has been set. *)
Definition restricted_insert (r : jaeger_baggage_restriction) (key value : cstr) m :=
  if key_allowed r then <[key := stored r value]> m else m.

Definition truncates (r : jaeger_baggage_restriction) (value : cstr) : bool :=
  key_allowed r && (lenZ value >? max_value_len r).

Definition overrides (r : jaeger_baggage_restriction) (key : cstr) m : bool :=
  key_allowed r && bool_decide (is_Some (m !! key)).

Lemma short_take n (v : cstr) : short v -> short (take n v).
Proof. unfold short. rewrite length_take. lia. Qed.

(** A cut is counted where there is a counter for it. *)
Definition cut_counted (metrics : option jaeger_metrics) (cut : bool) w w' : Prop :=
  match metrics with
  | Some metrics =>
      if cut then counted_one metrics baggage_truncate w w' else w_cells w' = w_cells w
  | None => w_cells w' = w_cells w
  end.

(** The metrics of a setter, if it has some. *)
Definition setter_wf (metrics : option jaeger_metrics) w : Prop :=
  match metrics with Some metrics => metrics_wf metrics w | None => True end.

Lemma count_cut_wp metrics Q w :
  setter_wf metrics w ->
  (forall w1, same_allocator w w1 -> cut_counted metrics true w w1 -> Q tt w1) ->
  wp (match metrics with
      | None => ret tt
      | Some metrics => inc (counter metrics baggage_truncate) 1
      end) Q w.
Proof.
  intros Hm HQ. destruct metrics as [metrics|]; [|by apply wp_ret, HQ].
  apply inc_one_wp; [done|]. intros w1 Ha _ Hc. by apply HQ.
Qed.

Lemma cut_counted_after metrics w w1 w2 :
  w_cells w2 = w_cells w1 -> cut_counted metrics true w w1 -> cut_counted metrics true w w2.
Proof.
  unfold cut_counted. destruct metrics; [|congruence]. intros E Hc. by eapply counted_one_after.
Qed.

Lemma set_baggage_wp {R} {restrictions : BaggageManager R} (setter : jaeger_baggage_setter R)
    service_name s m t key value Q w :
  let r := get_restriction (manager setter) (service_name t) key in
  plenty w -> span_ok s m -> tracer s = Some t -> setter_wf (setter_metrics setter) w ->
  short key -> short value -> roomy (logs s) ->
  ht_size (baggage (context s)) < 2 ^ 31 - 2 ->
  (forall s' w', span_ok s' (restricted_insert r key value m) ->
     logged s s' (baggage_log key value (overrides r key m) (truncates r value)
                    (negb (key_allowed r))) ->
     cut_counted (setter_metrics setter) (truncates r value) w w' -> Q s' w') ->
  wp (jaeger_baggage_setter_set_baggage setter service_name s key value) Q w.
Proof.
  intros r Hp Hok Ht Hm Hk Hv Hroom Hsz HQ.
  assert (Hkeep : forall w', w_cells w' = w_cells w -> cut_counted (setter_metrics setter) false w w')
    by (unfold cut_counted; by destruct (setter_metrics setter)).
  unfold jaeger_baggage_setter_set_baggage. rewrite Ht. fold r.
  unfold restricted_insert, truncates, overrides, stored in HQ.
  destruct (key_allowed r); cbn [negb andb] in *.
  2: { eapply log_baggage_wp; [done..|]. intros s' w' (_ & _ & Ec & _) Hok' Hl. apply HQ; [done|done|by apply Hkeep]. }
  pose proof Hok as [_ [Hr _ _ _ _] _ _ _ _].
  assert (bool_decide (is_Some (KeyValue key <$> m !! key)) = bool_decide (is_Some (m !! key)))
    as Hprev by (apply bool_decide_ext, fmap_is_Some).
  unfold strlen. destruct (lenZ value >? max_value_len r) eqn:E.
  - wp_step. apply count_cut_wp; [done|]. intros w1 Ha1 Hc1. wp_step.
    apply (find_wp _ m); [done|]. do 2 wp_step.
    assert (plenty w1) by by eapply plenty_same_allocator.
    rewrite Hplenty by done. cbn [negb]. wp_step.
    eapply put_baggage_wp; [by eapply plenty_alloc_only|done|done|by apply short_take|done|].
    intros s' w2 Hw2 Hok' El Ef. eapply log_baggage_wp; [|done|done|done|by rewrite El|].
    { eapply plenty_alloc_only; [exact Hw2|]. by eapply plenty_alloc_only. }
    intros s2 w3 (_ & _ & Ec & _) Hok2 Hl. apply HQ; [done| |].
    + unfold logged in *. by rewrite Ef, El, Hprev in Hl.
    + eapply cut_counted_after; [|exact Hc1]. rewrite Ec.
      transitivity (w_cells w'); [apply Hw2|apply Halloc].
  - wp_step. apply wp_ret. wp_step. apply (find_wp _ m); [done|]. wp_step.
    eapply put_baggage_wp; [done|done|done|done|done|].
    intros s' w2 Hw2 Hok' El Ef. eapply log_baggage_wp; [|done|done|done|by rewrite El|].
    { by eapply plenty_alloc_only. }
    intros s2 w3 (_ & _ & Ec & _) Hok2 Hl. apply HQ.
    + rewrite Z.gtb_ltb in E. apply Z.ltb_ge in E. by rewrite take_ge by lia.
    + unfold logged in *. by rewrite Ef, El, Hprev in Hl.
    + apply Hkeep. rewrite Ec. apply Hw2.
Qed.
End BaggageFacts.

(** ** Properties *)

(** C34: Setting an item through the setter, while memory lasts: a key that is not
    allowed leaves the baggage as it was; an allowed one maps to the value, cut
    to the allowed length; exactly a cut is counted, if the setter has metrics;
    and a sampled span gets one log that tells the key, the whole value, and
    whether the item was overridden, cut, or refused. *)
Theorem jaeger_baggage_setter_set_baggage_spec (env : Env) (pb : Protobuf) (R : Type)
    (restrictions : BaggageManager R) (setter : jaeger_baggage_setter R)
    service_name s m t key value w :
  let r := get_restriction (manager setter) (service_name t) key in
  let cut := key_allowed r && (lenZ value >? max_value_len r) in
  let old := key_allowed r && bool_decide (is_Some (m !! key)) in
  plenty w -> span_ok s m -> tracer s = Some t -> setter_wf (setter_metrics setter) w ->
  short key -> short value -> roomy (logs s) ->
  ht_size (baggage (context s)) < 2 ^ 31 - 2 ->
  exists s' w',
    jaeger_baggage_setter_set_baggage setter service_name s key value w = Ok s' w' /\
    span_ok s' (if key_allowed r then <[key := take (Z.to_nat (max_value_len r)) value]> m else m) /\
    logged s s'
      [text_field (lit "event") (lit "baggage"); text_field (lit "key") key;
       text_field (lit "value") value; flag_field (lit "override") old;
       flag_field (lit "truncated") cut; flag_field (lit "invalid") (negb (key_allowed r))] /\
    cut_counted (setter_metrics setter) cut w w'.
Proof.
  intros r cut old Hp Hok Ht Hm Hk Hv Hroom Hsz.
  enough (wp (jaeger_baggage_setter_set_baggage setter service_name s key value) (fun s' w' =>
    span_ok s' (restricted_insert r key value m) /\
    logged s s' (baggage_log key value old cut (negb (key_allowed r))) /\
    cut_counted (setter_metrics setter) cut w w') w) as (s' & w' & H)%wp_returns
    by by exists s', w'.
  by eapply set_baggage_wp.
Qed.

(** *** The property at work *)

Lemma jaeger_baggage_setter_set_baggage_spec_witness :
  let setter := BaggageSetter (jaeger_default_baggage_restriction_manager_init 3)
                  (Some sample_metrics) in
  exists s' w',
    @jaeger_baggage_setter_set_baggage sample_env sample_pb _ _ setter (fun _ => None)
      sample_span (lit "user") (lit "alice") metrics_world = Ok s' w' /\
    @span_ok sample_env sample_pb s' (<[lit "user" := lit "ali"]> {[lit "k" := lit "v"]}) /\
    logged sample_span s' (baggage_log (lit "user") (lit "alice") false true false) /\
    counted_one sample_metrics baggage_truncate metrics_world w'.
Proof.
  edestruct (jaeger_baggage_setter_set_baggage_spec sample_env sample_pb
           jaeger_default_baggage_restriction_manager _
           (BaggageSetter (jaeger_default_baggage_restriction_manager_init 3) (Some sample_metrics))
           (fun _ => None) sample_span {[lit "k" := lit "v"]} 0%nat
           (lit "user") (lit "alice") metrics_world) as (s' & w' & E & Hok & Hl & Hc);
    try reflexivity;
    [done|apply sample_span_ok|apply sample_metrics_wf|vm_compute; discriminate|].
  exists s', w'. split; [exact E|]. split; [exact Hok|]. split; [|exact Hc].
  revert Hl. replace (bool_decide (is_Some _)) with false by (vm_compute; reflexivity).
  intros Hl. exact Hl.
Defined.
