(* ===== verification/Logging.v ===== *)
(** * Logging (logging.c)

    The loggers: what each writes and under which mutex, the logger of the
    process, and the interleavings of threads that log through the standard
    one. A formatted message is the text it formats to. *)
From stdpp Require Import functions.
From S2P Require Import Prelude Machine CString.

(** ** Definitions *)

(** *** What a log function does *)

Inductive stream := stdout | stderr.

#[export] Instance stream_eq_dec : EqDecision stream.
Proof. solve_decision. Defined.

(** The calls of the C library that write to a stream: each is atomic. *)
Inductive stdio := fprintf (s : cstr) | vfprintf (text : cstr) | fputc (c : ascii).

Definition written (w : stdio) : cstr :=
  match w with fprintf s => s | vfprintf text => text | fputc c => [c] end.

(** A stream has a mutex of its own: [stdout_mutex], [stderr_mutex]. *)
Inductive log_action :=
  | write (to : stream) (w : stdio)
  | jaeger_mutex_lock_of (to : stream)
  | jaeger_mutex_unlock_of (to : stream).

Inductive log_level := level_error | level_warn | level_info.

Definition level_name (level : log_level) : cstr :=
  match level with
  | level_error => lit "error"
  | level_warn => lit "warn"
  | level_info => lit "info"
  end.

Definition level_stream (level : log_level) : stream :=
  match level with level_error | level_warn => stderr | level_info => stdout end.

Definition newline : ascii := chr 10.

Definition STD_LOG_FUNC (level : log_level) (text : cstr) : list log_action :=
  let to := level_stream level in
  [write to (fprintf (level_name level ++ lit ": "));
   jaeger_mutex_lock_of to;
   write to (vfprintf text);
   write to (fputc newline);
   jaeger_mutex_unlock_of to].

Definition null_log (text : cstr) : list log_action := [].

(** *** Loggers *)

(** The members are the functions the struct points to. *)
Record jaeger_logger := Logger {
  error : cstr -> list log_action;
  warn : cstr -> list log_action;
  info : cstr -> list log_action;
}.

Definition jaeger_null_logger : jaeger_logger := Logger null_log null_log null_log.

Definition STD_LOGGER_INIT : jaeger_logger :=
  Logger (STD_LOG_FUNC level_error) (STD_LOG_FUNC level_warn) (STD_LOG_FUNC level_info).

Definition jaeger_std_logger_init : jaeger_logger :=
  let logger := STD_LOGGER_INIT in
  let logger := Logger (STD_LOG_FUNC level_error) (warn logger) (info logger) in
  let logger := Logger (error logger) (STD_LOG_FUNC level_warn) (info logger) in
  Logger (error logger) (warn logger) (STD_LOG_FUNC level_info).

(** The logger of the process, a static variable of [jaeger_get_logger]: its
    first value, and what [jaeger_set_logger] makes of it. *)
Definition jaeger_get_logger : jaeger_logger := STD_LOGGER_INIT.
Definition jaeger_set_logger (current logger : jaeger_logger) : jaeger_logger := logger.

Definition jaeger_log_error (current : jaeger_logger) (text : cstr) : list log_action :=
  error current text.
Definition jaeger_log_warn (current : jaeger_logger) (text : cstr) : list log_action :=
  warn current text.
Definition jaeger_log_info (current : jaeger_logger) (text : cstr) : list log_action :=
  info current text.

Definition jaeger_log (current : jaeger_logger) (level : log_level) (text : cstr)
    : list log_action :=
  match level with
  | level_error => jaeger_log_error current text
  | level_warn => jaeger_log_warn current text
  | level_info => jaeger_log_info current text
  end.

(** *** Threads *)

(** What each thread has left to do, who holds each mutex, and every write so
    far with the thread that made it. *)
Record log_state := LogState {
  todo : list (list log_action);
  holder : stream -> option nat;
  output : list (nat * stream * stdio);
}.

(** The next action of thread [t]; [None] when there is none or it is blocked. *)
Definition run_action (t : nat) (s : log_state) : option log_state :=
  match todo s !! t with
  | None | Some [] => None
  | Some (a :: rest) =>
      let goto := LogState (<[t := rest]> (todo s)) in
      match a with
      | write to w => Some (goto (holder s) (output s ++ [(t, to, w)]))
      | jaeger_mutex_lock_of to =>
          match holder s to with
          | None => Some (goto (<[to := Some t]> (holder s)) (output s))
          | Some _ => None
          end
      | jaeger_mutex_unlock_of to => Some (goto (<[to := None]> (holder s)) (output s))
      end
  end.

Definition log_step (s s' : log_state) : Prop := exists t, run_action t s = Some s'.

(** A thread makes calls, one after the other. *)
Definition calls : Type := list (log_level * cstr).
Definition program (current : jaeger_logger) (cs : calls) : list log_action :=
  flat_map (fun '(level, text) => jaeger_log current level text) cs.

Definition log_initial (current : jaeger_logger) (threads : list calls) : log_state :=
  LogState (map (program current) threads) (fun _ => None) [].

Definition log_reachable (current : jaeger_logger) (threads : list calls) : log_state -> Prop :=
  rtc log_step (log_initial current threads).

(** A schedule: which thread runs next. *)
Fixpoint run_schedule (ts : list nat) (s : log_state) : option log_state :=
  match ts with
  | [] => Some s
  | t :: ts => match run_action t s with Some s => run_schedule ts s | None => None end
  end.

(** What a stream holds. *)
Definition stream_text (to : stream) (s : log_state) : cstr :=
  flat_map (fun '(_, to', w) => if decide (to' = to) then written w else []) (output s).

(** ** Lemmas *)

(** The writes of a program, or of one thread, on a stream; those made under
    the mutex, which are all but the prefixes. *)
Definition program_writes (to : stream) (l : list log_action) : list stdio :=
  flat_map (fun a => match a with write to' w => if decide (to' = to) then [w] else [] | _ => [] end) l.

Definition thread_writes (t : nat) (to : stream) (o : list (nat * stream * stdio)) : list stdio :=
  flat_map (fun '(t', to', w) => if decide (t' = t /\ to' = to) then [w] else []) o.

Definition guarded (w : stdio) : bool := match w with fprintf _ => false | _ => true end.

Definition guarded_writes (to : stream) (o : list (nat * stream * stdio)) : list (nat * stdio) :=
  flat_map (fun '(t, to', w) => if decide (to' = to) then if guarded w then [(t, w)] else [] else []) o.

(** A line: its thread, its text and the newline after it. *)
Definition line (l : nat * cstr) : list (nat * stdio) :=
  [(l.1, vfprintf l.2); (l.1, fputc newline)].

(** The stream whose mutex a thread holds, by what it has left to do. *)
Definition inside (l : list log_action) : option stream :=
  match l with
  | write to (vfprintf _) :: _ | write to (fputc _) :: _ | jaeger_mutex_unlock_of to :: _ => Some to
  | _ => None
  end.

Definition newline_next (l : list log_action) : bool :=
  match l with write _ (fputc _) :: _ => true | _ => false end.

(** What is left of calls made through the standard logger. *)
Definition left_of_calls (l : list log_action) : Prop :=
  exists k level text cs, (k <= 5)%nat /\
    l = drop k (STD_LOG_FUNC level text) ++ program STD_LOGGER_INIT cs.

(** The guarded writes are lines, the last one open while its thread has still
    to end it. *)
Definition lines_of (s : log_state) (to : stream) : Prop :=
  exists ls tail, guarded_writes to (output s) = concat (map line ls) ++ tail /\
    match holder s to with
    | None => tail = []
    | Some t => exists l, todo s !! t = Some l /\
        if newline_next l then exists text, tail = [(t, vfprintf text)] else tail = []
    end.

Record log_inv (threads : list calls) (s : log_state) : Prop := {
  inv_left : forall t l, todo s !! t = Some l -> left_of_calls l;
  inv_holder : forall to t,
    holder s to = Some t <-> exists l, todo s !! t = Some l /\ inside l = Some to;
  inv_lines : forall to, lines_of s to;
  inv_order : forall t l, todo s !! t = Some l -> exists cs d, threads !! t = Some cs /\
    program STD_LOGGER_INIT cs = d ++ l /\
    forall to, thread_writes t to (output s) = program_writes to d;
}.

Lemma program_cons current level text cs :
  program current ((level, text) :: cs) = jaeger_log current level text ++ program current cs.
Proof. done. Qed.

Lemma std_log level text : jaeger_log STD_LOGGER_INIT level text = STD_LOG_FUNC level text.
Proof. by destruct level. Qed.

Lemma left_of_program cs : left_of_calls (program STD_LOGGER_INIT cs).
Proof.
  exists 5%nat, level_error, [], cs. done.
Qed.

(** The six kinds of remainder. *)
Lemma left_cases l :
  left_of_calls l ->
  l = [] \/ exists level text cs, let to := level_stream level in
    let rest := program STD_LOGGER_INIT cs in
    l = STD_LOG_FUNC level text ++ rest \/
    l = jaeger_mutex_lock_of to :: write to (vfprintf text) :: write to (fputc newline)
          :: jaeger_mutex_unlock_of to :: rest \/
    l = write to (vfprintf text) :: write to (fputc newline) :: jaeger_mutex_unlock_of to :: rest \/
    l = write to (fputc newline) :: jaeger_mutex_unlock_of to :: rest \/
    l = jaeger_mutex_unlock_of to :: rest.
Proof.
  intros (k & level & text & cs & Hk & ->).
  destruct k as [|[|[|[|[|[|k]]]]]]; try lia; cbn [drop STD_LOG_FUNC app];
    try (right; exists level, text, cs; cbn; by eauto 6).
  destruct cs as [|[level' text'] cs]; [by left|right].
  exists level', text', cs. left. by rewrite program_cons, std_log.
Qed.

(** One step of the machine, without the rules for each action: thread [t]
    goes from [a :: rest] to [rest]. *)
Record moved (t : nat) (a : log_action) (rest : list log_action) (s s' : log_state) : Prop := {
  moved_from : todo s !! t = Some (a :: rest);
  moved_todo : todo s' = <[t := rest]> (todo s);
  moved_holder : forall to, holder s' to =
    match a with
    | jaeger_mutex_lock_of to' => if decide (to = to') then Some t else holder s to
    | jaeger_mutex_unlock_of to' => if decide (to = to') then None else holder s to
    | write _ _ => holder s to
    end;
  moved_free : forall to, a = jaeger_mutex_lock_of to -> holder s to = None;
  moved_output : output s' = output s ++ match a with write to w => [(t, to, w)] | _ => [] end;
}.

Lemma run_action_moved t s s' :
  run_action t s = Some s' -> exists a rest, moved t a rest s s'.
Proof.
  unfold run_action. destruct (todo s !! t) as [[|a rest]|] eqn:Et; try done. intros H.
  exists a, rest. destruct a as [to w|to|to].
  - injection H as <-. by split.
  - destruct (holder s to) as [u|] eqn:Eh; [done|]. injection H as <-.
    split; cbn; rewrite ?app_nil_r; try done.
    + intros to'. destruct (decide (to' = to)) as [->|].
      * by rewrite fn_lookup_insert.
      * by rewrite fn_lookup_insert_ne by done.
    + by intros to' [= <-].
  - injection H as <-. split; cbn; rewrite ?app_nil_r; try done.
    intros to'. destruct (decide (to' = to)) as [->|].
    + by rewrite fn_lookup_insert.
    + by rewrite fn_lookup_insert_ne by done.
Qed.

(** Where a thread is before and after an action of its program. *)
Lemma left_step a rest :
  left_of_calls (a :: rest) ->
  left_of_calls rest /\
  match a with
  | write to (fprintf _) => inside rest = None
  | jaeger_mutex_lock_of to => inside rest = Some to /\ newline_next rest = false
  | write to (vfprintf _) => inside rest = Some to /\ newline_next rest = true
  | write to (fputc c) => c = newline /\ inside rest = Some to /\ newline_next rest = false
  | jaeger_mutex_unlock_of to => inside rest = None
  end.
Proof.
  intros [H|(level & text & cs & H)]%left_cases; [done|]. cbn zeta in H.
  destruct H as [H|[H|[H|[H|H]]]]; injection H as -> ->; (split; [|done || idtac]).
  - by exists 1%nat, level, text, cs; split; [lia|].
  - by exists 2%nat, level, text, cs; split; [lia|].
  - by exists 3%nat, level, text, cs; split; [lia|].
  - by exists 4%nat, level, text, cs; split; [lia|].
  - apply left_of_program.
  - destruct cs as [|[[] ?] ?]; done.
Qed.

Section Step.
Context (threads : list calls) (t : nat) (a : log_action) (rest : list log_action)
  (s s' : log_state) (Hinv : log_inv threads s) (Hm : moved t a rest s s').

Lemma step_left : left_of_calls rest.
Proof. eapply left_step, (inv_left _ _ Hinv), moved_from, Hm. Qed.

Lemma step_lookup u l :
  todo s' !! u = Some l <-> (u = t /\ l = rest) \/ (u <> t /\ todo s !! u = Some l).
Proof.
  rewrite (moved_todo _ _ _ _ _ Hm). pose proof (moved_from _ _ _ _ _ Hm) as Hf.
  destruct (decide (u = t)) as [->|Hne].
  - rewrite list_lookup_insert_eq by by eapply lookup_lt_Some. naive_solver.
  - rewrite list_lookup_insert_ne by done. naive_solver.
Qed.

Lemma step_holds to : holder s to = Some t <-> inside (a :: rest) = Some to.
Proof.
  rewrite (inv_holder _ _ Hinv). pose proof (moved_from _ _ _ _ _ Hm). naive_solver.
Qed.

(** The holder of a mutex after the step. *)
Lemma step_holder to :
  holder s' to = if decide (inside rest = Some to) then Some t
                 else if decide (inside (a :: rest) = Some to) then None else holder s to.
Proof.
  pose proof (left_step _ _ (inv_left _ _ Hinv _ _ (moved_from _ _ _ _ _ Hm))) as [_ Hs].
  pose proof (step_holds to) as Hh. rewrite (moved_holder _ _ _ _ _ Hm).
  destruct a as [to' [| |]|to'|to']; cbn [inside] in *;
    repeat case_decide; try naive_solver.
Qed.

Lemma step_inv_holder to u :
  holder s' to = Some u <-> exists l, todo s' !! u = Some l /\ inside l = Some to.
Proof.
  setoid_rewrite step_lookup. rewrite step_holder.
  pose proof (inv_holder _ _ Hinv to u) as Hi.
  assert (inside rest = Some to -> holder s to = None \/ holder s to = Some t) as Hfree.
  { intros Hr. pose proof (left_step _ _ (inv_left _ _ Hinv _ _ (moved_from _ _ _ _ _ Hm))) as [_ Hs].
    pose proof (step_holds to) as Hh. pose proof (moved_free _ _ _ _ _ Hm to) as Hl.
    destruct a as [to' [| |]|to'|to']; cbn [inside] in *; naive_solver. }
  pose proof (step_holds to) as Hh.
  repeat case_decide; naive_solver.
Qed.

Lemma guarded_app to o o' :
  guarded_writes to (o ++ o') = guarded_writes to o ++ guarded_writes to o'.
Proof. apply flat_map_app. Qed.

(** A stream whose mutex [t] does not hold, before or after. *)
Lemma step_other_lines to :
  inside (a :: rest) <> Some to -> inside rest <> Some to ->
  guarded_writes to (output s') = guarded_writes to (output s) -> lines_of s' to.
Proof.
  intros H1 H2 Ho. destruct (inv_lines _ _ Hinv to) as (ls & tail & Hg & Ht).
  exists ls, tail. rewrite Ho, step_holder, !decide_False by done. split; [done|].
  destruct (holder s to) as [u|] eqn:Eu; [|done]. destruct Ht as (l & Hl & Ht).
  exists l. split; [|done]. apply step_lookup. right. split; [|done]. intros ->.
  by apply step_holds in Eu.
Qed.

(** Thread [t] holds the mutex: what its open line is. *)
Lemma step_tail to :
  inside (a :: rest) = Some to ->
  exists ls tail, guarded_writes to (output s) = concat (map line ls) ++ tail /\
    if newline_next (a :: rest) then exists text, tail = [(t, vfprintf text)] else tail = [].
Proof.
  intros Hin. destruct (inv_lines _ _ Hinv to) as (ls & tail & Hg & Ht). exists ls, tail.
  split; [done|]. rewrite (proj2 (step_holds to) Hin) in Ht. destruct Ht as (l & Hl & Ht).
  pose proof (moved_from _ _ _ _ _ Hm) as Hf. by assert (l = a :: rest) as -> by congruence.
Qed.

(** The lines after a step of the thread that holds the mutex then. *)
Lemma step_own_lines to ls tail :
  inside rest = Some to -> guarded_writes to (output s') = concat (map line ls) ++ tail ->
  (if newline_next rest then exists text, tail = [(t, vfprintf text)] else tail = []) ->
  lines_of s' to.
Proof.
  intros Hin Hg Ht. exists ls, tail. rewrite step_holder, decide_True by done. split; [done|].
  exists rest. split; [apply step_lookup; by left|done].
Qed.

Lemma step_lines to : lines_of s' to.
Proof.
  pose proof (left_step _ _ (inv_left _ _ Hinv _ _ (moved_from _ _ _ _ _ Hm))) as [_ Hs].
  pose proof (moved_output _ _ _ _ _ Hm) as Ho. pose proof (step_tail to) as Htail.
  pose proof (step_other_lines to) as Hother. pose proof (step_own_lines to) as Hown.
  pose proof (step_holder to) as Hh.
  assert (guarded_writes to (output s') = guarded_writes to (output s) ++
    guarded_writes to (match a with write to w => [(t, to, w)] | _ => [] end)) as Eg
    by by rewrite Ho, guarded_app.
  rewrite Eg in Hother, Hown. clear Ho.
  destruct a as [to' [p|text|c]|to'|to']; cbn [inside newline_next guarded_writes flat_map guarded] in *.
  - apply Hother; [done|by rewrite Hs|]. case_decide; by rewrite !app_nil_r.
  - destruct Hs as [Hr Hn]. destruct (decide (to' = to)) as [->|Hne].
    2: { apply Hother; [congruence|congruence|by rewrite app_nil_r]. }
    destruct (Htail eq_refl) as (ls & tail & Hg & ->). rewrite Hn in Hown.
    apply (Hown ls [(t, vfprintf text)]); [done|by rewrite Hg, app_nil_r|by exists text].
  - destruct Hs as (-> & Hr & Hn). destruct (decide (to' = to)) as [->|Hne].
    2: { apply Hother; [congruence|congruence|by rewrite app_nil_r]. }
    destruct (Htail eq_refl) as (ls & tail & Hg & text & ->). rewrite Hn in Hown.
    apply (Hown (ls ++ [(t, text)]) []); [done| |done].
    by rewrite Hg, map_app, concat_app, !app_nil_r, <- (assoc_L (++)).
  - destruct Hs as [Hr Hn]. rewrite app_nil_r in *. destruct (decide (to' = to)) as [->|Hne].
    2: { apply Hother; congruence. }
    destruct (inv_lines _ _ Hinv to) as (ls & tail & Hg & Ht).
    rewrite (moved_free _ _ _ _ _ Hm to eq_refl) in Ht. rewrite Hn in Hown.
    by apply (Hown ls tail).
  - rewrite app_nil_r in *. destruct (decide (to' = to)) as [->|Hne].
    2: { apply Hother; congruence. }
    destruct (Htail eq_refl) as (ls & tail & Hg & Ht). exists ls, tail.
    rewrite Hh, decide_False, decide_True by congruence. split; [|done]. by rewrite Eg.
Qed.

Lemma step_order u l :
  todo s' !! u = Some l -> exists cs d, threads !! u = Some cs /\
    program STD_LOGGER_INIT cs = d ++ l /\
    forall to, thread_writes u to (output s') = program_writes to d.
Proof.
  assert (forall v to, thread_writes v to (output s') = thread_writes v to (output s) ++
    (if decide (v = t) then program_writes to [a] else [])) as Hw.
  { intros v to. rewrite (moved_output _ _ _ _ _ Hm). unfold thread_writes at 1.
    rewrite flat_map_app. fold (thread_writes v to (output s)). f_equal.
    destruct a; cbn; repeat case_decide; naive_solver. }
  intros [[-> ->]|[Hne Hl]]%step_lookup.
  - destruct (inv_order _ _ Hinv _ _ (moved_from _ _ _ _ _ Hm)) as (cs & d & Hc & Hp & Hd).
    exists cs, (d ++ [a]). split; [done|]. split; [by rewrite <- (assoc_L (++))|].
    intros to. rewrite Hw, Hd, decide_True by done. unfold program_writes. by rewrite flat_map_app.
  - destruct (inv_order _ _ Hinv _ _ Hl) as (cs & d & Hc & Hp & Hd). exists cs, d.
    split; [done|]. split; [done|]. intros to. by rewrite Hw, Hd, decide_False, app_nil_r.
Qed.

Lemma step_inv : log_inv threads s'.
Proof.
  split.
  - intros u l [[-> ->]|[_ Hl]]%step_lookup; [apply step_left|by eapply inv_left].
  - apply step_inv_holder.
  - apply step_lines.
  - apply step_order.
Qed.
End Step.

Lemma initial_inv threads : log_inv threads (log_initial STD_LOGGER_INIT threads).
Proof.
  assert (forall t l, map (program STD_LOGGER_INIT) threads !! t = Some l -> exists cs,
    threads !! t = Some cs /\ l = program STD_LOGGER_INIT cs) as Hl.
  { intros t l. rewrite list_lookup_fmap. destruct (threads !! t) as [cs|]; [|done].
    intros [= <-]. by exists cs. }
  split; cbn.
  - intros t l (cs & _ & ->)%Hl. apply left_of_program.
  - intros to t. split; [done|]. intros (l & (cs & _ & ->)%Hl & Hin).
    by destruct cs as [|[[] ?] ?].
  - intros to. by exists [], [].
  - intros t l (cs & Hc & ->)%Hl. by exists cs, [].
Qed.

Lemma reachable_inv threads s :
  log_reachable STD_LOGGER_INIT threads s -> log_inv threads s.
Proof.
  intros H. eapply (rtc_ind_r (log_inv threads)); [apply initial_inv| |exact H].
  intros s1 s2 _ [t Ht] Hi. apply run_action_moved in Ht as (a & rest & Hm). by eapply step_inv.
Qed.

(** ** Properties *)

(** C35: However threads that log through the standard logger interleave, what is
    written to a stream under its mutex is a sequence of whole lines, each a
    thread's message followed by its newline, but for a message whose thread
    holds the mutex still; every thread's writes come in the order of its
    calls; and when no thread has anything left to do no line is open and every
    write has been made. *)
Theorem std_log_lines_intact threads s to :
  log_reachable STD_LOGGER_INIT threads s ->
  (exists ls tail, guarded_writes to (output s) = concat (map line ls) ++ tail /\
     (tail = [] \/ exists t text, tail = [(t, vfprintf text)] /\ holder s to = Some t) /\
     (Forall (eq []) (todo s) -> tail = [])) /\
  forall t l, todo s !! t = Some l -> exists cs d, threads !! t = Some cs /\
    program STD_LOGGER_INIT cs = d ++ l /\ thread_writes t to (output s) = program_writes to d.
Proof.
  intros Hinv%reachable_inv. split.
  - destruct (inv_lines _ _ Hinv to) as (ls & tail & Hg & Ht). exists ls, tail.
    split; [done|]. destruct (holder s to) as [t|]; [|by subst; auto].
    destruct Ht as (l & Hl & Ht). destruct (newline_next l) eqn:En; [|by subst; auto].
    destruct Ht as [text ->]. split; [by right; exists t, text|]. intros Hall.
    rewrite Forall_lookup in Hall. by rewrite <- (Hall _ _ Hl) in En.
  - intros t l Hl. destruct (inv_order _ _ Hinv _ _ Hl) as (cs & d & ? & ? & ?). by exists cs, d.
Qed.

(** *** The property at work *)

Definition sample_threads : list calls :=
  [[(level_error, lit "a")]; [(level_warn, lit "b"); (level_info, lit "c")]].

(** Both threads write their prefix before one of them gets the mutex. *)
Definition sample_schedule : list nat := [0; 1; 0; 0; 0; 0; 1; 1; 1; 1; 1; 1; 1; 1; 1]%nat.

Definition sample_end : log_state :=
  default (log_initial STD_LOGGER_INIT []) (run_schedule sample_schedule
    (log_initial STD_LOGGER_INIT sample_threads)).

Lemma run_schedule_reachable current threads ts s s' :
  log_reachable current threads s -> run_schedule ts s = Some s' ->
  log_reachable current threads s'.
Proof.
  revert s. induction ts as [|t ts IH]; intros s Hs H; cbn in H; [by simplify_eq|].
  destruct (run_action t s) as [s1|] eqn:E; [|done]. apply (IH s1); [|done].
  eapply rtc_r; [exact Hs|by exists t].
Qed.

Lemma sample_reachable : log_reachable STD_LOGGER_INIT sample_threads sample_end.
Proof. apply (run_schedule_reachable _ _ sample_schedule _ _ (rtc_refl _ _)). reflexivity. Qed.

Lemma std_log_lines_intact_witness :
  (exists ls tail, guarded_writes stderr (output sample_end) = concat (map line ls) ++ tail /\
     (tail = [] \/ exists t text, tail = [(t, vfprintf text)] /\ holder sample_end stderr = Some t) /\
     (Forall (eq []) (todo sample_end) -> tail = [])) /\
  forall t l, todo sample_end !! t = Some l -> exists cs d, sample_threads !! t = Some cs /\
    program STD_LOGGER_INIT cs = d ++ l /\
    thread_writes t stderr (output sample_end) = program_writes stderr d.
Proof. apply (std_log_lines_intact sample_threads). apply sample_reachable. Defined.

(** One thread alone writes the level, the message and a newline. *)
Theorem log_error_text :
  stream_text stderr (default (log_initial STD_LOGGER_INIT [])
    (run_schedule (replicate 5 0%nat) (log_initial jaeger_get_logger [[(level_error, lit "a")]])))
  = lit "error: a" ++ [newline].
Proof. vm_compute. reflexivity. Qed.

(** *** Defects *)

(** The prefix is written before the mutex is taken, so the lines of two
    threads are not whole: here one starts with both prefixes and the other
    has none. *)
Theorem log_prefixes_interleave :
  log_reachable STD_LOGGER_INIT sample_threads sample_end /\
  stream_text stderr sample_end
  = lit "error: warn: a" ++ newline :: lit "b" ++ [newline].
Proof. split; [apply sample_reachable|vm_compute; reflexivity]. Qed.
