(* ===== verification/Net.v ===== *)
(** * Network addresses (net.c)

    Host and port pairs: construction, destruction, their text form and its
    parser, and their extraction from a URL; and the two system calls the
    client wraps, name resolution and the opening of a socket. The URL parser
    (http-parser), the resolver and the sockets are parameters. *)
From S2P Require Import Prelude Machine CString.

(** ** Definitions *)

(** *** Code outside the source *)

(** An element of the resolver's list: an address and its size. *)
Record addrinfo (A : Type) := AddrInfo { ai_addr : A; ai_addrlen : Z }.
Arguments AddrInfo {A} ai_addr ai_addrlen.
Arguments ai_addr {A} _.
Arguments ai_addrlen {A} _.

(** Sockets and their state; [sendto] returns the number of bytes written,
    [sys_socket] the descriptor and the new socket, [getaddrinfo] an error
    code and a list, [sys_read] a count and the bytes. [SOCK_CLOEXEC] is not
    defined on every platform. *)
Class Network := {
  socket : Type;
  sockaddr : Type;
  sockaddr_zero : sockaddr;
  sizeof_sockaddr_in : Z;
  sendto : socket -> list Z -> sockaddr -> Z * socket;
  AF_INET : Z;
  SOCK_DGRAM : Z;
  SOCK_STREAM : Z;
  SOCK_CLOEXEC : option Z;
  FD_CLOEXEC : Z;
  sys_socket : Z -> Z -> Z * socket;
  fcntl_getfd : socket -> Z * socket;
  fcntl_setfd : socket -> Z -> socket;
  getaddrinfo : option cstr -> cstr -> Z -> Z -> Z * list (addrinfo sockaddr);
  sys_connect : socket -> sockaddr -> Z -> Z * socket;
  sys_write : socket -> list ascii -> Z * socket;
  sys_read : socket -> Z -> Z * list ascii * socket;
}.

(** What http-parser finds in a URL: which fields are present, as a bit set,
    and the offset and length of each; [UF_HOST], [UF_PORT] and [UF_PATH] are
    the indices of three of them. *)
Record http_parser_url := ParsedUrl { field_set : Z; field_data : Z -> Z * Z }.

Class UrlParser := {
  UF_HOST : Z;
  UF_PORT : Z;
  UF_PATH : Z;
  http_parser_parse_url : cstr -> Z * http_parser_url;
}.

(** *** Data *)

Definition JAEGERTRACINGC_MAX_PORT_STR_LEN : Z := 6.

Record jaeger_host_port := HostPort { hp_host : option cstr; hp_port : Z }.

Definition JAEGERTRACINGC_HOST_PORT_INIT : jaeger_host_port := HostPort None 0.

Record jaeger_url := Url { url_str : option cstr; parts : http_parser_url }.

(** The offset is an unsigned 16-bit member: -1 is stored as 65535. *)
Definition JAEGERTRACINGC_URL_INIT : jaeger_url :=
  Url None (ParsedUrl 0 (fun i => if i =? 0 then (65535, 0) else (0, 0))).

Definition HOST_NAME_MAX : Z := 64.

Section Net.
Context {env : Env}.

(** *** Construction and destruction *)

Definition jaeger_host_port_init (host_port : jaeger_host_port) (host : option cstr) (port : Z)
    : M (bool * jaeger_host_port) :=
  match host with
  | None | Some [] => ret (false, host_port)
  | Some host =>
      if (port <? 0) || (port >? USHRT_MAX) then ret (false, host_port)
      else
        copy ← jaeger_strdup host;
        match copy with
        | None => ret (false, HostPort None (hp_port host_port))
        | Some _ => ret (true, HostPort copy port)
        end
  end.

Definition jaeger_host_port_destroy (host_port : option jaeger_host_port)
    : option jaeger_host_port :=
  match host_port with
  | None => None
  | Some _ => Some JAEGERTRACINGC_HOST_PORT_INIT
  end.

(** *** Text *)

(** The number after the host: it must be the rest of the token. *)
Definition scan_port (host_port : jaeger_host_port) (token : cstr) : bool * jaeger_host_port :=
  let '(n, rest) := strtol 10 token in
  let port := to_signed 32 n in
  if negb (bool_decide (rest = [])) || (port <? 0) || (port >? USHRT_MAX)
  then (false, HostPort None (hp_port host_port))
  else (true, HostPort (hp_host host_port) port).

Definition jaeger_host_port_scan (host_port : jaeger_host_port) (str : option cstr)
    : M (bool * jaeger_host_port) :=
  match str with
  | None => ret (false, host_port)
  | Some str =>
      if to_signed 32 (strlen str) =? 0 then ret (false, host_port)
      else
        str_copy ← jaeger_strdup str;
        match str_copy with
        | None => ret (false, host_port)
        | Some str_copy =>
            match strtok_r ":" str_copy with
            | None => ret (false, host_port)
            | Some (token, token_context) =>
                let port_token := if bool_decide (head str_copy = Some ":"%char)
                                  then Some token else None in
                let token := if port_token is Some _ then lit "localhost" else token in
                host ← jaeger_strdup token;
                let host_port := HostPort host (hp_port host_port) in
                if bool_decide (host = None) then ret (false, host_port)
                else
                  match port_token with
                  | Some token => ret (scan_port host_port token)
                  | None =>
                      match strtok_r ":" token_context with
                      | None => ret (true, HostPort host 0)
                      | Some (token, _) => ret (scan_port host_port token)
                      end
                  end
            end
        end
  end.

Definition jaeger_host_port_format (host_port : jaeger_host_port) (buffer_len : Z)
    : M (Z * option cstr) :=
  match hp_host host_port with
  | None => fail NullDeref
  | Some host =>
      if hp_port host_port =? 0 then ret (snprintf buffer_len host)
      else ret (snprintf buffer_len (host ++ ":"%char :: print_dec (hp_port host_port)))
  end.

(** *** URLs *)

Context {parser : UrlParser}.

Definition jaeger_url_init (url : jaeger_url) (str : option cstr) : M (bool * jaeger_url) :=
  match str with
  | None => c_assert false;; fail NullDeref
  | Some str =>
      c_assert (strlen str >? 0);;
      let '(result, parsed) := http_parser_parse_url str in
      let url := Url (url_str url) parsed in
      if negb (result =? 0) then ret (false, url)
      else
        copy ← jaeger_strdup str;
        ret (bool_decide (is_Some copy), Url copy parsed)
  end.

Definition jaeger_url_destroy (url : option jaeger_url) : option jaeger_url :=
  match url with
  | None => None
  | Some _ => Some JAEGERTRACINGC_URL_INIT
  end.

Definition has_field (url : jaeger_url) (field : Z) : bool :=
  negb (Z.land (field_set (parts url)) (Z.shiftl 1 field) =? 0).

(** [strtol(&str[off], &end, 10)], with the assertion on where it stops. *)
Definition url_port (str : cstr) (off len : Z) : M Z :=
  if (off <? 0) || (off >? strlen str) then fail OutOfBounds
  else
    let '(n, rest) := strtol 10 (drop (Z.to_nat off) str) in
    c_assert (strlen str - strlen rest =? off + len);;
    ret (to_signed 32 n).

(** The [len] bytes at [off], copied to a buffer and ended by NUL: on the heap
    when they do not fit the one on the stack. *)
Definition url_host (str : cstr) (off len : Z) : M (option cstr) :=
  granted ← (if len >? HOST_NAME_MAX then jaeger_malloc else ret true);
  if negb granted then ret None
  else if (off <? 0) || (off + len >? strlen str + 1) then fail OutOfBounds
  else ret (Some (until_nul (take (Z.to_nat len) (drop (Z.to_nat off) (str ++ [nul]))))).

Definition jaeger_host_port_from_url (host_port : jaeger_host_port) (url : jaeger_url)
    : M (bool * jaeger_host_port) :=
  match url_str url with
  | None => c_assert false;; fail NullDeref
  | Some str =>
      port ← (if has_field url UF_PORT
              then let '(off, len) := field_data (parts url) UF_PORT in url_port str off len
              else ret 0);
      let '(off, len) := if has_field url UF_HOST then field_data (parts url) UF_HOST
                         else (-1, 0) in
      if len =? 0 then jaeger_host_port_init host_port (Some (lit "localhost")) port
      else
        host_buffer ← url_host str off len;
        match host_buffer with
        | None => ret (false, host_port)
        | Some host => jaeger_host_port_init host_port (Some host) port
        end
  end.

(** *** System calls *)

Context {net : Network}.

(** The list is written on success only. *)
Definition jaeger_host_port_resolve (host_port : jaeger_host_port) (socket_type : Z)
    (host_addrs : option (list (addrinfo sockaddr)))
    : M (bool * option (list (addrinfo sockaddr))) :=
  c_assert (match hp_host host_port with Some host => strlen host >? 0 | None => false end);;
  let '(result, buffer) :=
    snprintf JAEGERTRACINGC_MAX_PORT_STR_LEN (print_dec (hp_port host_port)) in
  c_assert (result <? JAEGERTRACINGC_MAX_PORT_STR_LEN);;
  let '(result, addrs) := getaddrinfo (hp_host host_port) (default [] buffer) AF_INET socket_type in
  if negb (result =? 0) then ret (false, host_addrs) else ret (true, Some addrs).

Definition open_socket (domain type : Z) : Z * socket :=
  match SOCK_CLOEXEC with
  | Some cloexec => sys_socket domain (Z.lor type cloexec)
  | None =>
      let '(fd, s) := sys_socket domain type in
      if fd <? 0 then (fd, s)
      else
        let '(flags, s) := fcntl_getfd s in
        if flags <? 0 then (fd, s)
        else (fd, fcntl_setfd s (Z.lor flags FD_CLOEXEC))
  end.
End Net.

(** ** Lemmas *)

(** A well-formed pair: what the constructors promise. *)
Definition host_port_wf (hp : jaeger_host_port) : Prop :=
  exists host, hp_host hp = Some host /\ host <> [] /\ 0 <= hp_port hp <= USHRT_MAX.

(** The text form. *)
Definition host_port_text (hp : jaeger_host_port) : cstr :=
  let host := default [] (hp_host hp) in
  if hp_port hp =? 0 then host else host ++ ":"%char :: print_dec (hp_port hp).

(** A host the text form is unambiguous for. *)
Definition no_colon (hp : jaeger_host_port) : Prop :=
  forall host, hp_host hp = Some host -> ":"%char ∉ host.

Section NetFacts.
Context {env : Env}.

Lemma host_port_init_wp hp host port Q w :
  short host -> host <> [] -> 0 <= port <= USHRT_MAX ->
  (forall w', alloc_only w w' -> ~ plenty w -> Q (false, HostPort None (hp_port hp)) w') ->
  (forall w', alloc_only w w' -> Q (true, HostPort (Some host) port) w') ->
  wp (jaeger_host_port_init hp (Some host) port) Q w.
Proof.
  intros Hs Hne Hp Hf Ht. unfold jaeger_host_port_init. destruct host as [|c host]; [done|].
  rewrite Z.gtb_ltb, (proj2 (Z.ltb_ge port 0)), (proj2 (Z.ltb_ge _ port)) by lia. cbn [orb].
  wp_step. apply wp_strdup; [done|auto..].
Qed.

Lemma scan_port_cases hp token :
  (exists port, scan_port hp token = (true, HostPort (hp_host hp) port) /\ 0 <= port <= USHRT_MAX)
  \/ scan_port hp token = (false, HostPort None (hp_port hp)).
Proof.
  unfold scan_port. destruct (strtol 10 token) as [n rest].
  destruct (_ || _) eqn:E; [by right|left]. rewrite Z.gtb_ltb in E. reflect_bools.
  eexists. split; [reflexivity|lia].
Qed.

Lemma scan_port_print hp port :
  0 <= port <= USHRT_MAX -> scan_port hp (print_dec port) = (true, HostPort (hp_host hp) port).
Proof.
  intros Hp. unfold scan_port, USHRT_MAX in *. rewrite <- (app_nil_r (print_dec port)).
  rewrite strtol_print_dec by (unfold INT_MAX; done || lia).
  rewrite to_signed_small by lia. rewrite bool_decide_eq_true_2 by done.
  rewrite Z.gtb_ltb, (proj2 (Z.ltb_ge port 0)), (proj2 (Z.ltb_ge _ port)) by lia. done.
Qed.

(** Whatever the text, scanning gives a well-formed pair or fails and leaves
    the pair as it was or without a host. *)
Definition scan_result (hp : jaeger_host_port) (r : bool * jaeger_host_port) : Prop :=
  if r.1 then host_port_wf r.2 else r.2 = hp \/ hp_host r.2 = None.

Lemma scan_port_result hp hp0 host token :
  hp_host hp = Some host -> host <> [] -> scan_result hp0 (scan_port hp token).
Proof.
  intros Hh Hne. destruct (scan_port_cases hp token) as [(port & -> & Hp)| ->]; cbn.
  - by exists host.
  - by right.
Qed.

Lemma host_port_scan_wp hp str Q w :
  short str ->
  (forall r w', alloc_only w w' -> scan_result hp r -> Q r w') ->
  wp (jaeger_host_port_scan hp (Some str)) Q w.
Proof.
  intros Hs HQ. unfold jaeger_host_port_scan. wp_steps; [by apply HQ; [|left]|].
  apply wp_strdup; [done| |]; intros w1 Hw1; [by intros _; apply HQ; [|left]|].
  destruct (strtok_r ":" str) as [[token context]|] eqn:Et; [|by apply HQ; [|left]].
  pose proof (strtok_r_length _ _ _ _ Et). apply strtok_r_shorter in Et as [_ Hne].
  wp_step. apply wp_strdup.
  - unfold short in Hs. case_bool_decide; [vm_compute; reflexivity|lia].
  - intros w2 Hw2 _. apply HQ; [by etrans|by right].
  - intros w2 Hw2. assert (alloc_only w w2) by by etrans. rewrite bool_decide_eq_false_2 by done.
    case_bool_decide; cbn iota.
    + by apply HQ; [|eapply scan_port_result].
    + destruct (strtok_r ":" context) as [[token' ?]|]; apply HQ; try done.
      * by eapply scan_port_result.
      * exists token. cbn. unfold USHRT_MAX. split_and!; done || lia.
Qed.

Lemma host_port_scan_text_wp hp Q w :
  host_port_wf hp -> no_colon hp -> short (host_port_text hp) -> plenty w ->
  (forall w', alloc_only w w' -> Q (true, hp) w') ->
  wp (jaeger_host_port_scan JAEGERTRACINGC_HOST_PORT_INIT (Some (host_port_text hp))) Q w.
Proof.
  intros (host & Hh & Hne & Hp) Hc Hs Hw HQ. specialize (Hc host Hh).
  assert (lenZ (host_port_text hp) < INT_MAX) as Hs' by done. unfold INT_MAX in Hs'.
  unfold jaeger_host_port_scan. rewrite to_signed_small by (unfold strlen; lia).
  assert (lenZ host <= lenZ (host_port_text hp)) as Hle.
  { unfold host_port_text. rewrite Hh. cbn [from_option id]. case_ifs; lists. }
  assert (0 < lenZ host) by (destruct host; [done|cbn [length]; lia]).
  rewrite (proj2 (Z.eqb_neq _ _)) by (unfold strlen; lia).
  wp_step. apply wp_strdup; [done|by intros|]. intros w1 Hw1.
  unfold host_port_text. rewrite Hh. cbn [from_option id]. destruct hp as [? port]. cbn in *.
  assert (forall t, head (host ++ t) <> Some ":"%char) as Hhd.
  { destruct host as [|c host]; [done|]. intros t [= ->]. apply Hc. by left. }
  assert (plenty w1) by eauto using plenty_alloc_only.
  destruct (Z.eqb_spec port 0) as [->|Hz].
  - rewrite strtok_r_last by done. specialize (Hhd []). rewrite app_nil_r in Hhd.
    rewrite (bool_decide_eq_false_2 (head _ = _)) by done. wp_step.
    apply wp_strdup; [unfold short, INT_MAX; lia|by intros|]. intros w2 Hw2.
    rewrite bool_decide_eq_false_2 by done. replace (Some host) with hp_host0; apply HQ; by etrans.
  - rewrite strtok_r_app by done. rewrite (bool_decide_eq_false_2 (head _ = _)) by done. wp_step.
    apply wp_strdup; [unfold short, INT_MAX; lia|by intros|]. intros w2 Hw2.
    rewrite bool_decide_eq_false_2 by done. pose proof (print_dec_length port ltac:(lia)).
    rewrite strtok_r_last.
    + wp_step. rewrite scan_port_print by lia. cbn [hp_host]; rewrite <- Hh; apply HQ; by etrans.
    + intros E. rewrite E in *. cbn in *. lia.
    + intros Hin. pose proof (print_dec_digits port ltac:(lia)) as HF.
      rewrite Forall_forall in HF. apply HF in Hin. done.
Qed.

Lemma host_port_resolve_wp {net : Network} hp type addrs Q w :
  host_port_wf hp -> Q (false, addrs) w -> (forall found, Q (true, Some found) w) ->
  wp (jaeger_host_port_resolve hp type addrs) Q w.
Proof.
  intros (host & Hh & Hne & Hp) Hf Ht. unfold jaeger_host_port_resolve, JAEGERTRACINGC_MAX_PORT_STR_LEN.
  rewrite Hh. wp_step. apply wp_assert.
  { unfold strlen. destruct host; [done|apply Z.gtb_lt; cbn [length]; lia]. }
  unfold snprintf. wp_step. apply wp_assert.
  { pose proof (print_port_length _ Hp). lia. }
  destruct (getaddrinfo _ _ _ _) as [result found].
  destruct (negb (result =? 0)); [exact Hf|apply Ht].
Qed.

Lemma resolve_found_wp {net : Network} hp type addrs found host Q w :
  hp_host hp = Some host -> host <> [] -> 0 <= hp_port hp <= USHRT_MAX ->
  getaddrinfo (Some host) (print_dec (hp_port hp)) AF_INET type = (0, found) ->
  Q (true, Some found) w -> wp (jaeger_host_port_resolve hp type addrs) Q w.
Proof.
  intros Hh Hne Hp Hg HQ. unfold jaeger_host_port_resolve, JAEGERTRACINGC_MAX_PORT_STR_LEN.
  rewrite Hh. wp_step. apply wp_assert.
  { unfold strlen. destruct host; [done|apply Z.gtb_lt; cbn [length]; lia]. }
  pose proof (print_port_length _ Hp).
  unfold snprintf. wp_step. apply wp_assert; [lia|]. cbn [Z.leb Z.compare].
  change (6 <=? 0) with false. cbn [from_option id].
  rewrite take_ge by lia. by rewrite Hg.
Qed.

(** The segments of a URL. *)
Lemma url_port_wp before port after Q w :
  0 <= port <= USHRT_MAX -> stops 10 after -> Q port w ->
  wp (url_port (before ++ print_dec port ++ after) (lenZ before) (lenZ (print_dec port))) Q w.
Proof.
  intros Hp Ha HQ. unfold url_port, strlen, USHRT_MAX in *.
  rewrite (proj2 (Z.ltb_ge _ _)), Z.gtb_ltb, (proj2 (Z.ltb_ge _ _)) by lists. cbn [orb].
  rewrite Nat2Z.id, drop_app_length, strtol_print_dec by (unfold INT_MAX; done || lia).
  wp_step. apply wp_assert; [apply Z.eqb_eq; lists|].
  wp_step. by rewrite to_signed_small by lia.
Qed.

Lemma url_host_wp before host after Q w :
  nul ∉ host -> plenty w -> (forall w', alloc_only w w' -> Q (Some host) w') ->
  wp (url_host (before ++ host ++ after) (lenZ before) (lenZ host)) Q w.
Proof.
  intros Hn Hw HQ. unfold url_host. wp_step.
  eapply wp_mono with (P := fun ok w' => ok = true /\ alloc_only w w').
  { wp_steps; [|done]. split; [auto|done]. }
  intros ok w1 [-> Hw1]. cbn [negb]. unfold strlen.
  rewrite (proj2 (Z.ltb_ge _ _)), Z.gtb_ltb, (proj2 (Z.ltb_ge _ _)) by lists. cbn [orb].
  wp_step. rewrite <- !(assoc_L (++)), !Nat2Z.id, drop_app_length, take_app_length.
  rewrite until_nul_id by done. by apply HQ.
Qed.
(** When the fields http-parser reports are the host and the decimal port of
    the URL, the pair extracted from it is that host and that port. *)
Record url_names {parser : UrlParser} (url : jaeger_url) (host : cstr) (port : Z) : Prop := {
  names_host : host <> [] /\ nul ∉ host /\ short host;
  names_port : 0 <= port <= USHRT_MAX;
  names_fields : has_field url UF_HOST = true /\ has_field url UF_PORT = true;
  names_text : exists before after,
    url_str url = Some (before ++ host ++ ":"%char :: print_dec port ++ after) /\ stops 10 after /\
    field_data (parts url) UF_HOST = (lenZ before, lenZ host) /\
    field_data (parts url) UF_PORT = (lenZ before + lenZ host + 1, lenZ (print_dec port));
}.

Lemma host_port_from_url_wp {parser : UrlParser} hp url host port Q w :
  plenty w -> url_names url host port ->
  (forall w', alloc_only w w' -> Q (true, HostPort (Some host) port) w') ->
  wp (jaeger_host_port_from_url hp url) Q w.
Proof.
  intros Hw [(Hne & Hnul & Hs) Hp [Hfh Hfp] (before & after & Hu & Ha & Hh & Hpo)] HQ.
  unfold jaeger_host_port_from_url. rewrite Hu, Hfh, Hfp, Hh, Hpo. wp_step.
  assert (0 < lenZ host) by (destruct host; [done|cbn [length]; lia]).
  replace (before ++ host ++ ":"%char :: print_dec port ++ after)
    with ((before ++ host ++ [":"%char]) ++ print_dec port ++ after)
    by by rewrite <- !(assoc_L (++)).
  replace (lenZ before + lenZ host + 1) with (lenZ (before ++ host ++ [":"%char])) by lists.
  apply url_port_wp; [done..|]. rewrite (proj2 (Z.eqb_neq _ _)) by lia. wp_step.
  rewrite <- !(assoc_L (++)). apply url_host_wp; [done..|]. intros w1 Hw1.
  apply host_port_init_wp; try done.
  - intros w2 Hw2 Hn. by destruct Hn; eauto using plenty_alloc_only.
  - intros w2 Hw2. apply HQ. by etrans.
Qed.
End NetFacts.

(** ** Properties *)

(** Formatting a well-formed pair whose host has no colon into a large enough
    buffer and scanning the text gives the pair back; a zero port is left out
    of the text and restored. *)
Theorem host_port_roundtrip (env : Env) hp buffer_len w :
  host_port_wf hp -> no_colon hp -> short (host_port_text hp) -> lenZ (host_port_text hp) < buffer_len -> plenty w ->
  exists text w',
    jaeger_host_port_format hp buffer_len w = Ok (lenZ text, Some text) w /\
    jaeger_host_port_scan JAEGERTRACINGC_HOST_PORT_INIT (Some text) w = Ok (true, hp) w' /\
    alloc_only w w'.
Proof.
  intros Hwf Hc Hs Hlen Hw. exists (host_port_text hp).
  assert (wp (jaeger_host_port_scan JAEGERTRACINGC_HOST_PORT_INIT (Some (host_port_text hp)))
    (fun r w' => r = (true, hp) /\ alloc_only w w') w) as (? & w' & E & -> & ?)%wp_returns
    by by apply host_port_scan_text_wp.
  exists w'. split; [|done]. destruct Hwf as (host & Hh & Hne & Hp).
  unfold jaeger_host_port_format, host_port_text in *.
  rewrite Hh in *. cbn [from_option id] in *.
  destruct (hp_port hp =? 0) in *; unfold ret, snprintf; rewrite (proj2 (Z.leb_gt _ _)) by lia;
    by rewrite take_ge by lia.
Qed.

Lemma host_port_roundtrip_witness :
  exists text w',
    @jaeger_host_port_format (HostPort (Some (lit "agent")) 6831) 32 initial_world
      = Ok (lenZ text, Some text) initial_world /\
    @jaeger_host_port_scan sample_env JAEGERTRACINGC_HOST_PORT_INIT (Some text) initial_world
      = Ok (true, HostPort (Some (lit "agent")) 6831) w' /\
    alloc_only initial_world w'.
Proof.
  apply (host_port_roundtrip sample_env (HostPort (Some (lit "agent")) 6831) 32 initial_world).
  - exists (lit "agent"). unfold USHRT_MAX. split_and!; done || (cbn; lia).
  - intros host [= <-]. by vm_compute; repeat (apply not_elem_of_cons; split; [discriminate|]);
      apply not_elem_of_nil.
  - vm_compute. reflexivity.
  - vm_compute. reflexivity.
  - apply plenty_sample.
Defined.

(** C28: Whatever the text and whether or not memory runs out, the parser returns:
    an accepted pair has a non-empty host and a port of sixteen bits, so that
    resolving it meets no assertion, and a rejected one has no dangling host. *)
Theorem host_port_scan_then_resolve (env : Env) (net : Network) hp str type w :
  short str ->
  wp (jaeger_host_port_scan hp (Some str)) (fun '(ok, hp') w' =>
    alloc_only w w' /\
    if (ok : bool) then
      host_port_wf hp' /\
      wp (jaeger_host_port_resolve hp' type None) (fun '(found, addrs) _ =>
        found = bool_decide (is_Some addrs)) w'
    else hp' = hp \/ hp_host hp' = None) w.
Proof.
  intros Hs. apply host_port_scan_wp; [done|]. intros [ok hp'] w' Hw' Hr.
  split; [done|]. unfold scan_result in Hr. destruct ok; [|done]. cbn in Hr. split; [done|].
  by apply host_port_resolve_wp.
Qed.

(** A resolver that knows one address. *)
Definition sample_net : Network :=
  {| socket := list (list Z); sockaddr := Z; sockaddr_zero := 0; sizeof_sockaddr_in := 16;
     sendto s b _ := (lenZ b, s ++ [b]);
     AF_INET := 2; SOCK_DGRAM := 2; SOCK_STREAM := 1; SOCK_CLOEXEC := Some 524288; FD_CLOEXEC := 1;
     sys_socket _ _ := (3, []);
     fcntl_getfd s := (0, s); fcntl_setfd s _ := s;
     getaddrinfo _ _ _ _ := (0, [AddrInfo 1 16]);
     sys_connect s _ _ := (0, s); sys_write s b := (lenZ b, s); sys_read s _ := (0, [], s) |}.

Lemma host_port_scan_then_resolve_witness :
  wp (@jaeger_host_port_scan sample_env JAEGERTRACINGC_HOST_PORT_INIT (Some (lit ":6831")))
    (fun '(ok, hp') w' =>
    alloc_only initial_world w' /\
    if (ok : bool) then
      host_port_wf hp' /\
      wp (@jaeger_host_port_resolve sample_env sample_net hp' 2 None) (fun '(found, addrs) _ =>
        found = bool_decide (is_Some addrs)) w'
    else hp' = JAEGERTRACINGC_HOST_PORT_INIT \/ hp_host hp' = None) initial_world.
Proof.
  apply (host_port_scan_then_resolve sample_env sample_net). vm_compute. reflexivity.
Defined.

(** A parser for the sample URL, whose fields are a scheme, a host and a port. *)
Definition sample_url_parser : UrlParser :=
  {| UF_HOST := 1; UF_PORT := 2; UF_PATH := 3;
     http_parser_parse_url _ := (0, ParsedUrl 7 (fun i => if i =? 1 then (7, 5) else if i =? 2 then (13, 4)
                                                  else (17, 9))) |}.

(** The port is converted to [int] before it is checked: 2^32 + 80 is accepted
    as port 80. *)
Theorem host_port_scan_truncates :
  value (@jaeger_host_port_scan sample_env JAEGERTRACINGC_HOST_PORT_INIT
           (Some (lit "agent:4294967376")) initial_world)
  = Some (true, HostPort (Some (lit "agent")) 80).
Proof. vm_compute. reflexivity. Qed.
