(* ===== verification/Sampler.v ===== *)
(** * Samplers (sampler.c, sampling_strategy.h)

    The decision whether a new trace is sampled: constant, probabilistic,
    rate-limiting, guaranteed-throughput and per-operation (adaptive)
    samplers, the tags they leave on the span, and the remotely controlled
    sampler that replaces its inner sampler when the agent's strategies
    change. Fetching the strategies (HTTP and JSON) is a parameter here. *)
From S2P Require Import Prelude Machine Vector CString Float Clock Random Threading TraceId.
From S2P Require Import Metrics Tag.

(** ** Definitions *)

Definition JAEGERTRACINGC_SAMPLER_TYPE_TAG_KEY : cstr := lit "sampler.type".
Definition JAEGERTRACINGC_SAMPLER_PARAM_TAG_KEY : cstr := lit "sampler.param".
Definition JAEGERTRACINGC_SAMPLER_TYPE_CONST : cstr := lit "const".
Definition JAEGERTRACINGC_SAMPLER_TYPE_PROBABILISTIC : cstr := lit "probabilistic".
Definition JAEGERTRACINGC_SAMPLER_TYPE_RATE_LIMITING : cstr := lit "ratelimiting".
Definition JAEGERTRACINGC_SAMPLER_TYPE_LOWER_BOUND : cstr := lit "lowerbound".

Definition DEFAULT_MAX_OPERATIONS : Z := 2000.
(** The double nearest to 0.001. *)
Definition DEFAULT_SAMPLING_RATE : double := dconst 0x10624DD2F1A9FC (-62).

(** *** Strategies (sampling_strategy.h) *)

Record jaeger_operation_strategy := OperationStrategy {
  operation : option cstr;
  op_sampling_rate : double;
}.

Record jaeger_per_operation_strategy := PerOperationStrategy {
  per_operation_strategy : list jaeger_operation_strategy;
  default_sampling_probability : double;
  default_lower_bound_traces_per_second : double;
}.

(** [jaeger_strategy_response]: the union with its discriminant. *)
Inductive jaeger_strategy_response :=
  | probabilistic_strategy (sampling_rate : double)
  | rate_limiting_strategy (max_traces_per_second : double)
  | per_operation (strategy : jaeger_per_operation_strategy)
  | invalid_strategy.

Definition jaeger_operation_strategy_destroy (s : jaeger_operation_strategy)
    : jaeger_operation_strategy := OperationStrategy None (op_sampling_rate s).

(** *** The samplers' states *)

Record jaeger_const_sampler := ConstSampler { decision : bool }.
Record jaeger_probabilistic_sampler := ProbabilisticSampler { sampling_rate : double }.
Record jaeger_rate_limiting_sampler := RateLimitingSampler {
  tok : jaeger_token_bucket;
  max_traces_per_second : double;
}.
Record jaeger_guaranteed_throughput_probabilistic_sampler := GuaranteedSampler {
  probabilistic_sampler : jaeger_probabilistic_sampler;
  lower_bound_sampler : jaeger_rate_limiting_sampler;
}.
Record jaeger_operation_sampler := OperationSampler {
  op_name : option cstr;
  op_sampler : jaeger_guaranteed_throughput_probabilistic_sampler;
}.

Definition zero_bucket : jaeger_token_bucket :=
  TokenBucket (S754_zero false) (S754_zero false) (S754_zero false) (TimeValue 0 0).
#[export] Instance zero_operation_sampler : ZeroBytes jaeger_operation_sampler :=
  OperationSampler None (GuaranteedSampler (ProbabilisticSampler (S754_zero false))
    (RateLimitingSampler zero_bucket (S754_zero false))).

Record jaeger_adaptive_sampler := AdaptiveSampler {
  op_samplers : jaeger_vector jaeger_operation_sampler;
  default_sampler : jaeger_probabilistic_sampler;
  lower_bound : double;
  max_operations : Z;
  adaptive_mutex : jaeger_mutex;
}.

Definition set_op_samplers (s : jaeger_adaptive_sampler)
    (v : jaeger_vector jaeger_operation_sampler) : jaeger_adaptive_sampler :=
  AdaptiveSampler v (default_sampler s) (lower_bound s) (max_operations s) (adaptive_mutex s).
Definition set_adaptive_mutex (s : jaeger_adaptive_sampler) (m : jaeger_mutex)
    : jaeger_adaptive_sampler :=
  AdaptiveSampler (op_samplers s) (default_sampler s) (lower_bound s) (max_operations s) m.

(** [jaeger_sampler_choice]: the union with its type; JAEGERTRACINGC_SAMPLER_CHOICE_INIT
    has an invalid one. *)
Inductive jaeger_sampler_choice :=
  | const_sampler (s : jaeger_const_sampler)
  | probabilistic_choice (s : jaeger_probabilistic_sampler)
  | rate_limiting_sampler (s : jaeger_rate_limiting_sampler)
  | guaranteed_sampler (s : jaeger_guaranteed_throughput_probabilistic_sampler)
  | adaptive_sampler (s : jaeger_adaptive_sampler)
  | invalid_sampler.

Record jaeger_remotely_controlled_sampler := RemoteSampler {
  sampler : jaeger_sampler_choice;
  remote_max_operations : Z;
  remote_metrics : option jaeger_metrics;
  remote_mutex : jaeger_mutex;
}.

Section Definitions.
Context {env : Env} {pb : Protobuf}.

(** The tags argument: NULL, or the span's vector. *)
Abbreviation tags_arg := (option (jaeger_vector jaeger_tag)).

(** *** Tags *)

Definition type_tag (type : cstr) : jaeger_tag :=
  let t := JAEGERTRACINGC_TAG_INIT in
  Tag (Some JAEGERTRACINGC_SAMPLER_TYPE_TAG_KEY) V_STRING (Some type) (v_bool t) (v_int64 t)
    (v_float64 t) (v_binary t).
Definition param_bool (t : jaeger_tag) (b : bool) : jaeger_tag :=
  Tag (Some JAEGERTRACINGC_SAMPLER_PARAM_TAG_KEY) V_BOOL (v_str t) b (v_int64 t) (v_float64 t)
    (v_binary t).
Definition param_float (t : jaeger_tag) (d : double) : jaeger_tag :=
  Tag (Some JAEGERTRACINGC_SAMPLER_PARAM_TAG_KEY) V_FLOAT64 (v_str t) (v_bool t) (v_int64 t) d
    (v_binary t).

(** The block every [is_sampled] ends with: room for two tags, the type, the
    parameter. [stop]: return when the first cannot be appended. *)
Definition append_sampler_tags (stop : bool) (tags : tags_arg) (type : cstr)
    (param : jaeger_tag -> jaeger_tag) : M tags_arg :=
  match tags with
  | None => ret None
  | Some tags =>
      n ← int_chk (jaeger_vector_length tags + 2);
      ' (reserved, tags) ← jaeger_vector_reserve tags n;
      if (reserved : bool) then
        ' (ok, tags) ← jaeger_tag_vector_append tags (type_tag type);
        if stop && negb ok then ret (Some tags)
        else
          ' (_, tags) ← jaeger_tag_vector_append tags (param (type_tag type));
          ret (Some tags)
      else ret (Some tags)
  end.

(** *** Constant *)

Definition jaeger_const_sampler_init (decision : bool) : jaeger_const_sampler :=
  ConstSampler decision.

Definition jaeger_const_sampler_is_sampled (s : jaeger_const_sampler) (tags : tags_arg)
    : M (bool * tags_arg) :=
  tags ← append_sampler_tags true tags JAEGERTRACINGC_SAMPLER_TYPE_CONST
           (fun t => param_bool t (decision s));
  ret (decision s, tags).

(** *** Probabilistic *)

Definition jaeger_probabilistic_sampler_init (rate : double) : M jaeger_probabilistic_sampler :=
  _ ← jaeger_duration_now;
  ret (ProbabilisticSampler (dclamp rate (double_of_Z 0) (double_of_Z 1))).

Definition probabilistic_decision (s : jaeger_probabilistic_sampler) (r : Z) : bool :=
  ldle (lddiv (ld_of_Z r) (ld_of_Z UINT64_MAX)) (ld_of_double (sampling_rate s)).

Definition jaeger_probabilistic_sampler_is_sampled (s : jaeger_probabilistic_sampler)
    (tags : tags_arg) : M (bool * tags_arg) :=
  r ← jaeger_random64;
  let decision := probabilistic_decision s r in
  tags ← append_sampler_tags true tags JAEGERTRACINGC_SAMPLER_TYPE_PROBABILISTIC
           (fun t => param_float t (sampling_rate s));
  ret (decision, tags).

(** *** Rate limiting *)

Definition jaeger_rate_limiting_sampler_init (rate : double) : M jaeger_rate_limiting_sampler :=
  tok ← jaeger_token_bucket_init rate (dmax rate (double_of_Z 1));
  ret (RateLimitingSampler tok rate).

Definition jaeger_rate_limiting_sampler_is_sampled (s : jaeger_rate_limiting_sampler)
    (tags : tags_arg) : M (bool * jaeger_rate_limiting_sampler * tags_arg) :=
  ' (decision, tok) ← jaeger_token_bucket_check_credit (tok s) (double_of_Z 1);
  let s := RateLimitingSampler tok (max_traces_per_second s) in
  tags ← append_sampler_tags false tags JAEGERTRACINGC_SAMPLER_TYPE_RATE_LIMITING
           (fun t => param_float t (max_traces_per_second s));
  ret (decision, s, tags).

(** *** Guaranteed throughput *)

Definition jaeger_guaranteed_throughput_probabilistic_sampler_init (lower_bound rate : double)
    : M jaeger_guaranteed_throughput_probabilistic_sampler :=
  p ← jaeger_probabilistic_sampler_init rate;
  l ← jaeger_rate_limiting_sampler_init lower_bound;
  ret (GuaranteedSampler p l).

Definition jaeger_guaranteed_throughput_probabilistic_sampler_is_sampled
    (s : jaeger_guaranteed_throughput_probabilistic_sampler) (tags : tags_arg)
    : M (bool * jaeger_guaranteed_throughput_probabilistic_sampler * tags_arg) :=
  ' (decision, _) ← jaeger_probabilistic_sampler_is_sampled (probabilistic_sampler s) None;
  if (decision : bool) then
    ' (_, l, _) ← jaeger_rate_limiting_sampler_is_sampled (lower_bound_sampler s) None;
    let s := GuaranteedSampler (probabilistic_sampler s) l in
    tags ← append_sampler_tags false tags JAEGERTRACINGC_SAMPLER_TYPE_PROBABILISTIC
             (fun t => param_float t (sampling_rate (probabilistic_sampler s)));
    ret (true, s, tags)
  else
    ' (decision, l, _) ← jaeger_rate_limiting_sampler_is_sampled (lower_bound_sampler s) None;
    let s := GuaranteedSampler (probabilistic_sampler s) l in
    tags ← append_sampler_tags false tags JAEGERTRACINGC_SAMPLER_TYPE_LOWER_BOUND
             (fun t => param_float t (max_traces_per_second (lower_bound_sampler s)));
    ret (decision, s, tags).

Definition jaeger_guaranteed_throughput_probabilistic_sampler_update
    (s : jaeger_guaranteed_throughput_probabilistic_sampler) (lower_bound rate : double)
    : M jaeger_guaranteed_throughput_probabilistic_sampler :=
  p ← (if dne (sampling_rate (probabilistic_sampler s)) rate
       then jaeger_probabilistic_sampler_init rate else ret (probabilistic_sampler s));
  l ← (if dne (max_traces_per_second (lower_bound_sampler s)) lower_bound
       then jaeger_rate_limiting_sampler_init lower_bound else ret (lower_bound_sampler s));
  ret (GuaranteedSampler p l).

(** *** Per operation *)

Definition jaeger_operation_sampler_destroy (s : option jaeger_operation_sampler)
    : option jaeger_operation_sampler :=
  match s with
  | None => None
  | Some s => Some (OperationSampler None (op_sampler s))
  end.

(** [strcmp] of the names, against an operation name and between samplers. *)
Definition name_cmp (s : jaeger_operation_sampler) (name : cstr) : Z :=
  strcmp (default [] (op_name s)) name.
Definition op_name_cmp (s t : jaeger_operation_sampler) : Z :=
  strcmp (default [] (op_name s)) (default [] (op_name t)).

(** A NULL name would be dereferenced by the comparison. The model faults
    whenever the vector holds one, C when the search reaches it. *)
Definition names_set (v : jaeger_vector jaeger_operation_sampler) : M unit :=
  if forallb (fun s => bool_decide (is_Some (op_name s))) (contents v)
  then ret tt else fail NullDeref.

(** The loop over the strategies: [false] when a name could not be copied.
    The slot of that strategy has been appended, with a NULL name. *)
Fixpoint samplers_loop (lower_bound : double) (ss : list jaeger_operation_strategy)
    (vec : jaeger_vector jaeger_operation_sampler)
    : M (bool * jaeger_vector jaeger_operation_sampler) :=
  match ss with
  | [] => ret (true, vec)
  | strategy :: ss =>
      ' (ptr, vec) ← jaeger_vector_append vec;
      c_assert (bool_decide (is_Some ptr));;
      name ← (match operation strategy with
              | None => c_assert false;; fail NullDeref
              | Some name => jaeger_strdup name
              end);
      old ← load vec ptr;
      match name with
      | None =>
          vec ← store vec ptr (OperationSampler None (op_sampler old));
          ret (false, vec)
      | Some _ =>
          g ← jaeger_guaranteed_throughput_probabilistic_sampler_init lower_bound
                (op_sampling_rate strategy);
          vec ← store vec ptr (OperationSampler name g);
          samplers_loop lower_bound ss vec
      end
  end.

(** On failure the loop that should destroy the samplers made so far destroys
    the one at [index], [index] times; then the vector is cleared. *)
Definition samplers_from_strategies (strategies : jaeger_per_operation_strategy)
    (vec : jaeger_vector jaeger_operation_sampler)
    : M (bool * jaeger_vector jaeger_operation_sampler) :=
  ' (reserved, vec) ← jaeger_vector_reserve (jaeger_vector_clear vec)
                        (to_signed 32 (lenZ (per_operation_strategy strategies)));
  if negb reserved then ret (false, vec)
  else
    ' (success, vec) ← samplers_loop (default_lower_bound_traces_per_second strategies)
                         (per_operation_strategy strategies) vec;
    if negb success then ret (false, jaeger_vector_clear vec)
    else names_set vec;; ret (true, jaeger_vector_sort op_name_cmp vec).

Definition jaeger_adaptive_sampler_find_sampler (s : jaeger_adaptive_sampler) (name : cstr)
    : M (option Z) :=
  operation_name_copy ← jaeger_strdup name;
  match operation_name_copy with
  | None => ret None
  | Some key => names_set (op_samplers s);; jaeger_vector_bsearch name_cmp (op_samplers s) key
  end.

(** Asking the sampler at [ptr] and storing its new state. *)
Definition ask_op_sampler (s : jaeger_adaptive_sampler) (ptr : option Z) (tags : tags_arg)
    : M (bool * jaeger_adaptive_sampler * tags_arg) :=
  o ← load (op_samplers s) ptr;
  ' (decision, g, tags) ←
    jaeger_guaranteed_throughput_probabilistic_sampler_is_sampled (op_sampler o) tags;
  v ← store (op_samplers s) ptr (OperationSampler (op_name o) g);
  ret (decision, set_op_samplers s v, tags).

Definition use_default_sampler (s : jaeger_adaptive_sampler) (tags : tags_arg)
    : M (bool * jaeger_adaptive_sampler * tags_arg) :=
  ' (decision, tags) ← jaeger_probabilistic_sampler_is_sampled (default_sampler s) tags;
  ret (decision, s, tags).

(** A new operation: a sampler is inserted for it, when there is room. *)
Definition add_op_sampler (s : jaeger_adaptive_sampler) (name : cstr) (tags : tags_arg)
    : M (bool * jaeger_adaptive_sampler * tags_arg) :=
  operation_name_copy ← jaeger_strdup name;
  match operation_name_copy with
  | None => use_default_sampler s tags
  | Some key =>
      names_set (op_samplers s);;
      pos ← jaeger_vector_lower_bound name_cmp (op_samplers s) key;
      ' (ptr, v) ← jaeger_vector_insert (op_samplers s) pos;
      match ptr with
      | None => use_default_sampler (set_op_samplers s v) tags
      | Some _ =>
          g ← jaeger_guaranteed_throughput_probabilistic_sampler_init (lower_bound s)
                (sampling_rate (default_sampler s));
          v ← store v ptr (OperationSampler (Some key) g);
          ask_op_sampler (set_op_samplers s v) ptr tags
      end
  end.

Definition adaptive_decide (s : jaeger_adaptive_sampler) (name : cstr) (tags : tags_arg)
    : M (bool * jaeger_adaptive_sampler * tags_arg) :=
  found ← jaeger_adaptive_sampler_find_sampler s name;
  match found with
  | Some _ =>
      o ← load (op_samplers s) found;
      c_assert (name_cmp o name =? 0);;
      ask_op_sampler s found tags
  | None =>
      if jaeger_vector_length (op_samplers s) >=? max_operations s
      then use_default_sampler s tags
      else add_op_sampler s name tags
  end.

Definition jaeger_adaptive_sampler_is_sampled (s : jaeger_adaptive_sampler) (name : cstr)
    (tags : tags_arg) : M (bool * jaeger_adaptive_sampler * tags_arg) :=
  m ← jaeger_mutex_lock (adaptive_mutex s);
  ' (decision, s, tags) ← adaptive_decide (set_adaptive_mutex s m) name tags;
  m ← jaeger_mutex_unlock (adaptive_mutex s);
  ret (decision, set_adaptive_mutex s m, tags).

Definition jaeger_adaptive_sampler_destroy (s : jaeger_adaptive_sampler)
    : M jaeger_adaptive_sampler :=
  ' (_, m) ← jaeger_mutex_destroy (adaptive_mutex s);
  ret (set_adaptive_mutex (set_op_samplers s (jaeger_vector_destroy (op_samplers s))) m).

(** The size of an element is left to the ABI. *)
Context (sizeof_operation_sampler : Z).

Definition jaeger_adaptive_sampler_init (strategies : jaeger_per_operation_strategy)
    (max_operations : Z) : M (option jaeger_adaptive_sampler) :=
  ' (ok, vec) ← jaeger_vector_init JAEGERTRACINGC_VECTOR_INIT sizeof_operation_sampler;
  if negb ok then ret None
  else
    ' (ok, vec) ← samplers_from_strategies strategies vec;
    if negb ok then ret None
    else
      d ← jaeger_probabilistic_sampler_init (default_sampling_probability strategies);
      ret (Some (AdaptiveSampler vec d (default_lower_bound_traces_per_second strategies)
                   max_operations JAEGERTRACINGC_MUTEX_INIT)).

(** The loop of the update. The name of an inserted sampler is never set: the
    slot keeps whatever name the buffer held there. *)
Fixpoint update_loop (lower_bound : double) (ss : list jaeger_operation_strategy)
    (success : bool) (s : jaeger_adaptive_sampler) : M (bool * jaeger_adaptive_sampler) :=
  match ss with
  | [] => ret (success, s)
  | strategy :: ss =>
      match operation strategy with
      | None => c_assert false;; fail NullDeref
      | Some name =>
          found ← jaeger_adaptive_sampler_find_sampler s name;
          match found with
          | Some _ =>
              o ← load (op_samplers s) found;
              g ← jaeger_guaranteed_throughput_probabilistic_sampler_update (op_sampler o)
                    lower_bound (op_sampling_rate strategy);
              v ← store (op_samplers s) found (OperationSampler (op_name o) g);
              update_loop lower_bound ss success (set_op_samplers s v)
          | None =>
              if negb success then update_loop lower_bound ss success s
              else
                operation_name ← jaeger_strdup name;
                match operation_name with
                | None => update_loop lower_bound ss false s
                | Some key =>
                    names_set (op_samplers s);;
                    pos ← jaeger_vector_lower_bound name_cmp (op_samplers s) key;
                    ' (ptr, v) ← jaeger_vector_insert (op_samplers s) pos;
                    match ptr with
                    | None => update_loop lower_bound ss false (set_op_samplers s v)
                    | Some _ =>
                        o ← load v ptr;
                        g ← jaeger_guaranteed_throughput_probabilistic_sampler_init lower_bound
                              (op_sampling_rate strategy);
                        v ← store v ptr (OperationSampler (op_name o) g);
                        update_loop lower_bound ss success (set_op_samplers s v)
                    end
                end
          end
      end
  end.

Definition jaeger_adaptive_sampler_update (s : jaeger_adaptive_sampler)
    (strategies : jaeger_per_operation_strategy) : M (bool * jaeger_adaptive_sampler) :=
  m ← jaeger_mutex_lock (adaptive_mutex s);
  ' (success, s) ← update_loop (default_lower_bound_traces_per_second strategies)
                     (per_operation_strategy strategies) true (set_adaptive_mutex s m);
  m ← jaeger_mutex_unlock (adaptive_mutex s);
  ret (success, set_adaptive_mutex s m).

(** *** The choice of a sampler *)

(** [inner->is_sampled(...)] of the sampler [jaeger_sampler_choice_get_sampler]
    returns; an invalid type has none. *)
Definition jaeger_sampler_choice_is_sampled (choice : jaeger_sampler_choice) (name : cstr)
    (tags : tags_arg) : M (bool * jaeger_sampler_choice * tags_arg) :=
  match choice with
  | const_sampler s =>
      ' (d, tags) ← jaeger_const_sampler_is_sampled s tags; ret (d, choice, tags)
  | probabilistic_choice s =>
      ' (d, tags) ← jaeger_probabilistic_sampler_is_sampled s tags; ret (d, choice, tags)
  | rate_limiting_sampler s =>
      ' (d, s, tags) ← jaeger_rate_limiting_sampler_is_sampled s tags;
      ret (d, rate_limiting_sampler s, tags)
  | guaranteed_sampler s =>
      ' (d, s, tags) ← jaeger_guaranteed_throughput_probabilistic_sampler_is_sampled s tags;
      ret (d, guaranteed_sampler s, tags)
  | adaptive_sampler s =>
      ' (d, s, tags) ← jaeger_adaptive_sampler_is_sampled s name tags;
      ret (d, adaptive_sampler s, tags)
  | invalid_sampler => c_assert false;; fail NullDeref
  end.

Definition jaeger_sampler_choice_destroy (choice : jaeger_sampler_choice)
    : M jaeger_sampler_choice :=
  match choice with
  | adaptive_sampler s => s ← jaeger_adaptive_sampler_destroy s; ret (adaptive_sampler s)
  | _ => ret choice
  end.

(** *** The remotely controlled sampler *)

Definition set_choice (s : jaeger_remotely_controlled_sampler) (c : jaeger_sampler_choice)
    : jaeger_remotely_controlled_sampler :=
  RemoteSampler c (remote_max_operations s) (remote_metrics s) (remote_mutex s).
Definition set_remote_mutex (s : jaeger_remotely_controlled_sampler) (m : jaeger_mutex)
    : jaeger_remotely_controlled_sampler :=
  RemoteSampler (sampler s) (remote_max_operations s) (remote_metrics s) m.

Definition jaeger_remotely_controlled_sampler_is_sampled (s : jaeger_remotely_controlled_sampler)
    (name : cstr) (tags : tags_arg) : M (bool * jaeger_remotely_controlled_sampler * tags_arg) :=
  m ← jaeger_mutex_lock (remote_mutex s);
  ' (result, c, tags) ← jaeger_sampler_choice_is_sampled (sampler s) name tags;
  m ← jaeger_mutex_unlock m;
  ret (result, set_remote_mutex (set_choice s c) m, tags).

(** When the new adaptive sampler cannot be made, the choice already has its
    type, over the bytes of the old one: the model keeps no sampler there. *)
Definition jaeger_remotely_controlled_sampler_update_adaptive_sampler
    (s : jaeger_remotely_controlled_sampler) (strategies : jaeger_per_operation_strategy)
    : M (bool * jaeger_remotely_controlled_sampler) :=
  match sampler s with
  | adaptive_sampler a =>
      ' (ok, a) ← jaeger_adaptive_sampler_update a strategies;
      ret (ok, set_choice s (adaptive_sampler a))
  | choice =>
      _ ← jaeger_sampler_choice_destroy choice;
      a ← jaeger_adaptive_sampler_init strategies (remote_max_operations s);
      match a with
      | None => ret (false, set_choice s invalid_sampler)
      | Some a => ret (true, set_choice s (adaptive_sampler a))
      end
  end.

Definition count (metrics : option jaeger_metrics) (n : counter_name) : M unit :=
  match metrics with
  | None => ret tt
  | Some metrics => c_assert (bool_decide (is_Some (counter metrics n)));; inc (counter metrics n) 1
  end.

(** The switch on the strategy's case. *)
Definition apply_strategy (s : jaeger_remotely_controlled_sampler)
    (response : jaeger_strategy_response) : M (bool * jaeger_remotely_controlled_sampler) :=
  match response with
  | per_operation strategies =>
      jaeger_remotely_controlled_sampler_update_adaptive_sampler s strategies
  | probabilistic_strategy rate =>
      _ ← jaeger_sampler_choice_destroy (sampler s);
      p ← jaeger_probabilistic_sampler_init (dclamp rate (double_of_Z 0) (double_of_Z 1));
      ret (true, set_choice s (probabilistic_choice p))
  | rate_limiting_strategy rate =>
      _ ← jaeger_sampler_choice_destroy (sampler s);
      l ← jaeger_rate_limiting_sampler_init rate;
      ret (true, set_choice s (rate_limiting_sampler l))
  | invalid_strategy => ret (false, s)
  end.

(** [get_sampling_strategies] is the exchange with the agent, which leaves the
    HTTP manager in a new state: [None] is a [false] return. *)
Definition jaeger_remotely_controlled_sampler_update {X : Type}
    (get_sampling_strategies : M (option jaeger_strategy_response * X))
    (s : jaeger_remotely_controlled_sampler) : M (bool * jaeger_remotely_controlled_sampler * X) :=
  ' (result, manager) ← get_sampling_strategies;
  match result with
  | None => count (remote_metrics s) sampler_query_failure;; ret (false, s, manager)
  | Some response =>
      m ← jaeger_mutex_lock (remote_mutex s);
      let s := set_remote_mutex s m in
      count (remote_metrics s) sampler_retrieved;;
      ' (success, s) ← apply_strategy s response;
      count (remote_metrics s)
        (if (success : bool) then sampler_updated else sampler_update_failure);;
      m ← jaeger_mutex_unlock (remote_mutex s);
      ret (success, set_remote_mutex s m, manager)
  end.

(** [manager_init] makes the HTTP manager. *)
Definition jaeger_remotely_controlled_sampler_init {X : Type} (manager_init : M (bool * X))
    (service_name : cstr) (initial_sampler : option jaeger_sampler_choice) (max_ops : Z)
    (metrics : option jaeger_metrics) : M (bool * jaeger_remotely_controlled_sampler * X) :=
  c_assert (strlen service_name >? 0);;
  let max_ops := if max_ops <=? 0 then DEFAULT_MAX_OPERATIONS else max_ops in
  choice ← (match initial_sampler with
            | Some c => ret c
            | None => p ← jaeger_probabilistic_sampler_init DEFAULT_SAMPLING_RATE;
                      ret (probabilistic_choice p)
            end);
  let s := RemoteSampler choice max_ops metrics JAEGERTRACINGC_MUTEX_INIT in
  ' (ok, manager) ← manager_init;
  ret (ok, s, manager).
End Definitions.

(** *** The interface ([jaeger_sampler] and its destructible base) *)

(** The trace identifier is passed and never read; the operation name may be
    NULL, which only a sampler by operation looks at. *)
Class Sampler (S : Type) := {
  is_sampled : S -> jaeger_trace_id -> option cstr -> option (jaeger_vector jaeger_tag) ->
    M (bool * S * option (jaeger_vector jaeger_tag));
  sampler_destroy : S -> M S;
}.

Section Interface.
Context {env : Env} {pb : Protobuf}.

(** [jaeger_const_sampler_destroy] and the like do nothing. *)
Definition jaeger_sampler_noop_destroy {S} (s : S) : M S := ret s.

(** A NULL name reaches [jaeger_strdup], in [jaeger_adaptive_sampler_find_sampler],
    under the sampler's mutex. *)
Definition adaptive_is_sampled_null (s : jaeger_adaptive_sampler)
    : M (bool * jaeger_adaptive_sampler * option (jaeger_vector jaeger_tag)) :=
  _ ← jaeger_mutex_lock (adaptive_mutex s);
  c_assert false;; fail NullDeref.

#[export] Instance const_sampler_ops : Sampler jaeger_const_sampler :=
  {| is_sampled s _ _ tags := ' (d, tags) ← jaeger_const_sampler_is_sampled s tags; ret (d, s, tags);
     sampler_destroy := jaeger_sampler_noop_destroy |}.

#[export] Instance probabilistic_sampler_ops : Sampler jaeger_probabilistic_sampler :=
  {| is_sampled s _ _ tags :=
       ' (d, tags) ← jaeger_probabilistic_sampler_is_sampled s tags; ret (d, s, tags);
     sampler_destroy := jaeger_sampler_noop_destroy |}.

#[export] Instance rate_limiting_sampler_ops : Sampler jaeger_rate_limiting_sampler :=
  {| is_sampled s _ _ tags := jaeger_rate_limiting_sampler_is_sampled s tags;
     sampler_destroy := jaeger_sampler_noop_destroy |}.

#[export] Instance guaranteed_sampler_ops
    : Sampler jaeger_guaranteed_throughput_probabilistic_sampler :=
  {| is_sampled s _ _ tags :=
       jaeger_guaranteed_throughput_probabilistic_sampler_is_sampled s tags;
     sampler_destroy := jaeger_sampler_noop_destroy |}.

#[export] Instance adaptive_sampler_ops : Sampler jaeger_adaptive_sampler :=
  {| is_sampled s _ name tags :=
       match name with
       | Some name => jaeger_adaptive_sampler_is_sampled s name tags
       | None => adaptive_is_sampled_null s
       end;
     sampler_destroy := jaeger_adaptive_sampler_destroy |}.

#[export] Instance remotely_controlled_sampler_ops : Sampler jaeger_remotely_controlled_sampler :=
  {| is_sampled s _ name tags :=
       match name, sampler s with
       | None, adaptive_sampler a =>
           _ ← jaeger_mutex_lock (remote_mutex s);
           ' (d, a, tags) ← adaptive_is_sampled_null a;
           ret (d, set_choice s (adaptive_sampler a), tags)
       | _, _ => jaeger_remotely_controlled_sampler_is_sampled s (default [] name) tags
       end;
     sampler_destroy s :=
       c ← jaeger_sampler_choice_destroy (sampler s);
       ' (_, m) ← jaeger_mutex_destroy (remote_mutex s);
       ret (set_remote_mutex (set_choice s c) m) |}.
End Interface.

(** ** Lemmas *)

Lemma random_progress w w' : random_only w w' -> progress w w'.
Proof. intros (?&?&?&?&?). repeat split; [done|lia|done|done]. Qed.

Lemma ticked_progress {env : Env} w w' tok : progress w w' -> ticked w tok -> ticked w' tok.
Proof. intros (_ & Hm & _) (n & Hn & Ht). exists n. split; [lia|done]. Qed.

#[export] Hint Resolve random_progress ticked_progress : jaeger.

(** Room for the two tags of a sampler. *)
Definition tags_room (v : jaeger_vector jaeger_tag) : Prop :=
  2048 * (Z.max (capacity v) (2 * (len v + 2)) + 1) <= INT_MAX.

(** A span's vector of tags, or NULL. *)
Definition tags_ok {pb : Protobuf} (tags : option (jaeger_vector jaeger_tag)) : Prop :=
  forall v, tags = Some v -> vector_wf v /\ type_size v = sizeof_tag.

(** What a NULL or present vector holds. *)
Definition tag_values (tags : option (jaeger_vector jaeger_tag)) : list (option cstr * payload) :=
  match tags with None => [] | Some v => map tag_value (contents v) end.

(** The type and parameter tags. *)
Definition sampler_values (type : cstr) (param : payload) : list (option cstr * payload) :=
  [(Some JAEGERTRACINGC_SAMPLER_TYPE_TAG_KEY, PStr (Some type));
   (Some JAEGERTRACINGC_SAMPLER_PARAM_TAG_KEY, param)].

(** The tags after a sampler of that type has been asked. *)
Definition tags_after {env : Env} {pb : Protobuf} (w : world)
    (tags tags' : option (jaeger_vector jaeger_tag)) (type : cstr) (param : payload) : Prop :=
  tags_ok tags' /\ (tags = None <-> tags' = None) /\
  (plenty w -> tags <> None ->
     tag_values tags' = tag_values tags ++ sampler_values type param).

Section TagFacts.
Context {env : Env} {pb : Protobuf}.
Implicit Types (w : world).

Lemma tag_vector_append_wp v t Q w :
  vector_wf v -> type_size v = sizeof_tag -> len v < capacity v -> capacity v <= INT_MAX ->
  copyable t ->
  (forall ok v' w', alloc_only w w' -> vector_wf v' -> type_size v' = sizeof_tag ->
     capacity v' = capacity v -> len v' <= len v + 1 -> (plenty w -> ok = true) ->
     (ok = true -> map tag_value (contents v') = map tag_value (contents v) ++ [tag_value t]) ->
     Q (ok, v') w') ->
  wp (jaeger_tag_vector_append v t) Q w.
Proof.
  intros Hwf Hts Hroom Hmax Ht HQ. unfold jaeger_tag_vector_append. apply wp_bind.
  pose proof (length_contents _ Hwf). pose proof (wf_len _ Hwf).
  apply append_room_wp; [done..|]. intros v1 slot Hwf1 El1 Et1 Ec1 Econt1. cbn beta iota.
  assert (stored : forall copy (ok : bool) w1, alloc_only w w1 -> (plenty w -> ok = true) ->
    (ok = true -> tag_value copy = tag_value t) ->
    wp (vec ← store v1 (Some (len v)) copy;
        if negb ok then ret (false, set_len vec (len vec - 1)) else ret (true, vec)) Q w1).
  { intros copy ok w1 Hw1 Hpl Hv. apply wp_bind, store_wp; [done|lia|].
    intros v2 Hwf2 El2 Ec2 Et2 Econt2.
    destruct ok; cbn [negb]; apply wp_ret, HQ; try done; try (cbn; lia).
    - intros _. rewrite Econt2, Econt1, insert_app_r_alt by lia.
      replace (_ - _)%nat with 0%nat by lia. by rewrite map_app; cbn; rewrite Hv.
    - apply set_len_wf; [done|lia]. }
  apply wp_bind, tag_copy_wp; [done|..].
  - intros dst w1 Hw1 Hv. by apply (stored dst true).
  - intros dst w1 Hw1 Hno. by apply (stored dst false).
Qed.

Lemma type_tag_copyable type : short type -> copyable (type_tag type).
Proof. intros Hs. split; [by exists JAEGERTRACINGC_SAMPLER_TYPE_TAG_KEY|done]. Qed.

Lemma append_sampler_tags_wp stop tags type param p Q w :
  tags_ok tags -> (forall v, tags = Some v -> tags_room v) -> short type ->
  copyable (param (type_tag type)) ->
  tag_value (param (type_tag type)) = (Some JAEGERTRACINGC_SAMPLER_PARAM_TAG_KEY, p) ->
  (forall tags' w', alloc_only w w' -> tags_after w tags tags' type p -> Q tags' w') ->
  wp (append_sampler_tags stop tags type param) Q w.
Proof.
  intros Hok Hroom Hs Hc Hv HQ. unfold append_sampler_tags.
  destruct tags as [v|]; [|by apply wp_ret, HQ].
  destruct (Hok v eq_refl) as [Hwf Hts]. specialize (Hroom v eq_refl).
  pose proof sizeof_tag_range. pose proof (wf_len _ Hwf). pose proof (wf_capacity _ Hwf).
  unfold tags_room, INT_MAX in Hroom. unfold jaeger_vector_length.
  wp_step. wp_step. apply wp_bind.
  assert (keep : forall v' w', alloc_only w w' -> vector_wf v' -> type_size v' = sizeof_tag ->
    (plenty w -> map tag_value (contents v') = map tag_value (contents v) ++ sampler_values type p) ->
    wp (ret (Some v')) Q w').
  { intros v' w' Hw' Hwf' Hts' Hval. apply wp_ret, HQ; [done|]. split; [by intros ? [= <-]|].
    split; [done|]. intros Hp _. by apply Hval. }
  apply reserve_wp; [done|unfold fits, INT_MAX; nia|intros w1 Hw1 Hno; by apply keep|].
  intros v1 w1 Hw1 Hwf1 El1 Et1 Ec1 Hge _ Hmax _. cbn beta iota.
  apply wp_bind, tag_vector_append_wp;
    [done|lia|lia|unfold INT_MAX; lia|by apply type_tag_copyable|].
  intros ok v2 w2 Hw2 Hwf2 Et2 Ecap2 El2 Hok2 Ec2. cbn beta iota.
  assert (alloc_only w w2) by by etrans.
  destruct ok; cbn [negb]; rewrite ?andb_false_r, ?andb_true_r.
  - apply wp_bind, tag_vector_append_wp; [done|lia|lia|unfold INT_MAX; lia|done|].
    intros ok v3 w3 Hw3 Hwf3 Et3 Ecap3 El3 Hok3 Ec3. apply keep; [by etrans|done|done|].
    intros Hp. rewrite Ec3, Ec2, Ec1, Hv, <- app_assoc; [done|done|].
    apply Hok3, (plenty_alloc_only w); [|done]. done.
  - assert (no : ~ plenty w) by (intros Hp; enough (false = true) by done; apply Hok2; by apply (plenty_alloc_only w)).
    destruct stop; [by apply keep|].
    apply wp_bind, tag_vector_append_wp; [done|lia|lia|unfold INT_MAX; lia|done|].
    intros ok v3 w3 Hw3 Hwf3 Et3 Ecap3 El3 Hok3 Ec3. by apply keep; [etrans|..].
Qed.
End TagFacts.

(** *** The samplers' decisions *)

(** The number [jaeger_random64] draws in [w]. *)
Definition drawn {env : Env} (w : world) (r : Z) : Prop :=
  exists w', jaeger_random64 w = Ok r w'.

(** A guaranteed-throughput decision made in [w]: the probabilistic one for the
    number drawn there, or else the token bucket's, which is charged in either
    case, at the clock's next reading. *)
Definition guaranteed_decision {env : Env} (w : world)
    (s s' : jaeger_guaranteed_throughput_probabilistic_sampler) (r : Z) (d : bool) : Prop :=
  drawn w r /\
  exists ok tok',
    charged (tok (lower_bound_sampler s)) (double_of_Z 1) (clock_monotonic (w_mono w)) ok tok' /\
    s' = GuaranteedSampler (probabilistic_sampler s)
           (RateLimitingSampler tok' (max_traces_per_second (lower_bound_sampler s))) /\
    d = probabilistic_decision (probabilistic_sampler s) r || ok.

(** The type and the parameter of the tags it leaves. *)
Definition guaranteed_type (sampled : bool) : cstr :=
  if sampled then JAEGERTRACINGC_SAMPLER_TYPE_PROBABILISTIC
  else JAEGERTRACINGC_SAMPLER_TYPE_LOWER_BOUND.
Definition guaranteed_param (s : jaeger_guaranteed_throughput_probabilistic_sampler)
    (sampled : bool) : payload :=
  PFloat (if sampled then sampling_rate (probabilistic_sampler s)
          else max_traces_per_second (lower_bound_sampler s)).

Section SamplerFacts.
Context {env : Env} {pb : Protobuf}.
Hypothesis rand_r_range : rand_r_31 env.
Hypothesis key_create : pthread_key_create_ok = true.
Hypothesis clock : monotonic_clock env.
Implicit Types (w : world).

(** Tags a sampler may write to. *)
Definition tags_ready (tags : option (jaeger_vector jaeger_tag)) : Prop :=
  tags_ok tags /\ forall v, tags = Some v -> tags_room v.

Lemma tags_ready_none : tags_ready None.
Proof. by split. Qed.

Lemma param_tags_wp stop tags type d Q w :
  tags_ready tags -> short type ->
  (forall tags' w', alloc_only w w' -> tags_after w tags tags' type (PFloat d) -> Q tags' w') ->
  wp (append_sampler_tags stop tags type (fun t => param_float t d)) Q w.
Proof.
  intros [Hok Hroom] Hs HQ. eapply append_sampler_tags_wp; [done|done|done| |done|].
  - split; [|done]. by eexists.
  - done.
Qed.

Lemma probabilistic_wp s tags Q w :
  tags_ready tags ->
  (forall r tags' w', random_only w w' -> drawn w r ->
     tags_after w tags tags' JAEGERTRACINGC_SAMPLER_TYPE_PROBABILISTIC
       (PFloat (sampling_rate s)) -> Q (probabilistic_decision s r, tags') w') ->
  wp (jaeger_probabilistic_sampler_is_sampled s tags) Q w.
Proof.
  intros Ht HQ. unfold jaeger_probabilistic_sampler_is_sampled.
  apply wp_bind, random64_drawn_wp; [done|done|]. intros r w1 Er Hw1 _.
  apply wp_bind, param_tags_wp; [done|by vm_compute|].
  intros tags' w2 Hw2 (Hok & Hn & Hv).
  apply wp_ret, HQ; [etrans; eauto with jaeger|by exists w1|].
  split; [done|]. split; [done|]. intros Hp. apply Hv. eauto with jaeger.
Qed.

Lemma rate_limiting_wp s tags Q w :
  tags_ready tags -> ticked w (tok s) ->
  (forall ok tok' tags' w', progress w w' -> ticked w' tok' ->
     charged (tok s) (double_of_Z 1) (clock_monotonic (w_mono w)) ok tok' ->
     tags_after w tags tags' JAEGERTRACINGC_SAMPLER_TYPE_RATE_LIMITING
       (PFloat (max_traces_per_second s)) ->
     Q (ok, RateLimitingSampler tok' (max_traces_per_second s), tags') w') ->
  wp (jaeger_rate_limiting_sampler_is_sampled s tags) Q w.
Proof.
  intros Ht Htick HQ. unfold jaeger_rate_limiting_sampler_is_sampled.
  apply wp_bind, check_credit_wp; [done|done|].
  intros ok tok' Hc Ht1. cbn beta iota zeta.
  assert (Hw1 : progress w (tick w)) by (repeat split; cbn; lia).
  apply wp_bind, param_tags_wp; [done|by vm_compute|].
  intros tags' w2 Hw2 (Hok & Hn & Hv). apply alloc_progress in Hw2. apply wp_ret, HQ.
  - by etrans.
  - eauto with jaeger.
  - done.
  - split; [done|]. split; [done|]. intros Hp. apply Hv. eauto with jaeger.
Qed.

Lemma random_mono w w' : random_only w w' -> w_mono w' = w_mono w.
Proof. by intros (_ & ? & _). Qed.

Lemma guaranteed_wp s tags Q w :
  tags_ready tags -> ticked w (tok (lower_bound_sampler s)) ->
  (forall r d s' tags' w', progress w w' -> ticked w' (tok (lower_bound_sampler s')) ->
     guaranteed_decision w s s' r d ->
     tags_after w tags tags'
       (guaranteed_type (probabilistic_decision (probabilistic_sampler s) r))
       (guaranteed_param s (probabilistic_decision (probabilistic_sampler s) r)) ->
     Q (d, s', tags') w') ->
  wp (jaeger_guaranteed_throughput_probabilistic_sampler_is_sampled s tags) Q w.
Proof.
  intros Ht Htick HQ.
  unfold jaeger_guaranteed_throughput_probabilistic_sampler_is_sampled.
  apply wp_bind, probabilistic_wp; [apply tags_ready_none|].
  intros r t0 w1 Hw1 Hr _. cbn beta iota. pose proof (random_mono _ _ Hw1) as Hmono.
  destruct (probabilistic_decision (probabilistic_sampler s) r) eqn:Ed;
    (apply wp_bind, rate_limiting_wp;
      [apply tags_ready_none|eauto with jaeger|];
     rewrite Hmono; intros ok tok' t1 w2 Hw2 Hl Hc _; cbn beta iota zeta;
     apply wp_bind, param_tags_wp; [done|by vm_compute|];
     intros tags' w3 Hw3 (Hok & Hn & Hv); apply alloc_progress in Hw3; apply wp_ret;
     apply (HQ r); rewrite ?Ed; cbn;
       [do 2 (etrans; [by eauto with jaeger|]); done
       |eauto with jaeger
       |split; [done|]; exists ok, tok'; rewrite Ed; by destruct ok
       |repeat (split; [done|]); intros Hp; apply Hv; eauto with jaeger]).
Qed.

(** *** Samplers per operation *)

Definition named (o : jaeger_operation_sampler) : Prop :=
  exists n, op_name o = Some n.
Definition op_ticked w (o : jaeger_operation_sampler) : Prop :=
  ticked w (tok (lower_bound_sampler (op_sampler o))).

(** An adaptive sampler that works. [ad_room]: its largest buffer can
    be allocated. *)
Record adaptive_wf w (s : jaeger_adaptive_sampler) : Prop := {
  ad_vector : vector_wf (op_samplers s);
  ad_named : Forall named (contents (op_samplers s));
  ad_ticked : Forall (op_ticked w) (contents (op_samplers s));
  ad_room : type_size (op_samplers s) *
    (2 * (Z.max (capacity (op_samplers s)) (2 * max_operations s) + 1)) <= INT_MAX;
}.

Lemma op_ticked_progress w w' o : progress w w' -> op_ticked w o -> op_ticked w' o.
Proof. unfold op_ticked. eauto with jaeger. Qed.

Lemma Forall_ticked_progress w w' l :
  progress w w' -> Forall (op_ticked w) l -> Forall (op_ticked w') l.
Proof. intros Hw Hl. eapply Forall_impl; [exact Hl|]. intros o. by apply op_ticked_progress. Qed.

Lemma names_set_wp v Q w : Forall named (contents v) -> Q tt w -> wp (names_set v) Q w.
Proof.
  intros Hn HQ. unfold names_set. enough (forallb (fun s => bool_decide (is_Some (op_name s)))
    (contents v) = true) as -> by done.
  apply forallb_forall. intros o Ho. apply bool_decide_eq_true.
  rewrite Forall_forall in Hn. destruct (Hn o) as [n Hn']; [by apply list_elem_of_In|]. by exists n.
Qed.

Lemma name_cmp_eq o name : named o -> name_cmp o name = 0 -> op_name o = Some name.
Proof. intros [n Hn]. unfold name_cmp. rewrite Hn. cbn. rewrite strcmp_eq. by intros ->. Qed.

(** No sampler has the name, provided they are in the order of their names. *)
Definition unknown (s : jaeger_adaptive_sampler) (name : cstr) : Prop :=
  cmp_sorted name_cmp name (contents (op_samplers s)) ->
  Forall (fun o => op_name o <> Some name) (contents (op_samplers s)).

Lemma find_sampler_wp s name Q w :
  vector_wf (op_samplers s) -> Forall named (contents (op_samplers s)) -> short name ->
  (forall i o w', alloc_only w w' -> 0 <= i < len (op_samplers s) ->
     contents (op_samplers s) !! Z.to_nat i = Some o -> op_name o = Some name -> Q (Some i) w') ->
  (forall w', alloc_only w w' -> (plenty w -> unknown s name) -> Q None w') ->
  wp (jaeger_adaptive_sampler_find_sampler s name) Q w.
Proof.
  intros Hwf Hn Hs HS HN. unfold jaeger_adaptive_sampler_find_sampler.
  pose proof (length_contents _ Hwf). pose proof (wf_len _ Hwf).
  apply wp_bind, wp_strdup; [done|intros w1 Hw1 Hno; by apply HN|]. intros w1 Hw1.
  apply wp_bind, names_set_wp; [done|].
  apply bsearch_wp; unfold jaeger_vector_length; [done|lia|lia|lia|..].
  - intros i Hi (o & Ho & Hc). apply (HS i o); [done|lia|done|].
    apply name_cmp_eq; [|done]. by eapply Forall_lookup_1.
  - intros Hno. apply HN; [done|]. intros _ Hsorted. apply Forall_lookup. intros i o Ho He.
    apply (Hno Hsorted (Z.of_nat i) o); [|by rewrite Nat2Z.id|].
    + apply lookup_lt_Some in Ho. lia.
    + unfold name_cmp. rewrite He. apply strcmp_refl.
Qed.

(** A new sampler for a lower bound and a rate. *)
Definition fresh_guaranteed (lower_bound rate : double)
    (g : jaeger_guaranteed_throughput_probabilistic_sampler) : Prop :=
  sampling_rate (probabilistic_sampler g) = dclamp rate (double_of_Z 0) (double_of_Z 1) /\
  max_traces_per_second (lower_bound_sampler g) = lower_bound /\
  credits_per_second (tok (lower_bound_sampler g)) = lower_bound /\
  max_balance (tok (lower_bound_sampler g)) = dmax lower_bound (double_of_Z 1) /\
  balance (tok (lower_bound_sampler g)) = dmax lower_bound (double_of_Z 1).

Lemma guaranteed_init_wp lower_bound rate Q w :
  (forall g w', progress w w' -> ticked w' (tok (lower_bound_sampler g)) ->
     fresh_guaranteed lower_bound rate g -> Q g w') ->
  wp (jaeger_guaranteed_throughput_probabilistic_sampler_init lower_bound rate) Q w.
Proof.
  intros HQ. unfold jaeger_guaranteed_throughput_probabilistic_sampler_init,
    jaeger_probabilistic_sampler_init, jaeger_rate_limiting_sampler_init,
    jaeger_token_bucket_init, jaeger_duration_now.
  do 4 (apply wp_bind; cbn [wp read_clock_monotonic ret]). apply HQ.
  - repeat split; cbn; lia.
  - exists (S (w_mono w)). split; [cbn; lia|done].
  - done.
Qed.

(** What asking does not change. *)
Definition settings (s : jaeger_adaptive_sampler) : jaeger_probabilistic_sampler * double * Z * bool :=
  (default_sampler s, lower_bound s, max_operations s, adaptive_mutex s).

(** What asking for [name] did: the operation's sampler answered, or a new one
    that was inserted for it, or the default sampler. *)
Inductive adaptive_answer w (s : jaeger_adaptive_sampler) (name : cstr) (d : bool)
    (s' : jaeger_adaptive_sampler) : Prop :=
  | answer_known (i : nat) w1 r o g :
      contents (op_samplers s) !! i = Some o -> op_name o = Some name ->
      progress w w1 -> guaranteed_decision w1 (op_sampler o) g r d ->
      contents (op_samplers s') = <[i := OperationSampler (Some name) g]>
                                    (contents (op_samplers s)) ->
      adaptive_answer w s name d s'
  | answer_new (i : nat) w1 r g g' :
      fresh_guaranteed (lower_bound s) (sampling_rate (default_sampler s)) g ->
      progress w w1 -> guaranteed_decision w1 g g' r d -> len (op_samplers s) < max_operations s ->
      (plenty w -> unknown s name) ->
      contents (op_samplers s') = take i (contents (op_samplers s)) ++
        OperationSampler (Some name) g' :: drop i (contents (op_samplers s)) ->
      adaptive_answer w s name d s'
  | answer_default w1 r :
      progress w w1 -> drawn w1 r -> d = probabilistic_decision (default_sampler s) r ->
      (plenty w -> max_operations s <= len (op_samplers s) /\ unknown s name) ->
      contents (op_samplers s') = contents (op_samplers s) ->
      adaptive_answer w s name d s'.

Lemma set_op_samplers_id s : set_op_samplers s (op_samplers s) = s.
Proof. by destruct s. Qed.

Lemma contents_set_op_samplers s v : contents (op_samplers (set_op_samplers s v)) = contents v.
Proof. done. Qed.

(** Replacing the samplers by as many, or by one more when there is room. *)
Lemma set_op_samplers_wf w s v :
  adaptive_wf w s -> vector_wf v -> Forall named (contents v) ->
  Forall (op_ticked w) (contents v) -> type_size v = type_size (op_samplers s) ->
  capacity v <= Z.max (capacity (op_samplers s)) (2 * max_operations s) ->
  adaptive_wf w (set_op_samplers s v).
Proof.
  intros [Hwf _ _ Hroom] Hv Hn Ht Ets Hc. split; cbn; try done.
  rewrite Ets. pose proof (wf_type_size _ Hwf). nia.
Qed.

Lemma adaptive_wf_progress w w' s : progress w w' -> adaptive_wf w s -> adaptive_wf w' s.
Proof. intros Hw []. split; try done. by eapply Forall_ticked_progress. Qed.

Lemma ask_op_sampler_wp s i o name tags Q w :
  adaptive_wf w s -> tags_ready tags -> 0 <= i < len (op_samplers s) ->
  contents (op_samplers s) !! Z.to_nat i = Some o -> op_name o = Some name ->
  (forall r d g tags' s' w', progress w w' -> guaranteed_decision w (op_sampler o) g r d ->
     adaptive_wf w' s' -> len (op_samplers s') = len (op_samplers s) -> settings s' = settings s ->
     contents (op_samplers s') = <[Z.to_nat i := OperationSampler (Some name) g]>
                                   (contents (op_samplers s)) ->
     tags_ok tags' -> Q (d, s', tags') w') ->
  wp (ask_op_sampler s (Some i) tags) Q w.
Proof.
  intros Hs Ht Hi Ho Hn HQ. destruct (Hs) as [Hwf Hnamed Hticked Hroom].
  unfold ask_op_sampler. apply wp_bind. eapply load_wp; [done|lia|done|].
  apply wp_bind, guaranteed_wp; [done|by eapply Forall_lookup_1 in Hticked|].
  intros r d g tags' w1 Hw1 Hg Hd Hta. cbn beta iota.
  apply wp_bind, store_wp; [done|done|]. intros v Hv El Ec Et Econt. rewrite Hn in Econt.
  apply wp_ret. apply (HQ r d g); try done; [|apply Hta].
  apply set_op_samplers_wf; [by eapply adaptive_wf_progress|done|..]; rewrite ?Econt.
  - apply Forall_insert; [done|by exists name].
  - apply Forall_insert; [by eapply Forall_ticked_progress|done].
  - done.
  - rewrite Ec. lia.
Qed.

Lemma use_default_sampler_wp s tags Q w :
  adaptive_wf w s -> tags_ready tags ->
  (forall r tags' w', progress w w' -> drawn w r -> adaptive_wf w' s -> tags_ok tags' ->
     Q (probabilistic_decision (default_sampler s) r, s, tags') w') ->
  wp (use_default_sampler s tags) Q w.
Proof.
  intros Hs Ht HQ. unfold use_default_sampler. apply wp_bind, probabilistic_wp; [done|].
  intros r tags' w1 Hw1 Hr Hta. apply random_progress in Hw1.
  apply wp_ret, HQ; try done; [|apply Hta]. by eapply adaptive_wf_progress.
Qed.

Lemma answer_transport w w' s s0 name d s' :
  progress w w' -> contents (op_samplers s0) = contents (op_samplers s) ->
  len (op_samplers s0) = len (op_samplers s) -> lower_bound s0 = lower_bound s ->
  default_sampler s0 = default_sampler s -> max_operations s0 = max_operations s ->
  adaptive_answer w' s0 name d s' -> adaptive_answer w s name d s'.
Proof.
  intros Hw Ec El Elb Ed Em Ha. unfold unknown in *.
  destruct Ha as [i w1 r o g Ho Hn Hw1|i w1 r g g' Hf Hw1|w1 r Hw1];
    assert (progress w w1) by (by etrans); unfold unknown in *; rewrite ?Ec, ?El, ?Elb, ?Ed, ?Em in *;
    [eapply answer_known|eapply answer_new|eapply answer_default]; eauto; unfold unknown;
    eauto with jaeger.
Qed.

Lemma add_op_sampler_wp s name tags Q w :
  adaptive_wf w s -> tags_ready tags -> short name ->
  len (op_samplers s) < max_operations s -> (plenty w -> unknown s name) ->
  (forall d tags' s' w', progress w w' -> adaptive_wf w' s' -> tags_ok tags' -> settings s' = settings s ->
     len (op_samplers s') <= len (op_samplers s) + 1 ->
     adaptive_answer w s name d s' -> Q (d, s', tags') w') ->
  wp (add_op_sampler s name tags) Q w.
Proof.
  intros Hs Ht Hname Hroom Hun HQ. unfold add_op_sampler.
  assert (use_default : forall w1, alloc_only w w1 -> ~ plenty w ->
    wp (use_default_sampler s tags) Q w1).
  { intros w1 Hw1 Hno. apply alloc_progress in Hw1.
    apply use_default_sampler_wp; [by eapply adaptive_wf_progress|done|].
    intros r tags' w2 Hw2 Hr Hs2 Hta. apply HQ; [by etrans|done|done|done|lia|].
    by apply (answer_default _ _ _ _ _ w1 r). }
  destruct (Hs) as [Hwf Hnamed Hticked Had].
  pose proof (wf_type_size _ Hwf). pose proof (wf_len _ Hwf). pose proof (length_contents _ Hwf).
  apply wp_bind, wp_strdup; [done|by auto|]. intros w1 Hw1.
  apply wp_bind, names_set_wp; [done|].
  apply wp_bind, lower_bound_loop_wp; unfold jaeger_vector_length; [done|lia..|].
  intros pos Hpos _. apply wp_bind, insert_wp; [done|lia|unfold fits; nia| |].
  { intros w2 Hw2 Hno. rewrite set_op_samplers_id. apply use_default; [by etrans|].
    intros Hp. apply Hno. by apply (plenty_alloc_only w). }
  intros v slot w2 Hw2 Hv El Et Ec Econt. cbn beta iota.
  assert (Hw02 : progress w w2) by (apply alloc_progress; by etrans).
  apply wp_bind, guaranteed_init_wp. intros g w3 Hw3 Hg Hfresh.
  apply wp_bind, store_wp; [done|lia|]. intros v1 Hv1 El1 Ec1 Et1 Econt1.
  assert (Hlen : length (take (Z.to_nat pos) (contents (op_samplers s))) = Z.to_nat pos)
    by (rewrite length_take; lia).
  rewrite Econt, insert_app_r_alt, Hlen, Nat.sub_diag in Econt1 by lia. cbn in Econt1.
  assert (Hs1 : adaptive_wf w3 (set_op_samplers s v1)).
  { apply set_op_samplers_wf; [eapply adaptive_wf_progress; [|done]; by etrans|done|..];
      rewrite ?Econt1.
    - apply Forall_app. split; [by apply Forall_take|].
      constructor; [by exists name|by apply Forall_drop].
    - eapply Forall_ticked_progress in Hticked; [|etrans; [exact Hw02|exact Hw3]].
      apply Forall_app. split; [by apply Forall_take|].
      constructor; [done|by apply Forall_drop].
    - congruence.
    - lia. }
  apply (ask_op_sampler_wp _ _ (OperationSampler (Some name) g) name); [done|done|cbn; lia| |done|].
  { rewrite contents_set_op_samplers, Econt1, lookup_app_r, Hlen, Nat.sub_diag by lia. done. }
  intros r d g' tags' s' w4 Hw4 Hd Hs4 Elen Eset Econt4 Hta.
  apply HQ; [do 2 (etrans; [eassumption|]); done|done|done|done|cbn in *; lia|].
  eapply (answer_new _ _ _ _ _ (Z.to_nat pos) w3);
    [done|by etrans|done|done|done|].
  rewrite Econt4, contents_set_op_samplers, Econt1, insert_app_r_alt, Hlen, Nat.sub_diag by lia.
  done.
Qed.

Lemma adaptive_decide_wp s name tags Q w :
  adaptive_wf w s -> tags_ready tags -> short name ->
  (forall d tags' s' w', progress w w' -> adaptive_wf w' s' -> tags_ok tags' -> settings s' = settings s ->
     len (op_samplers s') <= Z.max (len (op_samplers s)) (max_operations s) ->
     adaptive_answer w s name d s' -> Q (d, s', tags') w') ->
  wp (adaptive_decide s name tags) Q w.
Proof.
  intros Hs Ht Hname HQ. destruct (Hs) as [Hwf Hnamed Hticked Had].
  unfold adaptive_decide. apply wp_bind, find_sampler_wp; [done|done|done|..].
  - intros i o w1 Hw1 Hi Ho Hn. apply wp_bind. eapply load_wp; [done|lia|done|].
    apply alloc_progress in Hw1.
    apply wp_bind, wp_assert; [unfold name_cmp; by rewrite Hn, strcmp_refl|].
    apply (ask_op_sampler_wp _ _ o name); [by eapply adaptive_wf_progress|done..|].
    intros r d g tags' s' w2 Hw2 Hd Hs2 El Eset Econt Hta.
    apply HQ; [by etrans|done|done|done|lia|]. by apply (answer_known _ _ _ _ _ (Z.to_nat i) w1 r o g).
  - intros w1 Hw1 Hun. apply alloc_progress in Hw1 as Hp1.
    unfold jaeger_vector_length. wp_step; reflect_bools.
    + apply use_default_sampler_wp; [by eapply adaptive_wf_progress|done|].
      intros r tags' w2 Hw2 Hr Hs2 Hta. apply HQ; [by etrans|done|done|done|lia|].
      apply (answer_default _ _ _ _ _ w1 r); [done|done|done|by auto|done].
    + apply add_op_sampler_wp; [by eapply adaptive_wf_progress|done|done|lia| |].
      { intros Hp. apply Hun. destruct Hp as [Ha Hall]. split; [|done].
        by rewrite <- (proj1 Hp1). }
      intros d tags' s' w2 Hw2 Hs2 Hta Eset Hlen Hans.
      apply HQ; [by etrans|done|done|done|lia|].
      by eapply answer_transport; [|done..|exact Hans].
Qed.

(** With the mutex held: nothing an answer says is about the mutex. *)
Lemma answer_mutex w s m name d s' m' :
  adaptive_answer w (set_adaptive_mutex s m) name d s' ->
  adaptive_answer w s name d (set_adaptive_mutex s' m').
Proof. intros []; [eapply answer_known|eapply answer_new|eapply answer_default]; eauto. Qed.

Lemma adaptive_wf_mutex w s m : adaptive_wf w s -> adaptive_wf w (set_adaptive_mutex s m).
Proof. by intros []. Qed.

Lemma adaptive_wp s name tags Q w :
  adaptive_wf w s -> adaptive_mutex s = false -> tags_ready tags -> short name ->
  (forall d tags' s' w', progress w w' -> adaptive_wf w' s' -> tags_ok tags' ->
     settings s' = settings s ->
     len (op_samplers s') <= Z.max (len (op_samplers s)) (max_operations s) ->
     adaptive_answer w s name d s' -> Q (d, s', tags') w') ->
  wp (jaeger_adaptive_sampler_is_sampled s name tags) Q w.
Proof.
  intros Hs Hm Ht Hname HQ. unfold jaeger_adaptive_sampler_is_sampled. rewrite Hm.
  apply wp_bind, mutex_lock_wp, wp_bind, adaptive_decide_wp;
    [by apply adaptive_wf_mutex|done|done|].
  intros d tags' s' w1 Hw1 Hs1 Hta Hset Hlen Hans. cbn beta iota.
  unfold settings in Hset. cbn in Hset. injection Hset as Hd Hl Hmax ->.
  apply wp_bind, mutex_unlock_wp, wp_ret, HQ; [done|by apply adaptive_wf_mutex|done| |done|].
  - unfold settings. cbn. congruence.
  - by eapply answer_mutex.
Qed.

(** *** From strategies to samplers *)

(** The sampler made for a strategy. *)
Definition made_for (lower_bound : double) (strategy : jaeger_operation_strategy)
    (o : jaeger_operation_sampler) : Prop :=
  named o /\ op_name o = operation strategy /\
  fresh_guaranteed lower_bound (op_sampling_rate strategy) (op_sampler o).

Definition strategy_ok (strategy : jaeger_operation_strategy) : Prop :=
  exists n, operation strategy = Some n /\ short n.

Lemma samplers_loop_wp lower_bound ss vec Q w :
  vector_wf vec -> len vec + lenZ ss <= capacity vec -> capacity vec <= INT_MAX ->
  Forall strategy_ok ss -> Forall (op_ticked w) (contents vec) ->
  (forall ok v w', progress w w' -> vector_wf v -> type_size v = type_size vec ->
     capacity v = capacity vec -> (plenty w -> ok = true) ->
     (ok = true -> Forall (op_ticked w') (contents v) /\ exists l,
        contents v = contents vec ++ l /\ Forall2 (made_for lower_bound) ss l) ->
     Q (ok, v) w') ->
  wp (samplers_loop lower_bound ss vec) Q w.
Proof.
  revert vec w. induction ss as [|st ss IH]; intros vec w Hwf Hroom Hmax Hss Ht HQ;
    cbn [samplers_loop].
  { apply wp_ret, HQ; try done. intros _. split; [done|]. exists []. by rewrite app_nil_r. }
  apply Forall_cons in Hss as [(name & Hname & Hshort) Hss]. rewrite Hname.
  pose proof (wf_len _ Hwf). pose proof (length_contents _ Hwf). cbn [length] in Hroom.
  apply wp_bind, append_room_wp; [done|lia|done|].
  intros v slot Hv El Et Ec Econt. cbn beta iota.
  apply wp_bind, wp_assert; [done|].
  assert (stored : forall o, <[Z.to_nat (len vec) := o]> (contents v) = contents vec ++ [o]).
  { intros o. rewrite Econt, insert_app_r_alt by lia.
    by replace (_ - _)%nat with 0%nat by lia. }
  assert (load_it : forall k w1, wp (k slot) Q w1 ->
    wp (bind (load v (Some (len vec))) k) Q w1).
  { intros k w1 Hk. apply wp_bind. eapply load_wp; [done|lia| |exact Hk].
    rewrite Econt, lookup_app_r by lia. by replace (_ - _)%nat with 0%nat by lia. }
  apply wp_bind, wp_strdup; [done|intros w1 Hw1 Hno|intros w1 Hw1]; apply load_it.
  - apply wp_bind, store_wp; [done|lia|]. intros v1 Hv1 _ Ec1 Et1 _.
    apply wp_ret, HQ; [by apply alloc_progress|done|congruence|congruence|done|done].
  - apply wp_bind, guaranteed_init_wp. intros g w2 Hw2 Hg Hfresh.
    assert (progress w w2) by (etrans; [by apply alloc_progress|done]).
    apply wp_bind, store_wp; [done|lia|]. intros v1 Hv1 El1 Ec1 Et1 Econt1.
    rewrite stored in Econt1. apply IH; [done|lia|lia|done| |].
    { rewrite Econt1. apply Forall_app. split; [by eapply Forall_ticked_progress|].
      by constructor. }
    intros ok v2 w3 Hw3 Hv2 Et2 Ec2 Hok Hcont. apply HQ; [by etrans|done|congruence|congruence| |].
    { intros Hp. apply Hok. by eapply plenty_progress. }
    intros Eok. destruct (Hcont Eok) as (Ht2 & l & El2 & Hl). split; [done|].
    exists (OperationSampler (Some name) g :: l). split.
    + by rewrite El2, Econt1, <- app_assoc.
    + constructor; [|done]. split; [by exists name|]. by rewrite Hname.
Qed.

#[local] Instance op_name_le_trans : Transitive (cmp_le op_name_cmp).
Proof. intros s t u. unfold cmp_le, op_name_cmp. apply strcmp_le_trans. Qed.

#[local] Instance op_name_le_total : Total (cmp_le op_name_cmp).
Proof.
  intros s t. unfold cmp_le, op_name_cmp. rewrite (strcmp_antisym (default [] (op_name s))). lia.
Qed.

Lemma strongly_sorted_cmp l key :
  StronglySorted (cmp_le op_name_cmp) l -> cmp_sorted name_cmp key l.
Proof.
  intros Hl i j a b Hij Ha Hb.
  assert (Hab : strcmp (default [] (op_name a)) (default [] (op_name b)) <= 0).
  { destruct (decide (i = j)) as [<-|].
    - rewrite Ha in Hb. injection Hb as <-. rewrite strcmp_refl. lia.
    - apply (StronglySorted_app_1_elem_of (cmp_le op_name_cmp) (take j l) (drop j l)).
      + by rewrite take_drop.
      + apply list_elem_of_lookup. exists i. rewrite lookup_take_lt by lia. done.
      + apply list_elem_of_lookup. exists 0%nat. by rewrite lookup_drop, Nat.add_0_r. }
  unfold name_cmp. pose proof (strcmp_le_trans _ _ key Hab).
  assert (Ht : strcmp key (default [] (op_name a)) <= 0 -> strcmp key (default [] (op_name b)) <= 0)
    by (intros; by eapply strcmp_le_trans).
  rewrite (strcmp_antisym (default [] (op_name a)) key),
    (strcmp_antisym (default [] (op_name b)) key) in Ht.
  repeat split; lia.
Qed.

(** The samplers of an adaptive sampler made from strategies: one per
    strategy, in the order of their names. *)
Definition samplers_for (strategies : jaeger_per_operation_strategy)
    (l : list jaeger_operation_sampler) : Prop :=
  (exists l0, l ≡ₚ l0 /\ Forall2 (made_for (default_lower_bound_traces_per_second strategies))
                          (per_operation_strategy strategies) l0) /\
  forall name, cmp_sorted name_cmp name l.

Lemma samplers_from_strategies_wp strategies vec Q w :
  vector_wf vec -> fits vec (lenZ (per_operation_strategy strategies)) ->
  Forall strategy_ok (per_operation_strategy strategies) ->
  (forall ok v w', progress w w' -> (plenty w -> ok = true) ->
     (ok = true -> vector_wf v /\ type_size v = type_size vec /\
        capacity v <= Z.max (capacity vec) (2 * lenZ (per_operation_strategy strategies)) /\
        Forall (op_ticked w') (contents v) /\ samplers_for strategies (contents v)) ->
     Q (ok, v) w') ->
  wp (samplers_from_strategies strategies vec) Q w.
Proof.
  intros Hwf Hfits Hss HQ. unfold samplers_from_strategies.
  pose proof (wf_len _ Hwf). pose proof (wf_type_size _ Hwf). unfold fits, INT_MAX in Hfits.
  assert (to_signed 32 (lenZ (per_operation_strategy strategies))
    = lenZ (per_operation_strategy strategies)) as -> by
    (unfold to_signed; rewrite wrap_small by nia; by rewrite (proj2 (Z.ltb_lt _ _)) by nia).
  assert (Hc : vector_wf (jaeger_vector_clear vec)) by (apply set_len_wf; [done|lia]).
  apply wp_bind, reserve_wp; [done|done|intros w1 Hw1 Hno; apply wp_ret, HQ; [by apply alloc_progress|done|done]|].
  intros v w1 Hw1 Hv El Et Econt Hge _ Hmax _. cbn in El, Et, Econt, Hmax. cbn beta iota.
  apply alloc_progress in Hw1.
  apply wp_bind, samplers_loop_wp; [done|lia|unfold INT_MAX; nia|done|by rewrite Econt|].
  intros ok v1 w2 Hw2 Hv1 Et1 Ec1 Hok Hcont. cbn beta iota.
  assert (progress w w2) by by etrans.
  destruct ok; cbn [negb].
  - destruct (Hcont eq_refl) as (Ht & l & El1 & Hl).
    rewrite Econt in El1. cbn in El1.
    assert (Hnamed : Forall named (contents v1)).
    { rewrite El1. clear -Hl. induction Hl as [|? ? ? ? [? _]]; by constructor. }
    apply wp_bind, names_set_wp; [done|]. apply wp_ret, HQ; [done|done|]. intros _.
    pose proof (merge_sort_Permutation (cmp_le op_name_cmp) (contents v1)) as Hp.
    destruct (sort_shape op_name_cmp v1) as (_ & Ets & Ecap). rewrite Ets, Ecap.
    split; [by apply sort_wf|]. split; [congruence|]. split; [lia|].
    rewrite sort_contents by done.
    split; [by rewrite Hp|]. split.
    + exists l. rewrite Hp, El1. done.
    + intros name. apply strongly_sorted_cmp, (StronglySorted_merge_sort _).
  - apply wp_ret, HQ; [done| |done]. intros Hp.
    enough (false = true) by done. apply Hok. by eapply plenty_progress.
Qed.

(** *** Making an adaptive sampler *)

(** The largest buffer of the samplers can be allocated. *)
Definition samplers_room (sizeof_operation_sampler n max_operations : Z) : Prop :=
  0 < sizeof_operation_sampler /\ 0 <= n /\
  sizeof_operation_sampler *
    (2 * (Z.max (Z.max JAEGERTRACINGC_VECTOR_INIT_CAPACITY (2 * n)) (2 * max_operations) + 1))
  <= INT_MAX.

Lemma probabilistic_init_wp rate Q w :
  (forall w', progress w w' ->
     Q (ProbabilisticSampler (dclamp rate (double_of_Z 0) (double_of_Z 1))) w') ->
  wp (jaeger_probabilistic_sampler_init rate) Q w.
Proof.
  intros HQ. unfold jaeger_probabilistic_sampler_init, jaeger_duration_now.
  apply wp_bind. cbn [wp read_clock_monotonic]. apply wp_ret, HQ. repeat split; cbn; lia.
Qed.

Lemma adaptive_init_wp size strategies max_ops Q w :
  samplers_room size (lenZ (per_operation_strategy strategies)) max_ops ->
  Forall strategy_ok (per_operation_strategy strategies) ->
  (forall w', progress w w' -> ~ plenty w -> Q None w') ->
  (forall s w', progress w w' -> adaptive_wf w' s -> max_operations s = max_ops ->
     samplers_for strategies (contents (op_samplers s)) -> adaptive_mutex s = false ->
     lower_bound s = default_lower_bound_traces_per_second strategies ->
     sampling_rate (default_sampler s)
       = dclamp (default_sampling_probability strategies) (double_of_Z 0) (double_of_Z 1) ->
     Q (Some s) w') ->
  wp (jaeger_adaptive_sampler_init size strategies max_ops) Q w.
Proof.
  intros (Hsize & Hn & Hroom) Hss HN HS. unfold jaeger_adaptive_sampler_init.
  unfold JAEGERTRACINGC_VECTOR_INIT_CAPACITY, INT_MAX in Hroom.
  apply wp_bind, init_wp; [done|unfold JAEGERTRACINGC_VECTOR_INIT_CAPACITY, INT_MAX; nia|
    |intros w1 Hw1 Hno; apply wp_ret, HN; [by apply alloc_progress|done]].
  intros v w1 Hw1 Hv Econt El Ec Et. cbn beta iota. cbn [negb]. apply alloc_progress in Hw1 as Hp1.
  unfold JAEGERTRACINGC_VECTOR_INIT_CAPACITY in Ec.
  apply wp_bind, samplers_from_strategies_wp; [done|unfold fits, INT_MAX; rewrite Ec, Et; nia|done|].
  intros ok v1 w2 Hw2 Hok Hcont. cbn beta iota. assert (progress w w2) by by etrans.
  destruct ok; cbn [negb].
  - destruct (Hcont eq_refl) as (Hv1 & Et1 & Ec1 & Ht & Hfor).
    apply wp_bind, probabilistic_init_wp. intros w3 Hw3.
    apply wp_ret, HS; try done; [by etrans|]. split; cbn; [done| |by eapply Forall_ticked_progress|].
    + destruct Hfor as ((l0 & Hperm & Hl0) & _). rewrite Hperm. clear -Hl0.
      induction Hl0 as [|? ? ? ? [? _]]; by constructor.
    + unfold INT_MAX. rewrite Et1, Et. rewrite Ec in Ec1. nia.
  - apply wp_ret, HN; [done|]. intros Hp. enough (false = true) by done. apply Hok.
    by eapply plenty_progress.
Qed.

(** *** Following the agent's strategies *)

(** What one strategy does to the sampler of its operation: a rate that differs
    is replaced, and a lower bound that differs is replaced by a full bucket. *)
Definition retuned (lower_bound rate : double)
    (g g' : jaeger_guaranteed_throughput_probabilistic_sampler) : Prop :=
  probabilistic_sampler g' =
    (if dne (sampling_rate (probabilistic_sampler g)) rate
     then ProbabilisticSampler (dclamp rate (double_of_Z 0) (double_of_Z 1))
     else probabilistic_sampler g) /\
  if dne (max_traces_per_second (lower_bound_sampler g)) lower_bound
  then exists now, lower_bound_sampler g' =
    RateLimitingSampler (TokenBucket lower_bound (dmax lower_bound (double_of_Z 1))
                           (dmax lower_bound (double_of_Z 1)) now) lower_bound
  else lower_bound_sampler g' = lower_bound_sampler g.

(** Several strategies for one operation, one after another. *)
Fixpoint retuned_all (lower_bound : double) (rates : list double)
    (g g' : jaeger_guaranteed_throughput_probabilistic_sampler) : Prop :=
  match rates with
  | [] => g' = g
  | rate :: rates => exists g1, retuned lower_bound rate g g1 /\ retuned_all lower_bound rates g1 g'
  end.

(** The rates the strategies have for an operation. *)
Definition rates_for (ss : list jaeger_operation_strategy) (name : option cstr) : list double :=
  map op_sampling_rate (filter (fun st => operation st = name) ss).

(** An adaptive sampler updated in place: each sampler follows the strategies of
    its operation; one whose operation has none is as it was. *)
Definition operations_retuned (lower_bound : double) (ss : list jaeger_operation_strategy)
    (l l' : list jaeger_operation_sampler) : Prop :=
  Forall2 (fun o o' => op_name o' = op_name o /\
    retuned_all lower_bound (rates_for ss (op_name o)) (op_sampler o) (op_sampler o')) l l'.

(** The operations of the strategies have samplers already, and the search
    finds them: their names are distinct and in order. *)
Record updatable {env : Env} w (a : jaeger_adaptive_sampler)
    (ss : list jaeger_operation_strategy) : Prop := {
  up_memory : plenty w;
  up_vector : vector_wf (op_samplers a);
  up_named : Forall named (contents (op_samplers a));
  up_distinct : NoDup (map op_name (contents (op_samplers a)));
  up_sorted : forall name, cmp_sorted name_cmp name (contents (op_samplers a));
  up_known : Forall (fun st => strategy_ok st /\
    operation st ∈ map op_name (contents (op_samplers a))) ss;
}.

(** The sampler that answers after the remotely controlled sampler [s] has
    followed a response. *)
Definition follows (response : jaeger_strategy_response) (s : jaeger_remotely_controlled_sampler)
    (choice : jaeger_sampler_choice) : Prop :=
  match response, choice with
  | probabilistic_strategy rate, probabilistic_choice p =>
      let clamp r := dclamp r (double_of_Z 0) (double_of_Z 1) in
      sampling_rate p = clamp (clamp rate)
  | rate_limiting_strategy rate, rate_limiting_sampler l =>
      exists now, l = RateLimitingSampler (TokenBucket rate (dmax rate (double_of_Z 1))
                        (dmax rate (double_of_Z 1)) now) rate
  | per_operation strategies, adaptive_sampler a' =>
      match sampler s with
      | adaptive_sampler a =>
          settings a' = settings a /\
          operations_retuned (default_lower_bound_traces_per_second strategies)
            (per_operation_strategy strategies) (contents (op_samplers a)) (contents (op_samplers a'))
      | _ =>
          samplers_for strategies (contents (op_samplers a')) /\
          max_operations a' = remote_max_operations s /\
          lower_bound a' = default_lower_bound_traces_per_second strategies /\
          sampling_rate (default_sampler a')
            = dclamp (default_sampling_probability strategies) (double_of_Z 0) (double_of_Z 1)
      end
  | _, _ => False
  end.

(** A response the client can follow with the sampler it has: an adaptive
    sampler is not asked to take up an operation it does not know, and is
    unlocked. *)
Definition followable {env : Env} (size : Z) w (response : jaeger_strategy_response)
    (s : jaeger_remotely_controlled_sampler) : Prop :=
  (forall a, sampler s = adaptive_sampler a -> adaptive_mutex a = false) /\
  match response with
  | per_operation strategies =>
      match sampler s with
      | adaptive_sampler a => updatable w a (per_operation_strategy strategies)
      | _ =>
          samplers_room size (lenZ (per_operation_strategy strategies)) (remote_max_operations s) /\
          Forall strategy_ok (per_operation_strategy strategies)
      end
  | _ => True
  end.

Lemma followable_same_allocator size w w' response s :
  same_allocator w w' -> followable size w response s -> followable size w' response s.
Proof.
  intros Hw [Hm Hf]. split; [done|]. destruct response; try done. destruct (sampler s); try done.
  destruct Hf. split; try done. by eapply plenty_same_allocator.
Qed.

(** *** Updating an adaptive sampler in place *)

Lemma guaranteed_update_wp g lower_bound rate Q w :
  (forall g' w', progress w w' -> retuned lower_bound rate g g' -> Q g' w') ->
  wp (jaeger_guaranteed_throughput_probabilistic_sampler_update g lower_bound rate) Q w.
Proof.
  intros HQ. unfold jaeger_guaranteed_throughput_probabilistic_sampler_update,
    jaeger_probabilistic_sampler_init, jaeger_rate_limiting_sampler_init,
    jaeger_token_bucket_init, jaeger_duration_now.
  assert (forall p l w', progress w w' ->
    retuned lower_bound rate g (GuaranteedSampler p l) -> wp (ret (GuaranteedSampler p l)) Q w')
    as Hret by (intros; by apply wp_ret, HQ).
  unfold retuned in Hret. cbn [probabilistic_sampler lower_bound_sampler] in Hret.
  destruct (dne (sampling_rate (probabilistic_sampler g)) rate),
    (dne (max_traces_per_second (lower_bound_sampler g)) lower_bound);
    repeat (apply wp_bind || (cbn [wp read_clock_monotonic]; apply wp_ret) || cbn [wp read_clock_monotonic]);
    apply Hret; (split_and!; cbn; [done|lia|done..]) || (split; [done|by eauto]).
Qed.

Lemma cmp_sorted_names name l l' :
  map op_name l' = map op_name l -> cmp_sorted name_cmp name l -> cmp_sorted name_cmp name l'.
Proof.
  intros Hl Hs i j a b Hij Ha Hb.
  assert (forall k c, l' !! k = Some c -> exists d, l !! k = Some d /\ name_cmp d name = name_cmp c name)
    as Hname.
  { intros k c Hk. assert (map op_name l !! k = Some (op_name c)) as Hd
      by (by rewrite <- Hl, list_lookup_fmap, Hk).
    rewrite list_lookup_fmap in Hd. destruct (l !! k) as [d|] eqn:Ed; [|done].
    exists d. split; [done|]. injection Hd as Hd. unfold name_cmp. by rewrite Hd. }
  destruct (Hname i a Ha) as (a' & Ha' & <-), (Hname j b Hb) as (b' & Hb' & <-).
  by eapply Hs.
Qed.

Lemma rates_for_cons st ss name :
  rates_for (st :: ss) name =
  (if decide (operation st = name) then [op_sampling_rate st] else []) ++ rates_for ss name.
Proof. unfold rates_for. rewrite filter_cons. by case_decide. Qed.
(** The first strategy, then the others. *)
Lemma operations_retuned_step lower_bound st ss l l' i o g name :
  NoDup (map op_name l) -> l !! i = Some o -> op_name o = Some name -> operation st = Some name ->
  retuned lower_bound (op_sampling_rate st) (op_sampler o) g ->
  operations_retuned lower_bound ss (<[i := OperationSampler (op_name o) g]> l) l' ->
  operations_retuned lower_bound (st :: ss) l l'.
Proof.
  intros Hnd Hi Ho Hst Hg Hrest. unfold operations_retuned in *.
  pose proof (Forall2_length _ _ _ Hrest) as Hlen. rewrite length_insert in Hlen.
  apply Forall2_same_length_lookup. split; [done|]. intros j a b Ha Hb.
  rewrite rates_for_cons, Hst. destruct (decide (j = i)) as [->|Hne].
  - rewrite Hi in Ha. injection Ha as <-. rewrite decide_True by done.
    apply (Forall2_lookup_lr _ _ _ i (OperationSampler (op_name o) g) b) in Hrest; [|by
      rewrite list_lookup_insert_eq by (by eapply lookup_lt_Some)|done].
    destruct Hrest as [Hname Hall]. split; [done|]. cbn [app]. by exists g.
  - apply (Forall2_lookup_lr _ _ _ j a b) in Hrest; [|by rewrite list_lookup_insert_ne|done].
    rewrite decide_False; [done|]. intros Hsame. apply Hne.
    eapply (NoDup_lookup (map op_name l)); [done|by rewrite list_lookup_fmap, Ha|].
    by rewrite list_lookup_fmap, Hi; cbn; rewrite Ho, Hsame.
Qed.

Lemma updatable_store w a st ss i o g v :
  updatable w a (st :: ss) -> vector_wf v -> contents (op_samplers a) !! i = Some o ->
  contents v = <[i := OperationSampler (op_name o) g]> (contents (op_samplers a)) ->
  updatable w (set_op_samplers a v) ss.
Proof.
  intros [Hp Hwf Hn Hnd Hsorted Hknown] Hv Hi Hc.
  assert (map op_name (contents v) = map op_name (contents (op_samplers a))) as Hnames.
  { rewrite Hc. etrans; [apply list_fmap_insert|]. apply list_insert_id.
    by rewrite list_lookup_fmap, Hi. }
  split; cbn [set_op_samplers op_samplers]; try done.
  - rewrite Hc. apply Forall_insert; [done|].
    destruct (Forall_lookup_1 _ _ _ _ Hn Hi) as [n Ho]. by exists n.
  - by rewrite Hnames.
  - intros name. by eapply cmp_sorted_names.
  - rewrite Hnames. by inversion Hknown.
Qed.

Lemma updatable_progress w w' a ss : progress w w' -> updatable w a ss -> updatable w' a ss.
Proof. intros Hw []. split; try done. by eapply plenty_progress. Qed.

Lemma update_loop_wp lower_bound ss a Q w :
  updatable w a ss ->
  (forall a' w', progress w w' -> settings a' = settings a ->
     operations_retuned lower_bound ss (contents (op_samplers a)) (contents (op_samplers a')) ->
     Q (true, a') w') ->
  wp (update_loop lower_bound ss true a) Q w.
Proof.
  revert a w. induction ss as [|st ss IH]; intros a w Ha HQ; cbn [update_loop].
  { apply wp_ret, HQ; [done|done|]. by apply Forall2_same_length_lookup_2; [|intros; simplify_eq]. }
  destruct (Ha) as [Hp Hwf Hn Hnd Hsorted Hknown]. apply Forall_cons in Hknown as [[Hst Hin] _].
  destruct Hst as (name & Hname & Hshort). rewrite Hname.
  apply wp_bind, find_sampler_wp; [done|done|done|..].
  - intros i o w1 Hw1 Hi Ho Hon. apply alloc_progress in Hw1. apply wp_bind. eapply load_wp; [done|lia|done|].
    apply wp_bind, guaranteed_update_wp. intros g w2 Hw2 Hg.
    apply wp_bind, store_wp; [done|lia|]. intros v Hv _ _ _ Hc.
    assert (progress w w2) by by etrans. apply IH.
    { eapply updatable_store; [by eapply updatable_progress|done..]. }
    intros a' w3 Hw3 Hset Hops. apply HQ; [by etrans|done|].
    cbn [set_op_samplers op_samplers] in Hops. rewrite Hc in Hops.
    by eapply operations_retuned_step.
  - intros w1 Hw1 Hun. exfalso. specialize (Hun Hp (Hsorted name)).
    rewrite Hname in Hin. apply list_elem_of_fmap in Hin as (o & Ho & Hin).
    rewrite Forall_forall in Hun. by apply (Hun o).
Qed.

Lemma adaptive_update_wp strategies a Q w :
  adaptive_mutex a = false -> updatable w a (per_operation_strategy strategies) ->
  (forall a' w', progress w w' -> settings a' = settings a ->
     operations_retuned (default_lower_bound_traces_per_second strategies)
       (per_operation_strategy strategies) (contents (op_samplers a)) (contents (op_samplers a')) ->
     Q (true, a') w') ->
  wp (jaeger_adaptive_sampler_update a strategies) Q w.
Proof.
  intros Hm Ha HQ. unfold jaeger_adaptive_sampler_update. rewrite Hm.
  apply wp_bind, mutex_lock_wp, wp_bind, update_loop_wp; [by destruct Ha; split|].
  intros a' w' Hw' Hset Hops. unfold settings in Hset. cbn in Hset. injection Hset as Hd Hl Hmax Hmu.
  rewrite Hmu. apply wp_bind, mutex_unlock_wp, wp_ret, HQ; [done| |done].
  unfold settings. cbn. congruence.
Qed.

Lemma choice_destroy_wp choice Q w :
  (forall a, choice = adaptive_sampler a -> adaptive_mutex a = false) ->
  (forall choice', Q choice' w) -> wp (jaeger_sampler_choice_destroy choice) Q w.
Proof.
  intros Hm HQ. destruct choice as [| | | |a|]; try by apply wp_ret.
  unfold jaeger_sampler_choice_destroy, jaeger_adaptive_sampler_destroy.
  rewrite (Hm a eq_refl). do 2 apply wp_bind. apply wp_ret, wp_ret, wp_ret, HQ.
Qed.

Lemma apply_strategy_wp size s response Q w :
  followable size w response s ->
  (forall ok s' w', progress w w' -> remote_metrics s' = remote_metrics s ->
     remote_mutex s' = remote_mutex s ->
     (plenty w -> response <> invalid_strategy -> ok = true) ->
     (response = invalid_strategy -> ok = false) ->
     (ok = true -> follows response s (sampler s')) -> Q (ok, s') w') ->
  wp (apply_strategy size s response) Q w.
Proof.
  intros [Hmu Hf] HQ. unfold apply_strategy. destruct response as [rate|rate|strategies|].
  - apply wp_bind, choice_destroy_wp; [done|]. intros _.
    apply wp_bind, probabilistic_init_wp. intros w1 Hw1. by apply wp_ret, HQ.
  - apply wp_bind, choice_destroy_wp; [done|]. intros _.
    unfold jaeger_rate_limiting_sampler_init, jaeger_token_bucket_init, jaeger_duration_now.
    do 3 apply wp_bind. cbn [wp read_clock_monotonic]. do 2 apply wp_ret.
    apply wp_ret, HQ; try done; [repeat split; cbn; lia|]. intros _. by eexists.
  - unfold jaeger_remotely_controlled_sampler_update_adaptive_sampler.
    assert (samplers_room size (lenZ (per_operation_strategy strategies)) (remote_max_operations s) ->
      Forall strategy_ok (per_operation_strategy strategies) ->
      (forall a, sampler s <> adaptive_sampler a) ->
      wp (_ ← jaeger_sampler_choice_destroy (sampler s);
      a ← jaeger_adaptive_sampler_init size strategies (remote_max_operations s);
      match a with
      | None => ret (false, set_choice s invalid_sampler)
      | Some a => ret (true, set_choice s (adaptive_sampler a))
      end) Q w) as Hfresh.
    { intros Hroom Hss Hno. apply wp_bind, choice_destroy_wp; [intros a Ha; by destruct (Hno a)|].
      intros _. apply wp_bind, adaptive_init_wp; [done|done|..].
      - intros w1 Hw1 Hp. apply wp_ret, HQ; done.
      - intros a w1 Hw1 Ha Hmax Hfor _ Hlb Hrate. apply wp_ret, HQ; try done. intros _.
        cbn [follows set_choice sampler]. destruct (sampler s) eqn:Es; try done. by destruct (Hno s0). }
    destruct (sampler s) as [| | | |a|] eqn:Es; try (by apply Hfresh; [apply Hf..|intros]).
    apply wp_bind, adaptive_update_wp; [by apply Hmu|done|].
    intros a' w1 Hw1 Hset Hops. apply wp_ret, HQ; try done. intros _. cbn. by rewrite Es.
  - apply wp_ret, HQ; done.
Qed.

Lemma count_wp m n Q w :
  metrics_wf m w ->
  (forall w', same_allocator w w' -> metrics_wf m w' -> counted_one m n w w' -> Q tt w') ->
  wp (count (Some m) n) Q w.
Proof.
  intros Hm HQ. unfold count. apply wp_bind, wp_assert; [by eapply counter_present|].
  by apply inc_one_wp.
Qed.

(** Two events counted after each other, other work in between. *)
Definition counted_both (m : jaeger_metrics) (n1 n2 : counter_name) (w w' : world) : Prop :=
  exists w1 w2, counted_one m n1 w w1 /\ w_cells w2 = w_cells w1 /\ counted_one m n2 w2 w'.

Lemma remote_update_wp {X} size get response (x : X) m s Q w :
  (exists w1, get w = Ok (response, x) w1 /\ progress w w1) ->
  metrics_wf m w -> remote_metrics s = Some m -> remote_mutex s = false ->
  (forall r, response = Some r -> followable size w r s) ->
  (forall ok s' w', remote_mutex s' = false ->
     match response with
     | None => ok = false /\ s' = s /\ counted_one m sampler_query_failure w w'
     | Some r =>
         counted_both m sampler_retrieved
           (if (ok : bool) then sampler_updated else sampler_update_failure) w w' /\
         (plenty w -> r <> invalid_strategy -> ok = true) /\
         (r = invalid_strategy -> ok = false) /\
         (ok = true -> follows r s (sampler s'))
     end -> Q (ok, s', x) w') ->
  wp (jaeger_remotely_controlled_sampler_update size get s) Q w.
Proof.
  intros (w1 & E & Hw1) Hm Hmetrics Hmutex Hf HQ.
  pose proof (proj1 (proj2 (proj2 Hw1))) as Ec1.
  unfold jaeger_remotely_controlled_sampler_update. apply wp_bind. unfold wp at 1. rewrite E.
  rewrite Hmetrics, Hmutex. destruct response as [r|].
  - apply wp_bind, mutex_lock_wp. cbn [remote_metrics set_remote_mutex]. rewrite Hmetrics.
    apply wp_bind, count_wp; [by eapply metrics_wf_progress|]. intros w2 Ha2 Hm2 Hc2.
    assert (same_allocator w w2) as Hall by (etrans; [by apply progress_same_allocator|done]).
    apply wp_bind, (apply_strategy_wp size);
      [exact (followable_same_allocator _ _ _ _ _ Hall (Hf r eq_refl))|].
    intros ok s' w3 Hw3 Hmetrics' Hmutex' Hok Hbad Hfollow. cbn beta iota.
    cbn in Hmetrics', Hmutex'. rewrite Hmetrics', Hmetrics.
    apply wp_bind, count_wp; [by eapply metrics_wf_progress|]. intros w4 Ha4 Hm4 Hc4.
    rewrite Hmutex'. apply wp_bind, mutex_unlock_wp, wp_ret, HQ; [done|].
    split; [|split; [|done]].
    + exists w2, w3. split; [by eapply counted_one_cells|]. split; [apply Hw3|done].
    + intros Hp. apply Hok. by eapply plenty_same_allocator.
  - apply wp_bind, count_wp; [by eapply metrics_wf_progress|]. intros w2 Ha2 Hm2 Hc2.
    apply wp_ret, HQ; [done|]. split; [done|]. split; [done|]. by eapply counted_one_cells.
Qed.
End SamplerFacts.

(** ** Properties *)

(** C23: A guaranteed-throughput sampler never faults on a monotonic clock. It
    samples exactly when its probabilistic sampler does for the number
    [jaeger_random64] draws, or else when its token bucket, refilled for the
    time up to the clock's reading and charged by one in either case, covers
    the cost; its rates are kept; and the tags name the sampler that decided,
    with its own parameter. *)
Theorem jaeger_guaranteed_throughput_is_sampled_spec (env : Env) (pb : Protobuf) s tags w :
  rand_r_31 env -> pthread_key_create_ok = true -> monotonic_clock env ->
  tags_ready tags -> ticked w (tok (lower_bound_sampler s)) ->
  exists r w1 ok tok' tags' w',
    let sampled := probabilistic_decision (probabilistic_sampler s) r in
    jaeger_random64 w = Ok r w1 /\
    charged (tok (lower_bound_sampler s)) (double_of_Z 1) (clock_monotonic (w_mono w)) ok tok' /\
    jaeger_guaranteed_throughput_probabilistic_sampler_is_sampled s tags w
    = Ok (sampled || ok, GuaranteedSampler (probabilistic_sampler s)
            (RateLimitingSampler tok' (max_traces_per_second (lower_bound_sampler s))), tags') w' /\
    ticked w' tok' /\
    tags_after w tags tags' (guaranteed_type sampled) (guaranteed_param s sampled).
Proof.
  intros Hr Hk Hc Ht Htick.
  assert (wp (jaeger_guaranteed_throughput_probabilistic_sampler_is_sampled s tags)
    (fun x w' => exists r, guaranteed_decision w s x.1.2 r x.1.1 /\
       ticked w' (tok (lower_bound_sampler x.1.2)) /\
       tags_after w tags x.2
         (guaranteed_type (probabilistic_decision (probabilistic_sampler s) r))
         (guaranteed_param s (probabilistic_decision (probabilistic_sampler s) r))) w) as H.
  { apply guaranteed_wp; [done..|]. intros r d s' tags' w' _ Ht' Hd Hta. by exists r. }
  apply wp_returns in H
    as ([[d s'] tags'] & w' & E & r & ([w1 Hd] & ok & tok' & Hch & Es & Ed) & Ht' & Hta).
  cbn in Es, Ed, Ht', Hta. subst s' d. by exists r, w1, ok, tok', tags', w'.
Qed.

(** C22: Asking an adaptive sampler never faults on a monotonic clock and keeps it
    well formed, unlocked and with the same settings. The search for the
    operation's sampler looks among names it takes to be in order: a sampler
    that it finds has the operation's name, is asked, and alone is replaced,
    by what it is after its decision; if it finds none, there is none, while
    memory lasts and provided the names are in order (which adding one does not
    keep: [SamplerThreads.adaptive_sampler_duplicates]). Then a new sampler with
    the default rate is inserted for the operation and asked, as long as there
    are fewer than the maximum; else, or when memory runs out, the default
    sampler answers and the samplers stay. So there are never more of them
    than the maximum, or than there were. *)
Theorem jaeger_adaptive_sampler_is_sampled_spec (env : Env) (pb : Protobuf) s name tags w :
  rand_r_31 env -> pthread_key_create_ok = true -> monotonic_clock env ->
  adaptive_wf w s -> adaptive_mutex s = false -> tags_ready tags -> short name ->
  exists d s' tags' w',
    jaeger_adaptive_sampler_is_sampled s name tags w = Ok (d, s', tags') w' /\
    adaptive_wf w' s' /\ tags_ok tags' /\ settings s' = settings s /\
    len (op_samplers s') <= Z.max (len (op_samplers s)) (max_operations s) /\
    adaptive_answer w s name d s'.
Proof.
  intros Hr Hk Hc Hs Hm Ht Hname.
  assert (wp (jaeger_adaptive_sampler_is_sampled s name tags)
    (fun x w' => adaptive_wf w' x.1.2 /\ tags_ok x.2 /\ settings x.1.2 = settings s /\
       len (op_samplers x.1.2) <= Z.max (len (op_samplers s)) (max_operations s) /\
       adaptive_answer w s name x.1.1 x.1.2) w) as H.
  { by apply adaptive_wp. }
  apply wp_returns in H as ([[d s'] tags'] & w' & E & H). by exists d, s', tags', w'.
Qed.

(** An adaptive sampler made from strategies has one sampler per strategy, with
    the strategy's rate clamped to [0, 1], and finds a sampler for exactly the
    operations that have a strategy. *)
Theorem jaeger_adaptive_sampler_init_spec (env : Env) (size : Z) strategies max_ops w :
  plenty w -> samplers_room size (lenZ (per_operation_strategy strategies)) max_ops ->
  Forall strategy_ok (per_operation_strategy strategies) ->
  exists s w', jaeger_adaptive_sampler_init size strategies max_ops w = Ok (Some s) w' /\
    adaptive_wf w' s /\ adaptive_mutex s = false /\ max_operations s = max_ops /\
    samplers_for strategies (contents (op_samplers s)) /\
    forall name w2, plenty w2 -> short name ->
      exists found w3, jaeger_adaptive_sampler_find_sampler s name w2 = Ok found w3 /\
        (is_Some found <->
         exists st, st ∈ per_operation_strategy strategies /\ operation st = Some name).
Proof.
  intros Hp Hroom Hss.
  assert (wp (jaeger_adaptive_sampler_init size strategies max_ops) (fun r w' => exists s,
    r = Some s /\ adaptive_wf w' s /\ adaptive_mutex s = false /\ max_operations s = max_ops /\
    samplers_for strategies (contents (op_samplers s))) w) as H.
  { apply adaptive_init_wp; [done|done|done|]. intros s w' _ Hs Hmax Hfor Hmu _ _. by exists s. }
  apply wp_returns in H as (r & w' & E & s & -> & Hs & Hmu & Hmax & Hfor).
  exists s, w'. do 5 (split; [done|]). intros name w2 Hp2 Hname.
  assert (wp (jaeger_adaptive_sampler_find_sampler s name) (fun found _ => is_Some found <->
    exists st, st ∈ per_operation_strategy strategies /\ operation st = Some name) w2) as Hf.
  { destruct Hs as [Hv Hn _ _], Hfor as ((l0 & Hperm & Hl0) & Hsorted).
    apply find_sampler_wp; [done|done|done|..].
    - intros i o w3 _ _ Ho Hon. split; [|by eexists]. intros _.
      apply list_elem_of_lookup_2 in Ho. rewrite Hperm in Ho.
      apply list_elem_of_lookup in Ho as [j Hj].
      destruct (Forall2_lookup_r _ _ _ _ _ Hl0 Hj) as (st & Hst & _ & Hop & _).
      exists st. split; [by eapply list_elem_of_lookup_2|congruence].
    - intros w3 _ Hun. split; [by intros [? ?]|]. intros (st & Hst & Hop).
      specialize (Hun Hp2 (Hsorted name)). rewrite Hperm in Hun.
      apply list_elem_of_lookup in Hst as [j Hj].
      destruct (Forall2_lookup_l _ _ _ _ _ Hl0 Hj) as (o & Ho & _ & Hon & _).
      rewrite Forall_forall in Hun. destruct (Hun o); [by eapply list_elem_of_lookup_2|congruence]. }
  apply wp_returns in Hf as (found & w3 & ? & ?). eauto.
Qed.

(** C24: An update of the remotely controlled sampler counts a failed query and
    keeps the sampler when the agent does not answer. Otherwise it counts the
    answer retrieved and then, as the result says, an update or a failed one;
    an invalid answer fails, any other succeeds while memory lasts, and on
    success the sampler is of the kind and has the rates the answer asks for:
    a new probabilistic or rate-limiting sampler; for an answer by operation a
    new adaptive sampler, one sampler per strategy, when there was none, or
    else the one there was with the samplers of the answer's operations
    retuned and nothing else changed. The last case is for operations that
    have samplers already, distinct and in the order of their names, and with
    memory: one that has none is the defect [adaptive_update_leaves_name_unset].
    The mutex is unlocked again on every path. *)
Theorem jaeger_remotely_controlled_sampler_update_spec (env : Env) (size : Z) (X : Type)
    get response (x : X) m s w :
  (exists w1, get w = Ok (response, x) w1 /\ progress w w1) ->
  metrics_wf m w -> remote_metrics s = Some m -> remote_mutex s = false ->
  (forall r, response = Some r -> followable size w r s) ->
  exists ok s' w', jaeger_remotely_controlled_sampler_update size get s w = Ok (ok, s', x) w' /\
    remote_mutex s' = false /\
    match response with
    | None => ok = false /\ s' = s /\ counted_one m sampler_query_failure w w'
    | Some r =>
        counted_both m sampler_retrieved
          (if ok then sampler_updated else sampler_update_failure) w w' /\
        (plenty w -> r <> invalid_strategy -> ok = true) /\
        (r = invalid_strategy -> ok = false) /\
        (ok = true -> follows r s (sampler s'))
    end.
Proof.
  intros Hget Hm Hmetrics Hmutex Hf.
  assert (wp (jaeger_remotely_controlled_sampler_update size get s) (fun res w' =>
    res.2 = x /\ remote_mutex res.1.2 = false /\
    match response with
    | None => res.1.1 = false /\ res.1.2 = s /\ counted_one m sampler_query_failure w w'
    | Some r =>
        counted_both m sampler_retrieved
          (if (res.1.1 : bool) then sampler_updated else sampler_update_failure) w w' /\
        (plenty w -> r <> invalid_strategy -> res.1.1 = true) /\
        (r = invalid_strategy -> res.1.1 = false) /\
        (res.1.1 = true -> follows r s (sampler res.1.2))
    end) w) as H.
  { by eapply remote_update_wp. }
  apply wp_returns in H as ([[ok s'] ?] & w' & E & <- & H). by exists ok, s', w'.
Qed.

(** *** Witnesses *)

Lemma sample_key_create : @pthread_key_create_ok sample_env = true.
Proof. reflexivity. Qed.

Definition sample_guaranteed : jaeger_guaranteed_throughput_probabilistic_sampler :=
  GuaranteedSampler (ProbabilisticSampler (dconst 1 (-2)))
    (RateLimitingSampler sample_bucket (double_of_Z 3)).

(** An empty vector of tags, with room for ten. *)
Definition sample_tags : jaeger_vector jaeger_tag :=
  Vector 0 10 (Some (replicate 10 (@JAEGERTRACINGC_TAG_INIT sample_pb))) (@sizeof_tag sample_pb).

Lemma sample_tags_ready : @tags_ready sample_pb (Some sample_tags).
Proof.
  split; intros v [= <-]; [split; [split|reflexivity]|]; try by vm_compute.
  by eexists.
Qed.

Lemma sample_bucket_ticked : @ticked sample_env ticked_world sample_bucket.
Proof. exists 0%nat. split; [cbn; lia|reflexivity]. Qed.

Lemma jaeger_guaranteed_throughput_is_sampled_spec_witness :
  exists r w1 ok tok' tags' w',
    let sampled := probabilistic_decision (probabilistic_sampler sample_guaranteed) r in
    @jaeger_random64 sample_env ticked_world = Ok r w1 /\
    charged sample_bucket (double_of_Z 1) (@clock_monotonic sample_env 1) ok tok' /\
    @jaeger_guaranteed_throughput_probabilistic_sampler_is_sampled sample_env sample_pb
      sample_guaranteed (Some sample_tags) ticked_world
    = Ok (sampled || ok, GuaranteedSampler (probabilistic_sampler sample_guaranteed)
            (RateLimitingSampler tok' (double_of_Z 3)), tags') w' /\
    @ticked sample_env w' tok' /\
    @tags_after sample_env sample_pb ticked_world (Some sample_tags) tags'
      (guaranteed_type sampled) (guaranteed_param sample_guaranteed sampled).
Proof.
  apply (jaeger_guaranteed_throughput_is_sampled_spec sample_env sample_pb sample_guaranteed
    (Some sample_tags) ticked_world);
    [apply sample_rand_r|reflexivity|apply sample_monotonic|apply sample_tags_ready
    |apply sample_bucket_ticked].
Defined.

(** A sampler that knows the operation [get] and may learn two more. *)
Definition sample_adaptive : jaeger_adaptive_sampler :=
  AdaptiveSampler
    (Vector 1 10 (Some (OperationSampler (Some (lit "get")) sample_guaranteed ::
                        replicate 9 zero_bytes)) 144)
    (ProbabilisticSampler (dconst 1 (-1))) (double_of_Z 2) 3 false.

Lemma sample_adaptive_wf : @adaptive_wf sample_env ticked_world sample_adaptive.
Proof.
  split.
  - split; try by vm_compute. by eexists.
  - constructor; [by eexists|constructor].
  - constructor; [apply sample_bucket_ticked|constructor].
  - by vm_compute.
Qed.

Lemma jaeger_adaptive_sampler_is_sampled_spec_witness :
  exists d s' tags' w',
    @jaeger_adaptive_sampler_is_sampled sample_env sample_pb sample_adaptive (lit "put")
      (Some sample_tags) ticked_world = Ok (d, s', tags') w' /\
    @adaptive_wf sample_env w' s' /\ @tags_ok sample_pb tags' /\
    settings s' = settings sample_adaptive /\
    len (op_samplers s') <= 3 /\
    @adaptive_answer sample_env ticked_world sample_adaptive (lit "put") d s'.
Proof.
  apply (jaeger_adaptive_sampler_is_sampled_spec sample_env sample_pb);
    [apply sample_rand_r|reflexivity|apply sample_monotonic|apply sample_adaptive_wf
    |reflexivity|apply sample_tags_ready|vm_compute; reflexivity].
Defined.

Definition sample_strategies : jaeger_per_operation_strategy :=
  PerOperationStrategy
    [OperationStrategy (Some (lit "put")) (dconst 1 (-1));
     OperationStrategy (Some (lit "get")) (double_of_Z 2)]
    (dconst 1 (-2)) (double_of_Z 1).

Lemma sample_strategies_ok : Forall strategy_ok (per_operation_strategy sample_strategies).
Proof. repeat constructor; eexists; (split; [reflexivity|vm_compute; reflexivity]). Qed.

Lemma sample_room : samplers_room 144 2 2000.
Proof. repeat split; by vm_compute. Qed.

Lemma jaeger_adaptive_sampler_init_spec_witness :
  exists s w', @jaeger_adaptive_sampler_init sample_env 144 sample_strategies 2000 initial_world
      = Ok (Some s) w' /\
    @adaptive_wf sample_env w' s /\ adaptive_mutex s = false /\ max_operations s = 2000 /\
    samplers_for sample_strategies (contents (op_samplers s)) /\
    forall name w2, @plenty sample_env w2 -> short name ->
      exists found w3, @jaeger_adaptive_sampler_find_sampler sample_env s name w2 = Ok found w3 /\
        (is_Some found <->
         exists st, st ∈ per_operation_strategy sample_strategies /\ operation st = Some name).
Proof.
  apply (jaeger_adaptive_sampler_init_spec sample_env 144);
    [apply plenty_sample|apply sample_room|apply sample_strategies_ok].
Defined.

Definition sample_remote : jaeger_remotely_controlled_sampler :=
  RemoteSampler (probabilistic_choice (ProbabilisticSampler DEFAULT_SAMPLING_RATE)) 2000
    (Some sample_metrics) false.

Lemma jaeger_remotely_controlled_sampler_update_spec_witness :
  exists ok s' w',
    @jaeger_remotely_controlled_sampler_update sample_env 144 unit
      (ret (Some (per_operation sample_strategies), tt)) sample_remote metrics_world
    = Ok (ok, s', tt) w' /\
    remote_mutex s' = false /\
    counted_both sample_metrics sampler_retrieved
      (if ok then sampler_updated else sampler_update_failure) metrics_world w' /\
    (@plenty sample_env metrics_world -> per_operation sample_strategies <> invalid_strategy ->
     ok = true) /\
    (per_operation sample_strategies = invalid_strategy -> ok = false) /\
    (ok = true -> follows (per_operation sample_strategies) sample_remote (sampler s')).
Proof.
  apply (jaeger_remotely_controlled_sampler_update_spec sample_env 144 unit
    (ret (Some (per_operation sample_strategies), tt)) (Some (per_operation sample_strategies)) tt
    sample_metrics sample_remote).
  - exists metrics_world. split; [reflexivity|reflexivity].
  - apply sample_metrics_wf.
  - reflexivity.
  - reflexivity.
  - intros r [= <-]. split; [by intros a|]. split; [apply sample_room|apply sample_strategies_ok].
Defined.

(** A second answer by operation, for the sampler of the one operation known:
    nothing is added, and [get] is sampled at its new rate. *)
Definition get_strategy : jaeger_per_operation_strategy :=
  PerOperationStrategy [OperationStrategy (Some (lit "get")) (dconst 1 (-3))]
    (dconst 1 (-2)) (double_of_Z 1).

Lemma sample_updatable :
  @updatable sample_env ticked_world sample_adaptive (per_operation_strategy get_strategy).
Proof.
  split.
  - done.
  - apply sample_adaptive_wf.
  - apply sample_adaptive_wf.
  - apply NoDup_singleton.
  - intros name [|i] [|j] a b Hij Ha Hb; try done. cbn in Ha, Hb. simplify_eq. by split_and!.
  - constructor; [|constructor]. split; [eexists; split; [reflexivity|by vm_compute]|by left].
Qed.

Example get_retuned :
  @bind _ _ (@jaeger_adaptive_sampler_update sample_env sample_adaptive get_strategy)
    (fun '(ok, s) => ret (ok, map (fun o => (op_name o,
       sampling_rate (probabilistic_sampler (op_sampler o)))) (contents (op_samplers s)))) ticked_world
  = Ok (true, [(Some (lit "get"), dconst 1 (-3))]) (World built_in_alloc 1 3 0 0 None ∅ 0).
Proof. vm_compute. reflexivity. Qed.

(** *** A defect of the update in place *)

(** A strategy for an operation [sample_adaptive] does not know. *)
Definition put_strategy : jaeger_per_operation_strategy :=
  PerOperationStrategy [OperationStrategy (Some (lit "put")) (dconst 1 (-1))]
    (dconst 1 (-2)) (double_of_Z 1).

(** The sampler that [jaeger_adaptive_sampler_update] inserts for an operation
    it did not know gets no name: the next search dereferences a NULL name
    (here the operation is inserted after the one that is known). *)
Theorem adaptive_update_leaves_name_unset :
  @bind _ _ (@jaeger_adaptive_sampler_update sample_env sample_adaptive put_strategy)
    (fun '(ok, s) => ret (ok, map op_name (contents (op_samplers s)))) ticked_world
  = Ok (true, [Some (lit "get"); None]) (World built_in_alloc 2 3 0 0 None ∅ 0) /\
  @bind _ _ (@jaeger_adaptive_sampler_update sample_env sample_adaptive put_strategy)
    (fun '(_, s) => @jaeger_adaptive_sampler_is_sampled sample_env sample_pb s (lit "put") None)
    ticked_world
  = Fault NullDeref.
Proof. split; vm_compute; reflexivity. Qed.
