(* ===== verification/Strategies.v ===== *)
(** * Fetching the sampling strategies (sampler.c, sampling_strategy.h)

    The HTTP client of the remotely controlled sampler: its request, the
    connection, the callbacks that collect the body of the answer, and the
    parsing of the JSON it holds into a strategy. http-parser, jansson and the
    socket are parameters. *)
From S2P Require Import Prelude Machine Vector CString Float Clock Threading Metrics Tag Net Sampler.

(** ** Definitions *)

(** *** Code outside the source *)

(** The members a format of [json_unpack_ex] names: a real, a string, a
    boolean, any value, a value that may be missing; and what is stored for each. *)
Inductive unpack_field :=
  | field_real (k : cstr)
  | field_string (k : cstr)
  | field_bool (k : cstr)
  | field_object (k : cstr)
  | field_optional (k : cstr).

Inductive unpacked (J : Type) :=
  | got_real (d : double)
  | got_string (s : cstr)
  | got_bool (b : bool)
  | got_json (j : J)
  | got_nothing.
Arguments got_real {J} d.
Arguments got_string {J} s.
Arguments got_bool {J} b.
Arguments got_json {J} j.
Arguments got_nothing {J}.

(** jansson: [json_loads] with its flags, [json_unpack_ex] of a
    possibly NULL value ([None] for a result that is not zero), and
    [json_is_array] with the elements. *)
Class Jansson := {
  json_t : Type;
  json_loads : Z -> cstr -> option json_t;
  json_unpack_ex : option json_t -> list unpack_field -> option (list (unpacked json_t));
  json_array : json_t -> option (list json_t);
}.

Definition JSON_REJECT_DUPLICATES : Z := 1.

(** http-parser: the callbacks the client sets, and [http_parser_execute],
    which threads what they change and returns the number of bytes parsed. *)
Inductive http_event :=
  | headers_complete (status_code : Z)
  | body (at_ : list ascii)
  | message_complete.

Class HttpParser := {
  http_parser : Type;
  http_parser_init : http_parser;
  http_parser_execute {A} : (A -> http_event -> M (Z * A)) -> A -> http_parser -> list ascii ->
    M (Z * http_parser * A);
}.

(** *** Data *)

Definition HTTP_OK : Z := 200.

(** The name of a [pathconf] variable on Linux, which the code uses as the
    limit it stands for. *)
Definition PC_PATH_MAX : Z := 4.

Definition JAEGERTRACINGC_HTTP_SAMPLING_MANAGER_REQUEST_MAX_LEN : Z := 256.
Definition default_sampling_server_url : cstr := lit "http://localhost:5778/sampling".

Inductive http_parsing_state := http_parsing_state_write | http_parsing_state_read.

#[export] Instance parsing_state_eq_dec : EqDecision http_parsing_state.
Proof. solve_decision. Defined.

#[export] Instance zero_char : ZeroBytes ascii := nul.

(** [m_ctx]: [parser.data], the parsing context, which points back to the
    manager; [m_socket]: the state of the connection. *)
Record jaeger_http_sampling_manager {net : Network} {http : HttpParser} := Manager {
  m_service_name : option cstr;
  sampling_server_url : jaeger_url;
  m_fd : Z;
  m_socket : option socket;
  m_parser : http_parser;
  m_ctx : option http_parsing_state;
  request_length : Z;
  request_buffer : list ascii;
  response : jaeger_vector ascii;
}.

(** *** JSON *)

Section Json.
Context {env : Env} {jansson : Jansson}.

Definition parse_probabilistic_sampling_json (json : option json_t) : M (option double) :=
  c_assert (bool_decide (is_Some json));;
  match json_unpack_ex json [field_real (lit "samplingRate")] with
  | None => ret None
  | Some [got_real rate] => ret (Some rate)
  | Some _ => fail TypeConfusion
  end.

Definition parse_rate_limiting_sampling_json (json : option json_t) : M (option double) :=
  c_assert (bool_decide (is_Some json));;
  match json_unpack_ex json [field_real (lit "maxTracesPerSecond")] with
  | None => ret None
  | Some [got_real rate] => ret (Some rate)
  | Some _ => fail TypeConfusion
  end.

(** The array of strategies while it is filled; [None]: a cell whose name has
    not been set since it was allocated. *)
Fixpoint parse_operations (array : list json_t)
    : M (bool * list (option jaeger_operation_strategy)) :=
  match array with
  | [] => ret (true, [])
  | op_json :: array =>
      let rest := map (fun _ => None) array in
      match json_unpack_ex (Some op_json)
              [field_string (lit "operation"); field_object (lit "probabilisticSampling")] with
      | None => ret (false, None :: rest)
      | Some [got_string operation_name; got_json probabilistic_json] =>
          name ← jaeger_strdup operation_name;
          if bool_decide (name = None) then
            ret (false, Some (OperationStrategy None (double_of_Z 0)) :: rest)
          else
            rate ← parse_probabilistic_sampling_json (Some probabilistic_json);
            match rate with
            | None => ret (false, Some (OperationStrategy name (double_of_Z 0)) :: rest)
            | Some rate =>
                ' (ok, cells) ← parse_operations array;
                ret (ok, Some (OperationStrategy name rate) :: cells)
            end
      | Some _ => fail TypeConfusion
      end
  end.

(** [jaeger_per_operation_strategy_destroy] frees every name. *)
Fixpoint jaeger_per_operation_strategy_destroy (cells : list (option jaeger_operation_strategy))
    : M unit :=
  match cells with
  | [] => ret tt
  | None :: _ => fail Uninitialised
  | Some s :: cells =>
      let _ := jaeger_operation_strategy_destroy s in
      jaeger_per_operation_strategy_destroy cells
  end.

Definition jaeger_strategy_response_destroy (response : jaeger_strategy_response) : M unit :=
  match response with
  | per_operation s => jaeger_per_operation_strategy_destroy (map Some (per_operation_strategy s))
  | _ => ret tt
  end.

Definition parse_per_operation_sampling_json (json : option json_t)
    : M (option jaeger_per_operation_strategy) :=
  c_assert (bool_decide (is_Some json));;
  match json_unpack_ex json
          [field_real (lit "defaultSamplingProbability");
           field_real (lit "defaultLowerBoundTracesPerSecond");
           field_optional (lit "perOperationStrategies")] with
  | None => ret None
  | Some [got_real probability; got_real lower_bound; got_nothing] =>
      ret (Some (PerOperationStrategy [] probability lower_bound))
  | Some [got_real probability; got_real lower_bound; got_json array] =>
      match json_array array with
      | None => ret None
      | Some array =>
          granted ← jaeger_malloc;
          if negb granted then ret None
          else
            ' (success, cells) ← parse_operations array;
            if (success : bool) then
              ret (Some (PerOperationStrategy (omap id cells) probability lower_bound))
            else jaeger_per_operation_strategy_destroy cells;; ret None
      end
  | Some _ => fail TypeConfusion
  end.

Definition parse_response (json : json_t) : M (option jaeger_strategy_response) :=
  match json_unpack_ex (Some json)
          [field_optional (lit "probabilisticSampling");
           field_optional (lit "rateLimitingSampling");
           field_optional (lit "operationSampling")] with
  | None => ret None
  | Some [got_json probabilistic_json; _; _] =>
      rate ← parse_probabilistic_sampling_json (Some probabilistic_json);
      ret (probabilistic_strategy <$> rate)
  | Some [got_nothing; got_json rate_limiting_json; _] =>
      rate ← parse_rate_limiting_sampling_json (Some rate_limiting_json);
      ret (rate_limiting_strategy <$> rate)
  | Some [got_nothing; got_nothing; per_operation_json] =>
      s ← parse_per_operation_sampling_json
            (match per_operation_json with got_json j => Some j | _ => None end);
      ret (per_operation <$> s)
  | Some _ => fail TypeConfusion
  end.

(** The text is the C string at the start of the response. *)
Definition jaeger_http_sampling_manager_parse_response_json (response : jaeger_vector ascii)
    : M (option jaeger_strategy_response) :=
  text ← jaeger_vector_get response 0;
  match text with
  | None => fail NullDeref
  | Some _ =>
      match json_loads JSON_REJECT_DUPLICATES (until_nul (contents response)) with
      | None => ret None
      | Some json => parse_response json
      end
  end.
End Json.

(** *** The connection *)

Section Manager.
Context {env : Env} {parser : UrlParser} {net : Network} {http : HttpParser} {jansson : Jansson}.
Context (JAEGERTRACINGC_CLIENT_VERSION : cstr).
Implicit Types m : jaeger_http_sampling_manager.

Definition set_m_url m url : jaeger_http_sampling_manager :=
  Manager net http (m_service_name m) url (m_fd m) (m_socket m) (m_parser m) (m_ctx m)
    (request_length m) (request_buffer m) (response m).
Definition set_m_socket m fd s : jaeger_http_sampling_manager :=
  Manager net http (m_service_name m) (sampling_server_url m) fd s (m_parser m) (m_ctx m)
    (request_length m) (request_buffer m) (response m).
Definition set_m_parser m p ctx : jaeger_http_sampling_manager :=
  Manager net http (m_service_name m) (sampling_server_url m) (m_fd m) (m_socket m) p ctx
    (request_length m) (request_buffer m) (response m).
Definition set_m_request m n buffer : jaeger_http_sampling_manager :=
  Manager net http (m_service_name m) (sampling_server_url m) (m_fd m) (m_socket m) (m_parser m)
    (m_ctx m) n buffer (response m).
Definition set_m_response m v : jaeger_http_sampling_manager :=
  Manager net http (m_service_name m) (sampling_server_url m) (m_fd m) (m_socket m) (m_parser m)
    (m_ctx m) (request_length m) (request_buffer m) v.

Definition JAEGERTRACINGC_HTTP_SAMPLING_MANAGER_INIT : jaeger_http_sampling_manager :=
  Manager net http None JAEGERTRACINGC_URL_INIT (-1) None http_parser_init None 0
    (replicate 256 nul) JAEGERTRACINGC_VECTOR_INIT.

Definition crlf : list ascii := [chr 13; chr 10].

Definition request_text (path service host_port : cstr) : cstr :=
  lit "GET /" ++ path ++ lit "?service=" ++ service ++ crlf ++ lit "Host: " ++ host_port ++ crlf
  ++ lit "User-Agent: jaegertracing/" ++ JAEGERTRACINGC_CLIENT_VERSION ++ crlf ++ crlf.

(** The bytes of the path, as a C string: the bit tested is the index of the
    field, not its place in the set. *)
Definition request_path (url : jaeger_url) : M (option cstr) :=
  let '(off, path_len) :=
    if negb (Z.land (field_set (parts url)) UF_PATH =? 0) then field_data (parts url) UF_PATH
    else (-1, 0) in
  if path_len >? PC_PATH_MAX then ret None
  else if path_len >? 0 then
    match url_str url with
    | None => fail NullDeref
    | Some str =>
        if (off <? 0) || (off + path_len >? strlen str + 1) then fail OutOfBounds
        else ret (Some (until_nul (take (Z.to_nat path_len) (drop (Z.to_nat off) (str ++ [nul])))))
    end
  else ret (Some []).

Definition jaeger_http_sampling_manager_format_request m (url : jaeger_url)
    (sampling_host_port : jaeger_host_port) : M (bool * jaeger_http_sampling_manager) :=
  path ← request_path url;
  match path with
  | None => ret (false, m)
  | Some path =>
      let size := HOST_NAME_MAX + JAEGERTRACINGC_MAX_PORT_STR_LEN + 1 in
      ' (result, host_port) ← jaeger_host_port_format sampling_host_port size;
      if result >? size then ret (false, m)
      else
        match m_service_name m with
        | None => fail NullDeref
        | Some service =>
            let '(result, text) :=
              snprintf JAEGERTRACINGC_HTTP_SAMPLING_MANAGER_REQUEST_MAX_LEN
                (request_text path service (default [] host_port)) in
            let buffer := default [] text ++ [nul] in
            if result >? JAEGERTRACINGC_HTTP_SAMPLING_MANAGER_REQUEST_MAX_LEN
            then ret (false, set_m_request m (request_length m) buffer)
            else ret (true, set_m_request m result buffer)
        end
  end.

(** A socket for each address until one connects. *)
Fixpoint try_connect (host_addrs : list (addrinfo sockaddr)) : option (Z * socket) :=
  match host_addrs with
  | [] => None
  | addr :: host_addrs =>
      let '(fd, s) := open_socket AF_INET SOCK_STREAM in
      if fd <? 0 then try_connect host_addrs
      else
        let '(result, s) := sys_connect s (ai_addr addr) (ai_addrlen addr) in
        if result =? 0 then Some (fd, s) else try_connect host_addrs
  end.

Definition jaeger_http_sampling_manager_connect m (sampling_host_port : jaeger_host_port)
    : M (bool * jaeger_http_sampling_manager) :=
  ' (resolved, host_addrs) ← jaeger_host_port_resolve sampling_host_port SOCK_STREAM None;
  if negb resolved then ret (false, m)
  else
    match try_connect (default [] host_addrs) with
    | None => ret (false, m)
    | Some (fd, s) => ret (true, set_m_socket m fd (Some s))
    end.

(** [ctx_freed]: the parsing context, which [parser.data] still points to, has
    been freed. *)
Definition jaeger_http_sampling_manager_destroy m (ctx_freed : bool)
    : M jaeger_http_sampling_manager :=
  match m_ctx m, ctx_freed with
  | Some _, true => fail DoubleFree
  | _, _ =>
      ret (Manager net http None JAEGERTRACINGC_URL_INIT (m_fd m) (m_socket m) (m_parser m) None
             (request_length m) (request_buffer m) (jaeger_vector_destroy (response m)))
  end.

Definition cleanup_manager m (ctx_freed : bool) : M (bool * jaeger_http_sampling_manager) :=
  m ← jaeger_http_sampling_manager_destroy m ctx_freed; ret (false, m).

(** What follows the connection. *)
Definition prepare_manager m (sampling_host_port : jaeger_host_port)
    : M (bool * jaeger_http_sampling_manager) :=
  granted ← jaeger_malloc;
  if negb granted then cleanup_manager (set_m_parser m http_parser_init (m_ctx m)) false
  else
    let m := set_m_parser m http_parser_init (Some http_parsing_state_write) in
    ' (ok, v) ← jaeger_vector_init (response m) 1;
    let m := set_m_response m v in
    if negb ok then cleanup_manager m true
    else
      ' (ok, v) ← jaeger_vector_reserve (response m)
                    JAEGERTRACINGC_HTTP_SAMPLING_MANAGER_REQUEST_MAX_LEN;
      let m := set_m_response m v in
      if negb ok then cleanup_manager (set_m_response m (jaeger_vector_destroy v)) true
      else jaeger_http_sampling_manager_format_request m (sampling_server_url m) sampling_host_port.

Definition jaeger_http_sampling_manager_init m (url : option cstr) (service_name : option cstr)
    : M (bool * jaeger_http_sampling_manager) :=
  match service_name with
  | None => c_assert false;; fail NullDeref
  | Some service_name =>
      c_assert (strlen service_name >? 0);;
      name ← jaeger_strdup service_name;
      let m := Manager net http name (sampling_server_url m) (m_fd m) (m_socket m) (m_parser m)
                 (m_ctx m) (request_length m) (request_buffer m) (response m) in
      if bool_decide (name = None) then ret (false, m)
      else
        let url := match url with
                   | Some (c :: text) => c :: text
                   | _ => default_sampling_server_url
                   end in
        ' (ok, parsed) ← jaeger_url_init (sampling_server_url m) (Some url);
        let m := set_m_url m parsed in
        if negb ok then cleanup_manager m false
        else
          ' (ok, sampling_host_port) ←
            jaeger_host_port_from_url JAEGERTRACINGC_HOST_PORT_INIT (sampling_server_url m);
          if negb ok then cleanup_manager m false
          else
            ' (ok, m) ← jaeger_http_sampling_manager_connect m sampling_host_port;
            if negb ok then cleanup_manager m false else prepare_manager m sampling_host_port
  end.

(** *** The answer *)

Definition jaeger_http_sampling_manager_parser_on_headers_complete (status_code : Z) : Z :=
  if negb (status_code =? HTTP_OK) then 1 else 0.

(** The bytes are written at the end, without a look at the extension's result. *)
Definition jaeger_http_sampling_manager_parser_on_body m (at_ : list ascii)
    : M (Z * jaeger_http_sampling_manager) :=
  ' (ptr, v) ← jaeger_vector_extend (response m) (jaeger_vector_length (response m))
                 (to_signed 32 (lenZ at_));
  match ptr, data v with
  | Some pos, Some cells =>
      let pos := Z.to_nat pos in
      if lenZ cells <? Z.of_nat pos + lenZ at_ then fail OutOfBounds
      else
        ret (0, set_m_response m
                  (set_data v (Some (take pos cells ++ at_ ++ drop (pos + length at_) cells))))
  | _, _ => fail NullDeref
  end.

Definition jaeger_http_sampling_manager_parser_on_message_complete m
    : M (Z * jaeger_http_sampling_manager) :=
  match m_ctx m with
  | None => c_assert false;; fail NullDeref
  | Some _ => ret (0, set_m_parser m (m_parser m) (Some http_parsing_state_write))
  end.

(** The callbacks of [manager->settings]. *)
Definition on_http_event m (e : http_event) : M (Z * jaeger_http_sampling_manager) :=
  match e with
  | headers_complete status_code =>
      ret (jaeger_http_sampling_manager_parser_on_headers_complete status_code, m)
  | body at_ => jaeger_http_sampling_manager_parser_on_body m at_
  | message_complete => jaeger_http_sampling_manager_parser_on_message_complete m
  end.

Definition read_chunk m : M (Z * list ascii * jaeger_http_sampling_manager) :=
  match m_socket m with
  | None => ret (-1, [], m)
  | Some s =>
      let '(num_read, bytes, s) :=
        sys_read s JAEGERTRACINGC_HTTP_SAMPLING_MANAGER_REQUEST_MAX_LEN in
      ret (num_read, bytes, set_m_socket m (m_fd m) (Some s))
  end.

(** The loop over the reads, which the peer can keep going: [fuel] bounds
    their number. [false]: the parser rejected the bytes. *)
Fixpoint read_answer (fuel : nat) m (num_read : Z) (chunk : list ascii)
    : M (bool * jaeger_http_sampling_manager) :=
  if num_read >? 0 then
    match fuel with
    | O => fail OutOfFuel
    | S fuel =>
        ' (num_parsed, p, m) ← http_parser_execute on_http_event m (m_parser m) chunk;
        let m := set_m_parser m p (m_ctx m) in
        if negb (num_parsed =? num_read) then ret (false, m)
        else
          match m_ctx m with
          | None => c_assert false;; fail NullDeref
          | Some state =>
              if negb (bool_decide (state = http_parsing_state_read)) then ret (true, m)
              else
                ' (num_read, chunk, m) ← read_chunk m;
                read_answer fuel m num_read chunk
          end
    end
  else ret (true, m).

(** The answer is ended by NUL, without a look at the append's result. *)
Definition finish_answer m : M (jaeger_http_sampling_manager) :=
  ' (null_byte_ptr, v) ← jaeger_vector_append (response m);
  match null_byte_ptr with
  | None => fail NullDeref
  | Some _ => v ← store v null_byte_ptr nul; ret (set_m_response m v)
  end.

Definition jaeger_http_sampling_manager_get_sampling_strategies (fuel : nat) m
    : M (option jaeger_strategy_response * jaeger_http_sampling_manager) :=
  match m_ctx m with
  | None => c_assert false;; fail NullDeref
  | Some _ =>
      let m := set_m_parser m (m_parser m) (Some http_parsing_state_write) in
      let m := set_m_response m (jaeger_vector_clear (response m)) in
      let '(num_written, s) :=
        match m_socket m with
        | None => (-1, None)
        | Some s =>
            let '(n, s) := sys_write s (take (Z.to_nat (request_length m)) (request_buffer m)) in
            (n, Some s)
        end in
      let m := set_m_socket m (m_fd m) s in
      if negb (num_written =? request_length m) then ret (None, m)
      else
        let m := set_m_parser m (m_parser m) (Some http_parsing_state_read) in
        ' (num_read, chunk, m) ← read_chunk m;
        ' (ok, m) ← read_answer fuel m num_read chunk;
        if negb ok then ret (None, m)
        else
          m ← finish_answer m;
          r ← jaeger_http_sampling_manager_parse_response_json (response m);
          ret (r, m)
  end.

(** *** The sampler with its manager *)

(** The whole of [jaeger_remotely_controlled_sampler]: Sampler.v's part, and the
    manager. *)
Definition jaeger_remotely_controlled_sampler_destroy
    (s : jaeger_remotely_controlled_sampler * jaeger_http_sampling_manager)
    : M (jaeger_remotely_controlled_sampler * jaeger_http_sampling_manager) :=
  let '(s, manager) := s in
  c ← jaeger_sampler_choice_destroy (sampler s);
  manager ← jaeger_http_sampling_manager_destroy manager false;
  ' (_, mutex) ← jaeger_mutex_destroy (remote_mutex s);
  ret (set_remote_mutex (set_choice s c) mutex, manager).

#[export] Instance remote_sampler_with_manager_ops {pb : Protobuf}
    : Sampler (jaeger_remotely_controlled_sampler * jaeger_http_sampling_manager) :=
  {| is_sampled '(s, manager) trace_id name tags :=
       ' (d, s, tags) ← is_sampled s trace_id name tags; ret (d, (s, manager), tags);
     sampler_destroy := jaeger_remotely_controlled_sampler_destroy |}.
End Manager.

(** ** Lemmas *)

(** *** What is relied on *)

(** The documented behaviour of [json_unpack_ex] on an object, in terms of its
    members: a missing member is an error unless it is optional, and so is one
    of another type. *)
Class JanssonLaws (jansson : Jansson) := {
  json_is_object : json_t -> bool;
  json_member : json_t -> cstr -> option json_t;
  json_real : json_t -> option double;
  json_string : json_t -> option cstr;
  json_boolean : json_t -> option bool;
  unpack_one (j : json_t) (f : unpack_field) : option (unpacked json_t) :=
    match f with
    | field_real k => got_real <$> (json_member j k ≫= json_real)
    | field_string k => got_string <$> (json_member j k ≫= json_string)
    | field_bool k => got_bool <$> (json_member j k ≫= json_boolean)
    | field_object k => got_json <$> json_member j k
    | field_optional k => Some (from_option got_json got_nothing (json_member j k))
    end;
  unpack_object j fields :
    json_unpack_ex (Some j) fields =
    if json_is_object j then mapM (unpack_one j) fields else None;
}.

(** The bytes of an answer make the parser call back, in order; when every
    call returns zero all of the bytes are parsed. *)
Section Callbacks.
Context {http : HttpParser}.

Fixpoint run_callbacks {A} (cb : A -> http_event -> M (Z * A)) (a : A) (es : list http_event)
    : M (bool * A) :=
  match es with
  | [] => ret (true, a)
  | e :: es =>
      ' (r, a) ← cb a e;
      if r =? 0 then run_callbacks cb a es else ret (false, a)
  end.
End Callbacks.

Class HttpParserLaws (http : HttpParser) := {
  parser_events : http_parser -> list ascii -> list http_event * http_parser;
  execute_ok {A} (cb : A -> http_event -> M (Z * A)) a p bytes w a' w' :
    run_callbacks cb a (parser_events p bytes).1 w = Ok (true, a') w' ->
    http_parser_execute cb a p bytes w = Ok (lenZ bytes, (parser_events p bytes).2, a') w';
}.

(** *** JSON that says a strategy *)

#[local] Arguments lit : simpl never.

Section JsonFacts.
Context {env : Env} {jansson : Jansson} {laws : JanssonLaws jansson}.

Definition rate_json (key : cstr) (j : json_t) (rate : double) : Prop :=
  json_is_object j = true /\ json_member j key ≫= json_real = Some rate.

Definition operation_json (j : json_t) (s : jaeger_operation_strategy) : Prop :=
  json_is_object j = true /\
  (exists name, operation s = Some name /\ short name /\
     json_member j (lit "operation") ≫= json_string = Some name) /\
  exists p, json_member j (lit "probabilisticSampling") = Some p /\
    rate_json (lit "samplingRate") p (op_sampling_rate s).

Definition per_operation_json (j : json_t) (s : jaeger_per_operation_strategy) : Prop :=
  json_is_object j = true /\
  json_member j (lit "defaultSamplingProbability") ≫= json_real
    = Some (default_sampling_probability s) /\
  json_member j (lit "defaultLowerBoundTracesPerSecond") ≫= json_real
    = Some (default_lower_bound_traces_per_second s) /\
  match json_member j (lit "perOperationStrategies") with
  | None => per_operation_strategy s = []
  | Some array =>
      exists js, json_array array = Some js /\ Forall2 operation_json js (per_operation_strategy s)
  end.

(** The first of the three members that is present decides. *)
Definition strategy_json (j : json_t) (r : jaeger_strategy_response) : Prop :=
  json_is_object j = true /\
  match json_member j (lit "probabilisticSampling"),
        json_member j (lit "rateLimitingSampling"),
        json_member j (lit "operationSampling") with
  | Some p, _, _ => exists d, r = probabilistic_strategy d /\ rate_json (lit "samplingRate") p d
  | None, Some l, _ =>
      exists d, r = rate_limiting_strategy d /\ rate_json (lit "maxTracesPerSecond") l d
  | None, None, Some o => exists s, r = per_operation s /\ per_operation_json o s
  | None, None, None => False
  end.

Lemma strategy_json_valid j : ~ strategy_json j invalid_strategy.
Proof.
  intros [_ H]. repeat case_match; by (destruct H as (? & ? & _) || destruct H).
Qed.

Lemma unpack_real key j rate :
  rate_json key j rate -> json_unpack_ex (Some j) [field_real key] = Some [got_real rate].
Proof. intros [Ho Hr]. rewrite unpack_object, Ho. cbn. by rewrite Hr. Qed.

Lemma parse_probabilistic_wp j rate Q w :
  rate_json (lit "samplingRate") j rate -> Q (Some rate) w ->
  wp (parse_probabilistic_sampling_json (Some j)) Q w.
Proof.
  intros Hj HQ. unfold parse_probabilistic_sampling_json. wp_step. apply wp_assert; [done|].
  by rewrite (unpack_real _ _ _ Hj).
Qed.

Lemma parse_rate_limiting_wp j rate Q w :
  rate_json (lit "maxTracesPerSecond") j rate -> Q (Some rate) w ->
  wp (parse_rate_limiting_sampling_json (Some j)) Q w.
Proof.
  intros Hj HQ. unfold parse_rate_limiting_sampling_json. wp_step. apply wp_assert; [done|].
  by rewrite (unpack_real _ _ _ Hj).
Qed.

Lemma parse_operations_wp js ops Q w :
  plenty w -> Forall2 operation_json js ops ->
  (forall w', alloc_only w w' -> Q (true, map Some ops) w') ->
  wp (parse_operations js) Q w.
Proof.
  intros Hp Hjs. revert Q w Hp.
  induction Hjs as [|j [name rate] js ops (Ho & (n & Hn & Hs & Hjn) & p & Hjp & Hr) _ IH];
    intros Q w Hp HQ; cbn [parse_operations]; [by apply wp_ret, HQ|].
  rewrite unpack_object, Ho. cbn. rewrite Hjn, Hjp. cbn in *. subst name. wp_step.
  apply wp_strdup; [done|by intros|]. intros w1 Hw1. rewrite bool_decide_eq_false_2 by done.
  wp_step. eapply parse_probabilistic_wp; [done|]. wp_step.
  apply IH; [by eapply plenty_alloc_only|]. intros w2 Hw2. wp_step. apply HQ. by etrans.
Qed.

Lemma omap_some {A} (l : list A) : omap id (map Some l) = l.
Proof. induction l as [|a l IH]; [done|]. cbn. by rewrite IH. Qed.

Lemma parse_per_operation_wp j s Q w :
  plenty w -> per_operation_json j s -> (forall w', alloc_only w w' -> Q (Some s) w') ->
  wp (parse_per_operation_sampling_json (Some j)) Q w.
Proof.
  intros Hp (Ho & Hpr & Hlb & Ha) HQ. unfold parse_per_operation_sampling_json.
  wp_step. apply wp_assert; [done|]. rewrite unpack_object, Ho. cbn. rewrite Hpr, Hlb. cbn.
  destruct s as [ops pr lb]. cbn in *.
  destruct (json_member j (lit "perOperationStrategies")) as [array|]; cbn.
  - destruct Ha as (js & -> & Hjs). do 2 wp_step. rewrite Hplenty by done. cbn [negb]. wp_step.
    eapply parse_operations_wp; [by eapply plenty_alloc_only|done|]. intros w1 Hw1.
    wp_step. rewrite omap_some. apply HQ. by etrans.
  - subst ops. by apply HQ.
Qed.

Lemma parse_response_wp j r Q w :
  plenty w -> strategy_json j r -> (forall w', alloc_only w w' -> Q (Some r) w') ->
  wp (parse_response j) Q w.
Proof.
  intros Hp [Ho Hr] HQ. unfold parse_response. rewrite unpack_object, Ho. cbn.
  destruct (json_member j (lit "probabilisticSampling")) as [p|]; cbn.
  { destruct Hr as (d & -> & Hd). wp_step. eapply parse_probabilistic_wp; [done|].
    wp_step. by apply HQ. }
  destruct (json_member j (lit "rateLimitingSampling")) as [l|]; cbn.
  { destruct Hr as (d & -> & Hd). wp_step. eapply parse_rate_limiting_wp; [done|].
    wp_step. by apply HQ. }
  destruct (json_member j (lit "operationSampling")) as [o|]; cbn; [|done].
  destruct Hr as (s & -> & Hs). wp_step. eapply parse_per_operation_wp; [done|done|].
  intros w1 Hw1. wp_step. by apply HQ.
Qed.
End JsonFacts.

(** *** The answer, chunk by chunk *)

Section AnswerFacts.
Context {env : Env} {net : Network} {http : HttpParser} {plaws : HttpParserLaws http}.
Implicit Types (m : jaeger_http_sampling_manager) (w : world).

(** The callbacks of an answer with status 200. *)
Definition accepted (e : http_event) : Prop :=
  match e with headers_complete status => status = HTTP_OK | _ => True end.

Definition event_text (e : http_event) : list ascii :=
  match e with body at_ => at_ | _ => [] end.
Definition events_text (es : list http_event) : list ascii := concat (map event_text es).

Definition completes (e : http_event) : bool :=
  match e with message_complete => true | _ => false end.

(** The response buffer while it collects: its capacity is what it was at the
    start, or at most four times what it holds. *)
Record collected (c0 : Z) (v : jaeger_vector ascii) (text : list ascii) : Prop := {
  collected_wf : vector_wf v;
  collected_size : type_size v = 1;
  collected_text : contents v = text;
  collected_capacity : capacity v <= Z.max c0 (4 * lenZ text);
}.

(** A text that fits with room to grow. *)
Definition fits_answer (c0 : Z) (text : list ascii) : Prop :=
  2 * (Z.max c0 (4 * lenZ text) + lenZ text + 1) <= INT_MAX.

Lemma fits_answer_app c0 t1 t2 : fits_answer c0 (t1 ++ t2) -> fits_answer c0 t1.
Proof. unfold fits_answer. lists. Qed.

Lemma on_body_wp m c0 text at_ Q w :
  plenty w -> collected c0 (response m) text -> fits_answer c0 (text ++ at_) ->
  (forall v w', alloc_only w w' -> collected c0 v (text ++ at_) ->
     Q (0, set_m_response m v) w') ->
  wp (jaeger_http_sampling_manager_parser_on_body m at_) Q w.
Proof.
  intros Hp [Hwf Hts Ht Hcap] Hfit HQ. unfold fits_answer, INT_MAX in Hfit.
  rewrite length_app in Hfit. pose proof (length_contents _ Hwf) as Hlen.
  pose proof (wf_len _ Hwf). rewrite Ht in Hlen. unfold jaeger_vector_length.
  unfold jaeger_http_sampling_manager_parser_on_body, jaeger_vector_length.
  rewrite to_signed_small by lia. wp_step.
  apply extend_wp; [done|lia|lia|unfold fits, INT_MAX; rewrite Hts; lia|by intros|].
  intros v gap w1 Hw1 Hwf1 Hgap El1 Et1 [[Hc1 Hc2] Hc3] Econt1.
  destruct (wf_cells _ Hwf1) as (cells & Ecells & Hcells). rewrite Ecells.
  pose proof (wf_len _ Hwf1). rewrite (proj2 (Z.ltb_ge _ _)) by lia. wp_step. apply HQ; [done|].
  assert (take (Z.to_nat (len (response m))) cells = text) as Etake.
  { rewrite <- (take_take_le cells _ (Z.to_nat (len v))) by lia.
    assert (take (Z.to_nat (len v)) cells = contents v) as -> by (unfold contents; by rewrite Ecells).
    assert (take (Z.to_nat (len (response m))) text = text) as Etext by (apply take_ge; lia).
    by rewrite Econt1, Ht, Etext, take_app_le by lia. }
  rewrite Etake. split; cbn [set_data type_size capacity len data].
  - split; cbn [set_data type_size capacity len data]; [apply Hwf1|lia|apply Hwf1|].
    eexists. split; [done|]. rewrite !length_app, length_drop. lia.
  - congruence.
  - unfold contents. cbn [set_data data len from_option id]. rewrite (assoc_L (++)).
    apply take_app_length'. lists.
  - rewrite length_app. destruct (decide (len (response m) + lenZ at_ <= capacity (response m))).
    + rewrite Hc3 by done. lia.
    + lia.
Qed.

(** The state of the exchange after some events. *)
Definition ctx_after (ctx : option http_parsing_state) (es : list http_event)
    : option http_parsing_state :=
  if existsb completes es then Some http_parsing_state_write else ctx.

Definition after m (p : http_parser) ctx v : jaeger_http_sampling_manager :=
  set_m_response (set_m_parser m p ctx) v.

Lemma callbacks_wp m c0 text es Q w :
  plenty w -> is_Some (m_ctx m) -> collected c0 (response m) text -> Forall accepted es ->
  fits_answer c0 (text ++ events_text es) ->
  (forall v w', alloc_only w w' -> collected c0 v (text ++ events_text es) ->
     Q (true, after m (m_parser m) (ctx_after (m_ctx m) es) v) w') ->
  wp (run_callbacks on_http_event m es) Q w.
Proof.
  intros Hp Hctx Hcol Hes. revert m text Q w Hp Hctx Hcol.
  induction Hes as [|e es He _ IH]; intros m text Q w Hp Hctx Hcol Hfit HQ; cbn [run_callbacks].
  { specialize (HQ (response m) w). cbn in HQ. rewrite app_nil_r in HQ.
    destruct m. by apply wp_ret, HQ. }
  wp_step. destruct e as [status|at_|]; cbn [on_http_event].
  - wp_step. cbn in He. unfold jaeger_http_sampling_manager_parser_on_headers_complete.
    rewrite He. cbn [negb Z.eqb HTTP_OK]. change (200 =? 200) with true. cbn [negb Z.eqb].
    by eapply IH.
  - change (events_text (body at_ :: es)) with (at_ ++ events_text es) in *.
    rewrite (assoc_L (++)) in Hfit.
    eapply on_body_wp; [done|done|by eapply fits_answer_app|]. intros v w1 Hw1 Hv. cbn [Z.eqb].
    eapply IH; [by eapply plenty_alloc_only|done|done|done|].
    intros v' w2 Hw2 Hv'. rewrite <- (assoc_L (++)) in Hv'. apply HQ; [by etrans|done].
  - unfold jaeger_http_sampling_manager_parser_on_message_complete.
    destruct Hctx as [st Hst]. rewrite Hst. wp_step. cbn [Z.eqb].
    eapply IH; [done|by eexists|done|done|].
    intros v w1 Hw1 Hv. specialize (HQ v w1 Hw1 Hv). unfold ctx_after in *. cbn in HQ |- *.
    by destruct (existsb completes es).
Qed.

(** What the peer sends: [delivers s chunks], the reads from [s] return the
    chunks in order; [answers p chunks text], they hold an accepted message
    that completes in the last chunk and whose body is [text]. *)
Fixpoint delivers (s : socket) (chunks : list (list ascii)) : Prop :=
  match chunks with
  | [] => True
  | c :: chunks =>
      c <> [] /\ exists s',
        sys_read s JAEGERTRACINGC_HTTP_SAMPLING_MANAGER_REQUEST_MAX_LEN = (lenZ c, c, s') /\
        delivers s' chunks
  end.

Inductive answers : http_parser -> list (list ascii) -> list ascii -> Prop :=
  | answers_last p c :
      Forall accepted (parser_events p c).1 -> existsb completes (parser_events p c).1 = true ->
      answers p [c] (events_text (parser_events p c).1)
  | answers_more p c chunks text :
      Forall accepted (parser_events p c).1 -> existsb completes (parser_events p c).1 = false ->
      answers (parser_events p c).2 chunks text ->
      answers p (c :: chunks) (events_text (parser_events p c).1 ++ text).

Lemma execute_wp m c0 text c Q w :
  plenty w -> is_Some (m_ctx m) -> collected c0 (response m) text ->
  Forall accepted (parser_events (m_parser m) c).1 ->
  fits_answer c0 (text ++ events_text (parser_events (m_parser m) c).1) ->
  (forall v w', alloc_only w w' ->
     collected c0 v (text ++ events_text (parser_events (m_parser m) c).1) ->
     Q (lenZ c, (parser_events (m_parser m) c).2,
        after m (m_parser m) (ctx_after (m_ctx m) (parser_events (m_parser m) c).1) v) w') ->
  wp (http_parser_execute on_http_event m (m_parser m) c) Q w.
Proof.
  intros Hp Hctx Hcol Hes Hfit HQ.
  assert (wp (run_callbacks on_http_event m (parser_events (m_parser m) c).1) (fun r w' =>
    exists v, r = (true, after m (m_parser m)
                     (ctx_after (m_ctx m) (parser_events (m_parser m) c).1) v) /\
      alloc_only w w' /\ collected c0 v (text ++ events_text (parser_events (m_parser m) c).1)) w)
    as (r & w' & E & v & -> & Hw' & Hv)%wp_returns.
  { eapply callbacks_wp; [done..|]. intros v w' Hw' Hv. by exists v. }
  apply execute_ok in E. unfold wp. rewrite E. by apply HQ.
Qed.

Lemma read_chunk_wp m s n c s' Q w :
  m_socket m = Some s ->
  sys_read s JAEGERTRACINGC_HTTP_SAMPLING_MANAGER_REQUEST_MAX_LEN = (n, c, s') ->
  Q (n, c, set_m_socket m (m_fd m) (Some s')) w -> wp (read_chunk m) Q w.
Proof. intros Hs Hr HQ. unfold read_chunk. by rewrite Hs, Hr. Qed.

Lemma read_answer_wp fuel m c0 text s c chunks rest Q w :
  plenty w -> m_ctx m = Some http_parsing_state_read -> m_socket m = Some s ->
  collected c0 (response m) text -> c <> [] -> delivers s chunks ->
  answers (m_parser m) (c :: chunks) rest -> fits_answer c0 (text ++ rest) ->
  (length (c :: chunks) <= fuel)%nat ->
  (forall m' w', alloc_only w w' -> is_Some (m_ctx m') -> collected c0 (response m') (text ++ rest) ->
     Q (true, m') w') ->
  wp (read_answer fuel m (lenZ c) c) Q w.
Proof.
  revert m text s c chunks rest Q w. induction fuel as [|fuel IH];
    intros m text s c chunks rest Q w Hp Hctx Hs Hcol Hc Hdel Hans Hfit Hfuel HQ;
    [cbn in Hfuel; lia|].
  cbn [read_answer]. assert (0 < lenZ c) by (destruct c; [done|cbn [length]; lia]).
  rewrite Z.gtb_ltb, (proj2 (Z.ltb_lt _ _)) by done. wp_step.
  inversion Hans as [? ? Hes Hdone Ep Ec Er|? ? ? rest' Hes Hmore Hrest Ep Ec Er]; subst.
  - eapply execute_wp; [done|by rewrite Hctx|done|done|done|]. intros v w1 Hw1 Hv.
    rewrite Z.eqb_refl. cbn [negb]. unfold ctx_after. rewrite Hdone. cbn.
    apply wp_ret, HQ; [done|by eexists|done].
  - rewrite (assoc_L (++)) in Hfit.
    eapply execute_wp; [done|by rewrite Hctx|done|done|by eapply fits_answer_app|].
    intros v w1 Hw1 Hv. rewrite Z.eqb_refl. cbn [negb]. unfold ctx_after. rewrite Hmore, Hctx. cbn.
    destruct chunks as [|c' chunks]; [by inversion Hrest|].
    destruct Hdel as (Hc' & s' & Er' & Hdel').
    rewrite bool_decide_eq_true_2 by done. cbn [negb]. wp_step.
    eapply read_chunk_wp; [exact Hs|exact Er'|].
    eapply IH; [by eapply plenty_alloc_only|done|done|done|done|done|done|done|cbn in *; lia|].
    intros m' w2 Hw2 Hctx' Hcol'. rewrite <- (assoc_L (++)) in Hcol'. apply HQ; [by etrans|done|done].
Qed.
End AnswerFacts.

Section FetchFacts.
Context {env : Env} {net : Network} {http : HttpParser} {jansson : Jansson}
  {plaws : HttpParserLaws http} {jlaws : JanssonLaws jansson}.
Implicit Types (m : jaeger_http_sampling_manager) (w : world).

Lemma until_nul_ended s : until_nul (s ++ [nul]) = until_nul s.
Proof. induction s as [|c s IH]; [done|]. cbn. by rewrite IH. Qed.

Lemma finish_answer_wp m c0 text Q w :
  plenty w -> collected c0 (response m) text -> fits_answer c0 text ->
  (forall v w', alloc_only w w' -> vector_wf v -> contents v = text ++ [nul] ->
     Q (set_m_response m v) w') ->
  wp (finish_answer m) Q w.
Proof.
  intros Hp [Hwf Hts Ht Hcap] Hfit HQ. unfold finish_answer. wp_step.
  pose proof (length_contents _ Hwf) as Hlen. pose proof (wf_len _ Hwf).
  apply append_wp; [done|unfold fits, fits_answer in *; rewrite Hts; lia|by intros|].
  intros v slot w1 Hw1 Hwf1 El1 Et1 _ Econt1. wp_step. apply store_wp; [done|lia|].
  intros v2 Hwf2 El2 _ _ Econt2. wp_step. apply HQ; [done|done|].
  rewrite Econt2, Econt1, insert_app_r_alt by lia.
  replace (_ - _)%nat with 0%nat by lia. by rewrite Ht.
Qed.

Lemma parse_response_json_wp v text j r Q w :
  plenty w -> vector_wf v -> contents v = text ++ [nul] ->
  json_loads JSON_REJECT_DUPLICATES (until_nul text) = Some j -> strategy_json j r ->
  (forall w', alloc_only w w' -> Q (Some r) w') ->
  wp (jaeger_http_sampling_manager_parse_response_json v) Q w.
Proof.
  intros Hp Hwf Hv Hj Hr HQ. unfold jaeger_http_sampling_manager_parse_response_json.
  pose proof (length_contents _ Hwf) as Hlen. rewrite Hv, length_app in Hlen. cbn in Hlen.
  wp_step. unfold jaeger_vector_get, jaeger_vector_length, jaeger_vector_offset. wp_step.
  apply wp_assert; [done|]. rewrite Z.geb_leb, (proj2 (Z.leb_gt _ _)) by lia.
  destruct (wf_cells _ Hwf) as (cells & -> & _). wp_step.
  rewrite Hv, until_nul_ended, Hj. by eapply parse_response_wp.
Qed.

(** An exchange in which the request is written and an accepted answer with
    body [text] is read in [chunks]. *)
Record exchange m (chunks : list (list ascii)) (text : list ascii) : Prop := {
  exchange_ctx : is_Some (m_ctx m);
  exchange_response : vector_wf (response m) /\ type_size (response m) = 1;
  exchange_room : fits_answer (capacity (response m)) text;
  exchange_io : exists s s1, m_socket m = Some s /\
    sys_write s (take (Z.to_nat (request_length m)) (request_buffer m)) = (request_length m, s1) /\
    delivers s1 chunks;
  exchange_answer : answers (m_parser m) chunks text;
}.

Lemma get_strategies_wp fuel m chunks text j r Q w :
  plenty w -> exchange m chunks text -> (length chunks <= fuel)%nat ->
  json_loads JSON_REJECT_DUPLICATES (until_nul text) = Some j -> strategy_json j r ->
  (forall m' w', alloc_only w w' -> contents (response m') = text ++ [nul] -> Q (Some r, m') w') ->
  wp (jaeger_http_sampling_manager_get_sampling_strategies fuel m) Q w.
Proof.
  intros Hp [[st Hctx] [Hwf Hts] Hroom (s & s1 & Hs & Hwr & Hdel) Hans] Hfuel Hj Hr HQ.
  unfold jaeger_http_sampling_manager_get_sampling_strategies. rewrite Hctx.
  cbn [m_socket set_m_response set_m_parser request_length request_buffer set_m_socket].
  rewrite Hs, Hwr. cbv beta iota zeta. cbn [request_length set_m_socket set_m_response set_m_parser].
  rewrite Z.eqb_refl. cbn [negb]. wp_step.
  destruct chunks as [|c chunks]; [by inversion Hans|]. destruct Hdel as (Hc & s2 & Hrd & Hdel).
  eapply read_chunk_wp; [done|exact Hrd|]. wp_step.
  eapply (read_answer_wp _ _ (capacity (response m)) []); [done|done|done| |done|done|exact Hans|done|done|].
  { split; cbn [response set_m_socket set_m_response set_m_parser jaeger_vector_clear].
    - by apply set_len_wf; [|pose proof (wf_len _ Hwf); lia].
    - done.
    - done.
    - cbn. lia. }
  intros m' w1 Hw1 _ Hcol. cbn [negb]. wp_step.
  eapply finish_answer_wp; [by eapply plenty_alloc_only|done|done|].
  intros v w2 Hw2 Hwfv Hv. wp_step.
  assert (alloc_only w w2) by by etrans.
  eapply parse_response_json_wp; [by eapply plenty_alloc_only|done|done|done|done|].
  intros w3 Hw3. wp_step. apply HQ; [by etrans|done].
Qed.
End FetchFacts.

(** *** The manager *)

Section InitFacts.
Context {env : Env} {parser : UrlParser} {net : Network} {http : HttpParser}
  {plaws : HttpParserLaws http} (version : cstr).
Implicit Types (m : jaeger_http_sampling_manager) (w : world).

Definition request_for (path service : cstr) (hp : jaeger_host_port) : cstr :=
  request_text version path service (host_port_text hp).

(** A request the two buffers on the way hold. *)
Definition request_fits (path service : cstr) (hp : jaeger_host_port) : Prop :=
  lenZ (host_port_text hp) < HOST_NAME_MAX + JAEGERTRACINGC_MAX_PORT_STR_LEN + 1 /\
  lenZ (request_for path service hp) < JAEGERTRACINGC_HTTP_SAMPLING_MANAGER_REQUEST_MAX_LEN.

Lemma host_port_format_text hp host size Q w :
  hp_host hp = Some host -> lenZ (host_port_text hp) < size ->
  Q (lenZ (host_port_text hp), Some (host_port_text hp)) w ->
  wp (jaeger_host_port_format hp size) Q w.
Proof.
  intros Hh Hl HQ. unfold jaeger_host_port_format, host_port_text in *. rewrite Hh in *.
  cbn [from_option id] in *. destruct (hp_port hp =? 0); by rewrite snprintf_fits.
Qed.

Lemma format_request_wp m url hp host path service Q w :
  m_service_name m = Some service -> hp_host hp = Some host ->
  request_path url w = Ok (Some path) w -> request_fits path service hp ->
  Q (true, set_m_request m (lenZ (request_for path service hp))
             (request_for path service hp ++ [nul])) w ->
  wp (jaeger_http_sampling_manager_format_request version m url hp) Q w.
Proof.
  intros Hs Hh Hp [Hf1 Hf2] HQ. unfold jaeger_http_sampling_manager_format_request.
  apply wp_bind. unfold wp at 1. rewrite Hp. wp_step.
  eapply host_port_format_text; [done|done|].
  rewrite Z.gtb_ltb, (proj2 (Z.ltb_ge _ _)) by lia. rewrite Hs.
  cbn [from_option id]. fold (request_for path service hp).
  rewrite snprintf_fits by done. rewrite Z.gtb_ltb, (proj2 (Z.ltb_ge _ _)) by lia. done.
Qed.

Lemma connect_wp m hp host found fd s Q w :
  hp_host hp = Some host -> host <> [] -> 0 <= hp_port hp <= USHRT_MAX ->
  getaddrinfo (Some host) (print_dec (hp_port hp)) AF_INET SOCK_STREAM = (0, found) ->
  try_connect found = Some (fd, s) ->
  Q (true, set_m_socket m fd (Some s)) w ->
  wp (jaeger_http_sampling_manager_connect m hp) Q w.
Proof.
  intros Hh Hne Hp Hg Ht HQ. unfold jaeger_http_sampling_manager_connect. wp_step.
  eapply (resolve_found_wp _ _ _ _ host); [done..|]. cbn [negb from_option id]. by rewrite Ht.
Qed.

(** A manager that has sent nothing yet: connected to [s], with the request to
    write and room for the answer. *)
Record ready m (s : socket) (request : cstr) : Prop := {
  ready_ctx : is_Some (m_ctx m);
  ready_parser : m_parser m = http_parser_init;
  ready_response : vector_wf (response m) /\ type_size (response m) = 1 /\
    capacity (response m) <= 2 * JAEGERTRACINGC_HTTP_SAMPLING_MANAGER_REQUEST_MAX_LEN;
  ready_socket : m_socket m = Some s;
  ready_request : request_length m = lenZ request /\ request_buffer m = request ++ [nul];
}.

Lemma prepare_wp m hp host path service s Q w :
  plenty w -> m_socket m = Some s -> m_service_name m = Some service -> hp_host hp = Some host ->
  (forall w', request_path (sampling_server_url m) w' = Ok (Some path) w') ->
  request_fits path service hp ->
  (forall m' w', alloc_only w w' -> ready m' s (request_for path service hp) -> Q (true, m') w') ->
  wp (prepare_manager version m hp) Q w.
Proof.
  intros Hw Hs Hn Hh Hp Hfit HQ. unfold prepare_manager. do 2 wp_step.
  rewrite Hplenty by done. cbn [negb]. wp_step.
  assert (plenty w') by by eapply plenty_alloc_only.
  unfold JAEGERTRACINGC_HTTP_SAMPLING_MANAGER_REQUEST_MAX_LEN in *.
  apply init_wp; [lia|unfold INT_MAX, JAEGERTRACINGC_VECTOR_INIT_CAPACITY; lia| |].
  2: { intros w1 _ Hno. by destruct Hno. }
  intros v w1 Hw1 Hwf _ Hlen Hcap Hts. cbn [negb]. wp_step.
  unfold JAEGERTRACINGC_VECTOR_INIT_CAPACITY in Hcap.
  apply reserve_wp; [done|unfold fits, INT_MAX; cbn; lia| |].
  { intros w2 _ Hno. destruct Hno. by eapply plenty_alloc_only. }
  intros v2 w2 Hw2 Hwf2 _ Hts2 _ _ _ Hcap2 _. cbn [negb response set_m_response] in *.
  eapply format_request_wp; [done|done|apply Hp|done|]. apply HQ.
  - etrans; [|exact Hw2]. etrans; [|exact Hw1]. done.
  - split; try done; cbn.
    split; [done|]. split; [congruence|].
    unfold JAEGERTRACINGC_HTTP_SAMPLING_MANAGER_REQUEST_MAX_LEN. lia.
Qed.

(** The agent a URL leads to: the names the URL holds, the address they
    resolve to, and the socket of the connection. *)
Record leads_to (text host : cstr) (port : Z) (path : cstr) (s : socket) : Prop := {
  leads_url : text <> [] /\ short text /\ exists parsed,
    http_parser_parse_url text = (0, parsed) /\ url_names (Url (Some text) parsed) host port /\
    forall w, request_path (Url (Some text) parsed) w = Ok (Some path) w;
  leads_socket : exists found fd,
    getaddrinfo (Some host) (print_dec port) AF_INET SOCK_STREAM = (0, found) /\
    try_connect found = Some (fd, s);
}.

Lemma manager_init_wp m text host port path service s Q w :
  plenty w -> service <> [] -> short service -> leads_to text host port path s ->
  request_fits path service (HostPort (Some host) port) ->
  (forall m' w', alloc_only w w' ->
     ready m' s (request_for path service (HostPort (Some host) port)) -> Q (true, m') w') ->
  wp (jaeger_http_sampling_manager_init version m (Some text) (Some service)) Q w.
Proof.
  intros Hw Hne Hs [(Htne & Hts & parsed & Hparse & Hnames & Hpath) (found & fd & Hg & Hc)] Hfit HQ.
  unfold jaeger_http_sampling_manager_init. wp_step. apply wp_assert.
  { unfold strlen. destruct service; [done|apply Z.gtb_lt; cbn [length]; lia]. }
  wp_step. apply wp_strdup; [done|by intros|]. intros w1 Hw1.
  rewrite bool_decide_eq_false_2 by done. destruct text as [|c text]; [done|].
  wp_step. unfold jaeger_url_init. wp_step. apply wp_assert.
  { unfold strlen. apply Z.gtb_lt. cbn [length]. lia. }
  rewrite Hparse. cbn [negb Z.eqb]. change (0 =? 0) with true. cbn [negb].
  assert (plenty w1) by by eapply plenty_alloc_only.
  wp_step. apply wp_strdup; [done|by intros|]. intros w2 Hw2. wp_step.
  rewrite bool_decide_eq_true_2 by by eexists. cbn [negb]. wp_step.
  assert (plenty w2) by by eapply plenty_alloc_only.
  eapply host_port_from_url_wp; [done|exact Hnames|]. intros w3 Hw3. cbn [negb]. wp_step.
  pose proof Hnames as [(Hhne & _ & _) Hport _ _].
  eapply connect_wp; [done|done|done|exact Hg|done|]. cbn [negb].
  eapply prepare_wp; [by eapply plenty_alloc_only|done|done|done|exact Hpath|done|].
  intros m' w4 Hw4 Hr. apply HQ; [|done].
  etrans; [|exact Hw4]. etrans; [|exact Hw3]. by etrans.
Qed.

(** What a ready manager needs of its peer for an exchange. *)
Lemma ready_exchange m s request chunks text s1 :
  ready m s request -> sys_write s request = (lenZ request, s1) -> delivers s1 chunks ->
  answers http_parser_init chunks text -> fits_answer 512 text -> exchange m chunks text.
Proof.
  intros [Hctx Hp (Hwf & Hts & Hcap) Hs [Hn Hb]] Hw Hd Ha Hf. split; [done|done| | |by rewrite Hp].
  - unfold fits_answer, JAEGERTRACINGC_HTTP_SAMPLING_MANAGER_REQUEST_MAX_LEN in *. lia.
  - exists s, s1. rewrite Hn, Hb, Nat2Z.id, take_app_length. done.
Qed.
End InitFacts.

(** ** Properties *)

(** Making the manager for the agent a URL leads to succeeds, and leaves it
    ready for an exchange: when the peer takes the request, which names the
    path, the service, the host and the client, and answers it, the manager
    will read the body of the answer. *)
Theorem jaeger_http_sampling_manager_init_spec (env : Env) (parser : UrlParser) (net : Network)
    (http : HttpParser) (plaws : HttpParserLaws http) version m url host port path service s w :
  plenty w -> service <> [] -> short service -> leads_to url host port path s ->
  request_fits version path service (HostPort (Some host) port) ->
  exists m' w',
    jaeger_http_sampling_manager_init version m (Some url) (Some service) w = Ok (true, m') w' /\
    alloc_only w w' /\
    forall s1 chunks text,
      let request := request_for version path service (HostPort (Some host) port) in
      sys_write s request = (lenZ request, s1) -> delivers s1 chunks ->
      answers http_parser_init chunks text -> fits_answer 512 text -> exchange m' chunks text.
Proof.
  intros Hp Hne Hs Hl Hf.
  enough (wp (jaeger_http_sampling_manager_init version m (Some url) (Some service))
    (fun x w' => exists m', x = (true, m') /\ alloc_only w w' /\
       ready m' s (request_for version path service (HostPort (Some host) port))) w)
    as (? & w' & E & m' & -> & Hw' & Hr)%wp_returns.
  { exists m', w'. split_and!; [done|done|]. intros s1 chunks text request ? ? ? ?.
    by eapply ready_exchange. }
  eapply manager_init_wp; [done..|]. intros m' w' Hw' Hr. by exists m'.
Qed.

(** C25: Refreshing the sampler from the agent, while memory lasts: when the
    request is written and the agent answers with status 200 in any number of
    chunks, the body collected from them is parsed, and the sampler becomes the
    one the JSON says ([follows]): a new one of the kind and rates it has, or,
    when it has strategies by operation and the sampler is by operation
    already, that one with its samplers retuned; the retrieval and the update
    are counted, and the mutex is unlocked. Strategies for operations an
    adaptive sampler does not know are excluded ([followable]): they meet the
    defect [adaptive_update_leaves_name_unset]. The fuel needed is the number
    of chunks. *)
Theorem remote_sampler_refresh_spec (env : Env) (net : Network) (http : HttpParser)
    (jansson : Jansson) (plaws : HttpParserLaws http) (jlaws : JanssonLaws jansson)
    fuel size m chunks text j r metrics s w :
  plenty w -> exchange m chunks text -> (length chunks <= fuel)%nat ->
  json_loads JSON_REJECT_DUPLICATES (until_nul text) = Some j -> strategy_json j r ->
  metrics_wf metrics w -> remote_metrics s = Some metrics -> remote_mutex s = false ->
  followable size w r s ->
  exists s' m' w',
    jaeger_remotely_controlled_sampler_update size
      (jaeger_http_sampling_manager_get_sampling_strategies fuel m) s w = Ok (true, s', m') w' /\
    follows r s (sampler s') /\ remote_mutex s' = false /\
    counted_both metrics sampler_retrieved sampler_updated w w' /\
    contents (response m') = text ++ [nul].
Proof.
  intros Hp Hex Hf Hj Hr Hm Hsm Hmu Hfol.
  assert (wp (jaeger_http_sampling_manager_get_sampling_strategies fuel m)
    (fun x w' => exists m', x = (Some r, m') /\ contents (response m') = text ++ [nul] /\
       alloc_only w w') w) as (? & w1 & E & m' & -> & Hc & Hw1)%wp_returns.
  { eapply get_strategies_wp; [done..|]. intros m' w' Hw' Hv. by exists m'. }
  enough (wp (jaeger_remotely_controlled_sampler_update size
      (jaeger_http_sampling_manager_get_sampling_strategies fuel m) s) (fun x w' => exists s',
    x = (true, s', m') /\ follows r s (sampler s') /\
    remote_mutex s' = false /\ counted_both metrics sampler_retrieved sampler_updated w w') w)
    as (? & w2 & E2 & s' & -> & H)%wp_returns by by exists s', m', w2; split_and!; try apply H.
  eapply remote_update_wp; [by exists w1; split; [|apply alloc_progress]|done..|
    by intros ? [= <-]|].
  intros ok s' w' Hmu' (Hc' & Hok & _ & Hfo). assert (ok = true) as ->.
  { apply Hok; [done|]. intros ->. by eapply strategy_json_valid. }
  exists s'. split_and!; auto.
Qed.

(** *** The property at work *)

Inductive sample_json :=
  | JReal (d : double)
  | JString (s : cstr)
  | JBool (b : bool)
  | JArray (js : list sample_json)
  | JObject (members : list (cstr * sample_json)).

Fixpoint sample_lookup (members : list (cstr * sample_json)) (k : cstr) : option sample_json :=
  match members with
  | [] => None
  | (k', j) :: members => if bool_decide (k' = k) then Some j else sample_lookup members k
  end.

Definition sample_member (j : sample_json) (k : cstr) : option sample_json :=
  match j with JObject members => sample_lookup members k | _ => None end.
Definition sample_real (j : sample_json) : option double :=
  match j with JReal d => Some d | _ => None end.
Definition sample_string (j : sample_json) : option cstr :=
  match j with JString s => Some s | _ => None end.
Definition sample_boolean (j : sample_json) : option bool :=
  match j with JBool b => Some b | _ => None end.
Definition sample_is_object (j : sample_json) : bool :=
  match j with JObject _ => true | _ => false end.

Definition sample_unpack (j : sample_json) (f : unpack_field) : option (unpacked sample_json) :=
  match f with
  | field_real k => got_real <$> (sample_member j k ≫= sample_real)
  | field_string k => got_string <$> (sample_member j k ≫= sample_string)
  | field_bool k => got_bool <$> (sample_member j k ≫= sample_boolean)
  | field_object k => got_json <$> sample_member j k
  | field_optional k => Some (from_option got_json got_nothing (sample_member j k))
  end.

(** A decoder that knows the texts of a table. *)
Definition sample_jansson (table : list (cstr * sample_json)) : Jansson :=
  {| json_t := sample_json;
     json_loads _ text := sample_lookup table text;
     json_unpack_ex j fields :=
       match j with
       | None => None
       | Some j => if sample_is_object j then mapM (sample_unpack j) fields else None
       end;
     json_array j := match j with JArray js => Some js | _ => None end |}.

#[local] Instance sample_jansson_laws table : JanssonLaws (sample_jansson table).
Proof.
  refine {| json_is_object := sample_is_object : @json_t (sample_jansson table) -> bool;
            json_member := sample_member : @json_t (sample_jansson table) -> _;
            json_real := sample_real : @json_t (sample_jansson table) -> _;
            json_string := sample_string : @json_t (sample_jansson table) -> _;
            json_boolean := sample_boolean : @json_t (sample_jansson table) -> _ |}.
  intros j fields. reflexivity.
Defined.

(** A parser of messages in two chunks: the status line and a first part of
    the body, then the rest. *)
Definition sample_events (p : bool) (bytes : list ascii) : list http_event :=
  if p then [body bytes; message_complete] else [headers_complete HTTP_OK; body bytes].

Definition sample_http : HttpParser :=
  {| http_parser := bool;
     http_parser_init := false;
     http_parser_execute A cb a p bytes :=
       ' (ok, a) ← run_callbacks cb a (sample_events p bytes);
       ret (if (ok : bool) then lenZ bytes else 0, true, a) |}.

#[local] Instance sample_http_laws : HttpParserLaws sample_http.
Proof.
  refine {| parser_events := fun (p : @http_parser sample_http) bytes =>
              (sample_events p bytes, true : @http_parser sample_http) |}.
  intros A cb a p bytes w a' w' H. cbn in *. unfold bind. by rewrite H.
Defined.

(** A connection whose peer has some chunks to send. *)
Definition sample_tcp (answer : list (list ascii)) : Network :=
  {| socket := list (list ascii); sockaddr := Z; sockaddr_zero := 0; sizeof_sockaddr_in := 16;
     sendto s b _ := (lenZ b, s);
     AF_INET := 2; SOCK_DGRAM := 2; SOCK_STREAM := 1; SOCK_CLOEXEC := Some 524288; FD_CLOEXEC := 1;
     sys_socket _ _ := (3, answer);
     fcntl_getfd s := (0, s); fcntl_setfd s _ := s;
     getaddrinfo _ _ _ _ := (0, [AddrInfo 1 16]);
     sys_connect s _ _ := (0, s); sys_write s b := (lenZ b, s);
     sys_read s _ := match s with [] => (0, [], []) | c :: s => (lenZ c, c, s) end |}.

Definition sample_text : cstr := lit "{probabilisticSampling:{samplingRate:0.5}}".
Definition sample_half : double := ddiv (double_of_Z 1) (double_of_Z 2).
Definition sample_document : sample_json :=
  JObject [(lit "probabilisticSampling", JObject [(lit "samplingRate", JReal sample_half)])].
Definition sample_chunks : list (list ascii) := [take 7 sample_text; drop 7 sample_text].

Definition sample_manager : @jaeger_http_sampling_manager (sample_tcp sample_chunks) sample_http :=
  @Manager (sample_tcp sample_chunks) sample_http (Some (lit "svc")) JAEGERTRACINGC_URL_INIT 3
    (Some sample_chunks) false (Some http_parsing_state_write) 7 (lit "GET /s " ++ [nul])
    (Vector 0 10 (Some (replicate 10 nul)) 1).

Lemma sample_exchange : exchange sample_manager sample_chunks sample_text.
Proof.
  split.
  - by eexists.
  - split; [|done]. split; cbn; try lia. eexists. split; [reflexivity|done].
  - vm_compute. discriminate.
  - exists sample_chunks, sample_chunks. split_and!; [done..|]. cbn.
    split_and!; [discriminate|]. eexists. split; [reflexivity|].
    split_and!; [discriminate|]. by eexists.
  - assert (Forall accepted (sample_events true (drop 7 sample_text))) as Hl by by repeat constructor.
    assert (Forall accepted (sample_events false (take 7 sample_text))) as Hf by by repeat constructor.
    exact (answers_more (plaws := sample_http_laws) false (take 7 sample_text) _ _ Hf eq_refl
             (answers_last (plaws := sample_http_laws) true (drop 7 sample_text) Hl eq_refl)).
Qed.

Definition sample_url : cstr := lit "http://agent:5778/api".

(** The fields of [sample_url], or of a URL with a path of another length. *)
Definition sample_fields (path_len : Z) : UrlParser :=
  {| UF_HOST := 1; UF_PORT := 2; UF_PATH := 3;
     http_parser_parse_url _ := (0, ParsedUrl 15 (fun i =>
       if i =? 1 then (7, 5) else if i =? 2 then (13, 4)
       else if i =? 3 then (17, path_len) else (0, 4))) |}.

Lemma sample_leads_to :
  @leads_to (sample_fields 4) (sample_tcp sample_chunks) sample_url (lit "agent") 5778
    (lit "/api") sample_chunks.
Proof.
  split; [|by exists [AddrInfo 1 16], 3]. split; [done|]. split; [by vm_compute|].
  eexists. split; [reflexivity|]. split; [|by intros]. split.
  - split; [done|]. split; [|by vm_compute].
    by vm_compute; repeat (apply not_elem_of_cons; split; [discriminate|]); apply not_elem_of_nil.
  - unfold USHRT_MAX. lia.
  - done.
  - by exists (lit "http://"), (lit "/api").
Qed.

Lemma jaeger_http_sampling_manager_init_spec_witness :
  exists m' w',
    @jaeger_http_sampling_manager_init sample_env (sample_fields 4) (sample_tcp sample_chunks)
      sample_http (lit "0.1") JAEGERTRACINGC_HTTP_SAMPLING_MANAGER_INIT (Some sample_url)
      (Some (lit "svc")) initial_world = Ok (true, m') w' /\
    alloc_only initial_world w' /\
    forall s1 chunks text,
      let request := request_for (lit "0.1") (lit "/api") (lit "svc")
                       (HostPort (Some (lit "agent")) 5778) in
      @sys_write (sample_tcp sample_chunks) sample_chunks request = (lenZ request, s1) ->
      @delivers (sample_tcp sample_chunks) s1 chunks ->
      @answers sample_http _ http_parser_init chunks text -> fits_answer 512 text ->
      exchange m' chunks text.
Proof.
  apply (jaeger_http_sampling_manager_init_spec sample_env (sample_fields 4)
           (sample_tcp sample_chunks) sample_http sample_http_laws).
  - apply plenty_sample.
  - done.
  - by vm_compute.
  - apply sample_leads_to.
  - split; by vm_compute.
Defined.

Lemma remote_sampler_refresh_spec_witness :
  exists s' m' w',
    @jaeger_remotely_controlled_sampler_update sample_env 144 _
      (@jaeger_http_sampling_manager_get_sampling_strategies sample_env (sample_tcp sample_chunks)
         sample_http (sample_jansson [(sample_text, sample_document)]) 2 sample_manager)
      sample_remote metrics_world = Ok (true, s', m') w' /\
    follows (probabilistic_strategy sample_half) sample_remote (sampler s') /\ remote_mutex s' = false /\
    counted_both sample_metrics sampler_retrieved sampler_updated metrics_world w' /\
    contents (response m') = sample_text ++ [nul].
Proof.
  apply (remote_sampler_refresh_spec sample_env (sample_tcp sample_chunks) sample_http
           (sample_jansson [(sample_text, sample_document)]) _ _ 2 144 sample_manager sample_chunks
           sample_text sample_document).
  - done.
  - apply sample_exchange.
  - cbn. lia.
  - vm_compute. reflexivity.
  - split; [done|]. cbn. by eexists.
  - apply sample_metrics_wf.
  - reflexivity.
  - reflexivity.
  - split; [by intros a|done].
Defined.

(** *** Defects *)

Definition default_fields : UrlParser :=
  {| UF_HOST := 1; UF_PORT := 2; UF_PATH := 3;
     http_parser_parse_url _ := (0, ParsedUrl 15 (fun i =>
       if i =? 1 then (7, 9) else if i =? 2 then (17, 4)
       else if i =? 3 then (21, 9) else (0, 4))) |}.

(** The default URL has a path of nine characters, and the limit is the name of
    a [pathconf] variable, 4: with the default no manager is ever made, even
    when the agent is there. *)
Theorem default_url_has_no_manager :
  fst <$> value (@jaeger_http_sampling_manager_init sample_env default_fields
      (sample_tcp sample_chunks) sample_http (lit "0.1") JAEGERTRACINGC_HTTP_SAMPLING_MANAGER_INIT
      None (Some (lit "svc")) initial_world) = Some false.
Proof. vm_compute. reflexivity. Qed.

(** The path http-parser reports starts with a slash, which the request's
    format has already; and the request line names no version of HTTP. *)
Theorem request_line_doubles_slash :
  take 22 (request_for (lit "0.1") (lit "/api") (lit "svc") (HostPort (Some (lit "agent")) 5778))
  = lit "GET //api?service=svc" ++ [chr 13].
Proof. vm_compute. reflexivity. Qed.

(** An answer without any of the three members reaches an assertion. *)
Theorem empty_answer_asserts :
  @parse_response sample_env (sample_jansson []) (JObject []) initial_world = Fault AssertFailed.
Proof. vm_compute. reflexivity. Qed.

Definition sample_per_operation (ops : list sample_json) : sample_json :=
  JObject [(lit "defaultSamplingProbability", JReal sample_half);
           (lit "defaultLowerBoundTracesPerSecond", JReal sample_half);
           (lit "perOperationStrategies", JArray ops)].

(** The clean-up after a malformed operation frees names that were not set. *)
Theorem malformed_operation_frees_uninitialised :
  @parse_per_operation_sampling_json sample_env (sample_jansson [])
    (Some (sample_per_operation [JObject []])) initial_world = Fault Uninitialised.
Proof. vm_compute. reflexivity. Qed.

(** The fifth request for memory, for the buffer of the answer, fails. *)
Definition vector_oom_env : Env := {|
  sys_malloc_ok n := negb (n =? 4)%nat;
  clock_monotonic := @clock_monotonic sample_env; clock_realtime := @clock_realtime sample_env;
  rand_r := @rand_r sample_env; entropy := @entropy sample_env;
  entropy_source := HAVE_GETRANDOM; fopen_ok _ := true; stale_state := [0; 0; 0; 0];
  seed := @seed sample_env;
  ndebug := false; mt := true; have_builtin := true;
  pthread_key_create_ok := true; pthread_setspecific_ok := true;
|}.

(** Then the parsing context is freed twice: [parser.data] still points to it. *)
Theorem manager_init_double_free :
  @jaeger_http_sampling_manager_init vector_oom_env (sample_fields 4) (sample_tcp sample_chunks)
    sample_http (lit "0.1") JAEGERTRACINGC_HTTP_SAMPLING_MANAGER_INIT (Some sample_url)
    (Some (lit "svc")) initial_world = Fault DoubleFree.
Proof. vm_compute. reflexivity. Qed.
