(* ===== verification/Propagation.v ===== *)
(** * Propagation (propagation.c)

    Injecting a span context into a carrier and extracting it again: text
    maps and HTTP headers (one header for the context, one for each baggage
    item), the binary format, and custom carriers. The carriers belong to the
    caller; what their callbacks promise is stated by the classes below. *)
From S2P Require Import Prelude Machine CString Siphash TraceId Endian Threading Hashtable Strings.
From S2P Require Import Metrics SpanContext.

(** ** Definitions *)

(** *** Header names (options.h, constants.h) *)

Record jaeger_headers_config := HeadersConfig {
  debug_header : cstr;
  baggage_header : cstr;
  trace_context_header : cstr;
  trace_baggage_header_prefix : cstr;
}.

Definition JAEGERTRACINGC_HEADERS_CONFIG_INIT : jaeger_headers_config :=
  HeadersConfig (lit "jaeger-debug-id") (lit "jaeger-baggage") (lit "uber-trace-id")
    (lit "uberctx-").

Section Definitions.
Context {env : Env}.

Abbreviation code := opentracing_propagation_error_code.

(** *** Extraction from text maps *)

Section ExtractText.
Variable config : jaeger_headers_config.
Variables normalize_key decode_value : cstr -> M cstr.

(** The sampling flags after a debug header. *)
Definition debug_flags (f : Z) : Z :=
  Z.lor (u8 (Z.lor f jaeger_sampling_flag_debug)) jaeger_sampling_flag_sampled.

Definition extract_trace_context (ctx : jaeger_span_context) (value : cstr)
    : M (code * jaeger_span_context) :=
  granted ← jaeger_malloc;
  if negb granted then ret (error_unknown, ctx)
  else
    value_buffer ← decode_value value;
    ' (ok, ctx) ← jaeger_span_context_scan ctx value_buffer;
    if negb ok then ret (error_span_context_corrupted, ctx) else ret (error_success, ctx).

Definition extract_debug_id (ctx : jaeger_span_context) (value : cstr)
    : M (code * jaeger_span_context) :=
  granted ← jaeger_malloc;
  if negb granted then ret (error_unknown, ctx)
  else
    value_buffer ← decode_value value;
    d ← jaeger_strdup value_buffer;
    let ctx := set_debug_id ctx d in
    match d with
    | None => ret (error_unknown, ctx)
    | Some _ => ret (error_success, set_flags ctx (debug_flags (flags ctx)))
    end.

(** The result of this [jaeger_malloc] is not tested: writing through NULL. *)
Definition extract_baggage (ctx : jaeger_span_context) (value : cstr)
    : M (code * jaeger_span_context) :=
  granted ← jaeger_malloc;
  if negb granted then fail NullDeref
  else
    value_buffer ← decode_value value;
    ' (error_code, h) ← parse_comma_separated_map (baggage ctx) value_buffer;
    ret (error_code, set_baggage ctx h).

Definition extract_baggage_item (ctx : jaeger_span_context) (key_buffer value : cstr)
    : M (code * jaeger_span_context) :=
  let prefix := trace_baggage_header_prefix config in
  let prefix_len := to_signed 32 (strlen prefix) in
  let key_len := to_signed 32 (strlen key_buffer) in
  if (key_len >? prefix_len)
     && bool_decide (take (Z.to_nat prefix_len) key_buffer = take (Z.to_nat prefix_len) prefix)
  then
    granted ← jaeger_malloc;
    if negb granted then ret (error_unknown, ctx)
    else
      let suffix := drop (Z.to_nat prefix_len) key_buffer in
      granted ← jaeger_malloc;
      if negb granted then ret (error_unknown, ctx)
      else
        value_buffer ← decode_value value;
        ' (ok, h) ← jaeger_hashtable_put (baggage ctx) suffix value_buffer;
        let ctx := set_baggage ctx h in
        if negb ok then ret (error_unknown, ctx) else ret (error_success, ctx)
  else ret (error_success, ctx).

Definition extract_text_map_callback (ctx : jaeger_span_context) (k value : cstr)
    : M (code * jaeger_span_context) :=
  granted ← jaeger_malloc;
  if negb granted then ret (error_unknown, ctx)
  else
    key_buffer ← normalize_key k;
    if strcmp key_buffer (trace_context_header config) =? 0 then extract_trace_context ctx value
    else if strcmp key_buffer (debug_header config) =? 0 then extract_debug_id ctx value
    else if strcmp key_buffer (baggage_header config) =? 0 then extract_baggage ctx value
    else extract_baggage_item ctx key_buffer value.

(** [cleanup]: the context is destroyed and a decoding error counted. *)
Definition extract_cleanup (metrics : option jaeger_metrics) (error_code : code)
    (ctx : option jaeger_span_context) : M (code * option jaeger_span_context) :=
  (match metrics with
   | Some metrics =>
       if bool_decide (error_code = error_span_context_corrupted)
       then inc (counter metrics decoding_errors) 1 else ret tt
   | None => ret tt
   end);;
  _ ← jaeger_span_context_destroy ctx;
  ret (error_code, None).

(** [reader->foreach_key(reader, handler, arg)]: the handler threads the
    context. *)
Definition foreach_key_type : Type :=
  (jaeger_span_context -> cstr -> cstr -> M (code * jaeger_span_context)) ->
  jaeger_span_context -> M (code * jaeger_span_context).

Definition extract_from_text_map_helper (foreach_key : foreach_key_type)
    (metrics : option jaeger_metrics) : M (code * option jaeger_span_context) :=
  granted ← jaeger_malloc;
  if negb granted then extract_cleanup metrics error_unknown None
  else
    ' (ok, ctx) ← jaeger_span_context_init;
    if negb ok then extract_cleanup metrics error_unknown (Some ctx)
    else
      ' (error_code, ctx) ← foreach_key extract_text_map_callback ctx;
      if negb (bool_decide (error_code = error_success))
      then extract_cleanup metrics error_code (Some ctx)
      else if (high (trace_id ctx) =? 0) && (low (trace_id ctx) =? 0)
              && bool_decide (debug_id ctx = None) && (ht_size (baggage ctx) =? 0)
      then extract_cleanup metrics error_success (Some ctx)
      else ret (error_success, Some ctx).
End ExtractText.

Definition jaeger_extract_from_text_map (foreach_key : foreach_key_type)
    (metrics : option jaeger_metrics) (config : jaeger_headers_config)
    : M (code * option jaeger_span_context) :=
  extract_from_text_map_helper config copy_str copy_str foreach_key metrics.

Definition jaeger_extract_from_http_headers (foreach_key : foreach_key_type)
    (metrics : option jaeger_metrics) (config : jaeger_headers_config)
    : M (code * option jaeger_span_context) :=
  extract_from_text_map_helper config to_lowercase decode_uri_value foreach_key metrics.

(** *** Injection into text maps: [S] is the writer's state *)

Section InjectText.
Context {S : Type} (set : S -> cstr -> cstr -> M (code * S)).
Variable config : jaeger_headers_config.
Variable encode_value : cstr -> M cstr.

Definition inject_item (s : S) (kv : jaeger_key_value) : M (code * S) :=
  let prefix := trace_baggage_header_prefix config in
  let prefix_len := to_signed 32 (strlen prefix) in
  let key_len := to_signed 32 (strlen (key kv)) in
  size ← int_chk (prefix_len + key_len);
  size ← int_chk (size + 1);
  granted ← jaeger_malloc;
  if negb granted then ret (error_unknown, s)
  else
    let key_buffer := prefix ++ key kv in
    granted ← jaeger_malloc;
    if negb granted then ret (error_unknown, s)
    else
      value_buffer ← encode_value (kv_value kv);
      set s key_buffer value_buffer.

(** The inner loop: a later item replaces the error of an earlier one. *)
Fixpoint inject_bucket (error_code : code) (s : S) (bucket : list jaeger_key_value)
    : M (code * S) :=
  match bucket with
  | [] => ret (error_code, s)
  | kv :: bucket =>
      ' (error_code, s) ← inject_item s kv;
      inject_bucket error_code s bucket
  end.

Fixpoint inject_buckets (error_code : code) (s : S) (buckets : list (list jaeger_key_value))
    : M (code * S) :=
  match buckets with
  | [] => ret (error_code, s)
  | b :: buckets =>
      if bool_decide (error_code = error_success) then
        ' (error_code, s) ← inject_bucket error_code s b;
        inject_buckets error_code s buckets
      else ret (error_code, s)
  end.

(** The buckets [0 .. 1 << order], the 1 of type [size_t] or [unsigned int]:
    [width] is its number of bits. *)
Definition buckets_of (width : Z) (h : jaeger_hashtable) : M (list (list jaeger_key_value)) :=
  if (0 <=? ht_order h) && (ht_order h <? width) then
    match ht_buckets h with
    | None => fail NullDeref
    | Some bs =>
        if lenZ bs <? 2 ^ ht_order h then fail OutOfBounds
        else ret (take (Z.to_nat (2 ^ ht_order h)) bs)
    end
  else fail IntOverflow.

Definition inject_text_map_helper (s : S) (ctx : jaeger_span_context) : M (code * S) :=
  ' (trace_context_len, text) ←
    jaeger_span_context_format ctx (JAEGERTRACINGC_SPAN_CONTEXT_MAX_STR_LEN + 1);
  c_assert (trace_context_len <=? JAEGERTRACINGC_SPAN_CONTEXT_MAX_STR_LEN);;
  ' (error_code, s) ← set s (trace_context_header config) (default [] text);
  if bool_decide (error_code = error_success) then
    buckets ← buckets_of 64 (baggage ctx);
    inject_buckets error_code s buckets
  else ret (error_code, s).
End InjectText.

Definition jaeger_inject_into_text_map {S} (set : S -> cstr -> cstr -> M (code * S)) (s : S)
    (ctx : jaeger_span_context) (config : jaeger_headers_config) : M (code * S) :=
  inject_text_map_helper set config copy_str s ctx.

Definition jaeger_inject_into_http_headers {S} (set : S -> cstr -> cstr -> M (code * S)) (s : S)
    (ctx : jaeger_span_context) (config : jaeger_headers_config) : M (code * S) :=
  inject_text_map_helper set config encode_uri_value s ctx.

(** *** The binary format *)

(** Numbers are written and read as big-endian bytes ([be_bytes], [be_value]):
    Endian shows that this is what the macros of endian.h give. *)
Definition string_bytes (s : cstr) : list Z := map CString.code s.

Section InjectBinary.
Context {S : Type} (callback : S -> list Z -> M (Z * S)).

(** [false]: the callback did not take every byte, and the function returns. *)
Definition write_bytes (s : S) (bs : list Z) : M (bool * S) :=
  ' (n, s) ← callback s bs;
  ret (n =? to_signed 32 (lenZ bs), s).

Fixpoint write_fields (s : S) (fields : list (list Z)) : M (bool * S) :=
  match fields with
  | [] => ret (true, s)
  | f :: fields =>
      ' (ok, s) ← write_bytes s f;
      if (ok : bool) then write_fields s fields else ret (false, s)
  end.

(** A 32-bit length and as many bytes. *)
Definition string_fields (str : cstr) : list (list Z) :=
  let len := u32 (strlen str) in
  [be_bytes 4 len; take (Z.to_nat len) (string_bytes str)].

(** The loops over the buckets, with the count of items. *)
Fixpoint write_items (s : S) (size : Z) (items : list jaeger_key_value) : M (bool * S * Z) :=
  match items with
  | [] => ret (true, s, size)
  | kv :: items =>
      let size := u32 (size + 1) in
      ' (ok, s) ← write_fields s (string_fields (key kv) ++ string_fields (kv_value kv));
      if (ok : bool) then write_items s size items else ret (false, s, size)
  end.

Definition jaeger_inject_into_binary (s : S) (ctx : jaeger_span_context) : M (code * S) :=
  ' (ok, s) ← write_fields s
    [be_bytes 8 (high (trace_id ctx)); be_bytes 8 (low (trace_id ctx));
     be_bytes 8 (span_id ctx); [u8 (flags ctx)]; be_bytes 4 (u32 (ht_size (baggage ctx)))];
  if negb ok then ret (error_unknown, s)
  else
    buckets ← buckets_of 32 (baggage ctx);
    ' (ok, s, size) ← write_items s 0 (concat buckets);
    if negb ok then ret (error_unknown, s)
    else c_assert (ht_size (baggage ctx) =? size);; ret (error_success, s).
End InjectBinary.

Section ExtractBinary.
(** [callback(arg, buffer, len)]: the number returned, the bytes in the
    buffer, and the reader's state. *)
Context {S : Type} (callback : S -> Z -> M (Z * list Z * S)).

(** [None] is a [false] return. *)
Definition read_binary (s : S) (result_size : Z) : M (option Z * S) :=
  ' (num_read, bytes, s) ← callback s result_size;
  if negb (num_read =? result_size) then ret (None, s)
  else if lenZ bytes <? result_size then fail OutOfBounds
  else ret (Some (be_value (take (Z.to_nat result_size) bytes)), s).

(** A pointer of [parse_baggage_binary]. *)
Inductive buffer := null_buffer | live_buffer | freed_buffer.

Definition free_buffer (b : buffer) : M unit :=
  match b with
  | freed_buffer => fail DoubleFree
  | null_buffer | live_buffer => ret tt
  end.

Definition parse_cleanup (key_buffer value_buffer : buffer) (error_code : code)
    (h : jaeger_hashtable) (s : S) : M (code * jaeger_hashtable * S) :=
  free_buffer key_buffer;;
  free_buffer value_buffer;;
  ret (error_code, h, s).

(** READ_BUFFER into a block of [u32 (len + 1)] bytes: the string read, or
    [None] for the jump to [cleanup]. *)
Definition read_buffer (s : S) (len : Z) : M (option cstr * S) :=
  ' (n, bytes, s) ← callback s len;
  if negb (n =? to_signed 32 len) then ret (None, s)
  else if u32 (len + 1) <? len + 1 then fail OutOfBounds
  else if lenZ bytes <? len then fail OutOfBounds
  else ret (Some (until_nul (map chr (take (Z.to_nat len) bytes))), s).

Fixpoint parse_items (n : nat) (key_buffer value_buffer : buffer) (h : jaeger_hashtable) (s : S)
    : M (code * jaeger_hashtable * S) :=
  match n with
  | O => ret (error_success, h, s)
  | Datatypes.S n =>
      ' (r, s) ← read_binary s 4;
      match r with
      | None => parse_cleanup key_buffer value_buffer error_span_context_corrupted h s
      | Some key_len =>
          granted ← jaeger_malloc;
          if negb granted then parse_cleanup null_buffer value_buffer error_unknown h s
          else
            ' (k, s) ← read_buffer s key_len;
            match k with
            | None => parse_cleanup live_buffer value_buffer error_span_context_corrupted h s
            | Some k =>
                ' (r, s) ← read_binary s 4;
                match r with
                | None => parse_cleanup live_buffer value_buffer error_span_context_corrupted h s
                | Some value_len =>
                    granted ← jaeger_malloc;
                    if negb granted then parse_cleanup live_buffer null_buffer error_unknown h s
                    else
                      ' (v, s) ← read_buffer s value_len;
                      match v with
                      | None =>
                          parse_cleanup live_buffer live_buffer error_span_context_corrupted h s
                      | Some v =>
                          ' (ok, h) ← jaeger_hashtable_put h k v;
                          if negb ok then parse_cleanup live_buffer live_buffer error_unknown h s
                          else parse_items n freed_buffer freed_buffer h s
                      end
                end
            end
      end
  end.

Definition parse_baggage_binary (s : S) (h : jaeger_hashtable) : M (code * jaeger_hashtable * S) :=
  ' (r, s) ← read_binary s 4;
  match r with
  | None => parse_cleanup null_buffer null_buffer error_span_context_corrupted h s
  | Some num_baggage_items =>
      parse_items (Z.to_nat (to_signed 32 num_baggage_items)) null_buffer null_buffer h s
  end.

(** The four fields read in order, or [None] for the jump to [cleanup]; the
    context holds those read so far. *)
Definition read_ids (s : S) (ctx : jaeger_span_context) : M (bool * jaeger_span_context * S) :=
  let with_ids h l i f := SpanContext (TraceId h l) i f (baggage ctx) (debug_id ctx) (ctx_mutex ctx) in
  ' (h, s) ← read_binary s 8;
  match h with
  | None => ret (false, ctx, s)
  | Some h =>
      ' (l, s) ← read_binary s 8;
      match l with
      | None => ret (false, with_ids h (low (trace_id ctx)) (span_id ctx) (flags ctx), s)
      | Some l =>
          ' (i, s) ← read_binary s 8;
          match i with
          | None => ret (false, with_ids h l (span_id ctx) (flags ctx), s)
          | Some i =>
              ' (f, s) ← read_binary s 1;
              match f with
              | None => ret (false, with_ids h l i (flags ctx), s)
              | Some f => ret (true, with_ids h l i f, s)
              end
          end
      end
  end.

Definition jaeger_extract_from_binary (s : S) (metrics : option jaeger_metrics)
    : M (code * option jaeger_span_context) :=
  granted ← jaeger_malloc;
  if negb granted then extract_cleanup metrics error_unknown None
  else
    ' (ok, ctx) ← jaeger_span_context_init;
    if negb ok then extract_cleanup metrics error_unknown (Some ctx)
    else
      ' (ok, ctx, s) ← read_ids s ctx;
      if negb ok then extract_cleanup metrics error_span_context_corrupted (Some ctx)
      else
        ' (error_code, h, s) ← parse_baggage_binary s (baggage ctx);
        let ctx := set_baggage ctx h in
        if negb (bool_decide (error_code = error_success))
        then extract_cleanup metrics error_code (Some ctx)
        else ret (error_success, Some ctx).
End ExtractBinary.

(** *** Custom carriers: the carrier does the work *)

Definition jaeger_extract_from_custom (extract : M (code * option jaeger_span_context))
    (metrics : option jaeger_metrics) : M (code * option jaeger_span_context) :=
  ' (error_code, ctx) ← extract;
  (match metrics with
   | Some metrics =>
       if bool_decide (error_code = error_span_context_corrupted)
       then inc (counter metrics decoding_errors) 1 else ret tt
   | None => ret tt
   end);;
  ret (error_code, ctx).

Definition jaeger_inject_into_custom {S} (inject : S -> jaeger_span_context -> M (code * S))
    (s : S) (ctx : jaeger_span_context) : M (code * S) := inject s ctx.
End Definitions.

(** *** What carriers promise *)

(** Visiting every key and value in order, up to the first handler error:
    what [foreach_key] of a text-map reader is documented to do. *)
Fixpoint foreach_items {A} (f : A -> cstr -> cstr -> M (opentracing_propagation_error_code * A))
    (items : list (cstr * cstr)) (a : A) : M (opentracing_propagation_error_code * A) :=
  match items with
  | [] => ret (error_success, a)
  | (k, v) :: items =>
      ' (e, a) ← f a k v;
      if bool_decide (e = error_success) then foreach_items f items a else ret (e, a)
  end.

(** A text-map carrier: what is set can be visited, in the order it was set. *)
Class TextMapCarrier (S : Type) := {
  carrier_set : S -> cstr -> cstr -> M (opentracing_propagation_error_code * S);
  carrier_foreach_key : S -> foreach_key_type;
  carrier_items : S -> list (cstr * cstr);
  carrier_set_ok s k v w : exists s' w', carrier_set s k v w = Ok (error_success, s') w' /\
    alloc_only w w' /\ carrier_items s' = carrier_items s ++ [(k, v)];
  carrier_foreach_ok s f ctx w :
    carrier_foreach_key s f ctx w = foreach_items f (carrier_items s) ctx w;
}.

(** A binary carrier: a stream of bytes. A read returns the bytes asked for,
    or as many as there are. *)
Class BinaryCarrier (S : Type) := {
  carrier_write : S -> list Z -> M (Z * S);
  carrier_read : S -> Z -> M (Z * list Z * S);
  carrier_bytes : S -> list Z;
  carrier_write_ok s bs w : exists s' w', carrier_write s bs w = Ok (lenZ bs, s') w' /\
    alloc_only w w' /\ carrier_bytes s' = carrier_bytes s ++ bs;
  carrier_read_ok s n w : 0 <= n ->
    exists s' w', carrier_read s n w
      = Ok (Z.min n (lenZ (carrier_bytes s)), take (Z.to_nat n) (carrier_bytes s), s') w' /\
    alloc_only w w' /\ carrier_bytes s' = drop (Z.to_nat n) (carrier_bytes s);
}.

(** ** Lemmas *)

(** No header is taken for a baggage item, and the headers are different. *)
Record config_ok (config : jaeger_headers_config) : Prop := {
  config_names : trace_context_header config <> debug_header config /\
    trace_context_header config <> baggage_header config /\
    debug_header config <> baggage_header config;
  config_prefix : ~ trace_baggage_header_prefix config `prefix_of` trace_context_header config /\
    ~ trace_baggage_header_prefix config `prefix_of` debug_header config /\
    ~ trace_baggage_header_prefix config `prefix_of` baggage_header config;
}.

Section Facts.
Context {env : Env}.
Implicit Types (w : world).

Lemma wp_of_eq {A} (m : M A) a w w' (Q : A -> world -> Prop) : m w = Ok a w' -> Q a w' -> wp m Q w.
Proof. unfold wp. by intros ->. Qed.

Lemma wp_same {A} (m m' : M A) Q w : (forall w, m w = m' w) -> wp m' Q w -> wp m Q w.
Proof. unfold wp. by intros ->. Qed.

Lemma context_text_no_char ctx c :
  is_digit_of 16 c = false -> c <> ":"%char -> c ∉ context_text ctx.
Proof.
  intros Hc Hne. unfold context_text, context_tail.
  rewrite elem_of_app, elem_of_cons, elem_of_app, elem_of_cons.
  pose proof (trace_id_text_no_char (trace_id ctx) c Hc).
  pose proof (print_hex_no_char (span_id ctx) c Hc).
  pose proof (print_hex_no_char (flags ctx) c Hc). naive_solver.
Qed.

Lemma decode_text_plain s : "%"%char ∉ s -> decode_text default_state s = s.
Proof.
  induction s as [|c s IH]; [done|]. intros [Hc Hs]%not_elem_of_cons. cbn.
  rewrite bool_decide_eq_false_2 by done. by rewrite IH.
Qed.

(** *** One entry of a text map *)

Section TextMap.
Variable config : jaeger_headers_config.
Hypothesis Hconfig : config_ok config.
Variables norm dec : cstr -> M cstr.

(** A baggage item as its header: the key prefixed, the value encoded. *)
Definition item_header (enc : cstr -> cstr) (kv : jaeger_key_value) : cstr * cstr :=
  (trace_baggage_header_prefix config ++ key kv, enc (kv_value kv)).

(** An item that survives the journey. *)
Record item_carried (enc : cstr -> cstr) (kv : jaeger_key_value) : Prop := {
  item_key : key kv <> [] /\ short (trace_baggage_header_prefix config ++ key kv);
  item_value : short (kv_value kv);
  item_norm w : norm (trace_baggage_header_prefix config ++ key kv) w
    = Ok (trace_baggage_header_prefix config ++ key kv) w;
  item_dec w : dec (enc (kv_value kv)) w = Ok (kv_value kv) w;
}.

Lemma prefixed_not_header k h :
  ~ trace_baggage_header_prefix config `prefix_of` h ->
  (strcmp (trace_baggage_header_prefix config ++ k) h =? 0) = false.
Proof.
  intros Hp. apply Z.eqb_neq. rewrite strcmp_eq. intros <-. apply Hp. by exists k.
Qed.

Lemma callback_item_wp enc ctx m kv Q w :
  plenty w -> item_carried enc kv -> represents (baggage ctx) m ->
  ht_size (baggage ctx) + 1 < 2 ^ 31 ->
  (forall h w', alloc_only w w' -> represents h (<[key kv := kv_value kv]> m) ->
     ht_size h = size_after m (key kv) (ht_size (baggage ctx)) ->
     Q (error_success, set_baggage ctx h) w') ->
  wp (extract_text_map_callback config norm dec ctx (item_header enc kv).1
        (item_header enc kv).2) Q w.
Proof.
  intros Hp [[Hk Hs] Hv Hn Hd] Hr Hsz HQ. destruct Hconfig as [_ (H1 & H2 & H3)].
  unfold extract_text_map_callback, item_header. cbn [fst snd].
  do 2 wp_step. rewrite Hplenty by done. cbn [negb].
  apply wp_bind. eapply wp_of_eq; [apply Hn|].
  rewrite !prefixed_not_header by done. unfold extract_baggage_item.
  set (p := trace_baggage_header_prefix config) in *.
  assert (lenZ p + lenZ (key kv) < INT_MAX) as Hs' by (unfold short in Hs; rewrite length_app in Hs; lia).
  assert (lenZ (p ++ key kv) < INT_MAX /\ lenZ p < INT_MAX) as [Hs1 Hs2] by (split; [exact Hs|lia]).
  assert (0 < lenZ (key kv)) by (destruct (key kv); [done|cbn; lia]).
  rewrite !int_strlen by done. rewrite length_app, Nat2Z.id.
  rewrite Z.gtb_ltb, (proj2 (Z.ltb_lt _ _)) by lia.
  rewrite take_app_length, take_ge, bool_decide_eq_true_2 by done. cbn [andb].
  assert (plenty w') as Hp' by (by apply (plenty_alloc_only w)).
  do 2 wp_step. rewrite Hplenty0 by done. cbn [negb].
  assert (plenty w'0) by (by apply (plenty_alloc_only w')).
  do 2 wp_step. rewrite Hplenty1 by done. cbn [negb]. rewrite drop_app_length.
  apply wp_bind. eapply wp_of_eq; [apply Hd|].
  apply wp_bind, (put_wp _ m); [done|unfold short in *; lia|done|done| |].
  - intros h w2 Hw2 []. by apply (plenty_alloc_only w'0).
  - intros h w2 Hw2 Hr2 Hz. cbn [negb]. apply wp_ret, HQ; [|done|done].
    etrans; [done|]. etrans; [done|]. by etrans.
Qed.

Lemma foreach_item_headers_wp enc ctx m kvs Q w :
  plenty w -> Forall (item_carried enc) kvs -> represents (baggage ctx) m ->
  counted (baggage ctx) m -> ht_size (baggage ctx) + lenZ kvs < 2 ^ 31 ->
  (forall h w', alloc_only w w' -> represents h (put_all m kvs) -> counted h (put_all m kvs) ->
     Q (error_success, set_baggage ctx h) w') ->
  wp (foreach_items (extract_text_map_callback config norm dec) (map (item_header enc) kvs) ctx)
    Q w.
Proof.
  intros Hp Hkvs. revert ctx m w Hp.
  induction Hkvs as [|kv kvs Hkv _ IH]; intros ctx m w Hp Hr Hc Hsz HQ.
  { replace ctx with (set_baggage ctx (baggage ctx)) by (by destruct ctx). by apply wp_ret, HQ. }
  cbn [map foreach_items length] in *. apply wp_bind.
  apply (callback_item_wp enc ctx m kv); [done|done|done|lia|].
  intros h w1 Hw1 Hr1 Hz1. rewrite bool_decide_eq_true_2 by done.
  apply (IH _ (<[key kv := kv_value kv]> m)); [by apply (plenty_alloc_only w)|done| | |].
  - by eapply counted_insert.
  - cbn [baggage set_baggage]. rewrite Hz1. unfold size_after. destruct (m !! key kv); lia.
  - intros h2 w2 Hw2 Hr2 Hc2. change (set_baggage (set_baggage ctx h) h2) with (set_baggage ctx h2).
    apply HQ; [by etrans|done|done].
Qed.

Lemma callback_context_wp src ctx Q w :
  plenty w -> ids_wf src -> ctx_mutex ctx = false ->
  (forall w, norm (trace_context_header config) w = Ok (trace_context_header config) w) ->
  (forall w, dec (context_text src) w = Ok (context_text src) w) ->
  (forall w', alloc_only w w' ->
     Q (error_success, SpanContext (trace_id src) (span_id src) (flags src) (baggage ctx)
                         (debug_id ctx) false) w') ->
  wp (extract_text_map_callback config norm dec ctx (trace_context_header config)
        (context_text src)) Q w.
Proof.
  intros Hp Hi Hm Hn Hd HQ. unfold extract_text_map_callback.
  do 2 wp_step. rewrite Hplenty by done. cbn [negb].
  apply wp_bind. eapply wp_of_eq; [apply Hn|]. rewrite strcmp_refl. cbn [Z.eqb].
  assert (plenty w') by (by apply (plenty_alloc_only w)).
  unfold extract_trace_context. do 2 wp_step. rewrite Hplenty0 by done. cbn [negb].
  apply wp_bind. eapply wp_of_eq; [apply Hd|].
  apply wp_bind, context_scan_text_wp; [by apply (plenty_alloc_only w')|done|done|].
  intros w2 Hw2. cbn [negb]. apply wp_ret, HQ. etrans; [done|]. by etrans.
Qed.

(** Extraction from the headers of a context. *)
Lemma extract_helper_wp enc src m es foreach_key metrics Q w :
  plenty w -> ids_wf src -> short_map m -> m = entries_map es -> NoDup (key <$> es) ->
  lenZ es < 2 ^ 31 - 1 -> Forall (item_carried enc) es ->
  jaeger_span_context_is_valid src = true \/ m <> ∅ ->
  (forall w, norm (trace_context_header config) w = Ok (trace_context_header config) w) ->
  (forall w, dec (context_text src) w = Ok (context_text src) w) ->
  (forall f ctx w, foreach_key f ctx w
     = foreach_items f ((trace_context_header config, context_text src)
                          :: map (item_header enc) es) ctx w) ->
  (forall ctx w', alloc_only w w' -> context_ok ctx m -> trace_id ctx = trace_id src ->
     span_id ctx = span_id src -> flags ctx = flags src -> debug_id ctx = None ->
     Q (error_success, Some ctx) w') ->
  wp (extract_from_text_map_helper config norm dec foreach_key metrics) Q w.
Proof.
  intros Hp Hi Hsm Hm Hnd Hlen Hes Hne Hn Hd Hfe HQ. unfold extract_from_text_map_helper.
  do 2 wp_step. rewrite Hplenty by done. cbn [negb].
  assert (plenty w') by (by apply (plenty_alloc_only w)).
  apply wp_bind, context_init_wp; [|by intros ctx w2 _ []].
  intros ctx w2 Hw2 Hok _ Hdbg _. cbn [negb]. destruct Hok as [Hr Hc Hs Hz Hmx].
  assert (plenty w2) by (by apply (plenty_alloc_only w')).
  apply wp_bind. unfold wp. rewrite Hfe. change (wp (foreach_items
    (extract_text_map_callback config norm dec)
    ((trace_context_header config, context_text src) :: map (item_header enc) es) ctx) (fun a w' =>
      wp (let '(error_code, ctx) := a in
          if negb (bool_decide (error_code = error_success))
          then extract_cleanup metrics error_code (Some ctx)
          else if (high (trace_id ctx) =? 0) && (low (trace_id ctx) =? 0)
              && bool_decide (debug_id ctx = None) && (ht_size (baggage ctx) =? 0)
          then extract_cleanup metrics error_success (Some ctx)
          else ret (error_success, Some ctx)) Q w') w2).
  cbn [foreach_items]. apply wp_bind, callback_context_wp; [done|done|done|done|done|].
  intros w3 Hw3. rewrite bool_decide_eq_true_2 by done.
  eapply (foreach_item_headers_wp enc _ ∅);
    [by apply (plenty_alloc_only w2)|done|done|done|cbn [baggage]; rewrite Hc, map_size_empty; lia|].
  intros h w4 Hw4 Hr4 Hc4. rewrite put_all_union, (right_id_L ∅ (∪)), <- Hm in Hr4, Hc4 by done.
  rewrite bool_decide_eq_true_2 by done. cbn [negb set_baggage trace_id baggage debug_id].
  assert ((high (trace_id src) =? 0) && (low (trace_id src) =? 0)
    && bool_decide (debug_id ctx = None) && (ht_size h =? 0) = false) as ->.
  { destruct Hne as [Hv|Hv].
    - unfold jaeger_span_context_is_valid in Hv.
      by destruct (high (trace_id src) =? 0), (low (trace_id src) =? 0).
    - rewrite Hc4. destruct (Z.eqb_spec (Z.of_nat (base.size m)) 0) as [E|]; [|by rewrite andb_false_r].
      destruct Hv. apply map_size_empty_inv. lia. }
  apply wp_ret, HQ; try done.
  - etrans; [done|]. etrans; [done|]. by etrans.
  - split; cbn [baggage ctx_mutex]; try done. rewrite Hc4, Hm, entries_map_size by done. lia.
Qed.
End TextMap.

(** *** Injection *)

Lemma buckets_of_wp width h bs Q w :
  32 <= width -> ht_inv h bs -> Q bs w -> wp (buckets_of width h) Q w.
Proof.
  intros Hwidth [Hb Ho _ [Hl _] _] HQ. unfold buckets_of.
  assert (0 < 2 ^ ht_order h) by (apply Z.pow_pos_nonneg; lia).
  rewrite (proj2 (Z.leb_le 0 _)), (proj2 (Z.ltb_lt _ width)) by lia. cbn [andb]. rewrite Hb.
  rewrite (proj2 (Z.ltb_ge _ _)) by lia. rewrite take_ge by lia. done.
Qed.

Section InjectFacts.
Context {S : Type} {carrier : TextMapCarrier S}.
Variable config : jaeger_headers_config.
Variables (encode : cstr -> M cstr) (enc : cstr -> cstr).

(** An item whose header can be written. *)
Definition item_writable (kv : jaeger_key_value) : Prop :=
  lenZ (trace_baggage_header_prefix config ++ key kv) < INT_MAX /\
  forall w, encode (kv_value kv) w = Ok (enc (kv_value kv)) w.

Lemma inject_bucket_wp s kvs Q w :
  plenty w -> Forall item_writable kvs ->
  (forall s' w', alloc_only w w' ->
     carrier_items s' = carrier_items s ++ map (item_header config enc) kvs ->
     Q (error_success, s') w') ->
  wp (inject_bucket carrier_set config encode error_success s kvs) Q w.
Proof.
  intros Hp Hkvs. revert s w Hp. induction Hkvs as [|kv kvs [Hl He] _ IH]; intros s w Hp HQ.
  { apply wp_ret, HQ; [done|]. by rewrite app_nil_r. }
  cbn [inject_bucket]. apply wp_bind. unfold inject_item. rewrite length_app in Hl.
  rewrite !int_strlen by lia. unfold INT_MAX in Hl. wp_step. wp_step. wp_step. wp_step.
  do 2 wp_step. rewrite Hplenty by done. cbn [negb].
  assert (plenty w') by (by apply (plenty_alloc_only w)).
  do 2 wp_step. rewrite Hplenty0 by done. cbn [negb].
  apply wp_bind. eapply wp_of_eq; [apply He|].
  destruct (carrier_set_ok s (trace_baggage_header_prefix config ++ key kv)
    (enc (kv_value kv)) w'0) as (s1 & w1 & E & Hw1 & Hi1).
  eapply wp_of_eq; [exact E|]. cbn beta iota. apply IH.
  - apply (plenty_alloc_only w'0); [done|]. by apply (plenty_alloc_only w').
  - intros s2 w2 Hw2 Hi2. apply HQ.
    + etrans; [done|]. etrans; [done|]. by etrans.
    + by rewrite Hi2, Hi1, <- app_assoc.
Qed.

Lemma inject_buckets_wp s bs Q w :
  plenty w -> Forall item_writable (concat bs) ->
  (forall s' w', alloc_only w w' ->
     carrier_items s' = carrier_items s ++ map (item_header config enc) (concat bs) ->
     Q (error_success, s') w') ->
  wp (inject_buckets carrier_set config encode error_success s bs) Q w.
Proof.
  revert s w. induction bs as [|b bs IH]; intros s w Hp Hkvs HQ; cbn [inject_buckets concat] in *.
  { apply wp_ret, HQ; [done|]. by rewrite app_nil_r. }
  apply Forall_app in Hkvs as [Hb Hbs]. rewrite bool_decide_eq_true_2 by done.
  apply wp_bind, inject_bucket_wp; [done|done|]. intros s1 w1 Hw1 Hi1.
  apply IH; [by apply (plenty_alloc_only w)|done|]. intros s2 w2 Hw2 Hi2.
  apply HQ; [by etrans|]. by rewrite Hi2, Hi1, map_app, <- app_assoc.
Qed.

Lemma inject_helper_wp s ctx bs Q w :
  plenty w -> ids_wf ctx -> ctx_mutex ctx = false -> ht_inv (baggage ctx) bs ->
  Forall item_writable (concat bs) ->
  (forall s' w', alloc_only w w' ->
     carrier_items s' = carrier_items s ++ (trace_context_header config, context_text ctx)
                          :: map (item_header config enc) (concat bs) ->
     Q (error_success, s') w') ->
  wp (inject_text_map_helper carrier_set config encode s ctx) Q w.
Proof.
  intros Hp Hi Hm Hinv Hkvs HQ. unfold inject_text_map_helper.
  apply wp_bind, context_format_wp; [done|done|lia|].
  pose proof (context_text_length ctx Hi) as Hl. unfold context_text in Hl.
  rewrite length_app in Hl. wp_step. apply wp_assert; [lia|]. cbn [default].
  destruct (carrier_set_ok s (trace_context_header config) (context_text ctx) w)
    as (s1 & w1 & E & Hw1 & Hi1).
  apply wp_bind. eapply wp_of_eq; [exact E|]. cbn beta iota.
  rewrite bool_decide_eq_true_2 by done. apply wp_bind, (buckets_of_wp _ _ bs); [done|done|].
  apply inject_buckets_wp; [by apply (plenty_alloc_only w)|done|]. intros s2 w2 Hw2 Hi2.
  apply HQ; [by etrans|]. by rewrite Hi2, Hi1, <- app_assoc.
Qed.
End InjectFacts.

(** Every entry of the map satisfies [P]. *)
Lemma entries_forall (P : jaeger_key_value -> Prop) es :
  NoDup (key <$> es) ->
  (forall k v, entries_map es !! k = Some v -> P (KeyValue k v)) -> Forall P es.
Proof.
  intros Hnd HP. apply Forall_forall. intros [k v] Hkv. apply HP.
  by apply (entries_map_Some (KeyValue k v)).
Qed.

(** *** The binary format *)

Section BinaryFacts.
Context {S : Type} {carrier : BinaryCarrier S}.

Definition field_bytes (s : cstr) : list Z := be_bytes 4 (lenZ s) ++ string_bytes s.
Definition item_bytes (kv : jaeger_key_value) : list Z :=
  field_bytes (key kv) ++ field_bytes (kv_value kv).

(** The bytes of a context with the items [es]. *)
Definition context_bytes (ctx : jaeger_span_context) (es : list jaeger_key_value) : list Z :=
  be_bytes 8 (high (trace_id ctx)) ++ be_bytes 8 (low (trace_id ctx)) ++
  be_bytes 8 (span_id ctx) ++ [flags ctx] ++ be_bytes 4 (lenZ es) ++ concat (map item_bytes es).

Lemma length_be_bytes n z : length (be_bytes n z) = n.
Proof. unfold be_bytes. by rewrite length_rev, length_le_bytes. Qed.

Lemma be_value_bytes n z : 0 <= z < 256 ^ Z.of_nat n -> be_value (be_bytes n z) = z.
Proof. intros Hz. unfold be_value, be_bytes. by rewrite rev_involutive, le_value_bytes. Qed.

Lemma map_chr_bytes s : map chr (string_bytes s) = s.
Proof. induction s as [|c s IH]; [done|]. cbn. rewrite chr_code. f_equal. apply IH. Qed.

Lemma int_small n : 0 <= n < INT_MAX -> to_signed 32 n = n.
Proof. unfold INT_MAX. intros Hn. apply to_signed_small. lia. Qed.

Lemma write_fields_wp s fs Q w :
  Forall (fun f => lenZ f < INT_MAX) fs ->
  (forall s' w', alloc_only w w' -> carrier_bytes s' = carrier_bytes s ++ concat fs ->
     Q (true, s') w') ->
  wp (write_fields carrier_write s fs) Q w.
Proof.
  intros Hfs. revert s w. induction Hfs as [|f fs Hf _ IH]; intros s w HQ; cbn [write_fields concat].
  { apply wp_ret, HQ; [done|]. by rewrite app_nil_r. }
  apply wp_bind. unfold write_bytes. apply wp_bind.
  destruct (carrier_write_ok s f w) as (s1 & w1 & E & Hw1 & Hb1).
  eapply wp_of_eq; [exact E|]. cbn beta iota. apply wp_ret. rewrite int_small, Z.eqb_refl by lia.
  apply IH. intros s2 w2 Hw2 Hb2. apply HQ; [by etrans|]. by rewrite Hb2, Hb1, <- app_assoc.
Qed.

Lemma string_fields_bytes s :
  short s -> Forall (fun f => lenZ f < INT_MAX) (string_fields s) /\
  concat (string_fields s) = field_bytes s.
Proof.
  unfold short, INT_MAX. intros Hs. unfold string_fields, strlen, field_bytes.
  rewrite wrap_small by lia. rewrite Nat2Z.id, take_ge by (unfold string_bytes; rewrite length_map; lia).
  split; [|by rewrite concat_cons, concat_cons, app_nil_r].
  rewrite !Forall_cons, length_be_bytes. unfold string_bytes. rewrite length_map. by repeat split.
Qed.

Lemma write_items_wp s size es Q w :
  Forall short_entry es -> 0 <= size -> size + lenZ es < 2 ^ 32 ->
  (forall s' w', alloc_only w w' -> carrier_bytes s' = carrier_bytes s ++ concat (map item_bytes es) ->
     Q (true, s', size + lenZ es) w') ->
  wp (write_items carrier_write s size es) Q w.
Proof.
  intros Hes. revert s size w.
  induction Hes as [|kv es [Hk Hv] _ IH]; intros s size w H0 Hsz HQ; cbn [write_items map concat].
  { replace size with (size + lenZ (@nil jaeger_key_value)) by (cbn; lia).
    apply wp_ret, HQ; [done|]. by rewrite app_nil_r. }
  cbn [length] in *. destruct (string_fields_bytes _ Hk) as [Hk1 Hk2].
  destruct (string_fields_bytes _ Hv) as [Hv1 Hv2].
  apply wp_bind, write_fields_wp; [by apply Forall_app|].
  intros s1 w1 Hw1 Hb1. cbn beta iota. rewrite wrap_small by lia.
  apply IH; [lia|lia|]. intros s2 w2 Hw2 Hb2.
  replace (size + 1 + lenZ es) with (size + Z.of_nat (Datatypes.S (length es))) by lia.
  apply HQ; [by etrans|]. rewrite Hb2, Hb1, concat_app, Hk2, Hv2, <- app_assoc. done.
Qed.

Lemma inject_binary_wp s ctx bs Q w :
  ids_wf ctx -> ht_inv (baggage ctx) bs -> Forall short_entry (concat bs) ->
  ht_size (baggage ctx) = lenZ (concat bs) -> ht_size (baggage ctx) < 2 ^ 31 - 1 ->
  (forall s' w', alloc_only w w' ->
     carrier_bytes s' = carrier_bytes s ++ context_bytes ctx (concat bs) ->
     Q (error_success, s') w') ->
  wp (jaeger_inject_into_binary carrier_write s ctx) Q w.
Proof.
  intros (_ & _ & Hf) Hinv Hes Hc Hz HQ. unfold jaeger_inject_into_binary.
  rewrite !wrap_small by lia. apply wp_bind, write_fields_wp.
  { rewrite !Forall_cons, !length_be_bytes. by repeat split. }
  intros s1 w1 Hw1 Hb1. cbn [negb]. apply wp_bind, (buckets_of_wp _ _ bs); [done|done|].
  apply wp_bind, write_items_wp; [done|lia|lia|]. intros s2 w2 Hw2 Hb2. cbn [negb].
  apply wp_bind, wp_assert; [apply Z.eqb_eq; lia|]. apply wp_ret, HQ; [by etrans|].
  rewrite Hb2, Hb1, <- app_assoc. f_equal. unfold context_bytes. cbn [concat].
  rewrite Hc, app_nil_r, <- !app_assoc. done.
Qed.

(** *** Reading *)

Lemma read_binary_wp s bs rest (n : nat) Q w :
  carrier_bytes s = bs ++ rest -> length bs = n ->
  (forall s' w', alloc_only w w' -> carrier_bytes s' = rest -> Q (Some (be_value bs), s') w') ->
  wp (read_binary carrier_read s (Z.of_nat n)) Q w.
Proof.
  intros Hb Hl HQ. unfold read_binary. apply wp_bind.
  destruct (carrier_read_ok s (Z.of_nat n) w) as (s1 & w1 & E & Hw1 & Hb1); [lia|].
  eapply wp_of_eq; [exact E|]. cbn beta iota. rewrite Hb, Nat2Z.id in *.
  rewrite length_app. rewrite Z.min_l, Z.eqb_refl by lia. cbn [negb].
  rewrite take_app_le, take_ge by lia. rewrite (proj2 (Z.ltb_ge _ _)), take_ge by lia.
  apply wp_ret, HQ; [done|]. rewrite Hb1, drop_app_ge by lia.
  by replace (n - length bs)%nat with 0%nat by lia.
Qed.

Lemma read_u32_wp s z rest Q w :
  carrier_bytes s = be_bytes 4 z ++ rest -> 0 <= z < 2 ^ 32 ->
  (forall s' w', alloc_only w w' -> carrier_bytes s' = rest -> Q (Some z, s') w') ->
  wp (read_binary carrier_read s 4) Q w.
Proof.
  intros Hb Hz HQ. apply (read_binary_wp s (be_bytes 4 z) rest 4); [done|apply length_be_bytes|].
  intros s' w' Hw Hr. rewrite be_value_bytes by (cbn; lia). by apply HQ.
Qed.

Lemma read_u64_wp s z rest Q w :
  carrier_bytes s = be_bytes 8 z ++ rest -> 0 <= z <= UINT64_MAX ->
  (forall s' w', alloc_only w w' -> carrier_bytes s' = rest -> Q (Some z, s') w') ->
  wp (read_binary carrier_read s 8) Q w.
Proof.
  unfold UINT64_MAX.
  intros Hb Hz HQ. apply (read_binary_wp s (be_bytes 8 z) rest 8); [done|apply length_be_bytes|].
  intros s' w' Hw Hr. rewrite be_value_bytes by (cbn; lia). by apply HQ.
Qed.

Lemma read_buffer_wp s str rest Q w :
  carrier_bytes s = string_bytes str ++ rest -> short str -> nul ∉ str ->
  (forall s' w', alloc_only w w' -> carrier_bytes s' = rest -> Q (Some str, s') w') ->
  wp (read_buffer carrier_read s (lenZ str)) Q w.
Proof.
  intros Hb Hs Hn HQ. unfold read_buffer. apply wp_bind.
  destruct (carrier_read_ok s (lenZ str) w) as (s1 & w1 & E & Hw1 & Hb1); [lia|].
  eapply wp_of_eq; [exact E|]. cbn beta iota. rewrite Hb, Nat2Z.id in *.
  assert (length (string_bytes str) = length str) as Hl by apply length_map.
  rewrite length_app, Hl. rewrite Z.min_l by lia.
  rewrite int_small, Z.eqb_refl by (unfold short in Hs; lia). cbn [negb].
  rewrite take_app_le, take_ge by lia. unfold short, INT_MAX in Hs.
  rewrite wrap_small, Z.ltb_irrefl by lia. rewrite Hl, Z.ltb_irrefl.
  rewrite take_ge, map_chr_bytes, until_nul_id by (done || lia).
  apply wp_ret, HQ; [done|]. rewrite Hb1, drop_app_ge by lia.
  by replace (length str - length (string_bytes str))%nat with 0%nat by lia.
Qed.

(** Items that survive as C strings. *)
Definition item_binary (kv : jaeger_key_value) : Prop :=
  short_entry kv /\ nul ∉ key kv /\ nul ∉ kv_value kv.

Lemma parse_items_wp kb vb h m es s rest Q w :
  plenty w -> represents h m -> counted h m -> Forall item_binary es ->
  ht_size h + lenZ es < 2 ^ 31 -> carrier_bytes s = concat (map item_bytes es) ++ rest ->
  (forall h' s' w', alloc_only w w' -> represents h' (put_all m es) ->
     counted h' (put_all m es) -> carrier_bytes s' = rest -> Q (error_success, h', s') w') ->
  wp (parse_items carrier_read (length es) kb vb h s) Q w.
Proof.
  intros Hp Hr Hc Hes. revert kb vb h m s w Hp Hr Hc.
  induction Hes as [|kv es [[Hks Hvs] [Hkn Hvn]] _ IH]; intros kb vb h m s w Hp Hr Hc Hsz Hb HQ;
    cbn [length parse_items map concat] in *; [by apply wp_ret, HQ|].
  unfold item_bytes, field_bytes in Hb. rewrite <- !app_assoc in Hb.
  apply wp_bind. eapply read_u32_wp; [exact Hb|unfold short, INT_MAX in Hks; lia|].
  intros s1 w1 Hw1 Hb1. assert (plenty w1) by (by apply (plenty_alloc_only w)).
  do 2 wp_step. rewrite Hplenty by done. cbn [negb].
  assert (plenty w') by (by apply (plenty_alloc_only w1)).
  apply wp_bind. eapply read_buffer_wp; [exact Hb1|done|done|]. intros s2 w2 Hw2 Hb2.
  assert (plenty w2) by (by apply (plenty_alloc_only w')).
  apply wp_bind. eapply read_u32_wp; [exact Hb2|unfold short, INT_MAX in Hvs; lia|].
  intros s3 w3 Hw3 Hb3. assert (plenty w3) by (by apply (plenty_alloc_only w2)).
  do 2 wp_step. rewrite Hplenty0 by done. cbn [negb].
  assert (plenty w'0) by (by apply (plenty_alloc_only w3)).
  apply wp_bind. eapply read_buffer_wp; [exact Hb3|done|done|]. intros s4 w4 Hw4 Hb4.
  assert (plenty w4) by (by apply (plenty_alloc_only w'0)).
  apply wp_bind, (put_wp _ m); [done|done|done|lia|by intros|].
  intros h1 w5 Hw5 Hr5 Hz5. cbn [negb].
  apply (IH _ _ h1 (<[key kv := kv_value kv]> m)); [by apply (plenty_alloc_only w4)|done| | |exact Hb4|].
  - by eapply counted_insert.
  - rewrite Hz5. unfold size_after. destruct (m !! key kv); lia.
  - intros h2 s5 w6 Hw6 Hr6 Hc6 Hb6. apply HQ; [|done..].
    do 6 (etrans; [eassumption|]). by etrans.
Qed.

Lemma read_ids_wp s src rest ctx Q w :
  ids_wf src -> carrier_bytes s = be_bytes 8 (high (trace_id src)) ++
    be_bytes 8 (low (trace_id src)) ++ be_bytes 8 (span_id src) ++ [flags src] ++ rest ->
  (forall s' w', alloc_only w w' -> carrier_bytes s' = rest ->
     Q (true, SpanContext (trace_id src) (span_id src) (flags src) (baggage ctx) (debug_id ctx)
                (ctx_mutex ctx), s') w') ->
  wp (read_ids carrier_read s ctx) Q w.
Proof.
  intros ([Hh Hl] & Hs & Hf) Hb HQ. unfold read_ids.
  apply wp_bind. eapply read_u64_wp; [exact Hb|done|]. intros s1 w1 Hw1 Hb1.
  apply wp_bind. eapply read_u64_wp; [exact Hb1|done|]. intros s2 w2 Hw2 Hb2.
  apply wp_bind. eapply read_u64_wp; [exact Hb2|done|]. intros s3 w3 Hw3 Hb3.
  apply wp_bind, (read_binary_wp s3 [flags src] rest 1); [done|done|]. intros s4 w4 Hw4 Hb4.
  cbn beta iota. apply wp_ret.
  replace (be_value [flags src]) with (flags src) by (unfold be_value; cbn; lia).
  destruct (trace_id src) as [h l] eqn:E. cbn. rewrite <- E. rewrite E. apply HQ; [|done].
  do 3 (etrans; [eassumption|]). done.
Qed.
End BinaryFacts.

(** *** Extraction from headers nobody vouches for *)

(** A context being filled in: some baggage with a right count, unlocked. *)
Definition context_partial (ctx : jaeger_span_context) : Prop :=
  baggage_valid (baggage ctx) /\ ctx_mutex ctx = false.

(** A header that decodes: not too long, and without DEL in its value. *)
Definition header_ok (kv : cstr * cstr) : Prop :=
  lenZ kv.1 < INT_MAX /\ lenZ kv.2 < INT_MAX /\
  (ndebug = true \/ DEL ∉ decode_text default_state kv.2).

(** The most entries the headers can add to the baggage. *)
Definition headers_size (items : list (cstr * cstr)) : Z :=
  foldr (fun kv n => lenZ kv.2 + 1 + n) 0 items.

Section Untrusted.
Variable config : jaeger_headers_config.
Hypothesis Hprefix : short (trace_baggage_header_prefix config).

Lemma headers_size_nonneg items : 0 <= headers_size items.
Proof. unfold headers_size. induction items as [|kv items IH]; cbn [foldr]; lia. Qed.

Lemma decode_header_wp kv Q w :
  header_ok kv ->
  (forall v, lenZ v <= lenZ kv.2 -> Q v w) -> wp (decode_uri_value kv.2) Q w.
Proof.
  intros (_ & Hl & Hd) HQ. eapply wp_of_eq; [|apply HQ, (decode_text_length default_state)].
  rewrite decode_eq by done. unfold writable.
  destruct Hd as [->|Hd]; [done|]. by rewrite bool_decide_eq_false_2, orb_true_r.
Qed.

Lemma callback_safe_wp ctx kv Q w :
  plenty w -> context_partial ctx -> header_ok kv ->
  ht_size (baggage ctx) + lenZ kv.2 + 1 < 2 ^ 31 ->
  (forall e ctx' w', alloc_only w w' -> context_partial ctx' ->
     ht_size (baggage ctx') <= ht_size (baggage ctx) + lenZ kv.2 + 1 -> Q (e, ctx') w') ->
  wp (extract_text_map_callback config to_lowercase decode_uri_value ctx kv.1 kv.2) Q w.
Proof.
  intros Hp [Hv Hm] Hkv Hsz HQ. pose proof Hkv as (Hk & Hl & _).
  assert (Q_same : forall e w', alloc_only w w' -> Q (e, ctx) w')
    by (intros; apply HQ; [done|by split|lia]).
  unfold extract_text_map_callback. do 2 wp_step. rewrite Hplenty by done. cbn [negb].
  assert (plenty w') as Hp' by (by apply (plenty_alloc_only w)).
  apply wp_bind. unfold to_lowercase. apply wp_ret. rewrite int_strlen, Nat2Z.id, take_ge by (done || lia).
  set (k := map tolower kv.1). assert (lenZ k < INT_MAX) by (unfold k; rewrite length_map; exact Hk).
  destruct (strcmp k (trace_context_header config) =? 0).
  { unfold extract_trace_context. do 2 wp_step. rewrite Hplenty0 by done. cbn [negb].
    apply wp_bind, decode_header_wp; [done|]. intros v Hlv.
    apply wp_bind, context_scan_wp; [unfold short; lia|done| |].
    - intros w2 Hw2. cbn [negb]. apply wp_ret, Q_same. etrans; [done|]. by etrans.
    - intros tid sid fl w2 Hw2 _. cbn [negb]. apply wp_ret, HQ; [|by split|cbn [baggage]; lia].
      etrans; [done|]. by etrans. }
  destruct (strcmp k (debug_header config) =? 0).
  { unfold extract_debug_id. do 2 wp_step. rewrite Hplenty0 by done. cbn [negb].
    apply wp_bind, decode_header_wp; [done|]. intros v Hlv.
    assert (plenty w'0) by (by apply (plenty_alloc_only w')).
    apply wp_bind, wp_strdup; [lia|by intros|]. intros w2 Hw2.
    apply wp_ret, HQ; [|by split|cbn [set_flags set_debug_id baggage]; lia].
    etrans; [done|]. by etrans. }
  destruct (strcmp k (baggage_header config) =? 0).
  { unfold extract_baggage. do 2 wp_step. rewrite Hplenty0 by done. cbn [negb].
    apply wp_bind, decode_header_wp; [done|]. intros v Hlv.
    apply wp_bind, parse_map_loop_wp; [done|lia|lia|lia|]. intros e h w2 Hw2 Hvh Hzh.
    apply wp_ret, HQ; [|by split|cbn [set_baggage baggage]; lia]. etrans; [done|]. by etrans. }
  unfold extract_baggage_item. case_match; [|by apply wp_ret, Q_same].
  do 2 wp_step. rewrite Hplenty0 by done. cbn [negb].
  assert (plenty w'0) by (by apply (plenty_alloc_only w')).
  do 2 wp_step. rewrite Hplenty1 by done. cbn [negb].
  assert (plenty w'1) by (by apply (plenty_alloc_only w'0)).
  apply wp_bind, decode_header_wp; [done|]. intros v Hlv. destruct Hv as (m & Hr & Hc).
  apply wp_bind, (put_wp _ m); [done|unfold short; rewrite length_drop; lia|unfold short; lia|lia|by intros|].
  intros h w2 Hw2 Hr2 Hz2. cbn [negb].
  apply wp_ret, HQ; [|split; [|done]|].
  - etrans; [done|]. etrans; [done|]. by etrans.
  - eexists. split; [done|]. by eapply counted_insert.
  - cbn [set_baggage baggage]. rewrite Hz2. unfold size_after. destruct (m !! _); lia.
Qed.

Lemma foreach_safe_wp items ctx Q w :
  plenty w -> context_partial ctx -> Forall header_ok items ->
  ht_size (baggage ctx) + headers_size items < 2 ^ 31 ->
  (forall e ctx' w', alloc_only w w' -> context_partial ctx' -> Q (e, ctx') w') ->
  wp (foreach_items (extract_text_map_callback config to_lowercase decode_uri_value) items ctx) Q w.
Proof.
  intros Hp Hc Hitems. revert ctx w Hp Hc.
  induction Hitems as [|[k v] items Hkv _ IH]; intros ctx w Hp Hc Hsz HQ; cbn [foreach_items];
    [by apply wp_ret, HQ|].
  cbn [headers_size foldr snd] in Hsz. fold (headers_size items) in Hsz.
  pose proof (headers_size_nonneg items).
  apply wp_bind, (callback_safe_wp ctx (k, v)); [done|done|done|cbn [snd]; lia|].
  intros e ctx1 w1 Hw1 Hc1 Hz1. cbn [snd] in Hz1. case_bool_decide; [|by apply wp_ret, HQ].
  apply IH; [by apply (plenty_alloc_only w)|done|lia|]. intros. apply HQ; [by etrans|done].
Qed.
End Untrusted.

Lemma metrics_wf_alloc m w w' : alloc_only w w' -> metrics_wf m w -> metrics_wf m w'.
Proof. intros (_ & _ & _ & _ & _ & Ec & _). by apply metrics_wf_cells. Qed.

Lemma total_alloc m k w w' : alloc_only w w' -> total m k w' = total m k w.
Proof. intros (_ & _ & _ & _ & _ & Ec & _). by apply total_cells. Qed.

(** [cleanup] of a context in a good state, with metrics. *)
Lemma extract_cleanup_wp metrics v e ctx Q w :
  metrics_wf metrics w -> total metrics (Some decoding_errors) w = Some v ->
  context_partial ctx ->
  (forall w', total metrics (Some decoding_errors) w'
     = Some (if decide (e = error_span_context_corrupted) then to_signed 64 (v + 1) else v) ->
     Q (e, None) w') ->
  wp (extract_cleanup (Some metrics) e (Some ctx)) Q w.
Proof.
  intros Hmw Hv [(m & (bs & Hinv & _) & _) Hm] HQ. unfold extract_cleanup. apply wp_bind.
  assert (rest : forall w', total metrics (Some decoding_errors) w'
     = Some (if decide (e = error_span_context_corrupted) then to_signed 64 (v + 1) else v) ->
     wp (_ ← jaeger_span_context_destroy (Some ctx); ret (e, None)) Q w').
  { intros w' Hw'. unfold jaeger_span_context_destroy. do 2 apply wp_bind.
    eapply destroy_wp; [done|]. rewrite Hm. apply wp_bind, wp_ret, wp_ret, wp_ret. by apply HQ. }
  case_bool_decide as He.
  - rewrite (decide_True _ _ He) in rest.
    destruct (inc_total metrics decoding_errors v 1 w Hmw Hv) as (w' & E & _ & Hv' & _).
    eapply wp_of_eq; [exact E|]. by apply rest.
  - rewrite (decide_False _ _ He) in rest. by apply wp_ret, rest.
Qed.
End Facts.

(** ** Properties *)

(** The context read from what [ctx], with baggage [m], was written to. *)
Definition received {env : Env} (ctx : jaeger_span_context) (m : gmap cstr cstr)
    (ctx' : jaeger_span_context) : Prop :=
  context_ok ctx' m /\ trace_id ctx' = trace_id ctx /\ span_id ctx' = span_id ctx /\
  flags ctx' = flags ctx /\ debug_id ctx' = None.

(** A context HTTP headers carry: keys are in lower case, as the extraction
    lowers the case of every header, and values hold no DEL. *)
Record http_carried {env : Env} (config : jaeger_headers_config) (ctx : jaeger_span_context)
    (m : gmap cstr cstr) : Prop := {
  http_context : context_ok ctx m /\ ids_wf ctx;
  http_config : config_ok config /\ short (trace_context_header config);
  http_lower : map tolower (trace_context_header config) = trace_context_header config /\
    map tolower (trace_baggage_header_prefix config) = trace_baggage_header_prefix config;
  http_present : jaeger_span_context_is_valid ctx = true \/ m <> ∅;
  http_items : forall k v, m !! k = Some v ->
    k <> [] /\ short (trace_baggage_header_prefix config ++ k) /\ map tolower k = k /\
    3 * lenZ v < INT_MAX /\ DEL ∉ v;
}.

Section Roundtrip.
Context {env : Env} {S : Type} {carrier : TextMapCarrier S}.
Variables (config : jaeger_headers_config) (norm dec encode : cstr -> M cstr) (enc : cstr -> cstr).

(** The headers of a context, and the context another process, with memory of
    its own, reads from them. *)
Definition text_map_transports (s : S) (ctx : jaeger_span_context) (m : gmap cstr cstr)
    (w : world) : Prop :=
  exists s' w1,
    inject_text_map_helper carrier_set config encode s ctx w = Ok (error_success, s') w1 /\
    forall metrics w2, plenty w2 -> exists ctx' w3,
      extract_from_text_map_helper config norm dec (carrier_foreach_key s') metrics w2
      = Ok (error_success, Some ctx') w3 /\ received ctx m ctx' /\ alloc_only w2 w3.

Lemma text_map_transport s ctx m w :
  plenty w -> context_ok ctx m -> ids_wf ctx -> config_ok config ->
  jaeger_span_context_is_valid ctx = true \/ m <> ∅ -> carrier_items s = [] ->
  (forall w, norm (trace_context_header config) w = Ok (trace_context_header config) w) ->
  (forall w, dec (context_text ctx) w = Ok (context_text ctx) w) ->
  (forall k v, m !! k = Some v -> item_carried config norm dec enc (KeyValue k v) /\
     forall w, encode v w = Ok (enc v) w) ->
  text_map_transports s ctx m w.
Proof.
  intros Hp Hok Hi Hconf Hne Hs Hn Hd Hkv. destruct Hok as [Hr Hc Hsm Hz Hm].
  destruct Hr as (bs & Hinv & Em). pose proof (inv_nodup _ _ Hinv) as Hnd.
  assert (wp (inject_text_map_helper carrier_set config encode s ctx) (fun r w' =>
    alloc_only w w' /\ r.1 = error_success /\ carrier_items r.2 =
      (trace_context_header config, context_text ctx) :: map (item_header config enc) (concat bs)) w)
    as H1.
  { apply (inject_helper_wp _ _ enc _ _ bs); [done..| |].
    - apply entries_forall; [done|]. intros k v Hl. rewrite <- Em in Hl.
      destruct (Hkv k v Hl) as [[[_ Hs1] _ _ _] He]. split; [exact Hs1|exact He].
    - intros s' w' Hw' E. rewrite Hs in E. done. }
  apply wp_returns in H1 as ([e s'] & w1 & H1 & Hw1 & He & Hi1). cbn in He, Hi1. subst e.
  exists s', w1. split; [done|]. intros metrics w2 Hp2.
  assert (wp (extract_from_text_map_helper config norm dec (carrier_foreach_key s') metrics)
    (fun r w3 => exists ctx', r = (error_success, Some ctx') /\ received ctx m ctx' /\
       alloc_only w2 w3) w2)
    as (r & w3 & H2 & ctx' & -> & ?)%wp_returns; [|by exists ctx', w3].
  apply (extract_helper_wp config Hconf norm dec enc ctx m (concat bs)); try done.
  - unfold counted in Hc. rewrite Em, entries_map_size in Hc by done. lia.
  - apply entries_forall; [done|]. intros k v Hl. rewrite <- Em in Hl. by apply Hkv.
  - intros f c w3. by rewrite carrier_foreach_ok, Hi1.
  - intros ctx' w3 Hw3 ? ? ? ? ?. exists ctx'. split; [done|]. by split; [split_and!|].
Qed.
End Roundtrip.

(** Injecting a context into an empty text map and extracting it again, while
    memory lasts, gives back its identifiers, flags and baggage (not its debug
    identifier), for every carrier that keeps its promises; empty keys are the
    only ones not carried. *)
Theorem text_map_roundtrip (env : Env) (S : Type) (carrier : TextMapCarrier S) config s ctx m w :
  plenty w -> context_ok ctx m -> ids_wf ctx -> config_ok config ->
  jaeger_span_context_is_valid ctx = true \/ m <> ∅ -> carrier_items s = [] ->
  (forall k v, m !! k = Some v ->
     k <> [] /\ short (trace_baggage_header_prefix config ++ k)) ->
  exists s' w1,
    jaeger_inject_into_text_map carrier_set s ctx config w = Ok (error_success, s') w1 /\
    forall metrics w2, plenty w2 -> exists ctx' w3,
      jaeger_extract_from_text_map (carrier_foreach_key s') metrics config w2
      = Ok (error_success, Some ctx') w3 /\ received ctx m ctx' /\ alloc_only w2 w3.
Proof.
  intros Hp Hok Hi Hconf Hne Hs Hkv.
  apply (text_map_transport config copy_str copy_str copy_str id); try done.
  intros k v Hl. destruct (Hkv k v Hl) as [Hk Hsh]. split; [|done].
  destruct (ctx_short _ _ Hok k v Hl). by split.
Qed.

Lemma http_headers_transport {env : Env} {S : Type} {carrier : TextMapCarrier S} config (s : S)
    ctx m w :
  plenty w -> http_carried config ctx m -> carrier_items s = [] ->
  exists s' w1,
    jaeger_inject_into_http_headers carrier_set s ctx config w = Ok (error_success, s') w1 /\
    forall metrics w2, plenty w2 -> exists ctx' w3,
      jaeger_extract_from_http_headers (carrier_foreach_key s') metrics config w2
      = Ok (error_success, Some ctx') w3 /\ received ctx m ctx' /\ alloc_only w2 w3.
Proof.
  intros Hp [[Hok Hi] [Hconf Hh1] [Hh2 Hh3] Hne Hkv] Hs.
  assert (lower : forall s, short s -> map tolower s = s -> forall w, to_lowercase s w = Ok s w).
  { intros s0 Hs0 Hlow w0. unfold to_lowercase.
    by rewrite (int_strlen s0 Hs0), Nat2Z.id, take_ge, Hlow by lia. }
  apply (text_map_transport config to_lowercase decode_uri_value encode_uri_value encode_text);
    try done.
  - by apply lower.
  - intros w0. pose proof (context_text_length ctx Hi) as Hl.
    change JAEGERTRACINGC_SPAN_CONTEXT_MAX_STR_LEN with 53 in Hl.
    rewrite decode_eq by (unfold INT_MAX; lia).
    rewrite decode_text_plain by (by apply context_text_no_char). unfold writable.
    rewrite bool_decide_eq_false_2 by (by apply context_text_no_char). by rewrite orb_true_r.
  - intros k v Hl. destruct (Hkv k v Hl) as (Hk & Hsh & Hlow & Hlen & Hdel). split.
    + destruct (ctx_short _ _ Hok k v Hl). pose proof (encode_text_length v). split; try done.
      * apply lower; [done|]. cbn. by rewrite map_app, Hh3, Hlow.
      * intros w0. cbn [kv_value]. rewrite decode_eq, decode_encode_text by lia. unfold writable.
        by rewrite bool_decide_eq_false_2, orb_true_r.
    + intros w0. apply encode_eq. lia.
Qed.

(** C4: The same through HTTP headers, which have more to say on keys and values,
    and where values are encoded and decoded. *)
Theorem http_headers_roundtrip (env : Env) (S : Type) (carrier : TextMapCarrier S) config s
    ctx m w :
  plenty w -> http_carried config ctx m -> carrier_items s = [] ->
  exists s' w1,
    jaeger_inject_into_http_headers carrier_set s ctx config w = Ok (error_success, s') w1 /\
    forall metrics w2, plenty w2 -> exists ctx' w3,
      jaeger_extract_from_http_headers (carrier_foreach_key s') metrics config w2
      = Ok (error_success, Some ctx') w3 /\ received ctx m ctx' /\ alloc_only w2 w3.
Proof. apply http_headers_transport. Qed.

(** C5: Injecting a context in the binary format and extracting it from the same
    bytes, while memory lasts, gives back its identifiers, flags and baggage. *)
Theorem binary_roundtrip (env : Env) (S : Type) (carrier : BinaryCarrier S) s metrics ctx m w :
  plenty w -> context_ok ctx m -> ids_wf ctx -> carrier_bytes s = [] ->
  (forall k v, m !! k = Some v -> nul ∉ k /\ nul ∉ v) ->
  exists s' w1 ctx' w2,
    jaeger_inject_into_binary carrier_write s ctx w = Ok (error_success, s') w1 /\
    jaeger_extract_from_binary carrier_read s' metrics w1
    = Ok (error_success, Some ctx') w2 /\
    context_ok ctx' m /\ trace_id ctx' = trace_id ctx /\ span_id ctx' = span_id ctx /\
    flags ctx' = flags ctx /\ debug_id ctx' = None.
Proof.
  intros Hp Hok Hi Hs Hkv. destruct Hok as [Hr Hc Hsm Hz Hm].
  destruct Hr as (bs & Hinv & Em). pose proof (inv_nodup _ _ Hinv) as Hnd.
  assert (Forall item_binary (concat bs)) as Hes.
  { apply entries_forall; [done|]. intros k v Hl. rewrite <- Em in Hl.
    destruct (Hsm k v Hl), (Hkv k v Hl). by split. }
  assert (ht_size (baggage ctx) = lenZ (concat bs)) as Hlen.
  { unfold counted in Hc. rewrite Em, entries_map_size in Hc by done. lia. }
  assert (wp (jaeger_inject_into_binary carrier_write s ctx) (fun r w' => alloc_only w w' /\
    r.1 = error_success /\ carrier_bytes r.2 = context_bytes ctx (concat bs)) w) as H1.
  { apply (inject_binary_wp s ctx bs); [done|done| |done|done|].
    - eapply Forall_impl; [exact Hes|]. by intros kv [? _].
    - intros s' w' Hw Hb. by rewrite Hs in Hb. }
  apply wp_returns in H1 as ([e s'] & w1 & H1 & Hw1 & He & Hb1). cbn in He, Hb1. subst e.
  assert (plenty w1) by (by apply (plenty_alloc_only w)).
  assert (wp (jaeger_extract_from_binary carrier_read s' metrics)
    (fun r _ => exists ctx', r = (error_success, Some ctx') /\ context_ok ctx' m /\
       trace_id ctx' = trace_id ctx /\ span_id ctx' = span_id ctx /\ flags ctx' = flags ctx /\
       debug_id ctx' = None) w1) as H2.
  { unfold jaeger_extract_from_binary. do 2 wp_step. rewrite Hplenty by done. cbn [negb].
    assert (plenty w') by (by apply (plenty_alloc_only w1)).
    apply wp_bind, context_init_wp; [|by intros ? ? _ []].
    intros ctx0 w2 Hw2 [Hr0 Hc0 _ _ Hm0] _ Hdbg _. cbn [negb].
    assert (plenty w2) by (by apply (plenty_alloc_only w')).
    unfold context_bytes in Hb1. apply wp_bind. eapply read_ids_wp; [done|exact Hb1|].
    intros s2 w3 Hw3 Hb2. cbn [negb baggage]. assert (plenty w3) by (by apply (plenty_alloc_only w2)).
    apply wp_bind. unfold parse_baggage_binary. apply wp_bind.
    eapply read_u32_wp; [exact Hb2|lia|]. intros s3 w4 Hw4 Hb3.
    rewrite int_small, Nat2Z.id by (unfold INT_MAX; lia).
    eapply (parse_items_wp _ _ _ ∅ _ _ []); [by apply (plenty_alloc_only w3)|done|done|done| | |].
    - rewrite Hc0, map_size_empty. lia.
    - by rewrite app_nil_r.
    - intros h s4 w5 Hw5 Hr5 Hc5 _. cbn beta iota. rewrite bool_decide_eq_true_2 by done.
      rewrite put_all_union, (right_id_L ∅ (∪)), <- Em in Hr5, Hc5 by done.
      cbn [negb]. apply wp_ret. eexists. split; [done|].
      split; [|done]. split; cbn [set_baggage baggage ctx_mutex]; try done.
      unfold counted in *. lia. }
  apply wp_returns in H2 as (r & w2 & H2 & ctx' & -> & ?). exists s', w1, ctx', w2. naive_solver.
Qed.

(** C33: Extracting from arbitrary HTTP headers, however malformed (but without DEL
    in a decoded value, in a build with assertions), never faults while memory
    lasts: it returns an error with no context and, for a corrupted context,
    one more decoding error counted, or success with either no context or a
    well-formed one. *)
Theorem extract_http_headers_safe (env : Env) (S : Type) (carrier : TextMapCarrier S) config s
    metrics v w :
  plenty w -> metrics_wf metrics w -> total metrics (Some decoding_errors) w = Some v ->
  Forall header_ok (carrier_items s) -> headers_size (carrier_items s) < 2 ^ 31 ->
  exists e ctx w',
    jaeger_extract_from_http_headers (carrier_foreach_key s) (Some metrics) config w
    = Ok (e, ctx) w' /\
    match ctx with
    | Some ctx => e = error_success /\ context_partial ctx
    | None => total metrics (Some decoding_errors) w'
        = Some (if decide (e = error_span_context_corrupted) then to_signed 64 (v + 1) else v)
    end.
Proof.
  intros Hp Hmw Hv Hitems Hsz.
  assert (wp (jaeger_extract_from_http_headers (carrier_foreach_key s) (Some metrics) config)
    (fun r w' => match r.2 with
      | Some ctx => r.1 = error_success /\ context_partial ctx
      | None => total metrics (Some decoding_errors) w'
          = Some (if decide (r.1 = error_span_context_corrupted) then to_signed 64 (v + 1) else v)
      end) w) as H.
  { unfold jaeger_extract_from_http_headers, extract_from_text_map_helper.
    do 2 wp_step. rewrite Hplenty by done. cbn [negb].
    assert (plenty w') by (by apply (plenty_alloc_only w)).
    apply wp_bind, context_init_wp; [|by intros ? ? _ []].
    intros ctx0 w2 Hw2 [Hr0 Hc0 _ _ Hm0] _ _ _. cbn [negb].
    assert (context_partial ctx0) by (split; [by exists ∅|done]).
    apply wp_bind. eapply wp_same; [intros; apply carrier_foreach_ok|].
    apply foreach_safe_wp; [by apply (plenty_alloc_only w')|done|done| |].
    { unfold counted in Hc0. rewrite Hc0, map_size_empty. lia. }
    intros e ctx1 w3 Hw3 Hc1.
    assert (alloc_only w w3) as Hw by (etrans; [done|]; by etrans).
    assert (metrics_wf metrics w3) by (by apply (metrics_wf_alloc _ w)).
    rewrite <- (total_alloc metrics (Some decoding_errors) _ _ Hw) in Hv.
    case_bool_decide; cbn [negb]; [|by apply (extract_cleanup_wp metrics v)].
    case_match; [by apply (extract_cleanup_wp metrics v)|by apply wp_ret]. }
  apply wp_returns in H as ([e ctx] & w' & H & ?). exists e, ctx, w'. split; [done|].
  by destruct ctx.
Qed.

(** *** Carriers, and what goes wrong *)

(** A list of headers, and a list of bytes. *)
#[export] Instance list_text_map : TextMapCarrier (list (cstr * cstr)).
Proof.
  refine {| carrier_set := fun s k v => ret (error_success, s ++ [(k, v)]);
            carrier_foreach_key := fun s f ctx => foreach_items f s ctx;
            carrier_items := fun s => s |}; [|done].
  intros s k v w. exists (s ++ [(k, v)]), w. done.
Defined.

#[export] Instance byte_stream : BinaryCarrier (list Z).
Proof.
  refine {| carrier_write := fun s bs => ret (lenZ bs, s ++ bs);
            carrier_read := fun s n => ret (Z.min n (lenZ s), take (Z.to_nat n) s, drop (Z.to_nat n) s);
            carrier_bytes := fun s => s |}.
  - intros s bs w. exists (s ++ bs), w. done.
  - intros s n w Hn. exists (drop (Z.to_nat n) s), w. done.
Defined.

(** A table with two keys of one bucket, under the hash of [sample_env]. *)
Definition two_in_bucket : jaeger_hashtable :=
  match (' (_, h) ← @jaeger_hashtable_put sample_env empty_table (lit "a") (lit "1");
         @jaeger_hashtable_put sample_env h (lit "e") (lit "2")) initial_world with
  | Ok (_, h) _ => h
  | Fault _ => empty_table
  end.

(** A writer that refuses the header [refused]. *)
Definition refusing_set (refused : cstr) (s : list (cstr * cstr)) (k v : cstr)
    : M (opentracing_propagation_error_code * list (cstr * cstr)) :=
  if decide (k = refused) then ret (error_unknown, s) else ret (error_success, s ++ [(k, v)]).

(** The writer refuses a baggage item, and the injection reports success: in
    a bucket, the error of an item is replaced by the result of the next. *)
Theorem inject_text_map_loses_error :
  exists s' w', @jaeger_inject_into_text_map sample_env _ (refusing_set (lit "uberctx-a")) []
      (set_baggage sample_context two_in_bucket) JAEGERTRACINGC_HEADERS_CONFIG_INIT initial_world
    = Ok (error_success, s') w' /\
    lit "uberctx-a" ∉ s'.*1 /\ lit "uberctx-e" ∈ s'.*1.
Proof.
  eexists _, _. split; [vm_compute; reflexivity|].
  split; by apply (bool_decide_unpack _).
Qed.

(** The bytes of a context that announces two items and carries one. *)
Definition truncated_bytes : list Z :=
  be_bytes 8 1 ++ be_bytes 8 2 ++ be_bytes 8 3 ++ [1] ++ be_bytes 4 2 ++
  item_bytes (KeyValue (lit "k") (lit "v")).

(** A binary carrier cut after its first baggage item: the buffers of that
    item are freed a second time. *)
Theorem extract_binary_double_free :
  @jaeger_extract_from_binary sample_env _ carrier_read truncated_bytes None initial_world
  = Fault DoubleFree.
Proof. vm_compute. reflexivity. Qed.

(** *** Witnesses *)

Lemma default_config_ok : config_ok JAEGERTRACINGC_HEADERS_CONFIG_INIT.
Proof. split; repeat split; by apply (bool_decide_unpack _). Qed.

Lemma text_map_roundtrip_witness :
  exists s' w1,
    @jaeger_inject_into_text_map sample_env _ carrier_set [] sample_context
      JAEGERTRACINGC_HEADERS_CONFIG_INIT initial_world = Ok (error_success, s') w1 /\
    forall metrics w2, @plenty sample_env w2 -> exists ctx' w3,
      @jaeger_extract_from_text_map sample_env (carrier_foreach_key s') metrics
        JAEGERTRACINGC_HEADERS_CONFIG_INIT w2 = Ok (error_success, Some ctx') w3 /\
      @received sample_env sample_context {[lit "k" := lit "v"]} ctx' /\ alloc_only w2 w3.
Proof.
  apply (text_map_roundtrip sample_env _ list_text_map JAEGERTRACINGC_HEADERS_CONFIG_INIT []
           sample_context {[lit "k" := lit "v"]} initial_world plenty_sample sample_context_ok
           sample_ids_wf default_config_ok).
  - left. reflexivity.
  - reflexivity.
  - intros k v H. apply lookup_singleton_Some in H as [<- <-].
    split; [discriminate|vm_compute; reflexivity].
Defined.

Lemma sample_http_carried :
  @http_carried sample_env JAEGERTRACINGC_HEADERS_CONFIG_INIT sample_context {[lit "k" := lit "v"]}.
Proof.
  split.
  - exact (conj sample_context_ok sample_ids_wf).
  - split; [exact default_config_ok|vm_compute; reflexivity].
  - split; vm_compute; reflexivity.
  - left. reflexivity.
  - intros k v H. apply lookup_singleton_Some in H as [<- <-].
    split; [discriminate|]. split; [vm_compute; reflexivity|]. split; [vm_compute; reflexivity|].
    split; [vm_compute; reflexivity|]. by apply (bool_decide_unpack _).
Qed.

Lemma http_headers_roundtrip_witness :
  exists s' w1,
    @jaeger_inject_into_http_headers sample_env _ carrier_set [] sample_context
      JAEGERTRACINGC_HEADERS_CONFIG_INIT initial_world = Ok (error_success, s') w1 /\
    forall metrics w2, @plenty sample_env w2 -> exists ctx' w3,
      @jaeger_extract_from_http_headers sample_env (carrier_foreach_key s') metrics
        JAEGERTRACINGC_HEADERS_CONFIG_INIT w2 = Ok (error_success, Some ctx') w3 /\
      @received sample_env sample_context {[lit "k" := lit "v"]} ctx' /\ alloc_only w2 w3.
Proof.
  apply (http_headers_roundtrip sample_env _ list_text_map JAEGERTRACINGC_HEADERS_CONFIG_INIT []
           sample_context {[lit "k" := lit "v"]} initial_world plenty_sample sample_http_carried).
  reflexivity.
Defined.

Lemma binary_roundtrip_witness :
  exists s' w1 ctx' w2,
    @jaeger_inject_into_binary sample_env _ carrier_write [] sample_context initial_world
    = Ok (error_success, s') w1 /\
    @jaeger_extract_from_binary sample_env _ carrier_read s' None w1
    = Ok (error_success, Some ctx') w2 /\
    @context_ok sample_env ctx' {[lit "k" := lit "v"]} /\
    trace_id ctx' = trace_id sample_context /\ span_id ctx' = span_id sample_context /\
    flags ctx' = flags sample_context /\ debug_id ctx' = None.
Proof.
  apply (binary_roundtrip sample_env _ byte_stream [] None sample_context
           {[lit "k" := lit "v"]} initial_world plenty_sample sample_context_ok sample_ids_wf).
  - reflexivity.
  - intros k v H. apply lookup_singleton_Some in H as [<- <-].
    split; by apply (bool_decide_unpack _).
Defined.

Definition malformed_headers : list (cstr * cstr) :=
  [(lit "Uberctx-User", lit "%4"); (lit "jaeger-baggage", lit "a=b,=,c"); (lit "uber-trace-id", lit "1:2")].

Lemma extract_http_headers_safe_witness :
  exists e ctx w',
    @jaeger_extract_from_http_headers sample_env (carrier_foreach_key malformed_headers)
      (Some sample_metrics) JAEGERTRACINGC_HEADERS_CONFIG_INIT metrics_world = Ok (e, ctx) w' /\
    match ctx with
    | Some ctx => e = error_success /\ @context_partial sample_env ctx
    | None => total sample_metrics (Some decoding_errors) w'
        = Some (if decide (e = error_span_context_corrupted) then to_signed 64 (0 + 1) else 0)
    end.
Proof.
  apply (extract_http_headers_safe sample_env _ list_text_map JAEGERTRACINGC_HEADERS_CONFIG_INIT
           malformed_headers sample_metrics 0 metrics_world).
  - split; [reflexivity|]. intros n. reflexivity.
  - apply sample_metrics_wf.
  - reflexivity.
  - apply (bool_decide_unpack _). vm_compute. reflexivity.
  - vm_compute. reflexivity.
Defined.
