(* ===== verification/Reporter.v ===== *)
(** * Reporters (reporter.c)

    What happens to the spans of a tracer that are sampled: the null and
    in-memory reporters, the composite reporter over several others, and the
    remote reporter, which queues Protocol Buffers messages and sends them to
    the agent in datagrams of bounded size. The reporters share an interface,
    the class [Reporter]. The generated packing code and the socket are
    parameters. *)
From S2P Require Import Prelude Machine Vector CString Clock TraceId Threading Hashtable Metrics Net.
From S2P Require Import Tag SpanContext Span.

(** ** Definitions *)

(** *** The interface ([jaeger_reporter] and its destructible base) *)

Class Reporter (R : Type) := {
  report : R -> option jaeger_span -> M (R * option jaeger_span);
  flush : R -> M (bool * R);
  destroy : R -> M R;
}.

(** *** The null reporter *)

Inductive jaeger_null_reporter := null_reporter.

Definition null_destroy {R} (r : R) : M R := ret r.
Definition null_report {R} (r : R) (span : option jaeger_span) : M (R * option jaeger_span) :=
  ret (r, span).
Definition null_flush {R} (r : R) : M (bool * R) := ret (true, r).

#[export] Instance null_reporter_ops : Reporter jaeger_null_reporter :=
  {| report := null_report; flush := null_flush; destroy := null_destroy |}.

(** *** The logging reporter: the message goes to the log and changes no state *)

Inductive jaeger_logging_reporter := logging_reporter.

Definition logging_reporter_report (r : jaeger_logging_reporter) (span : option jaeger_span)
    : M (jaeger_logging_reporter * option jaeger_span) := ret (r, span).

#[export] Instance jaeger_logging_reporter_init : Reporter jaeger_logging_reporter :=
  {| report := logging_reporter_report; flush := null_flush; destroy := null_destroy |}.

(** *** The in-memory reporter *)

Record jaeger_in_memory_reporter := InMemoryReporter {
  im_spans : jaeger_vector jaeger_span;
  im_mutex : jaeger_mutex;
}.

#[export] Instance zero_span : ZeroBytes jaeger_span :=
  Span None (SpanContext (TraceId 0 0) 0 0 (Hashtable 0 0 None) None false) None
    (TimeValue 0 0) (TimeValue 0 0) (TimeValue 0 0) (Vector 0 0 None 0) (Vector 0 0 None 0)
    (Vector 0 0 None 0) false.

Section InMemory.
Context {env : Env} {pb : Protobuf}.

Definition in_memory_reporter_destroy (r : jaeger_in_memory_reporter)
    : M jaeger_in_memory_reporter :=
  v ← for_each (fun s => d ← jaeger_span_destroy (Some s); ret (default s d)) (im_spans r);
  ' (_, m) ← jaeger_mutex_destroy (im_mutex r);
  ret (InMemoryReporter (jaeger_vector_destroy v) m).

(** The copy is made in place: a failed one leaves the slot beyond the length. *)
Definition in_memory_reporter_report (r : jaeger_in_memory_reporter) (span : option jaeger_span)
    : M (jaeger_in_memory_reporter * option jaeger_span) :=
  match span with
  | None => ret (r, None)
  | Some span =>
      m ← jaeger_mutex_lock (im_mutex r);
      ' (span_copy, v) ← jaeger_vector_append (im_spans r);
      ' (v, span) ←
        (match span_copy with
         | None => ret (v, span)
         | Some _ =>
             ' (ok, dst, span) ← jaeger_span_copy span;
             v ← store v span_copy dst;
             ret (if (ok : bool) then v else set_len v (len v - 1), span)
         end);
      m ← jaeger_mutex_unlock m;
      ret (InMemoryReporter v m, Some span)
  end.

(** [sizeof(jaeger_span)] is left to the ABI. *)
Definition jaeger_in_memory_reporter_init (sizeof_span : Z)
    : M (option jaeger_in_memory_reporter) :=
  ' (ok, v) ← jaeger_vector_init JAEGERTRACINGC_VECTOR_INIT sizeof_span;
  if negb ok then ret None else ret (Some (InMemoryReporter v JAEGERTRACINGC_MUTEX_INIT)).

#[export] Instance in_memory_reporter_ops : Reporter jaeger_in_memory_reporter :=
  {| report := in_memory_reporter_report; flush := null_flush;
     destroy := in_memory_reporter_destroy |}.
End InMemory.

(** *** The composite reporter, over children of any kind *)

Record jaeger_composite_reporter (R : Type) := CompositeReporter {
  reporters : jaeger_vector (option R);
}.
Arguments CompositeReporter {R} reporters.
Arguments reporters {R} _.

Section Composite.
Context {env : Env} {R : Type} `{!Reporter R}.

(** The loops over the children: NULL ones are passed over. *)
Fixpoint destroy_children (n : nat) (i : Z) (v : jaeger_vector (option R))
    : M (jaeger_vector (option R)) :=
  match n with
  | O => ret v
  | S n =>
      child ← load v (jaeger_vector_offset v i);
      match child with
      | None => destroy_children n (i + 1) v
      | Some r =>
          r ← destroy r;
          v ← store v (jaeger_vector_offset v i) (Some r);
          destroy_children n (i + 1) v
      end
  end.

Fixpoint report_children (n : nat) (i : Z) (v : jaeger_vector (option R)) (span : option jaeger_span)
    : M (jaeger_vector (option R) * option jaeger_span) :=
  match n with
  | O => ret (v, span)
  | S n =>
      child ← load v (jaeger_vector_offset v i);
      match child with
      | None => report_children n (i + 1) v span
      | Some r =>
          ' (r, span) ← report r span;
          v ← store v (jaeger_vector_offset v i) (Some r);
          report_children n (i + 1) v span
      end
  end.

Fixpoint flush_children (n : nat) (i : Z) (v : jaeger_vector (option R)) (success : bool)
    : M (bool * jaeger_vector (option R)) :=
  match n with
  | O => ret (success, v)
  | S n =>
      child ← load v (jaeger_vector_offset v i);
      match child with
      | None => flush_children n (i + 1) v success
      | Some r =>
          ' (flushed, r) ← flush r;
          v ← store v (jaeger_vector_offset v i) (Some r);
          flush_children n (i + 1) v (if (flushed : bool) then success else false)
      end
  end.

Definition children (r : jaeger_composite_reporter R) : nat :=
  Z.to_nat (jaeger_vector_length (reporters r)).

Definition composite_reporter_destroy (r : jaeger_composite_reporter R)
    : M (jaeger_composite_reporter R) :=
  v ← destroy_children (children r) 0 (reporters r);
  ret (CompositeReporter (jaeger_vector_destroy v)).

Definition composite_reporter_report (r : jaeger_composite_reporter R) (span : option jaeger_span)
    : M (jaeger_composite_reporter R * option jaeger_span) :=
  match span with
  | None => ret (r, None)
  | Some _ =>
      ' (v, span) ← report_children (children r) 0 (reporters r) span;
      ret (CompositeReporter v, span)
  end.

Definition composite_reporter_flush (r : jaeger_composite_reporter R)
    : M (bool * jaeger_composite_reporter R) :=
  ' (success, v) ← flush_children (children r) 0 (reporters r) true;
  ret (success, CompositeReporter v).

Definition jaeger_composite_reporter_init : M (option (jaeger_composite_reporter R)) :=
  ' (ok, v) ← jaeger_vector_init JAEGERTRACINGC_VECTOR_INIT sizeof_ptr;
  if negb ok then ret None else ret (Some (CompositeReporter v)).

Definition jaeger_composite_reporter_add (r : jaeger_composite_reporter R) (new_reporter : R)
    : M (bool * jaeger_composite_reporter R) :=
  ' (reporter_ptr, v) ← jaeger_vector_append (reporters r);
  match reporter_ptr with
  | None => ret (false, CompositeReporter v)
  | Some _ =>
      v ← store v reporter_ptr (Some new_reporter);
      ret (true, CompositeReporter v)
  end.

#[export] Instance composite_reporter_ops : Reporter (jaeger_composite_reporter R) :=
  {| report := composite_reporter_report; flush := composite_reporter_flush;
     destroy := composite_reporter_destroy |}.
End Composite.

(** A child of either of two kinds: the calls through the vtable. *)
#[export] Instance sum_reporter_ops {R1 R2} `{!Reporter R1} `{!Reporter R2} : Reporter (R1 + R2) :=
  {| report r span :=
       match r with
       | inl r => ' (r, span) ← report r span; ret (inl r, span)
       | inr r => ' (r, span) ← report r span; ret (inr r, span)
       end;
     flush r :=
       match r with
       | inl r => ' (b, r) ← flush r; ret (b, inl r)
       | inr r => ' (b, r) ← flush r; ret (b, inr r)
       end;
     destroy r :=
       match r with
       | inl r => r ← destroy r; ret (inl r)
       | inr r => r ← destroy r; ret (inr r)
       end |}.

(** *** The remote reporter *)

(** [Jaeger__Model__Process]; [Jaeger__Model__Span*] as NULL, a live message
    or a dangling pointer; [Jaeger__Model__Batch]. *)
Record Jaeger__Model__Process := PbProcess {
  process_service_name : option cstr;
  process_tags : option (list (option jaeger_tag));
  process_n_tags : Z;
}.

Inductive span_ptr := null_span | live_span (s : Jaeger__Model__Span) | freed_span.

#[export] Instance zero_span_ptr : ZeroBytes span_ptr := null_span.

Record Jaeger__Model__Batch := PbBatch {
  batch_process : option Jaeger__Model__Process;
  batch_spans : option (list span_ptr);
  batch_n_spans : Z;
}.

(** The generated code: the packed size and bytes of a process and the
    messages of its spans. *)
Class BatchMessages := {
  batch_get_packed_size : Jaeger__Model__Process -> list Jaeger__Model__Span -> Z;
  batch_pack : Jaeger__Model__Process -> list Jaeger__Model__Span -> list Z;
  JAEGER__MODEL__BATCH__INIT : Jaeger__Model__Batch;
  JAEGER__MODEL__PROCESS__INIT : Jaeger__Model__Process;
}.

(** [r_candidates]: the addresses to try before the first write, [None] once
    they have been tried. *)
Record jaeger_remote_reporter {net : Network} := RemoteReporter {
  max_packet_size : Z;
  r_fd : Z;
  r_socket : socket;
  r_metrics : option jaeger_metrics;
  process : Jaeger__Model__Process;
  spans : jaeger_vector span_ptr;
  r_candidates : option (list (addrinfo sockaddr));
  addr : sockaddr;
  r_mutex : jaeger_mutex;
}.

(** What [build_process] reads of the tracer a span points to. *)
Record tracer_identity := TracerIdentity {
  service_name : option cstr;
  tracer_tags : jaeger_vector jaeger_tag;
}.

Section Remote.
Context {env : Env} {pb : Protobuf} {msgs : SpanMessages} {batches : BatchMessages}
  {net : Network}.

Definition set_process (r : jaeger_remote_reporter) (p : Jaeger__Model__Process) :=
  RemoteReporter net (max_packet_size r) (r_fd r) (r_socket r) (r_metrics r) p (spans r)
    (r_candidates r) (addr r) (r_mutex r).
Definition set_spans (r : jaeger_remote_reporter) (v : jaeger_vector span_ptr) :=
  RemoteReporter net (max_packet_size r) (r_fd r) (r_socket r) (r_metrics r) (process r) v
    (r_candidates r) (addr r) (r_mutex r).
Definition set_r_mutex (r : jaeger_remote_reporter) (m : jaeger_mutex) :=
  RemoteReporter net (max_packet_size r) (r_fd r) (r_socket r) (r_metrics r) (process r) (spans r)
    (r_candidates r) (addr r) m.
Definition set_socket (r : jaeger_remote_reporter) (s : socket)
    (c : option (list (addrinfo sockaddr))) (a : sockaddr) :=
  RemoteReporter net (max_packet_size r) (r_fd r) s (r_metrics r) (process r) (spans r) c a
    (r_mutex r).
Definition set_fd (r : jaeger_remote_reporter) (fd : Z) :=
  RemoteReporter net (max_packet_size r) fd (r_socket r) (r_metrics r) (process r) (spans r)
    (r_candidates r) (addr r) (r_mutex r).

(** Incrementing a counter of metrics that may be absent. *)
Definition inc_metric (metrics : option jaeger_metrics) (n : counter_name) (delta : Z) : M unit :=
  match metrics with
  | None => ret tt
  | Some metrics =>
      c_assert (bool_decide (is_Some (counter metrics n)));; inc (counter metrics n) delta
  end.

Definition process_destroy (p : Jaeger__Model__Process) : M Jaeger__Model__Process :=
  p ← (match process_tags p with
       | None => ret p
       | Some tags =>
           list_destroy_loop (fun t => ret (let _ := jaeger_tag_destroy (Some t) in tt))
             (Z.to_nat (to_signed 32 (process_n_tags p))) tags;;
           ret (PbProcess (process_service_name p) None 0)
       end);
  match process_service_name p with
  | Some (_ :: _) => ret (PbProcess None (process_tags p) (process_n_tags p))
  | _ => ret p
  end.

(** [false] is the end of [cleanup], which also frees the process: it is a
    member of the reporter, not a block of its own. *)
Definition build_process_cleanup (p : Jaeger__Model__Process) : M Jaeger__Model__Process :=
  _ ← process_destroy p;
  fail BadFree.

Definition build_process (p : Jaeger__Model__Process) (tracer : option tracer_identity)
    : M Jaeger__Model__Process :=
  match tracer with
  | None => c_assert false;; fail NullDeref
  | Some t =>
      match service_name t with
      | None => c_assert false;; fail NullDeref
      | Some name =>
          c_assert (strlen name >? 0);;
          name ← jaeger_strdup name;
          let p := PbProcess name (process_tags p) (process_n_tags p) in
          if bool_decide (name = None) then build_process_cleanup p
          else
            r ← jaeger_vector_protobuf_copy jaeger_tag_copy_wrapper (tracer_tags t);
            match r with
            | None => build_process_cleanup p
            | Some (tags, n) => ret (PbProcess name tags n)
            end
      end
  end.

(** The messages a batch points to, for the packing code to read. *)
Fixpoint read_messages (ptrs : list span_ptr) : M (list Jaeger__Model__Span) :=
  match ptrs with
  | [] => ret []
  | null_span :: _ => fail NullDeref
  | freed_span :: _ => fail UseAfterFree
  | live_span m :: ptrs => ms ← read_messages ptrs; ret (m :: ms)
  end.

Definition batch_messages (b : Jaeger__Model__Batch)
    : M (Jaeger__Model__Process * list Jaeger__Model__Span) :=
  match batch_process b with
  | None => fail NullDeref
  | Some p =>
      let ptrs := default [] (batch_spans b) in
      if lenZ ptrs <? batch_n_spans b then fail OutOfBounds
      else ms ← read_messages (take (Z.to_nat (batch_n_spans b)) ptrs); ret (p, ms)
  end.

Definition get_packed_size (b : Jaeger__Model__Batch) : M Z :=
  ' (p, ms) ← batch_messages b; ret (to_signed 32 (batch_get_packed_size p ms)).

Definition set_n_spans (b : Jaeger__Model__Batch) (n : Z) : Jaeger__Model__Batch :=
  PbBatch (batch_process b) (batch_spans b) n.

(** [jaeger_span_protobuf_destroy] and [jaeger_free] of an element of an array
    of pointers, which keeps the pointer. *)
Definition free_span (ptrs : list span_ptr) (i : nat) : M (list span_ptr) :=
  match ptrs !! i with
  | None => fail OutOfBounds
  | Some null_span => ret ptrs
  | Some freed_span => fail UseAfterFree
  | Some (live_span m) =>
      _ ← jaeger_span_protobuf_destroy (Some m); ret (<[i := freed_span]> ptrs)
  end.

Fixpoint free_spans (n : nat) (i : nat) (ptrs : list span_ptr) : M (list span_ptr) :=
  match n with
  | O => ret ptrs
  | S n => ptrs ← free_span ptrs i; free_spans n (S i) ptrs
  end.

(** Spans are taken off the end of the batch until it fits in a packet. *)
Fixpoint shrink_batch (n : nat) (b : Jaeger__Model__Batch) (max_size : Z)
    : M Jaeger__Model__Batch :=
  match n with
  | O => ret b
  | S n =>
      size ← get_packed_size b;
      if size >? max_size then shrink_batch n (set_n_spans b (batch_n_spans b - 1)) max_size
      else ret b
  end.

(** The sizes are computed for the log; the first span is dropped. *)
Definition large_batch_error (b : Jaeger__Model__Batch) (v : jaeger_vector span_ptr)
    (initial_num_spans : Z) (metrics : option jaeger_metrics) : M (jaeger_vector span_ptr) :=
  _ ← get_packed_size (set_n_spans b 1);
  _ ← get_packed_size b;
  let v := set_len (set_data v (batch_spans b)) initial_num_spans in
  ptr ← jaeger_vector_get v 0;
  v ← (match ptr, data v with
       | Some i, Some cells => cells ← free_span cells (Z.to_nat i); ret (set_data v (Some cells))
       | _, _ => fail NullDeref
       end);
  v ← jaeger_vector_remove v 0;
  inc_metric metrics reporter_dropped 1;;
  ret v.

(** Appending the pointers [ptrs] of the batch that do not fit. *)
Fixpoint keep_spans (ptrs : list span_ptr) (v : jaeger_vector span_ptr)
    : M (jaeger_vector span_ptr) :=
  match ptrs with
  | [] => ret v
  | p :: ptrs =>
      ' (span, v) ← jaeger_vector_append v;
      c_assert (bool_decide (is_Some span));;
      v ← store v span p;
      keep_spans ptrs v
  end.

(** A vector of pointers with room for [n], as the [&&] of its initialisation
    and its growth. *)
Definition fresh_spans (v : jaeger_vector span_ptr) (n : Z)
    : M (bool * jaeger_vector span_ptr) :=
  ' (ok, v) ← jaeger_vector_init v sizeof_ptr;
  if negb ok then ret (false, v) else jaeger_vector_reserve v n.

Definition build_batch (p : Jaeger__Model__Process) (v : jaeger_vector span_ptr) (max_size : Z)
    (metrics : option jaeger_metrics)
    : M (bool * Jaeger__Model__Batch * jaeger_vector span_ptr) :=
  let num_spans := jaeger_vector_length v in
  b ← shrink_batch (Z.to_nat num_spans) (PbBatch (Some p) (data v) num_spans) max_size;
  let v := set_data (set_len v 0) None in
  if batch_n_spans b =? 0 then
    v ← large_batch_error b v num_spans metrics;
    ret (false, JAEGER__MODEL__BATCH__INIT, v)
  else
    let remaining_spans := num_spans - batch_n_spans b in
    if remaining_spans >? 0 then
      ' (ok, v) ← fresh_spans v remaining_spans;
      let ptrs := default [] (batch_spans b) in
      let first := Z.to_nat (batch_n_spans b) in
      if (ok : bool) then
        v ← keep_spans (take (Z.to_nat remaining_spans) (drop first ptrs)) v;
        ret (true, b, v)
      else
        ptrs ← free_spans (Z.to_nat remaining_spans) first ptrs;
        inc_metric metrics reporter_dropped remaining_spans;;
        ret (true, PbBatch (batch_process b) (Some ptrs) (batch_n_spans b), v)
    else ret (true, b, v).

(** The queue length is meant to be a gauge; the code counts a dropped span. *)
Definition remote_reporter_update_queue_length (r : jaeger_remote_reporter) : M unit :=
  inc_metric (r_metrics r) reporter_dropped 1.

(** The first write tries each address and keeps the first that takes the
    whole datagram. *)
Fixpoint try_candidates (s : socket) (buffer : list Z) (candidates : list (addrinfo sockaddr))
    : option sockaddr * socket :=
  match candidates with
  | [] => (None, s)
  | c :: candidates =>
      let '(n, s) := sendto s buffer (ai_addr c) in
      if (n =? lenZ buffer) && (ai_addrlen c =? sizeof_sockaddr_in)
      then (Some (ai_addr c), s) else try_candidates s buffer candidates
  end.

Definition remote_reporter_write_to_socket (r : jaeger_remote_reporter) (buffer : list Z)
    : M (bool * jaeger_remote_reporter) :=
  match r_candidates r with
  | Some candidates =>
      let '(found, s) := try_candidates (r_socket r) buffer candidates in
      let r := set_socket r s None (default (addr r) found) in
      if bool_decide (is_Some found) then ret (true, r)
      else inc_metric (r_metrics r) reporter_failure 1;; ret (false, r)
  | None =>
      let '(n, s) := sendto (r_socket r) buffer (addr r) in
      let r := set_socket r s None (addr r) in
      if n =? lenZ buffer then ret (true, r)
      else inc_metric (r_metrics r) reporter_failure 1;; ret (false, r)
  end.

Definition remote_reporter_flush_batch (r : jaeger_remote_reporter)
    : M (bool * jaeger_remote_reporter) :=
  let num_spans := jaeger_vector_length (spans r) in
  c_assert (num_spans >? 0);;
  ' (ok, batch, v) ← build_batch (process r) (spans r) (max_packet_size r) (r_metrics r);
  let r := set_spans r v in
  if negb ok then ret (false, r)
  else
    ' (p, ms) ← batch_messages batch;
    let packed := batch_pack p ms in
    c_assert (to_signed 32 (lenZ packed) <=? max_packet_size r);;
    ' (write_succeeded, r) ← remote_reporter_write_to_socket r packed;
    if (write_succeeded : bool) then
      _ ← free_spans (Z.to_nat (batch_n_spans batch)) 0 (default [] (batch_spans batch));
      inc_metric (r_metrics r) reporter_success (batch_n_spans batch);;
      remote_reporter_update_queue_length r;;
      ret (true, r)
    else
      let r := set_spans r (set_len (set_data (spans r) (batch_spans batch)) num_spans) in
      remote_reporter_update_queue_length r;;
      ret (false, r).

(** Every successful batch shortens the queue: its length is enough fuel. *)
Fixpoint flush_loop (fuel : nat) (r : jaeger_remote_reporter)
    : M (bool * jaeger_remote_reporter) :=
  if jaeger_vector_length (spans r) >? 0 then
    match fuel with
    | O => fail OutOfFuel
    | S fuel =>
        ' (ok, r) ← remote_reporter_flush_batch r;
        if (ok : bool) then flush_loop fuel r else ret (false, r)
    end
  else ret (true, r).

Definition remote_reporter_flush (r : jaeger_remote_reporter)
    : M (bool * jaeger_remote_reporter) :=
  m ← jaeger_mutex_lock (r_mutex r);
  let r := set_r_mutex r m in
  ' (success, r) ← flush_loop (Z.to_nat (len (spans r))) r;
  m ← jaeger_mutex_unlock (r_mutex r);
  ret (success, set_r_mutex r m).

(** The part of a report after the span has been converted. *)
Definition queue_span (r : jaeger_remote_reporter) (msg : Jaeger__Model__Span)
    (tracer : option tracer_identity) : M jaeger_remote_reporter :=
  ' (span_ptr, v) ← jaeger_vector_append (spans r);
  c_assert (bool_decide (is_Some span_ptr));;
  v ← store v span_ptr (live_span msg);
  let r := set_spans r v in
  remote_reporter_update_queue_length r;;
  match process_service_name (process r) with
  | None | Some [] => p ← build_process (process r) tracer; ret (set_process r p)
  | Some _ => ret r
  end.

(** [tracer_of]: what is at the address a span's tracer pointer holds. *)
Definition remote_reporter_report (tracer_of : nat -> tracer_identity)
    (r : jaeger_remote_reporter) (span : option jaeger_span)
    : M (jaeger_remote_reporter * option jaeger_span) :=
  match span with
  | None => ret (r, None)
  | Some span =>
      m ← jaeger_mutex_lock (r_mutex r);
      let r := set_r_mutex r m in
      n ← int_chk (jaeger_vector_length (spans r) + 1);
      ' (reserved, v) ← jaeger_vector_reserve (spans r) n;
      let r := set_spans r v in
      ' (r, span) ←
        (if negb reserved then ret (r, span)
         else
           granted ← jaeger_malloc;
           if negb granted then ret (r, span)
           else
             ' (ok, span_copy, span) ← jaeger_span_to_protobuf span;
             if negb ok then
               _ ← jaeger_span_protobuf_destroy (Some span_copy); ret (r, span)
             else
               r ← queue_span r span_copy (tracer_of <$> tracer span);
               ret (r, span));
      m ← jaeger_mutex_unlock (r_mutex r);
      ret (set_r_mutex r m, Some span)
  end.

(** The loop over the queue of the destructor. *)
Fixpoint destroy_spans (n : nat) (i : Z) (v : jaeger_vector span_ptr)
    : M (jaeger_vector span_ptr) :=
  match n with
  | O => ret v
  | S n =>
      let span := jaeger_vector_offset v i in
      c_assert (bool_decide (is_Some span));;
      _ ← load v span;
      v ← (match data v with
           | Some cells => cells ← free_span cells (Z.to_nat i); ret (set_data v (Some cells))
           | None => fail NullDeref
           end);
      destroy_spans n (i + 1) v
  end.

Definition remote_reporter_destroy (r : jaeger_remote_reporter) : M jaeger_remote_reporter :=
  ' (_, r) ← remote_reporter_flush r;
  let r := if r_fd r >=? 0 then set_fd r (-1) else r in
  let r := set_socket r (r_socket r) None (addr r) in
  p ← process_destroy (process r);
  let r := set_process r p in
  v ← destroy_spans (Z.to_nat (jaeger_vector_length (spans r))) 0 (spans r);
  ' (_, m) ← jaeger_mutex_destroy (r_mutex r);
  ret (set_r_mutex (set_spans r (jaeger_vector_destroy v)) m).

Definition JAEGERTRACINGC_DEFAULT_UDP_SPAN_SERVER_HOST_PORT : cstr := lit "localhost:6831".
Definition JAEGERTRACINGC_DEFAULT_UDP_BUFFER_SIZE : Z := USHRT_MAX.

(** Every cleanup ends in [remote_reporter_destroy], which flushes through the
    function pointer of a reporter whose members are not set yet. *)
Definition remote_reporter_init_cleanup : M (option jaeger_remote_reporter) :=
  fail Uninitialised.

Definition jaeger_remote_reporter_init (host_port_str : option cstr) (max_packet_size : Z)
    (metrics : option jaeger_metrics) : M (option jaeger_remote_reporter) :=
  let '(fd, s) := open_socket AF_INET SOCK_DGRAM in
  if fd <? 0 then ret None
  else
    let size := if max_packet_size >? 0 then max_packet_size
                else JAEGERTRACINGC_DEFAULT_UDP_BUFFER_SIZE in
    ' (ok, v) ← jaeger_vector_init JAEGERTRACINGC_VECTOR_INIT sizeof_ptr;
    if negb ok then remote_reporter_init_cleanup
    else
      let host_port_str :=
        match host_port_str with
        | None | Some [] => Some JAEGERTRACINGC_DEFAULT_UDP_SPAN_SERVER_HOST_PORT
        | Some _ => host_port_str
        end in
      ' (scanned, host_port) ←
        jaeger_host_port_scan JAEGERTRACINGC_HOST_PORT_INIT host_port_str;
      if negb scanned then remote_reporter_init_cleanup
      else
        ' (resolved, candidates) ← jaeger_host_port_resolve host_port SOCK_DGRAM None;
        if negb resolved then remote_reporter_init_cleanup
        else ret (Some (RemoteReporter net size fd s metrics JAEGER__MODEL__PROCESS__INIT v
                          candidates sockaddr_zero JAEGERTRACINGC_MUTEX_INIT)).
End Remote.

(** The remote reporter, given the tracers spans point to. *)
Definition remote_reporter_ops {env : Env} {pb : Protobuf} {msgs : SpanMessages}
    {batches : BatchMessages} {net : Network} (tracer_of : nat -> tracer_identity)
    : Reporter jaeger_remote_reporter :=
  {| report := remote_reporter_report tracer_of; flush := remote_reporter_flush;
     destroy := remote_reporter_destroy |}.

(** ** Lemmas *)

(** What the generated code and the socket are relied on for: the packed bytes
    are as many as announced, and a datagram is delivered when all of its
    bytes were written. *)
Class BatchLaws (batches : BatchMessages) := {
  batch_pack_length p ms : lenZ (batch_pack p ms) = batch_get_packed_size p ms;
}.

Class NetworkLog (net : Network) := {
  delivered : socket -> list (list Z);
  delivered_sendto s buffer a :
    delivered (sendto s buffer a).2
    = delivered s ++ (if (sendto s buffer a).1 =? lenZ buffer then [buffer] else []);
}.

(** The packed sizes of all segments of a queue are [int]s. *)
Definition sizes_int {batches : BatchMessages} (p : Jaeger__Model__Process)
    (q : list Jaeger__Model__Span) : Prop :=
  forall i n, batch_get_packed_size p (take n (drop i q)) <= INT_MAX.

(** The messages waiting in a vector of pointers that can be sent. *)
Definition queue_wf (v : jaeger_vector span_ptr) (q : list Jaeger__Model__Span) : Prop :=
  vector_wf v /\ type_size v = sizeof_ptr /\ contents v = map live_span q /\
  16 * Z.max (len v) 10 <= INT_MAX.

(** The queue once it may be empty: its buffer may have been handed over. *)
Definition queue_left (v : jaeger_vector span_ptr) (q : list Jaeger__Model__Span) : Prop :=
  len v = lenZ q /\ (q <> [] -> queue_wf v q).

Section RemoteFacts.
Context {env : Env} {pb : Protobuf} {msgs : SpanMessages} {batches : BatchMessages}
  {net : Network} {laws : BatchLaws batches} {log : NetworkLog net}.
Implicit Types (w : world).

Lemma packed_size_nonneg p ms : 0 <= batch_get_packed_size p ms.
Proof. rewrite <- batch_pack_length. lia. Qed.

Lemma read_messages_wp ms Q w : Q ms w -> wp (read_messages (map live_span ms)) Q w.
Proof.
  revert Q. induction ms as [|m ms IH]; intros Q HQ; [done|]. cbn [map read_messages].
  apply wp_bind, IH, wp_ret, HQ.
Qed.

Lemma take_cells (v : jaeger_vector span_ptr) cells q n :
  vector_wf v -> data v = Some cells -> contents v = map live_span q -> (n <= length q)%nat ->
  take n cells = map live_span (take n q).
Proof.
  intros Hwf Hd Hc Hn. pose proof (length_contents _ Hwf) as Hl. unfold contents in *.
  rewrite Hd in Hc, Hl. cbn in Hc, Hl. rewrite Hc in Hl. rewrite length_map in Hl.
  rewrite <- firstn_map, <- Hc, take_take. f_equal. lia.
Qed.

Lemma batch_messages_wp p v cells q n Q w :
  vector_wf v -> data v = Some cells -> contents v = map live_span q -> 0 <= n <= lenZ q ->
  Q (p, take (Z.to_nat n) q) w ->
  wp (batch_messages (PbBatch (Some p) (data v) n)) Q w.
Proof.
  intros Hwf Hd Hc Hn HQ. pose proof (length_contents _ Hwf) as Hl.
  assert (Hle : n <= lenZ cells).
  { rewrite Hc, length_map in Hl. unfold contents in Hc. rewrite Hd in Hc. cbn in Hc.
    apply (f_equal length) in Hc. rewrite length_take, length_map in Hc. lia. }
  unfold batch_messages. cbn [batch_process batch_spans batch_n_spans]. rewrite Hd. cbn [default].
  rewrite (proj2 (Z.ltb_ge _ _)) by (cbn; lia). cbn [id].
  rewrite (take_cells v cells q) by (done || lia).
  apply wp_bind, read_messages_wp, wp_ret, HQ.
Qed.

Lemma get_packed_size_wp p v cells q n Q w :
  vector_wf v -> data v = Some cells -> contents v = map live_span q -> 0 <= n <= lenZ q ->
  sizes_int p q ->
  Q (batch_get_packed_size p (take (Z.to_nat n) q)) w ->
  wp (get_packed_size (PbBatch (Some p) (data v) n)) Q w.
Proof.
  intros Hwf Hd Hc Hn Hs HQ. unfold get_packed_size.
  apply wp_bind. eapply batch_messages_wp; [done..|]. apply wp_ret.
  pose proof (packed_size_nonneg p (take (Z.to_nat n) q)).
  specialize (Hs 0%nat (Z.to_nat n)). rewrite drop_0 in Hs. unfold INT_MAX in Hs.
  by rewrite to_signed_small by lia.
Qed.

(** A batch that fits, or none does. *)
Lemma shrink_batch_wp p v cells q max_size n Q w :
  vector_wf v -> data v = Some cells -> contents v = map live_span q -> (n <= length q)%nat ->
  sizes_int p q ->
  (forall k, (1 <= k <= n)%nat -> batch_get_packed_size p (take k q) <= max_size ->
     Q (PbBatch (Some p) (data v) (Z.of_nat k)) w) ->
  ((forall k, (1 <= k <= n)%nat -> max_size < batch_get_packed_size p (take k q)) ->
     Q (PbBatch (Some p) (data v) 0) w) ->
  wp (shrink_batch n (PbBatch (Some p) (data v) (Z.of_nat n)) max_size) Q w.
Proof.
  intros Hwf Hd Hc. revert Q. induction n as [|n IH]; intros Q Hn Hs Hfit Hno; cbn [shrink_batch].
  { apply wp_ret, Hno. lia. }
  apply wp_bind. eapply get_packed_size_wp; [done..|lia|done|]. rewrite Nat2Z.id.
  wp_step; reflect_bools.
  - unfold set_n_spans. cbn [batch_process batch_spans batch_n_spans].
    replace (Z.of_nat (S n) - 1) with (Z.of_nat n) by lia.
    apply IH; [lia|done|intros k Hk; apply Hfit; lia|]. intros Hall. apply Hno. intros k Hk.
    destruct (decide (k = S n)) as [->|]; [done|]. apply Hall. lia.
  - apply wp_ret, Hfit; [lia|done].
Qed.

(** *** Counting *)

(** The metrics are in order, and [reporter_success] stands at [v]. *)
Definition succeeded (m : jaeger_metrics) (v : Z) w : Prop :=
  metrics_wf m w /\ total m (Some reporter_success) w = Some v.

Lemma inc_metric_wp m n delta Q w :
  metrics_wf m w ->
  (forall w', same_allocator w w' -> metrics_wf m w' ->
     (forall v, total m (Some n) w = Some v -> total m (Some n) w' = Some (to_signed 64 (v + delta))) ->
     (forall k, k <> Some n -> total m k w' = total m k w) -> Q tt w') ->
  wp (inc_metric (Some m) n delta) Q w.
Proof.
  intros Hm HQ. destruct (proj1 Hm (Some n)) as [v Hv].
  destruct (inc_total m n v delta w Hm Hv) as (w' & E & Hm' & Hv' & Ho & Ha).
  unfold inc_metric. apply wp_bind, wp_assert.
  { apply bool_decide_eq_true_2. unfold total, cell_of in Hv. by destruct (counter m n). }
  unfold wp. rewrite E. apply HQ; [done|done| |done]. intros v0 Hv0. congruence.
Qed.

(** Counting something else. *)
Lemma inc_other_wp m n v Q w :
  n <> reporter_success -> succeeded m v w ->
  (forall w', same_allocator w w' -> succeeded m v w' -> Q tt w') ->
  wp (inc_metric (Some m) n 1) Q w.
Proof.
  intros Hn [Hm Hv] HQ. apply inc_metric_wp; [done|]. intros w' Ha Hm' _ Ho.
  apply HQ; [done|]. split; [done|]. rewrite Ho; congruence.
Qed.

Lemma succeeded_alloc m v w w' : alloc_only w w' -> succeeded m v w -> succeeded m v w'.
Proof.
  intros (_ & _ & _ & _ & _ & Ec & _) [Hm Hv].
  split; [by eapply metrics_wf_cells|]. by rewrite (total_cells m _ w).
Qed.

(** *** Freeing and keeping spans *)

(** A message whose arrays are as long as it says. *)
Definition message_wf (s : Jaeger__Model__Span) : Prop :=
  forall Q w, (forall d, Q (Some d) w) -> wp (jaeger_span_protobuf_destroy (Some s)) Q w.

Lemma free_spans_wp n i ptrs Q w :
  (forall j, (i <= j < i + n)%nat -> exists m, ptrs !! j = Some (live_span m) /\ message_wf m) ->
  (forall ptrs', length ptrs' = length ptrs -> (forall j, (j < i)%nat -> ptrs' !! j = ptrs !! j) ->
     (forall j, (i + n <= j)%nat -> ptrs' !! j = ptrs !! j) -> Q ptrs' w) ->
  wp (free_spans n i ptrs) Q w.
Proof.
  revert i ptrs. induction n as [|n IH]; intros i ptrs Hlive HQ; cbn [free_spans].
  { by apply wp_ret, HQ. }
  destruct (Hlive i) as (m & Hm & Hwf); [lia|]. apply wp_bind. unfold free_span. rewrite Hm.
  apply wp_bind, Hwf. intros d. apply wp_ret, IH.
  - intros j Hj. rewrite list_lookup_insert_ne by lia. apply Hlive. lia.
  - intros ptrs' Hl Hlt Hge. rewrite length_insert in Hl. apply HQ; [done|..].
    + intros j Hj. rewrite Hlt by lia. by rewrite list_lookup_insert_ne by lia.
    + intros j Hj. rewrite Hge by lia. by rewrite list_lookup_insert_ne by lia.
Qed.

Lemma keep_spans_wp ptrs v Q w :
  vector_wf v -> len v + lenZ ptrs <= capacity v -> capacity v <= INT_MAX ->
  (forall v', vector_wf v' -> len v' = len v + lenZ ptrs -> type_size v' = type_size v ->
     contents v' = contents v ++ ptrs -> Q v' w) ->
  wp (keep_spans ptrs v) Q w.
Proof.
  revert v. induction ptrs as [|p ptrs IH]; intros v Hwf Hroom Hmax HQ; cbn [keep_spans].
  { apply wp_ret, HQ; [done|cbn; lia|done|by rewrite app_nil_r]. }
  pose proof (wf_len _ Hwf). pose proof (length_contents _ Hwf). cbn [length] in *.
  apply wp_bind, append_room_wp; [done|lia|done|]. intros v1 slot Hv1 El Et Ec Econt.
  cbn beta iota. apply wp_bind, wp_assert; [done|].
  apply wp_bind, store_wp; [done|lia|]. intros v2 Hv2 El2 Ec2 Et2 Econt2.
  rewrite Econt, insert_app_r_alt in Econt2 by lia.
  replace (_ - _)%nat with 0%nat in Econt2 by lia. cbn in Econt2.
  apply IH; [done|lia|lia|]. intros v3 Hv3 El3 Et3 Econt3. apply HQ; [done|lia|congruence|].
  by rewrite Econt3, Econt2, <- app_assoc.
Qed.

Lemma fresh_spans_wp v n Q w :
  plenty w -> 16 * Z.max n 10 <= INT_MAX ->
  (forall v' w', alloc_only w w' -> vector_wf v' -> contents v' = [] -> len v' = 0 ->
     n <= capacity v' <= INT_MAX -> type_size v' = sizeof_ptr -> Q (true, v') w') ->
  wp (fresh_spans v n) Q w.
Proof.
  intros Hp Hn HQ. unfold fresh_spans, INT_MAX, sizeof_ptr in *.
  apply wp_bind, init_wp; [done|unfold INT_MAX; by vm_compute| |by intros].
  intros v1 w1 Hw1 Hv1 Econt El Ec Et. cbn [negb]. unfold JAEGERTRACINGC_VECTOR_INIT_CAPACITY in Ec.
  apply reserve_wp; [done|unfold fits, INT_MAX; rewrite Et, Ec; lia| |].
  - intros w2 Hw2 Hno. destruct Hno. by apply (plenty_alloc_only w).
  - intros v2 w2 Hw2 Hv2 El2 Et2 Econt2 Hge _ Hle _.
    apply HQ; [by etrans|done|congruence|congruence|unfold INT_MAX; lia|congruence].
Qed.

(** *** Building a batch *)

Lemma queue_cells v q : queue_wf v q ->
  exists cells, data v = Some cells /\ lenZ cells = capacity v /\ len v = lenZ q.
Proof.
  intros (Hwf & _ & Hc & _). destruct (wf_cells _ Hwf) as (cells & Hd & Hl).
  exists cells. split; [done|]. split; [done|].
  rewrite <- (length_contents _ Hwf), Hc, length_map. done.
Qed.

Lemma queue_lookup v cells q i :
  queue_wf v q -> data v = Some cells -> (i < length q)%nat ->
  exists m, cells !! i = Some (live_span m) /\ q !! i = Some m.
Proof.
  intros (Hwf & _ & Hc & _) Hd Hi. destruct (lookup_lt_is_Some_2 q i Hi) as [m Hm].
  exists m. split; [|done]. unfold contents in Hc. rewrite Hd in Hc. cbn in Hc.
  assert (He : (live_span <$> q) !! i = Some (live_span m)) by (by rewrite list_lookup_fmap, Hm).
  change (live_span <$> q) with (map live_span q) in He. rewrite <- Hc in He.
  by apply lookup_take_Some in He as [? _].
Qed.

(** The data restored, the first span freed and taken off. *)
Lemma large_batch_error_wp p v q m vs Q w :
  queue_wf v q -> q <> [] -> sizes_int p q -> Forall message_wf q -> succeeded m vs w ->
  (forall v' w', same_allocator w w' -> succeeded m vs w' ->
     len v' = lenZ (drop 1 q) -> queue_wf v' (drop 1 q) -> Q v' w') ->
  wp (large_batch_error (PbBatch (Some p) (data v) 0) (set_data (set_len v 0) None)
        (jaeger_vector_length v) (Some m)) Q w.
Proof.
  intros Hq Hne Hs Hms Hsucc HQ. destruct (queue_cells _ _ Hq) as (cells & Hd & Hcap & El).
  destruct (Hq) as (Hwf & Et & Hc & Hroom). unfold large_batch_error, jaeger_vector_length.
  destruct q as [|msg q]; [done|]. cbn [length] in El.
  apply wp_bind. unfold set_n_spans. cbn [batch_process batch_spans].
  eapply get_packed_size_wp; [done|exact Hd|done|cbn [length]; lia|done|].
  apply wp_bind. eapply get_packed_size_wp; [done|exact Hd|done|cbn [length]; lia|done|].
  assert (Ev : set_len (set_data (set_data (set_len v 0) None) (data v)) (len v) = v)
    by (by destruct v).
  cbn [batch_spans]. rewrite Ev. apply wp_bind. unfold jaeger_vector_get, jaeger_vector_length.
  apply wp_bind, wp_assert; [done|]. rewrite Z.geb_leb, (proj2 (Z.leb_gt _ _)) by lia.
  apply wp_ret. unfold jaeger_vector_offset. rewrite Hd.
  destruct (queue_lookup v cells (msg :: q) 0 Hq Hd) as (m0 & Hm0 & Hm0'); [cbn; lia|].
  injection Hm0' as <-. apply Forall_cons in Hms as [Hmsg _].
  do 2 apply wp_bind. unfold free_span. change (Z.to_nat 0) with 0%nat. rewrite Hm0. apply wp_bind, Hmsg. intros d.
  apply wp_ret, wp_ret. set (v1 := set_data v _).
  assert (Hv1 : vector_wf v1).
  { destruct Hwf. split; cbn; try done. eexists. split; [done|]. by rewrite length_insert. }
  assert (Ec1 : contents v1 = freed_span :: map live_span q).
  { unfold contents, v1. cbn. unfold contents in Hc. rewrite Hd in Hc. cbn in Hc.
    rewrite take_insert_lt, Hc by lia. done. }
  apply wp_bind, remove_wp; [done|cbn; lia|]. intros v2 Hv2 El2 Ecap2 Et2 Ec2.
  apply wp_bind, (inc_other_wp m _ vs); [done|done|]. intros w1 Ha1 Hsucc1.
  rewrite Ec1 in Ec2. cbn in Ec2, El2, Ecap2, Et2. change (drop 1 (msg :: q)) with q in HQ.
  apply wp_ret, HQ; [done|done|lia|]. split; [done|]. split; [congruence|]. split; [done|lia].
Qed.

Lemma build_batch_wp p v q max_size m vs Q w :
  plenty w -> queue_wf v q -> q <> [] -> sizes_int p q -> Forall message_wf q ->
  succeeded m vs w ->
  (forall k v' w', same_allocator w w' -> succeeded m vs w' -> (1 <= k <= length q)%nat ->
     batch_get_packed_size p (take k q) <= max_size -> queue_left v' (drop k q) ->
     Q (true, PbBatch (Some p) (data v) (Z.of_nat k), v') w') ->
  (forall b v' w', same_allocator w w' -> succeeded m vs w' ->
     max_size < batch_get_packed_size p (take 1 q) -> queue_wf v' (drop 1 q) ->
     Q (false, b, v') w') ->
  wp (build_batch p v max_size (Some m)) Q w.
Proof.
  intros Hp Hq Hne Hs Hms Hsucc HT HF. destruct (queue_cells _ _ Hq) as (cells & Hd & Hcap & El).
  destruct (Hq) as (Hwf & Et & Hc & Hroom). pose proof (wf_len _ Hwf).
  assert (0 < length q)%nat by (destruct q; [done|cbn; lia]).
  unfold build_batch. apply wp_bind. unfold jaeger_vector_length. rewrite El, Nat2Z.id.
  eapply shrink_batch_wp; [done|exact Hd|done|lia|done|..].
  - intros k Hk Hfit. cbn [batch_n_spans batch_spans batch_process].
    rewrite (proj2 (Z.eqb_neq _ _)) by lia.
    wp_step; reflect_bools.
    + apply wp_bind, fresh_spans_wp; [done|unfold INT_MAX in *; lia|].
      intros v1 w1 Hw1 Hv1 Econt1 El1 Hcap1 Et1. cbn beta iota.
      rewrite Hd. cbn [default id]. rewrite Nat2Z.id.
      assert (Ed : take (Z.to_nat (lenZ q - Z.of_nat k)) (drop k cells)
                   = map live_span (drop k q)).
      { replace (Z.to_nat (lenZ q - Z.of_nat k)) with (length q - k)%nat by lia.
        rewrite take_drop_commute. replace (k + (length q - k))%nat with (length q) by lia.
        rewrite (take_cells v cells q), (take_ge q) by (done || lia).
        by rewrite skipn_map. }
      rewrite Ed. apply wp_bind, keep_spans_wp;
        [done|rewrite length_map, length_drop; lia|lia|].
      intros v2 Hv2 El2 Et2 Econt2. rewrite Econt1 in Econt2. cbn in Econt2.
      rewrite length_map, length_drop in El2.
      apply wp_ret. rewrite <- Hd. apply HT; [by apply alloc_only_same_allocator| |done|done|].
      { by eapply succeeded_alloc. }
      split; [rewrite length_drop; lia|]. intros _. split; [done|]. split; [congruence|].
      split; [done|]. rewrite El2. lia.
    + apply wp_ret, HT; [done|done|done|done|]. split; [rewrite length_drop; cbn; lia|].
      intros Hne'. destruct Hne'. apply drop_ge. lia.
  - intros Hall. cbn [batch_n_spans]. cbn [Z.eqb]. rewrite <- El.
    apply wp_bind, (large_batch_error_wp p v q m vs); [done..|].
    intros v' w' Ha Hsucc' El' Hq'. apply wp_ret, HF; [done|done| |done]. apply Hall. lia.
Qed.

(** *** Sending *)

(** The candidates are IPv4 addresses, as the resolution asks for. *)
Definition candidates_ok (r : jaeger_remote_reporter) : Prop :=
  forall cs, r_candidates r = Some cs -> Forall (fun c => ai_addrlen c = sizeof_sockaddr_in) cs.

Lemma try_candidates_delivered s buffer cs :
  Forall (fun c => ai_addrlen c = sizeof_sockaddr_in) cs ->
  delivered (try_candidates s buffer cs).2
  = delivered s ++ (if try_candidates s buffer cs is (Some _, _) then [buffer] else []).
Proof.
  intros Hcs. revert s. induction Hcs as [|c cs Hc Hcs IH]; intros s; cbn [try_candidates].
  { cbn. by rewrite app_nil_r. }
  pose proof (delivered_sendto s buffer (ai_addr c)) as Hd.
  destruct (sendto s buffer (ai_addr c)) as [n s']. cbn [fst snd] in Hd.
  rewrite Hc, Z.eqb_refl, andb_true_r. destruct (n =? lenZ buffer) eqn:E; [done|].
  by rewrite IH, Hd, app_nil_r.
Qed.

Lemma write_to_socket_wp r m vs buffer Q w :
  r_metrics r = Some m -> succeeded m vs w -> candidates_ok r ->
  (forall ok s a w', same_allocator w w' -> succeeded m vs w' ->
     delivered s = delivered (r_socket r) ++ (if (ok : bool) then [buffer] else []) ->
     Q (ok, set_socket r s None a) w') ->
  wp (remote_reporter_write_to_socket r buffer) Q w.
Proof.
  intros Hm Hs Hc HQ. unfold remote_reporter_write_to_socket.
  destruct (r_candidates r) as [cs|] eqn:Ec.
  - pose proof (try_candidates_delivered (r_socket r) buffer cs (Hc cs Ec)) as Hd.
    destruct (try_candidates (r_socket r) buffer cs) as [[a|] s]; cbn [snd] in Hd.
    + rewrite bool_decide_eq_true_2 by done. by apply wp_ret, HQ.
    + rewrite bool_decide_eq_false_2 by (by intros [? ?]). cbn [r_metrics set_socket]. rewrite Hm.
      apply wp_bind, (inc_other_wp m _ vs); [done|done|]. intros w1 Ha Hs1. by apply wp_ret, HQ.
  - pose proof (delivered_sendto (r_socket r) buffer (addr r)) as Hd.
    destruct (sendto (r_socket r) buffer (addr r)) as [n s]. cbn [fst snd] in Hd.
    destruct (n =? lenZ buffer); [by apply wp_ret, HQ|].
    cbn [r_metrics set_socket]. rewrite Hm.
    apply wp_bind, (inc_other_wp m _ vs); [done|done|]. intros w1 Ha Hs1. by apply wp_ret, HQ.
Qed.

(** What flushing leaves alone. *)
Definition kept (r r' : jaeger_remote_reporter) : Prop :=
  process r' = process r /\ max_packet_size r' = max_packet_size r /\
  r_metrics r' = r_metrics r /\ r_mutex r' = r_mutex r /\ candidates_ok r'.

(** The queue left when a batch fails: what there was, or the same without a
    first span that fits in no packet. *)
Definition left_over (r : jaeger_remote_reporter) (q rest : list Jaeger__Model__Span) : Prop :=
  rest = q \/
  rest = drop 1 q /\ max_packet_size r < batch_get_packed_size (process r) (take 1 q).

Lemma flush_batch_wp r q m vs Q w :
  plenty w -> queue_wf (spans r) q -> q <> [] -> sizes_int (process r) q ->
  Forall message_wf q -> r_metrics r = Some m -> succeeded m vs w -> candidates_ok r ->
  (forall k r' w', same_allocator w w' -> succeeded m (to_signed 64 (vs + Z.of_nat k)) w' ->
     (1 <= k <= length q)%nat ->
     batch_get_packed_size (process r) (take k q) <= max_packet_size r ->
     queue_left (spans r') (drop k q) -> kept r r' ->
     delivered (r_socket r') = delivered (r_socket r) ++ [batch_pack (process r) (take k q)] ->
     Q (true, r') w') ->
  (forall rest r' w', same_allocator w w' -> succeeded m vs w' -> left_over r q rest ->
     contents (spans r') = map live_span rest -> kept r r' ->
     delivered (r_socket r') = delivered (r_socket r) -> Q (false, r') w') ->
  wp (remote_reporter_flush_batch r) Q w.
Proof.
  intros Hp Hq Hne Hs Hms Hm Hsucc Hcand HT HF.
  destruct (queue_cells _ _ Hq) as (cells & Hd & Hcap & El). destruct (Hq) as (Hwf & _ & Hc & _).
  assert (0 < length q)%nat by (destruct q; [done|cbn; lia]).
  unfold remote_reporter_flush_batch, jaeger_vector_length.
  apply wp_bind, wp_assert; [apply Z.gtb_lt; lia|]. rewrite Hm.
  apply wp_bind, (build_batch_wp _ _ q _ m vs); [done..| |].
  - intros k v' w1 Ha1 Hs1 Hk Hfit Hleft. cbn beta iota. cbn [negb].
    apply wp_bind. eapply batch_messages_wp; [done|exact Hd|done|lia|]. rewrite Nat2Z.id.
    pose proof (packed_size_nonneg (process r) (take k q)).
    specialize (Hs 0%nat k) as Hint. rewrite drop_0 in Hint. unfold INT_MAX in Hint.
    apply wp_bind, wp_assert.
    { rewrite batch_pack_length, to_signed_small by lia. cbn. by apply Z.leb_le. }
    apply wp_bind, (write_to_socket_wp _ m vs); [done|done|done|].
    intros ok s a w2 Ha2 Hs2 Hdel. cbn [r_socket set_spans] in Hdel. destruct ok.
    + cbn [batch_n_spans batch_spans]. rewrite Nat2Z.id, Hd. cbn [default id].
      apply wp_bind, free_spans_wp.
      { intros j Hj. destruct (queue_lookup (spans r) cells q j Hq Hd) as (msg & ? & Hmsg); [lia|].
        exists msg. split; [done|]. by eapply Forall_lookup_1. }
      intros _ _ _ _. cbn [r_metrics set_socket set_spans]. rewrite Hm.
      destruct Hs2 as [Hm2 Hv2].
      apply wp_bind, inc_metric_wp; [done|]. intros w3 Ha3 Hm3 Hv3 _.
      unfold remote_reporter_update_queue_length. cbn [r_metrics set_socket set_spans]. rewrite Hm.
      apply wp_bind, (inc_other_wp m _ (to_signed 64 (vs + Z.of_nat k))); [done|by split; auto|].
      intros w4 Ha4 Hs4. apply wp_ret, (HT k); [|done|done|done|done|by split|done].
      etrans; [exact Ha1|]. etrans; [exact Ha2|]. by etrans.
    + unfold remote_reporter_update_queue_length. cbn [r_metrics set_socket set_spans]. rewrite Hm.
      apply wp_bind, (inc_other_wp m _ vs); [done|done|].
      intros w3 Ha3 Hs3. apply wp_ret, (HF q); [|done|by left| |by split|by cbn; rewrite Hdel, app_nil_r].
      { etrans; [exact Ha1|]. by etrans. }
      cbn [spans set_spans batch_spans]. unfold contents. cbn. rewrite Hd. cbn.
      unfold contents in Hc. by rewrite Hd in Hc.
  - intros b v' w1 Ha1 Hs1 Hbig Hq'. cbn beta iota. cbn [negb].
    apply wp_ret, (HF (drop 1 q)); [done|done|by right|apply Hq'|by split|done].
Qed.

(** What a flush did: [packets], each fitting in a datagram, were delivered
    and counted, in the order of the queue; the spans that remain unsent are
    none on success, and otherwise still in the queue, apart from a first one
    that fits in no datagram. *)
Definition flushed (m : jaeger_metrics) (vs : Z) (r : jaeger_remote_reporter)
    (q : list Jaeger__Model__Span) (ok : bool) (r' : jaeger_remote_reporter) (w' : world) : Prop :=
  exists packets unsent,
    q = concat packets ++ unsent /\
    Forall (fun ms => ms <> [] /\ batch_get_packed_size (process r) ms <= max_packet_size r)
      packets /\
    delivered (r_socket r') = delivered (r_socket r) ++ map (batch_pack (process r)) packets /\
    succeeded m (to_signed 64 (vs + lenZ (concat packets))) w' /\
    if ok then unsent = [] /\ len (spans r') = 0
    else unsent <> [] /\ exists rest, contents (spans r') = map live_span rest /\
                                       left_over r unsent rest.

Lemma sizes_int_drop p q k : sizes_int p q -> sizes_int p (drop k q).
Proof. intros Hs i n. rewrite drop_drop. apply Hs. Qed.

Lemma flush_loop_wp fuel r q m vs Q w :
  (length q <= fuel)%nat ->
  plenty w -> queue_left (spans r) q -> sizes_int (process r) q -> Forall message_wf q ->
  r_metrics r = Some m -> succeeded m vs w -> to_signed 64 vs = vs -> candidates_ok r ->
  (forall ok r' w', same_allocator w w' -> kept r r' -> flushed m vs r q ok r' w' ->
     Q (ok, r') w') ->
  wp (flush_loop fuel r) Q w.
Proof.
  revert r q vs Q w. induction fuel as [|fuel IH];
    intros r q vs Q w Hf Hp [El Hq] Hs Hms Hm Hsucc Hvs Hc HQ;
    cbn [flush_loop]; unfold jaeger_vector_length.
  all: destruct (decide (q = [])) as [->|Hne];
    [rewrite El; cbn [length Z.of_nat Z.gtb Z.compare]; apply wp_ret, HQ; [done|by split|];
     exists [], []; cbn; rewrite app_nil_r, Z.add_0_r, Hvs; repeat (split; [done|]); done|].
  { destruct q; [done|cbn in Hf; lia]. }
  assert (0 < length q)%nat by (destruct q; [done|cbn; lia]).
  rewrite (proj2 (Z.gtb_lt _ _)) by lia.
  apply wp_bind, (flush_batch_wp _ q m vs); [done|by apply Hq|done..| |].
  - intros k r1 w1 Ha1 Hs1 Hk Hfit Hleft1 (Ep & Emax & Em & Emu & Hc1) Hdel1. cbn beta iota.
    apply (IH _ (drop k q) (to_signed 64 (vs + Z.of_nat k))).
    + rewrite length_drop. lia.
    + by eapply plenty_same_allocator.
    + done.
    + rewrite Ep. by apply sizes_int_drop.
    + by apply Forall_drop.
    + congruence.
    + done.
    + pose proof (to_signed_add 64 (vs + Z.of_nat k) 0 ltac:(lia)) as E.
      by rewrite !Z.add_0_r in E.
    + done.
    + intros ok r2 w2 Ha2 (Ep2 & Emax2 & Em2 & Emu2 & Hc2)
        (packets & unsent & Eq & Hpk & Hdel2 & Hs2 & Hend).
      rewrite Ep, Emax in *. apply HQ; [by etrans| |].
      { repeat split; [congruence..|done]. }
      exists (take k q :: packets), unsent. cbn [concat map].
      split; [by rewrite <- app_assoc, <- Eq, take_drop|].
      split; [constructor; [|done]; split; [|done]; destruct q, k; cbn in *; (done || lia)|].
      split; [by rewrite Hdel2, Hdel1, <- app_assoc|].
      split.
      { rewrite length_app, Nat2Z.inj_add, length_take, Z.add_assoc.
        rewrite to_signed_add in Hs2 by lia. by replace (k `min` length q)%nat with k by lia. }
      destruct ok; [done|]. destruct Hend as (Hun & rest & Econt & Hrest). split; [done|].
      exists rest. split; [done|]. unfold left_over in *. by rewrite Ep, Emax in Hrest.
  - intros rest r1 w1 Ha1 Hs1 Hrest Econt Hk Hdel. cbn beta iota.
    apply wp_ret, HQ; [done|done|]. exists [], q. cbn. rewrite app_nil_r, Z.add_0_r, Hvs.
    repeat (split; [done|]). eauto.
Qed.

(** *** Reporting *)

Lemma list_destroy_wp {A B} (P : B -> A -> Prop) (f : A -> M unit) (src : list B) data n Q w :
  copied_list P src (data, n) -> (forall a w', f a w' = Ok tt w') -> Q tt w ->
  wp (jaeger_protobuf_list_destroy f data n) Q w.
Proof.
  intros (Hn & l & Hl & Hfa) Hf HQ. cbn [fst snd] in *. unfold jaeger_protobuf_list_destroy.
  wp_step; reflect_bools; [done|]. apply wp_bind, wp_assert; [apply Z.gtb_lt; lia|].
  destruct data as [data|]; cbn [default id] in Hl.
  2: { rewrite take_nil in Hl. destruct l; [|done]. inversion Hfa; subst. cbn in Heqb. done. }
  rewrite Hn, Nat2Z.id. clear Hn n Heqb. revert data Hl.
  induction Hfa as [|b a' src l _ _ IH]; intros data Hl; [done|].
  destruct data as [|[a|] data]; try done. cbn [list_destroy_loop length].
  injection Hl as _ Hl. apply wp_bind. unfold wp at 1. rewrite Hf. by apply IH.
Qed.

Lemma message_of_span_wf s msg : span_message s msg -> message_wf msg.
Proof.
  intros [_ _ _ Ht Hl Hr] Q w HQ. unfold jaeger_span_protobuf_destroy.
  apply wp_bind. eapply list_destroy_wp; [exact Hr|done|].
  apply wp_bind. eapply list_destroy_wp; [exact Hl|done|].
  apply wp_bind. eapply list_destroy_wp; [exact Ht|done|]. apply wp_ret, HQ.
Qed.

(** A tracer whose name and tags can be sent. *)
Definition tracer_ok (t : tracer_identity) (name : cstr) : Prop :=
  service_name t = Some name /\ 0 < strlen name /\ short name /\
  vector_wf (tracer_tags t) /\ Forall copyable (contents (tracer_tags t)) /\
  2048 * Z.max (len (tracer_tags t)) 10 <= INT_MAX.

(** The process of a tracer. *)
Definition process_of (t : tracer_identity) (p : Jaeger__Model__Process) : Prop :=
  process_service_name p = service_name t /\
  copied_list same_tag (contents (tracer_tags t)) (process_tags p, process_n_tags p).

Lemma build_process_wp p t name Q w :
  plenty w -> tracer_ok t name ->
  (forall p' w', alloc_only w w' -> process_of t p' -> Q p' w') ->
  wp (build_process p (Some t)) Q w.
Proof.
  intros Hp (Hn & Hlen & Hs & Hv & Ht & Hfit) HQ. unfold build_process. rewrite Hn.
  apply wp_bind, wp_assert; [by apply Z.gtb_lt|].
  apply wp_bind, wp_strdup; [done|by intros|]. intros w1 Hw1.
  rewrite bool_decide_eq_false_2 by done.
  apply wp_bind, (span_vector_protobuf_wp _ copyable same_tag);
    [apply tag_message_ok|by apply (plenty_alloc_only w)|done..|].
  intros tags n w2 Hw2 Hcp. apply wp_ret, HQ; [by etrans|]. by rewrite <- Hn.
Qed.

(** The process after a report: named after the first span's tracer. *)
Definition process_named (t : tracer_identity) (p p' : Jaeger__Model__Process) : Prop :=
  match process_service_name p with
  | None | Some [] => process_of t p'
  | Some _ => p' = p
  end.

Lemma queue_append v q slot msg v1 v2 :
  queue_wf v q -> vector_wf v1 -> vector_wf v2 -> type_size v2 = type_size v ->
  contents v1 = contents v ++ [slot] ->
  contents v2 = <[Z.to_nat (len v) := live_span msg]> (contents v1) ->
  16 * Z.max (len v + 1) 10 <= INT_MAX -> queue_wf v2 (q ++ [msg]).
Proof.
  intros (Hwf & Et & Hc & _) Hv1 Hv2 Et2 E1 E2 Hroom. pose proof (length_contents _ Hwf).
  pose proof (wf_len _ Hwf).
  assert (Hcont : contents v2 = contents v ++ [live_span msg]).
  { rewrite E2, E1, insert_app_r_alt by lia. by replace (_ - _)%nat with 0%nat by lia. }
  pose proof (length_contents _ Hv2) as Hl2. rewrite Hcont, length_app in Hl2. cbn in Hl2.
  split; [done|]. split; [congruence|]. split; [by rewrite Hcont, Hc, map_app|].
  by replace (len v2) with (len v + 1) by lia.
Qed.

Lemma queue_span_wp r q msg t name m vs Q w :
  plenty w -> queue_wf (spans r) q -> len (spans r) < capacity (spans r) <= INT_MAX ->
  16 * Z.max (len (spans r) + 1) 10 <= INT_MAX -> tracer_ok t name ->
  r_metrics r = Some m -> succeeded m vs w ->
  (forall v p w', same_allocator w w' -> succeeded m vs w' -> queue_wf v (q ++ [msg]) ->
     capacity v = capacity (spans r) ->
     process_named t (process r) p -> Q (set_process (set_spans r v) p) w') ->
  wp (queue_span r msg (Some t)) Q w.
Proof.
  intros Hp Hq Hroom Hmax Ht Hm Hs HQ. destruct (Hq) as (Hwf & _). pose proof (wf_len _ Hwf).
  unfold queue_span. apply wp_bind, append_room_wp; [done|lia|lia|].
  intros v1 slot Hv1 El1 Et1 Ec1 Econt1. cbn beta iota. apply wp_bind, wp_assert; [done|].
  apply wp_bind, store_wp; [done|lia|]. intros v2 Hv2 El2 Ec2 Et2 Econt2.
  assert (Hq2 : queue_wf v2 (q ++ [msg])).
  { eapply (queue_append (spans r)); [done|exact Hv1|done|congruence|done|done|done]. }
  unfold remote_reporter_update_queue_length. cbn [r_metrics set_spans process]. rewrite Hm.
  apply wp_bind, (inc_other_wp m _ vs); [done|done|]. intros w1 Ha1 Hs1.
  assert (Hp1 : plenty w1) by by eapply plenty_same_allocator.
  unfold process_named in HQ. destruct (process_service_name (process r)) as [[|c n]|] eqn:En.
  2: by apply wp_ret, (HQ v2 (process r)); [..|congruence|].
  all: apply wp_bind, (build_process_wp _ t name); [done|done|]; intros p w2 Hw2 Hpr;
    apply wp_ret, HQ; [|by eapply succeeded_alloc|done|congruence|done];
    etrans; [exact Ha1|by apply alloc_only_same_allocator].
Qed.

Lemma remote_report_wp tracer_of r q span b name i t tname m vs Q w :
  plenty w -> queue_wf (spans r) q -> 16 * (Z.max (len (spans r) + 1) (capacity (spans r)) + 10) <= INT_MAX ->
  span_ok span b -> span_copyable span name -> tracer span = Some i ->
  tracer_of i = t -> tracer_ok t tname ->
  r_metrics r = Some m -> succeeded m vs w -> r_mutex r = false ->
  (forall v msg p w', same_allocator w w' -> succeeded m vs w' -> queue_wf v (q ++ [msg]) ->
     capacity v <= Z.max (2 * (len (spans r) + 1)) (capacity (spans r)) ->
     span_message span msg -> message_wf msg -> process_named t (process r) p ->
     Q (set_r_mutex (set_process (set_spans r v) p) false, Some span) w') ->
  wp (remote_reporter_report tracer_of r (Some span)) Q w.
Proof.
  intros Hp Hq Hmax Hspan Hcopy Htr Hti Ht Hm Hs Hmu HQ. destruct (Hq) as (Hwf & Et & Hc & _).
  pose proof (wf_len _ Hwf). unfold INT_MAX in Hmax.
  unfold remote_reporter_report. rewrite Hmu. apply wp_bind, mutex_lock_wp.
  cbn [spans set_r_mutex]. unfold jaeger_vector_length. wp_step. wp_step.
  apply wp_bind, reserve_wp; [done|unfold fits, sizeof_ptr, INT_MAX in *; rewrite Et; lia| |].
  { intros w1 _ Hno. by destruct Hno. }
  intros v w1 Hw1 Hv El Etv Econt Hge Hle Hcap _. cbn beta iota. cbn [negb].
  apply wp_bind. wp_step. wp_step. rewrite Hplenty by (by apply (plenty_alloc_only w)). cbn [negb].
  assert (Hp2 : plenty w') by (apply (plenty_alloc_only w1); [done|by apply (plenty_alloc_only w)]).
  assert (Hs2 : succeeded m vs w') by (eapply succeeded_alloc; [exact Halloc|by eapply succeeded_alloc]).
  apply wp_bind, (span_to_protobuf_wp _ b name); [done..|]. intros msg w2 Hw2 Hmsg.
  cbn beta iota. cbn [negb]. rewrite Htr. cbn [fmap option_fmap option_map]. rewrite Hti.
  apply wp_bind, (queue_span_wp _ q msg t tname m vs).
  - by apply (plenty_alloc_only w').
  - cbn. split; [done|]. split; [congruence|]. split; [congruence|unfold INT_MAX; lia].
  - cbn. unfold INT_MAX. lia.
  - cbn. unfold INT_MAX. lia.
  - done.
  - done.
  - by eapply succeeded_alloc.
  - intros v3 p w3 Ha3 Hs3 Hq3 Hc3 Hpr. apply wp_ret. cbn beta iota.
    apply wp_bind, mutex_unlock_wp, wp_ret. cbn in Hpr.
    cbn in Hc3.
    apply (HQ v3 msg p); [|done|done|lia|done|by eapply message_of_span_wf|done].
    etrans; [|exact Ha3]. apply alloc_only_same_allocator. etrans; [exact Hw1|]. by etrans.
Qed.
End RemoteFacts.

(** *** The interface's promise *)

(** A reporter that takes the span: [accepts] is its precondition, [took] what
    a report does to it, while memory lasts. The span is left as it was. *)
Class Accepts {env : Env} (span : jaeger_span) (R : Type) `{!Reporter R} := {
  accepts : R -> Prop;
  took : R -> R -> Prop;
  report_accepts r w :
    plenty w -> accepts r ->
    wp (report r (Some span))
      (fun x w' => same_allocator w w' /\ took r x.1 /\ x.2 = Some span) w;
}.

#[export] Instance null_accepts {env : Env} span : Accepts span jaeger_null_reporter.
Proof.
  refine {| accepts _ := True; took r r' := r' = r |}. intros r w Hp _. by apply wp_ret.
Defined.

Section InMemoryFacts.
Context {env : Env} {pb : Protobuf}.
Implicit Types (w : world).

(** An in-memory reporter with room for another span. *)
Definition in_memory_ok (r : jaeger_in_memory_reporter) : Prop :=
  vector_wf (im_spans r) /\ fits (im_spans r) (capacity (im_spans r) + 1) /\ im_mutex r = false.

(** One more span, a copy of the one reported. *)
Definition in_memory_took (span : jaeger_span) (m : gmap cstr cstr)
    (r r' : jaeger_in_memory_reporter) : Prop :=
  vector_wf (im_spans r') /\ im_mutex r' = false /\
  exists dst, contents (im_spans r') = contents (im_spans r) ++ [dst] /\
    span_ok dst m /\ span_copied span dst m.

Lemma in_memory_report_wp r span m name Q w :
  plenty w -> in_memory_ok r -> span_ok span m -> span_copyable span name ->
  (forall r' w', same_allocator w w' -> in_memory_took span m r r' -> Q (r', Some span) w') ->
  wp (in_memory_reporter_report r (Some span)) Q w.
Proof.
  intros Hp (Hwf & Hfit & Hmu) Hs Hc HQ. pose proof (wf_len _ Hwf).
  pose proof (length_contents _ Hwf).
  unfold in_memory_reporter_report. rewrite Hmu. apply wp_bind, mutex_lock_wp.
  apply wp_bind, append_wp; [done|done|by intros|]. intros v slot w1 Hw1 Hv El Et Ec Econt.
  cbn beta iota. do 2 apply wp_bind.
  apply (span_copy_wp span m name); [by apply (plenty_alloc_only w)|done|done|].
  intros dst w2 Hw2 Hdst Hcp. cbn beta iota.
  apply wp_bind, store_wp; [done|lia|]. intros v1 Hv1 El1 Ec1 Et1 Econt1. apply wp_ret.
  apply wp_bind, mutex_unlock_wp, wp_ret, HQ.
  - etrans; [by apply alloc_only_same_allocator|done].
  - split; [done|]. split; [done|]. exists dst. split; [|done]. cbn.
    rewrite Econt1, Econt, insert_app_r_alt by lia. by replace (_ - _)%nat with 0%nat by lia.
Qed.
End InMemoryFacts.

(** A span every in-memory reporter can copy. *)
Class Copyable {env : Env} {pb : Protobuf} (span : jaeger_span) := {
  span_items : gmap cstr cstr;
  span_name : cstr;
  copyable_ok : span_ok span span_items;
  copyable_copyable : span_copyable span span_name;
}.

#[export] Instance in_memory_accepts {env : Env} {pb : Protobuf} span `{!Copyable span} :
  Accepts span jaeger_in_memory_reporter.
Proof.
  refine {| accepts := in_memory_ok; took := in_memory_took span span_items |}.
  intros r w Hp Hr. eapply in_memory_report_wp; [done|done|apply copyable_ok|apply copyable_copyable|].
  by intros r' w' Ha Ht.
Defined.

#[export] Instance sum_accepts {env : Env} span {R1 R2} `{!Reporter R1, !Reporter R2, !Accepts span R1, !Accepts span R2} :
  Accepts span (R1 + R2).
Proof.
  refine {|
    accepts r := match r with inl r => accepts r | inr r => accepts r end;
    took r r' := match r, r' with
                 | inl r, inl r' => took r r'
                 | inr r, inr r' => took r r'
                 | _, _ => False
                 end |}.
  intros [r|r] w Hp Hr; cbn [report sum_reporter_ops]; apply wp_bind;
    (eapply wp_mono; [exact (report_accepts r w Hp Hr)|]);
    intros [r' s] w' (Ha & Ht & Hs); by apply wp_ret.
Defined.

Section CompositeFacts.
Context {env : Env} {span : jaeger_span} {R : Type} `{!Reporter R} `{!Accepts span R}.
Implicit Types (w : world) (v : jaeger_vector (option R)).

Definition option_accepts (c : option R) : Prop := forall r, c = Some r -> accepts r.
Definition option_took (c c' : option R) : Prop :=
  match c, c' with
  | Some r, Some r' => took r r'
  | None, None => True
  | _, _ => False
  end.

Lemma report_children_wp n i v Q w :
  plenty w -> vector_wf v -> 0 <= i -> i + Z.of_nat n = len v ->
  Forall option_accepts (drop (Z.to_nat i) (contents v)) ->
  (forall v' w', same_allocator w w' -> vector_wf v' -> len v' = len v ->
     take (Z.to_nat i) (contents v') = take (Z.to_nat i) (contents v) ->
     Forall2 option_took (drop (Z.to_nat i) (contents v)) (drop (Z.to_nat i) (contents v')) ->
     Q (v', Some span) w') ->
  wp (report_children n i v (Some span)) Q w.
Proof.
  revert i v w. induction n as [|n IH]; intros i v w Hp Hwf Hi Hn Hacc HQ; cbn [report_children].
  { apply wp_ret, HQ; [done..|]. pose proof (length_contents _ Hwf).
    rewrite drop_ge by lia. constructor. }
  pose proof (length_contents _ Hwf) as Hl. pose proof (wf_cells _ Hwf) as (cells & Hd & _).
  destruct (lookup_lt_is_Some_2 (contents v) (Z.to_nat i)) as [c Hc]; [lia|].
  assert (Hacc' := Hacc). rewrite (drop_S _ _ _ Hc) in Hacc'. apply Forall_cons in Hacc' as [Hc1 Hc2].
  replace (S (Z.to_nat i)) with (Z.to_nat (i + 1)) in Hc2 by lia.
  unfold jaeger_vector_offset at 1. rewrite Hd.
  apply wp_bind. eapply load_wp; [done|done|done|].
  (* the rest of the children, from a vector that agrees beyond [i] *)
  assert (rest : forall v1 c' w1, same_allocator w w1 -> vector_wf v1 -> len v1 = len v ->
    contents v1 = <[Z.to_nat i := c']> (contents v) -> option_took c c' ->
    wp (report_children n (i + 1) v1 (Some span)) Q w1).
  { intros v1 c' w1 Ha Hv1 El1 Ec1 Htook.
    assert (Hdrop : drop (Z.to_nat (i + 1)) (contents v1) = drop (Z.to_nat (i + 1)) (contents v))
      by (rewrite Ec1, drop_insert_lt by lia; done).
    apply IH; [by eapply plenty_same_allocator|done|lia|lia|by rewrite Hdrop|].
    intros v2 w2 Ha2 Hv2 El2 Etake Hf. apply HQ; [by etrans|done|lia|..].
    - transitivity (take (Z.to_nat i) (take (Z.to_nat (i + 1)) (contents v2))).
      + rewrite take_take. f_equal. lia.
      + rewrite Etake, take_take, Ec1. rewrite take_insert_ge by lia. f_equal. lia.
    - assert (Hc' : contents v2 !! Z.to_nat i = Some c').
      { rewrite <- (lookup_take_lt _ (Z.to_nat (i + 1))), Etake, lookup_take_lt, Ec1 by lia.
        apply list_lookup_insert_eq. lia. }
      rewrite (drop_S _ _ _ Hc), (drop_S _ _ _ Hc'). constructor; [done|].
      replace (S (Z.to_nat i)) with (Z.to_nat (i + 1)) by lia. by rewrite <- Hdrop. }
  destruct c as [r|].
  - apply wp_bind. eapply wp_mono; [apply report_accepts; [done|by apply Hc1]|].
    intros [r' s] w1 (Ha & Ht & Hs). cbn in Ht, Hs. subst s. cbn beta iota.
    unfold jaeger_vector_offset. rewrite Hd.
    apply wp_bind, store_wp; [done|lia|]. intros v1 Hv1 El1 _ _ Ec1.
    by apply (rest v1 (Some r')).
  - apply (rest v None); [done|done|done|by rewrite list_insert_id|done].
Qed.

(** A composite reporter passes the span to each of its children. *)
Definition composite_accepts (r : jaeger_composite_reporter R) : Prop :=
  vector_wf (reporters r) /\ Forall option_accepts (contents (reporters r)).
Definition composite_took (r r' : jaeger_composite_reporter R) : Prop :=
  vector_wf (reporters r') /\
  Forall2 option_took (contents (reporters r)) (contents (reporters r')).

Lemma composite_report_wp r Q w :
  plenty w -> composite_accepts r ->
  (forall r' w', same_allocator w w' -> composite_took r r' -> Q (r', Some span) w') ->
  wp (composite_reporter_report r (Some span)) Q w.
Proof.
  intros Hp [Hwf Hacc] HQ. unfold composite_reporter_report, children, jaeger_vector_length.
  pose proof (wf_len _ Hwf).
  apply wp_bind, report_children_wp; [done|done|lia|lia|by rewrite drop_0|].
  intros v' w' Ha Hv' El _ Hf. apply wp_ret, HQ; [done|]. split; [done|].
  by rewrite !drop_0 in Hf.
Qed.
End CompositeFacts.

#[export] Instance composite_accepts_span {env : Env} span {R} `{!Reporter R, !Accepts span R} :
  Accepts span (jaeger_composite_reporter R).
Proof.
  refine {| accepts := composite_accepts; took := composite_took |}.
  intros r w Hp Hr. by apply composite_report_wp.
Defined.

Section RemoteInit.
Context {env : Env} {batches : BatchMessages} {net : Network}.

Lemma remote_reporter_init_wp hp size metrics fd s addrs Q w :
  plenty w -> host_port_wf hp -> no_colon hp -> short (host_port_text hp) ->
  open_socket AF_INET SOCK_DGRAM = (fd, s) -> 0 <= fd ->
  getaddrinfo (hp_host hp) (print_dec (hp_port hp)) AF_INET SOCK_DGRAM = (0, addrs) ->
  (forall v w', alloc_only w w' -> queue_wf v [] ->
     Q (Some (RemoteReporter net (if size >? 0 then size else JAEGERTRACINGC_DEFAULT_UDP_BUFFER_SIZE)
                fd s metrics JAEGER__MODEL__PROCESS__INIT v (Some addrs) sockaddr_zero false)) w') ->
  wp (jaeger_remote_reporter_init (Some (host_port_text hp)) size metrics) Q w.
Proof.
  intros Hw Hwf Hc Hs Hfd Hpos Haddr HQ. unfold jaeger_remote_reporter_init. rewrite Hfd.
  rewrite (proj2 (Z.ltb_ge _ _)) by done. wp_step.
  apply init_wp; [done|done| |by intros ? ? Hn; destruct Hn].
  intros v w1 Hw1 Hv Hcv Hl Hcap Hts. cbn [negb].
  assert (queue_wf v []) as Hq.
  { split_and!; [done|done|by rewrite Hcv|]. rewrite Hl. vm_compute. discriminate. }
  assert (exists c text, host_port_text hp = c :: text) as (c & text & Et).
  { destruct Hwf as (host & Hh & Hne & _). unfold host_port_text. rewrite Hh.
    cbn [from_option id]. destruct host as [|c host]; [done|]. case_ifs; by eexists _, _. }
  rewrite Et, <- Et. wp_step. apply host_port_scan_text_wp; try done.
  { by eapply plenty_alloc_only. }
  intros w2 Hw2. cbn [negb]. wp_step. pose proof Hwf as (host & Hh & Hne & Hp).
  unfold jaeger_host_port_resolve. wp_step. rewrite Hh. apply wp_assert.
  { unfold strlen. destruct host; [done|]. apply Z.gtb_lt. cbn [length]. lia. }
  unfold snprintf, JAEGERTRACINGC_MAX_PORT_STR_LEN. wp_step. apply wp_assert.
  { pose proof (print_port_length _ Hp). lia. }
  rewrite <- Hh. cbn [from_option id Z.leb Z.compare]. rewrite take_ge.
  2: { pose proof (print_port_length _ Hp). cbn. lia. }
  rewrite Haddr. cbn [negb Z.eqb]. wp_step. cbn [negb]. wp_step.
  apply HQ; [by etrans|done].
Qed.
End RemoteInit.

Lemma remote_flush_wp {env : Env} {pb : Protobuf} {batches : BatchMessages} {net : Network}
    {laws : BatchLaws batches} {log : NetworkLog net} r q m vs Q w :
  plenty w -> queue_left (spans r) q -> sizes_int (process r) q -> Forall message_wf q ->
  r_metrics r = Some m -> succeeded m vs w -> to_signed 64 vs = vs -> candidates_ok r ->
  r_mutex r = false ->
  (forall ok r' w', flushed m vs r q ok r' w' -> r_mutex r' = false -> Q (ok, r') w') ->
  wp (remote_reporter_flush r) Q w.
Proof.
  intros Hp Hq Hs Hms Hm Hv Hvs Hc Hmu HQ.
  unfold remote_reporter_flush. rewrite Hmu. apply wp_bind, mutex_lock_wp.
  apply wp_bind, (flush_loop_wp _ _ q m vs); try done.
  { cbn. destruct Hq as [El _]. rewrite El. lia. }
  intros ok r' w' _ (_ & _ & _ & Emu & _) Hf. cbn beta iota. rewrite Emu.
  apply wp_bind, mutex_unlock_wp, wp_ret. by apply HQ.
Qed.

(** ** Properties *)

(** C6: Flushing the remote reporter, while memory lasts: whatever the socket does,
    the spans are sent in the order they were queued, in batches that each fit
    in a datagram, and counted as successes; a flush that returns [true] has
    sent them all. One that returns [false] leaves every unsent span in the
    queue, except that a first span too large for any datagram is dropped.
    The mutex is unlocked again. *)
Theorem remote_reporter_flush_spec (env : Env) (pb : Protobuf) (batches : BatchMessages)
    (net : Network) (laws : BatchLaws batches) (log : NetworkLog net) r q m vs w :
  plenty w -> queue_left (spans r) q -> sizes_int (process r) q -> Forall message_wf q ->
  r_metrics r = Some m -> metrics_wf m w -> total m (Some reporter_success) w = Some vs ->
  to_signed 64 vs = vs -> candidates_ok r -> r_mutex r = false ->
  exists ok r' w', remote_reporter_flush r w = Ok (ok, r') w' /\
    flushed m vs r q ok r' w' /\ r_mutex r' = false.
Proof.
  intros Hp Hq Hs Hms Hm Hwf Hv Hvs Hc Hmu.
  assert (wp (remote_reporter_flush r) (fun x w' =>
    flushed m vs r q x.1 x.2 w' /\ r_mutex x.2 = false) w)
    as ([ok r'] & w' & ? & ? & ?)%wp_returns by by eapply remote_flush_wp.
  by exists ok, r', w'.
Qed.

(** C7: Reporting to the remote reporter, while memory lasts: the span's message,
    with its identifiers, name, tags, logs and references, is appended to the
    queue; the first report names the process after the span's tracer; the
    span is left as it was, and the mutex unlocked. *)
Theorem remote_reporter_report_spec (env : Env) (pb : Protobuf) (msgs : SpanMessages)
    (net : Network) tracer_of r q span b name i tname m vs w :
  plenty w -> queue_wf (spans r) q ->
  16 * (Z.max (len (spans r) + 1) (capacity (spans r)) + 10) <= INT_MAX ->
  span_ok span b -> span_copyable span name -> tracer span = Some i ->
  tracer_ok (tracer_of i) tname -> r_metrics r = Some m -> metrics_wf m w ->
  total m (Some reporter_success) w = Some vs -> r_mutex r = false ->
  exists r' msg w',
    remote_reporter_report tracer_of r (Some span) w = Ok (r', Some span) w' /\
    queue_wf (spans r') (q ++ [msg]) /\ span_message span msg /\ message_wf msg /\
    process_named (tracer_of i) (process r) (process r') /\ r_mutex r' = false /\
    total m (Some reporter_success) w' = Some vs.
Proof.
  intros Hp Hq Hroom Hs Hc Htr Ht Hm Hwf Hv Hmu.
  assert (wp (remote_reporter_report tracer_of r (Some span)) (fun x w' => exists msg,
    x.2 = Some span /\ queue_wf (spans x.1) (q ++ [msg]) /\ span_message span msg /\
    message_wf msg /\ process_named (tracer_of i) (process r) (process x.1) /\
    r_mutex x.1 = false /\ total m (Some reporter_success) w' = Some vs) w) as H.
  { apply (remote_report_wp _ _ q _ b name i (tracer_of i) tname m vs); try done.
    intros v msg p w' _ [_ Hv'] Hq' _ Hmsg Hmw Hpr. by exists msg. }
  apply wp_returns in H as ([r' s] & w' & E & msg & Es & ?). cbn in Es. subst s. eauto 10.
Qed.

(** Reporting to the in-memory reporter, while memory lasts, appends a copy of
    the span to the spans kept, and leaves the span as it was. *)
Theorem in_memory_reporter_report_spec (env : Env) (pb : Protobuf) r span m name w :
  plenty w -> in_memory_ok r -> span_ok span m -> span_copyable span name ->
  exists r' w', in_memory_reporter_report r (Some span) w = Ok (r', Some span) w' /\
    in_memory_took span m r r'.
Proof.
  intros Hp Hr Hs Hc.
  assert (wp (in_memory_reporter_report r (Some span)) (fun x _ =>
    x.2 = Some span /\ in_memory_took span m r x.1) w) as H
    by (by apply (in_memory_report_wp r span m name)).
  apply wp_returns in H as ([r' s] & w' & E & Es & ?). cbn in Es. subst s. eauto.
Qed.


(** *** Witnesses *)

(** Every message packs to forty bytes, after ten for the process. *)
Definition sample_batches : BatchMessages :=
  {| batch_get_packed_size _ ms := 10 + 40 * lenZ ms;
     batch_pack _ ms := replicate (10 + 40 * length ms) 0;
     JAEGER__MODEL__BATCH__INIT := PbBatch None None 0;
     JAEGER__MODEL__PROCESS__INIT := PbProcess (Some []) None 0 |}.

Lemma sample_batch_laws : BatchLaws sample_batches.
Proof. split. intros p ms. cbn -[replicate Z.mul Nat.mul]. rewrite length_replicate. lia. Qed.

(** A socket that takes and remembers every datagram. *)
Definition sample_net_log : NetworkLog sample_net.
Proof.
  refine (Build_NetworkLog sample_net (fun s => s) _).
  intros s buffer a. cbn. by rewrite Z.eqb_refl.
Defined.

Definition sample_message : Jaeger__Model__Span :=
  PbSpan (BinaryData 0 None) (BinaryData 0 None) (Some (lit "get")) None 0 None 0 None 0.

(** Three spans wait, and a datagram holds two. *)
Definition sample_remote_reporter : @jaeger_remote_reporter sample_net :=
  @RemoteReporter sample_net 100 3 [] (Some sample_metrics)
    (PbProcess (Some (lit "svc")) None 0)
    (sample_vec (replicate 3 (live_span sample_message)) sizeof_ptr)
    (Some [@AddrInfo Z 1 16]) 0 false.

Lemma sample_queue_wf :
  queue_wf (spans sample_remote_reporter) (replicate 3 sample_message).
Proof.
  destruct (sample_vec_ok (replicate 3 (live_span sample_message)) sizeof_ptr) as [Hwf Ht];
    [cbn; lia|done|].
  split; [done|]. split; [done|]. split; [apply sample_vec_contents|by vm_compute].
Qed.

Lemma sample_message_wf : @message_wf sample_env sample_pb sample_message.
Proof. intros Q w HQ. exact (HQ _). Qed.

Lemma sample_sizes_int : @sizes_int sample_batches (process sample_remote_reporter)
  (replicate 3 sample_message).
Proof.
  intros i n. cbn -[replicate Z.mul take drop]. rewrite length_take, length_drop, length_replicate.
  unfold INT_MAX. lia.
Qed.

Lemma remote_reporter_flush_spec_witness :
  exists ok r' w',
    @remote_reporter_flush sample_env sample_pb sample_batches sample_net
      sample_remote_reporter metrics_world = Ok (ok, r') w' /\
    @flushed sample_batches sample_net sample_net_log sample_metrics 0 sample_remote_reporter
      (replicate 3 sample_message) ok r' w' /\ r_mutex r' = false.
Proof.
  apply (remote_reporter_flush_spec sample_env sample_pb sample_batches sample_net
    sample_batch_laws sample_net_log).
  - apply plenty_sample.
  - split; [reflexivity|]. intros _. apply sample_queue_wf.
  - apply sample_sizes_int.
  - apply Forall_replicate, sample_message_wf.
  - reflexivity.
  - apply sample_metrics_wf.
  - reflexivity.
  - reflexivity.
  - intros cs [= <-]. by repeat constructor.
  - reflexivity.
Defined.

Definition sample_identity : tracer_identity :=
  TracerIdentity (Some (lit "svc")) (sample_vec [sample_tag] 96).

(** A remote reporter with an empty queue, and no process name yet. *)
Definition new_remote_reporter : @jaeger_remote_reporter sample_net :=
  @RemoteReporter sample_net 100 3 [] (Some sample_metrics) (PbProcess None None 0)
    (sample_vec [] sizeof_ptr) (Some [@AddrInfo Z 1 16]) 0 false.

Lemma sample_tracer_ok : @tracer_ok sample_pb sample_identity (lit "svc").
Proof.
  destruct (sample_vec_ok [sample_tag] 96) as [Hwf _]; [cbn; lia|lia|].
  repeat (split; [done|]). cbn [tracer_tags sample_identity]. rewrite sample_vec_contents.
  split; [|by vm_compute]. constructor; [apply sample_tag_copyable|constructor].
Qed.

Lemma new_queue_wf : queue_wf (spans new_remote_reporter) [].
Proof.
  destruct (sample_vec_ok ([] : list span_ptr) sizeof_ptr) as [Hwf Ht]; [cbn; lia|done|].
  split; [done|]. split; [done|]. split; [apply sample_vec_contents|by vm_compute].
Qed.

Lemma remote_reporter_report_spec_witness :
  exists r' msg w',
    @remote_reporter_report sample_env sample_pb sample_messages sample_net
      (fun _ => sample_identity) new_remote_reporter (Some sample_span) metrics_world
    = Ok (r', Some sample_span) w' /\
    queue_wf (spans r') [msg] /\ span_message sample_span msg /\
    @message_wf sample_env sample_pb msg /\
    process_named sample_identity (process new_remote_reporter) (process r') /\
    r_mutex r' = false /\ total sample_metrics (Some reporter_success) w' = Some 0.
Proof.
  apply (remote_reporter_report_spec sample_env sample_pb sample_messages sample_net
    (fun _ => sample_identity) new_remote_reporter [] sample_span {[lit "k" := lit "v"]}
    (lit "get") 0%nat (lit "svc")).
  - apply plenty_sample.
  - apply new_queue_wf.
  - vm_compute. discriminate.
  - apply sample_span_ok.
  - apply sample_span_copyable.
  - reflexivity.
  - apply sample_tracer_ok.
  - reflexivity.
  - apply sample_metrics_wf.
  - reflexivity.
  - reflexivity.
Defined.

Definition sample_in_memory : jaeger_in_memory_reporter :=
  InMemoryReporter (sample_vec [] 400) false.

Lemma sample_in_memory_ok : in_memory_ok sample_in_memory.
Proof.
  split; [apply (sample_vec_ok ([] : list jaeger_span)); [cbn; lia|lia]|].
  split; [by vm_compute|done].
Qed.

Lemma in_memory_reporter_report_spec_witness :
  exists r' w',
    @in_memory_reporter_report sample_env sample_pb sample_in_memory (Some sample_span)
      initial_world = Ok (r', Some sample_span) w' /\
    @in_memory_took sample_env sample_pb sample_span {[lit "k" := lit "v"]} sample_in_memory r'.
Proof.
  apply (in_memory_reporter_report_spec sample_env sample_pb sample_in_memory sample_span
    {[lit "k" := lit "v"]} (lit "get"));
    [apply plenty_sample|apply sample_in_memory_ok|apply sample_span_ok|apply sample_span_copyable].
Defined.

Definition sample_copyable : @Copyable sample_env sample_pb sample_span :=
  @Build_Copyable sample_env sample_pb sample_span {[lit "k" := lit "v"]} (lit "get")
    sample_span_ok sample_span_copyable.

(** The null reporter, a NULL child and the in-memory reporter. *)
Definition mixed : Type := (jaeger_null_reporter + jaeger_in_memory_reporter)%type.
Definition mixed_ops : Reporter mixed :=
  @sum_reporter_ops _ _ null_reporter_ops (@in_memory_reporter_ops sample_env sample_pb).
Definition mixed_accepts : @Accepts sample_env sample_span mixed mixed_ops :=
  @sum_accepts sample_env sample_span _ _ null_reporter_ops
    (@in_memory_reporter_ops sample_env sample_pb) (@null_accepts sample_env sample_span)
    (@in_memory_accepts sample_env sample_pb sample_span sample_copyable).
Definition sample_composite : jaeger_composite_reporter mixed :=
  CompositeReporter (sample_vec [Some (inl null_reporter); None; Some (inr sample_in_memory)]
                       sizeof_ptr).


(** *** Defects *)

(** A flush that succeeds hands the queue's buffer over and leaves NULL with
    the old capacity: the next report appends at NULL and fails its
    assertion. *)
Theorem report_after_flush_asserts :
  @bind _ _ (@remote_reporter_flush sample_env sample_pb sample_batches sample_net
               sample_remote_reporter)
    (fun '(ok, r) =>
       @c_assert sample_env ok;;
       @remote_reporter_report sample_env sample_pb sample_messages sample_net
         (fun _ => sample_identity) r (Some sample_span)) metrics_world
  = Fault AssertFailed.
Proof. reflexivity. Qed.

(** A new remote reporter, given the text of an address that resolves: its
    queue is empty, its datagrams are bounded by the requested size or the
    default, and the first write will try the addresses found. *)
Theorem jaeger_remote_reporter_init_spec (env : Env) (batches : BatchMessages) (net : Network)
    hp size metrics fd s addrs w :
  plenty w -> host_port_wf hp -> no_colon hp -> short (host_port_text hp) ->
  open_socket AF_INET SOCK_DGRAM = (fd, s) -> 0 <= fd ->
  getaddrinfo (hp_host hp) (print_dec (hp_port hp)) AF_INET SOCK_DGRAM = (0, addrs) ->
  exists r w',
    jaeger_remote_reporter_init (Some (host_port_text hp)) size metrics w = Ok (Some r) w' /\
    alloc_only w w' /\ queue_wf (spans r) [] /\ r_candidates r = Some addrs /\
    max_packet_size r = (if size >? 0 then size else USHRT_MAX) /\
    r_fd r = fd /\ r_socket r = s /\ r_metrics r = metrics /\ r_mutex r = false /\
    process r = JAEGER__MODEL__PROCESS__INIT.
Proof.
  intros Hw Hwf Hc Hs Hfd Hpos Haddr.
  enough (wp (jaeger_remote_reporter_init (Some (host_port_text hp)) size metrics)
    (fun r w' => exists v, queue_wf v [] /\ alloc_only w w' /\
       r = Some (RemoteReporter net (if size >? 0 then size else USHRT_MAX)
                fd s metrics JAEGER__MODEL__PROCESS__INIT v (Some addrs) sockaddr_zero false)) w)
    as (? & w' & E & v & Hv & Hw' & ->)%wp_returns by by eexists _, w'.
  eapply remote_reporter_init_wp; try done. intros v w' Hw' Hv. by exists v.
Qed.

Lemma jaeger_remote_reporter_init_spec_witness :
  exists r w',
    @jaeger_remote_reporter_init sample_env sample_batches sample_net
      (Some (host_port_text (HostPort (Some (lit "agent")) 6831))) 0 (Some sample_metrics)
      initial_world = Ok (Some r) w' /\
    alloc_only initial_world w' /\ queue_wf (spans r) [] /\
    r_candidates r = Some [@AddrInfo Z 1 16] /\
    max_packet_size r = (if 0 >? 0 then 0 else USHRT_MAX) /\
    r_fd r = 3 /\ r_socket r = [] /\ r_metrics r = Some sample_metrics /\ r_mutex r = false /\
    process r = @JAEGER__MODEL__PROCESS__INIT sample_batches.
Proof.
  apply (jaeger_remote_reporter_init_spec sample_env sample_batches sample_net); try done.
  - exists (lit "agent"). split_and!; done.
  - intros host [= <-]. by vm_compute; repeat (apply not_elem_of_cons; split; [discriminate|]);
      apply not_elem_of_nil.
Defined.

(** An address that cannot be parsed: the cleanup calls a function pointer
    that was never set. *)
Theorem remote_reporter_init_bad_address :
  @jaeger_remote_reporter_init sample_env sample_batches sample_net (Some (lit "agent:port"))
    0 None initial_world = Fault Uninitialised.
Proof. vm_compute. reflexivity. Qed.
