(* ===== verification/Monitor.v ===== *)
(** * Objects guarded by one mutex (metrics.c, reporter.c)

    Threads that make calls on one object, each of which takes the object's
    mutex, reads the object, writes it back and gives the mutex up: a transition
    system over any number of threads, what its states have in common, and two
    of the client's objects of this kind, the counters of metrics.c in the build
    without atomic operations, and the remote reporter that finished spans are
    reported to. *)
From S2P Require Import Prelude Machine Vector CString Metrics Tag SpanContext Span Net Reporter.

(** ** Definitions *)

Section Monitor.
Context {O C : Type}.
(** What a call does to the object while it holds the mutex. *)
Context (body : C -> O -> M O).

(** A thread in a call: it waits for the mutex, it has it, it has read the
    object and is at work on what it saw, or it has written the object back. *)
Inductive call_stage :=
  | Waiting
  | Entered
  | Working (seen : O)
  | Written.

(** The calls a thread has still to return from. *)
Record caller := Caller { to_do : list C; stage : call_stage }.

(** [log]: the calls that have been written back, with their threads. *)
Record monitor := Monitor {
  mutex_owner : option nat;
  callers : list caller;
  object : O;
  machine : world;
  log : list (nat * C);
}.

(** The next step of thread [t]; [None] when it has returned from its calls, is
    blocked, or its call faults. *)
Definition monitor_step (t : nat) (s : monitor) : option monitor :=
  match callers s !! t with
  | Some (Caller (c :: cs) st) =>
      let at_stage st' := <[t := Caller (c :: cs) st']> (callers s) in
      match st with
      | Waiting =>
          match mutex_owner s with
          | None => Some (Monitor (Some t) (at_stage Entered) (object s) (machine s) (log s))
          | Some _ => None
          end
      | Entered =>
          Some (Monitor (mutex_owner s) (at_stage (Working (object s))) (object s) (machine s) (log s))
      | Working seen =>
          match body c seen (machine s) with
          | Ok o w => Some (Monitor (mutex_owner s) (at_stage Written) o w (log s ++ [(t, c)]))
          | Fault _ => None
          end
      | Written =>
          Some (Monitor None (<[t := Caller cs Waiting]> (callers s)) (object s) (machine s) (log s))
      end
  | _ => None
  end.

Definition monitor_steps (s s' : monitor) : Prop := exists t, monitor_step t s = Some s'.

Definition monitor_initial (programs : list (list C)) (o : O) (w : world) : monitor :=
  Monitor None (map (fun cs => Caller cs Waiting) programs) o w [].

Definition monitor_reachable (programs : list (list C)) (o : O) (w : world) : monitor -> Prop :=
  rtc monitor_steps (monitor_initial programs o w).

(** The same calls, one after another. *)
Fixpoint in_sequence (cs : list (nat * C)) (o : O) : M O :=
  match cs with
  | [] => ret o
  | (_, c) :: cs => o ← body c o; in_sequence cs o
  end.

(** What thread [t] has done, and has left to do: a call that is written back
    is done. *)
Definition done_by (t : nat) (l : list (nat * C)) : list C :=
  omap (fun '(u, c) => if decide (u = t) then Some c else None) l.

Definition left_to_do (th : caller) : list C :=
  match stage th with Written => tail (to_do th) | _ => to_do th end.

Definition all_returned (s : monitor) : Prop := Forall (fun th => to_do th = []) (callers s).

(** ** Lemmas *)

Lemma in_sequence_snoc cs t c o w :
  in_sequence (cs ++ [(t, c)]) o w =
  match in_sequence cs o w with Ok o' w' => body c o' w' | Fault f => Fault f end.
Proof.
  revert o w. induction cs as [|[u d] cs IH]; intros o w; cbn.
  - unfold bind, ret. by destruct (body c o w).
  - unfold bind. destruct (body d o w); [apply IH|done].
Qed.

Lemma done_by_snoc t l u c :
  done_by t (l ++ [(u, c)]) = done_by t l ++ if decide (u = t) then [c] else [].
Proof. unfold done_by. rewrite omap_app. cbn. by case_decide. Qed.

Lemma concat_map_app {A} (f g : nat -> list A) l :
  concat (map (fun x => f x ++ g x) l) ≡ₚ concat (map f l) ++ concat (map g l).
Proof.
  induction l as [|x l IH]; cbn; [done|]. rewrite IH, <-!app_assoc. f_equiv.
  by rewrite Permutation_app_swap_app.
Qed.

Lemma single_thread (c : C) u n :
  (u < n)%nat -> concat (map (fun t => if decide (u = t) then [c] else []) (seq 0 n)) = [c].
Proof.
  intros Hu. induction n as [|n IH]; [lia|]. rewrite seq_S, map_app, concat_app. cbn.
  destruct (decide (u = n)) as [->|Hne].
  - rewrite (proj2 (concat_nil_Forall _)); [done|]. apply Forall_map, Forall_forall.
    intros x Hx. apply elem_of_seq in Hx. rewrite decide_False by lia. done.
  - rewrite IH by lia. done.
Qed.

(** The log holds each thread's calls. *)
Lemma done_by_all l n :
  Forall (fun e => e.1 < n)%nat l -> concat (map (fun t => done_by t l) (seq 0 n)) ≡ₚ l.*2.
Proof.
  induction l as [|[u c] l IH]; intros Hl.
  - rewrite (proj2 (concat_nil_Forall _)); [done|]. apply Forall_map, Forall_forall. done.
  - apply Forall_cons in Hl as [Hu Hl]. cbn [fmap list_fmap snd].
    transitivity (concat (map (fun t => (if decide (u = t) then [c] else []) ++ done_by t l) (seq 0 n))).
    + apply reflexive_eq. f_equal. apply map_ext. intros t. unfold done_by. cbn.
      by case_decide.
    + rewrite concat_map_app, single_thread by done. cbn. by rewrite IH.
Qed.

(** What the object's state allows a thread at each stage. *)
Definition stage_ok (s : monitor) (t : nat) (th : caller) : Prop :=
  match stage th with
  | Waiting => mutex_owner s <> Some t
  | Entered => mutex_owner s = Some t /\ to_do th <> []
  | Working seen => mutex_owner s = Some t /\ to_do th <> [] /\ seen = object s
  | Written => mutex_owner s = Some t /\ to_do th <> []
  end.

Record monitor_inv (programs : list (list C)) (o : O) (w : world) (s : monitor) : Prop := {
  mi_serial : in_sequence (log s) o w = Ok (object s) (machine s);
  mi_stage : forall t th, callers s !! t = Some th -> stage_ok s t th;
  mi_order : forall t th, callers s !! t = Some th ->
    programs !! t = Some (done_by t (log s) ++ left_to_do th);
  mi_owner : forall t, mutex_owner s = Some t -> (t < length (callers s))%nat;
  mi_threads : length (callers s) = length programs;
  mi_log : Forall (fun e => e.1 < length programs)%nat (log s);
}.

Lemma monitor_inv_initial programs o w :
  monitor_inv programs o w (monitor_initial programs o w).
Proof.
  split; cbn; try done.
  - intros t th H. apply list_lookup_fmap_Some in H as (cs & -> & _). done.
  - intros t th H. by apply list_lookup_fmap_Some in H as (cs & -> & H).
  - by rewrite length_map.
Qed.

(** Another thread than [t] is outside, whatever [t] does. *)
Lemma stage_ok_other s t u th owner cs obj w l :
  stage_ok s u th ->
  ((mutex_owner s = None \/ mutex_owner s = Some t) /\ (owner = None \/ owner = Some t)) ->
  u <> t -> stage_ok (Monitor owner cs obj w l) u th.
Proof.
  intros Hst [Hb Ha] Hne. assert (Ho : mutex_owner s <> Some u) by (destruct Hb; congruence).
  unfold stage_ok in *. cbn. destruct (stage th) as [| |seen|].
  - destruct Ha; congruence.
  - by destruct Hst.
  - by destruct Hst.
  - by destruct Hst.
Qed.

(** A thread [t] that owns the mutex, before or after its step, moves on. *)
Lemma monitor_inv_move programs o w s t th owner th' obj w' l' :
  monitor_inv programs o w s -> callers s !! t = Some th ->
  in_sequence l' o w = Ok obj w' ->
  (mutex_owner s = None \/ mutex_owner s = Some t) ->
  (owner = None \/ owner = Some t) ->
  stage_ok (Monitor owner (<[t := th']> (callers s)) obj w' l') t th' ->
  (forall u, u <> t -> done_by u l' = done_by u (log s)) ->
  (l' = log s \/ exists c, l' = log s ++ [(t, c)]) ->
  programs !! t = Some (done_by t l' ++ left_to_do th') ->
  monitor_inv programs o w (Monitor owner (<[t := th']> (callers s)) obj w' l').
Proof.
  intros [Hser Hst Hord Hown Hlen Hlog] Ht Hs Hbefore Hafter Hok Hdone Hl' Hprog.
  pose proof (lookup_lt_Some _ _ _ Ht) as Hlt.
  split; cbn [log object machine callers mutex_owner]; [done| | | |by rewrite length_insert|].
  - intros u thu Hu. destruct (decide (u = t)) as [->|Hne].
    + rewrite list_lookup_insert_eq in Hu by done. by injection Hu as <-.
    + rewrite list_lookup_insert_ne in Hu by done. apply Hst in Hu.
      by eapply stage_ok_other.
  - intros u thu Hu. destruct (decide (u = t)) as [->|Hne].
    + rewrite list_lookup_insert_eq in Hu by done. by injection Hu as <-.
    + rewrite list_lookup_insert_ne in Hu by done. rewrite Hdone by done. by apply Hord.
  - intros u Hu. rewrite length_insert. destruct Hafter; congruence.
  - destruct Hl' as [->|[c ->]]; [done|]. apply Forall_app. split; [done|].
    apply Forall_singleton. cbn. lia.
Qed.

Lemma monitor_inv_step programs o w s s' t :
  monitor_inv programs o w s -> monitor_step t s = Some s' -> monitor_inv programs o w s'.
Proof.
  intros Hinv Hstep. unfold monitor_step in Hstep.
  destruct (callers s !! t) as [[[|c cs] st]|] eqn:Ht; try done.
  pose proof (mi_stage _ _ _ _ Hinv _ _ Ht) as Hst. pose proof (mi_order _ _ _ _ Hinv _ _ Ht) as Hord.
  pose proof (mi_serial _ _ _ _ Hinv) as Hser.
  destruct st as [| |seen|]; cbn in Hst, Hstep.
  - destruct (mutex_owner s) eqn:Eo; [done|]. injection Hstep as <-.
    eapply monitor_inv_move; [done|exact Ht|done|by left|by right| |done|by left|done]. by split.
  - injection Hstep as <-. destruct Hst as [Ho Hne].
    eapply monitor_inv_move; [done|exact Ht|done|by right|by right| |done|by left|done]. by split_and!.
  - destruct Hst as (Ho & Hne & ->).
    destruct (body c (object s) (machine s)) as [o' w'|f] eqn:E; [|done]. injection Hstep as <-.
    eapply monitor_inv_move; [done|exact Ht| |by right|by right| | |right; by eexists|].
    + by rewrite in_sequence_snoc, Hser.
    + by split.
    + intros u Hu. rewrite done_by_snoc, decide_False by done. by rewrite app_nil_r.
    + rewrite done_by_snoc, decide_True by done. rewrite Hord. cbn. by rewrite <-app_assoc.
  - injection Hstep as <-. destruct Hst as [Ho Hne].
    eapply monitor_inv_move; [done|exact Ht|done|by right|by left| |done|by left|done]. done.
Qed.

Lemma monitor_inv_reachable programs o w s :
  monitor_reachable programs o w s -> monitor_inv programs o w s.
Proof.
  intros H. eapply (rtc_ind_r (monitor_inv programs o w)); [apply monitor_inv_initial| |exact H].
  intros s1 s2 _ [t Hs] Hi. by eapply monitor_inv_step.
Qed.

(** When every thread has returned, the log is the threads' programs merged. *)
Lemma all_returned_order programs o w s t cs :
  monitor_reachable programs o w s -> all_returned s -> programs !! t = Some cs ->
  done_by t (log s) = cs.
Proof.
  intros Hr Hall Ht. pose proof (monitor_inv_reachable _ _ _ _ Hr) as Hinv.
  destruct (lookup_lt_is_Some_2 (callers s) t) as [th Hth].
  { rewrite (mi_threads _ _ _ _ Hinv). by eapply lookup_lt_Some. }
  pose proof (mi_order _ _ _ _ Hinv _ _ Hth) as Hord. rewrite Ht in Hord. injection Hord as ->.
  unfold all_returned in Hall. rewrite Forall_lookup in Hall.
  pose proof (Hall _ _ Hth) as Hdone.
  unfold left_to_do. rewrite Hdone. by destruct (stage th); rewrite app_nil_r.
Qed.

(** The calls of a state whose threads have all returned. *)
Lemma all_returned_log programs o w s :
  monitor_reachable programs o w s -> all_returned s -> (log s).*2 ≡ₚ concat programs.
Proof.
  intros Hr Hall. pose proof (monitor_inv_reachable _ _ _ _ Hr) as Hinv.
  rewrite <-(done_by_all _ _ (mi_log _ _ _ _ Hinv)). apply reflexive_eq. f_equal.
  apply list_eq. intros t. rewrite list_lookup_fmap.
  destruct (programs !! t) as [cs|] eqn:Et.
  - rewrite lookup_seq_lt by (by eapply lookup_lt_Some). cbn. f_equal.
    by eapply all_returned_order.
  - apply lookup_ge_None in Et. by rewrite lookup_seq_ge.
Qed.

(** What has been done and what is left make up the programs. *)
Lemma log_and_rest programs o w s t th :
  monitor_inv programs o w s -> callers s !! t = Some th ->
  exists rest, concat programs ≡ₚ (log s).*2 ++ left_to_do th ++ rest.
Proof.
  intros Hinv Ht. set (left u := from_option left_to_do [] (callers s !! u)).
  assert (Hp : programs = map (fun u => done_by u (log s) ++ left u) (seq 0 (length programs))).
  { apply list_eq. intros u. rewrite list_lookup_fmap.
    destruct (callers s !! u) as [thu|] eqn:Eu.
    - pose proof (lookup_lt_Some _ _ _ Eu) as Hlt. rewrite (mi_threads _ _ _ _ Hinv) in Hlt.
      rewrite lookup_seq_lt by done. cbn. unfold left. rewrite Eu. cbn.
      by apply (mi_order _ _ _ _ Hinv).
    - apply lookup_ge_None in Eu. rewrite (mi_threads _ _ _ _ Hinv) in Eu.
      rewrite lookup_seq_ge, (lookup_ge_None_2 programs) by done. done. }
  destruct (list_elem_of_split (seq 0 (length programs)) t) as (l1 & l2 & Hsplit).
  { apply elem_of_seq. apply lookup_lt_Some in Ht. rewrite (mi_threads _ _ _ _ Hinv) in Ht. lia. }
  exists (concat (map left (l1 ++ l2))). rewrite Hp, concat_map_app, done_by_all by apply Hinv.
  f_equiv. rewrite Hsplit, map_app, concat_app, map_app, concat_app. cbn [map concat].
  unfold left at 2. rewrite Ht. cbn [from_option]. by rewrite Permutation_app_swap_app.
Qed.

(** A call that is made from wherever the others leave the object, while it is
    among those still to be made. *)
Definition keeps_running (P : list (nat * C) -> O -> world -> Prop) (programs : list (list C)) :
    Prop :=
  forall l t c o w, P l o w -> (exists rest, concat programs ≡ₚ l.*2 ++ c :: rest) ->
  wp (body c o) (P (l ++ [(t, c)])) w.

(** What the calls keep holds throughout, and some thread can always go on. *)
Lemma monitor_keeps P programs o w s :
  keeps_running P programs -> P [] o w -> monitor_reachable programs o w s ->
  P (log s) (object s) (machine s) /\
  (all_returned s \/ exists t s', monitor_step t s = Some s').
Proof.
  intros Hkeep H0 Hr. assert (HP : P (log s) (object s) (machine s)).
  { apply (rtc_ind_r (R := monitor_steps) (fun s => P (log s) (object s) (machine s))
             (monitor_initial programs o w)); [done| |exact Hr].
    intros s1 s2 Hr1 [t Hs] IH.
    pose proof (monitor_inv_reachable _ _ _ _ Hr1) as Hinv.
    unfold monitor_step in Hs. destruct (callers s1 !! t) as [[[|c cs] st]|] eqn:Ht; try done.
    pose proof (mi_stage _ _ _ _ Hinv _ _ Ht) as Hst. pose proof (mi_order _ _ _ _ Hinv _ _ Ht) as Hord.
    destruct st as [| |seen|]; cbn in Hs, Hst.
    - destruct (mutex_owner s1); [done|]. by injection Hs as <-.
    - by injection Hs as <-.
    - destruct Hst as (_ & _ & ->).
      assert (Hw : wp (body c (object s1)) (P (log s1 ++ [(t, c)])) (machine s1)).
      { apply Hkeep; [done|]. destruct (log_and_rest _ _ _ _ _ _ Hinv Ht) as [rest Hrest].
        exists (cs ++ rest). exact Hrest. }
      apply wp_returns in Hw as (o' & w' & E & HPw). rewrite E in Hs. by injection Hs as <-.
    - by injection Hs as <-. }
  split; [exact HP|]. pose proof (monitor_inv_reachable _ _ _ _ Hr) as Hinv.
  destruct (mutex_owner s) as [t|] eqn:Eo.
  - right. exists t. destruct (lookup_lt_is_Some_2 (callers s) t) as [th Hth].
    { by apply (mi_owner _ _ _ _ Hinv). }
    pose proof (mi_stage _ _ _ _ Hinv _ _ Hth) as Hst. pose proof (mi_order _ _ _ _ Hinv _ _ Hth) as Hord.
    unfold monitor_step. rewrite Hth. destruct th as [[|c cs] st]; destruct st as [| |seen|];
      cbn in Hst; try done; try (by destruct Hst as [_ []]); try (by destruct Hst as (_ & [] & _));
      try (by eexists).
    destruct Hst as (_ & _ & ->).
    assert (Hw : wp (body c (object s)) (P (log s ++ [(t, c)])) (machine s)).
    { apply Hkeep; [done|]. destruct (log_and_rest _ _ _ _ _ _ Hinv Hth) as [rest Hrest].
      exists (cs ++ rest). exact Hrest. }
    apply wp_returns in Hw as (o' & w' & E & _). rewrite E. by eexists.
  - destruct (decide (Forall (fun th => to_do th = []) (callers s))) as [Hall|Hn]; [by left|].
    right. apply not_Forall_Exists in Hn; [|apply _]. apply Exists_exists in Hn as (th & Hin & Hne).
    apply list_elem_of_lookup in Hin as [t Hth]. exists t. unfold monitor_step. rewrite Hth.
    pose proof (mi_stage _ _ _ _ Hinv _ _ Hth) as Hst.
    destruct th as [[|c cs] st]; [by destruct Hne|]. unfold stage_ok in Hst. rewrite Eo in Hst |- *.
    destruct st as [| |seen|]; cbn [stage] in Hst; [by eexists|by destruct Hst..].
Qed.
End Monitor.

(** ** Counters *)

Definition INT64_MAX : Z := 9223372036854775807.

(** [c->total += delta], in the build without atomic operations. *)
Definition counter_add (delta total : Z) : M Z :=
  if (- INT64_MAX - 1 <=? total + delta) && (total + delta <=? INT64_MAX)
  then ret (total + delta) else fail IntOverflow.

Definition zsum : list Z -> Z := foldr Z.add 0.

Lemma zsum_app l k : zsum (l ++ k) = zsum l + zsum k.
Proof. induction l as [|x l IH]; cbn; [done|]. rewrite IH. lia. Qed.

#[export] Instance zsum_proper : Proper ((≡ₚ) ==> (=)) zsum.
Proof. intros l k H. induction H; cbn; lia. Qed.

Lemma zsum_nonneg l : Forall (fun d => 0 <= d) l -> 0 <= zsum l.
Proof. induction 1; cbn; lia. Qed.

Lemma counter_keeps programs total :
  0 <= total -> Forall (fun d => 0 <= d) (concat programs) ->
  total + zsum (concat programs) <= INT64_MAX ->
  keeps_running counter_add (fun l o w => o = total + zsum l.*2) programs.
Proof.
  intros Ht Hd Hmax l t c o w -> [rest Hr]. rewrite Hr, zsum_app in Hmax. cbn in Hmax.
  rewrite Hr, Forall_app, Forall_cons in Hd. destruct Hd as (Hl & Hc & Hrest).
  apply zsum_nonneg in Hl, Hrest. unfold counter_add, INT64_MAX in *.
  rewrite (proj2 (Z.leb_le _ _)), (proj2 (Z.leb_le _ _)) by lia. apply wp_ret.
  rewrite fmap_app, zsum_app. cbn. lia.
Qed.

(** ** The remote reporter *)

Section Reports.
Context {env : Env} {pb : Protobuf} {msgs : SpanMessages} {net : Network}.
Context (tracer_of : nat -> tracer_identity).

(** A finished span is reported. *)
Definition report_call (span : jaeger_span) (r : jaeger_remote_reporter)
    : M jaeger_remote_reporter :=
  ' (r, _) ← remote_reporter_report tracer_of r (Some span); ret r.

(** A span the remote reporter can convert and name the tracer of. *)
Definition convertible (span : jaeger_span) : Prop :=
  exists b name i tname, span_ok span b /\ span_copyable span name /\ tracer span = Some i /\
    tracer_ok (tracer_of i) tname.

(** The reporter after the reports of [reported] on top of a queue [q]. *)
Record has_queued (m : jaeger_metrics) (vs cap : Z) (q : list Jaeger__Model__Span)
    (reported : list jaeger_span) (r : jaeger_remote_reporter) (w : world) : Prop := {
  hq_plenty : plenty w;
  hq_metrics : r_metrics r = Some m /\ succeeded m vs w;
  hq_mutex : r_mutex r = false;
  hq_capacity : capacity (spans r) <= Z.max cap (2 * len (spans r));
  hq_queue : exists messages, queue_wf (spans r) (q ++ messages) /\
    Forall2 span_message reported messages /\ Forall message_wf messages;
}.

Lemma queue_wf_len v q : queue_wf v q -> len v = lenZ q.
Proof.
  intros (Hwf & _ & Hc & _). pose proof (length_contents _ Hwf) as H.
  by rewrite Hc, length_map in H.
Qed.

Lemma report_keeps m vs cap q programs :
  Forall convertible (concat programs) ->
  16 * (Z.max (2 * (lenZ q + lenZ (concat programs) + 1)) cap + 10) <= INT_MAX ->
  keeps_running report_call (fun l r w => has_queued m vs cap q l.*2 r w) programs.
Proof.
  intros Hconv Hmax l t span r w [Hp [Hm Hs] Hmu Hcap (messages & Hq & Hmsgs & Hwfs)] [rest Hr].
  rewrite Hr, Forall_app, Forall_cons in Hconv. destruct Hconv as (_ & Hspan & _).
  destruct Hspan as (b & name & i & tname & Hok & Hcopy & Htr & Htok).
  assert (Hlen : lenZ q + lenZ messages + 1 <= lenZ q + lenZ (concat programs)).
  { rewrite Hr, length_app. cbn. rewrite <-(Forall2_length _ _ _ Hmsgs). lia. }
  pose proof (queue_wf_len _ _ Hq) as Hl. rewrite length_app in Hl.
  unfold report_call. apply wp_bind.
  eapply (remote_report_wp tracer_of r (q ++ messages) span b name i _ tname m vs); try done.
  { lia. }
  intros v msg p w' Ha Hs' Hq' Hcap' Hmsg Hmw _. apply wp_ret.
  pose proof (queue_wf_len _ _ Hq') as Hl'. rewrite !length_app in Hl'. cbn in Hl'.
  split; [by eapply plenty_same_allocator|done|done|cbn; lia|].
  exists (messages ++ [msg]). rewrite fmap_app. split_and!.
  - by rewrite app_assoc.
  - apply Forall2_app; [done|]. by apply Forall2_cons_2; [|constructor].
  - apply Forall_app. split; [done|]. by apply Forall_singleton.
Qed.
End Reports.

(** ** Properties *)

(** No increment is lost: whatever number of threads increments a counter and
    however they interleave, the total is at every moment the sum of the
    increments that have been written back, in the end that of all, and some
    thread can always go on. *)
Theorem counter_counts_all programs total w s :
  0 <= total -> Forall (fun d => 0 <= d) (concat programs) ->
  total + zsum (concat programs) <= INT64_MAX ->
  monitor_reachable counter_add programs total w s ->
  object s = total + zsum (log s).*2 /\
  (all_returned s -> object s = total + zsum (concat programs)) /\
  (all_returned s \/ exists t s', monitor_step counter_add t s = Some s').
Proof.
  intros Ht Hd Hmax Hr.
  destruct (monitor_keeps counter_add _ programs total w s (counter_keeps _ _ Ht Hd Hmax)
              ltac:(cbn; lia) Hr) as [Ho Hstep].
  split_and!; [done| |done]. intros Hall. by rewrite Ho, (all_returned_log _ _ _ _ _ Hr Hall).
Qed.

(** C14: Threads that report spans to one remote reporter, in any interleaving and
    while memory lasts: the queue holds, after what it held, one message for
    each report that has been written back, in that order, and each with its
    span's contents; each thread's spans come in its order; when all have
    returned, every span has been queued once; and some thread can always go
    on. *)
Theorem concurrent_reports_queued (env : Env) (pb : Protobuf) (msgs : SpanMessages)
    (net : Network) tracer_of m vs q programs r w s :
  plenty w -> r_metrics r = Some m -> metrics_wf m w ->
  total m (Some reporter_success) w = Some vs -> r_mutex r = false -> queue_wf (spans r) q ->
  Forall (convertible tracer_of) (concat programs) ->
  16 * (Z.max (2 * (lenZ q + lenZ (concat programs) + 1)) (capacity (spans r)) + 10) <= INT_MAX ->
  monitor_reachable (report_call tracer_of) programs r w s ->
  (exists messages, queue_wf (spans (object s)) (q ++ messages) /\
    Forall2 span_message (log s).*2 messages /\ Forall message_wf messages) /\
  (forall t th, callers s !! t = Some th ->
     programs !! t = Some (done_by t (log s) ++ left_to_do th)) /\
  (all_returned s -> (log s).*2 ≡ₚ concat programs) /\
  (all_returned s \/ exists t s', monitor_step (report_call tracer_of) t s = Some s').
Proof.
  intros Hp Hm Hwf Hv Hmu Hq Hconv Hmax Hr.
  destruct (monitor_keeps (report_call tracer_of) _ programs r w s
              (report_keeps tracer_of m vs (capacity (spans r)) q programs Hconv Hmax)) as [Ho Hstep];
    [|done|].
  { split; [done|done|done|lia|]. exists []. by rewrite app_nil_r. }
  split_and!; [apply Ho|apply (mi_order _ _ _ _ _ (monitor_inv_reachable _ _ _ _ _ Hr))| |done].
  intros Hall. by eapply all_returned_log.
Qed.

(** ** Concrete runs *)

(** Runs the threads in the order of a schedule; a thread that cannot go on is
    passed over. *)
Fixpoint monitor_run {O C} (body : C -> O -> M O) (schedule : list nat) (s : monitor (O := O) (C := C))
    : monitor :=
  match schedule with
  | [] => s
  | t :: schedule => monitor_run body schedule (default s (monitor_step body t s))
  end.

Lemma monitor_run_reachable {O C} (body : C -> O -> M O) schedule programs o w s :
  monitor_reachable body programs o w s ->
  monitor_reachable body programs o w (monitor_run body schedule s).
Proof.
  revert s. induction schedule as [|t schedule IH]; intros s Hr; cbn; [done|]. apply IH.
  destruct (monitor_step body t s) as [s'|] eqn:E; [|done]. cbn.
  eapply rtc_r; [exact Hr|]. by exists t.
Qed.

(** Two threads: each takes its first step, one is blocked, and so on. *)
Definition sample_turns : list nat := concat (replicate 9 [0; 1; 1; 0; 0; 1]%nat).

Definition sample_counters : monitor (O := Z) (C := Z) :=
  monitor_run counter_add sample_turns
    (monitor_initial [[1; 2]; [10; 20; 30]] 100 initial_world).

Example sample_total : object sample_counters = 163 /\ all_returned sample_counters.
Proof. split; [vm_compute; reflexivity|]. vm_compute. repeat constructor. Qed.

Lemma counter_counts_all_witness :
  object sample_counters = 100 + zsum (log sample_counters).*2 /\
  (all_returned sample_counters -> object sample_counters = 100 + 63) /\
  (all_returned sample_counters \/
   exists t s', monitor_step counter_add t sample_counters = Some s').
Proof.
  apply (counter_counts_all [[1; 2]; [10; 20; 30]] 100 initial_world).
  - done.
  - repeat (constructor; [lia|]). constructor.
  - by vm_compute.
  - apply monitor_run_reachable, rtc_refl.
Defined.

Definition sample_reports : monitor (O := @jaeger_remote_reporter sample_net) (C := jaeger_span) :=
  monitor_run (@report_call sample_env sample_pb sample_messages sample_net (fun _ => sample_identity))
    sample_turns
    (monitor_initial [[sample_span; sample_span]; [sample_span]] new_remote_reporter metrics_world).

Example sample_reports_queued :
  len (spans (object sample_reports)) = 3 /\ (log sample_reports).*1 = [0; 1; 0]%nat.
Proof. vm_compute. done. Qed.

Lemma concurrent_reports_queued_witness :
  (exists messages, queue_wf (spans (object sample_reports)) messages /\
    Forall2 span_message (log sample_reports).*2 messages /\
    Forall (@message_wf sample_env sample_pb) messages) /\
  (forall t th, callers sample_reports !! t = Some th ->
     [[sample_span; sample_span]; [sample_span]] !! t =
     Some (done_by t (log sample_reports) ++ left_to_do th)) /\
  (all_returned sample_reports ->
     (log sample_reports).*2 ≡ₚ [sample_span; sample_span; sample_span]) /\
  (all_returned sample_reports \/ exists t s', monitor_step
     (@report_call sample_env sample_pb sample_messages sample_net (fun _ => sample_identity))
     t sample_reports = Some s').
Proof.
  apply (concurrent_reports_queued sample_env sample_pb sample_messages sample_net
    (fun _ => sample_identity) sample_metrics 0 [] [[sample_span; sample_span]; [sample_span]]
    new_remote_reporter metrics_world).
  - apply plenty_sample.
  - reflexivity.
  - apply sample_metrics_wf.
  - reflexivity.
  - reflexivity.
  - apply new_queue_wf.
  - cbn [concat app]. assert (@convertible sample_env sample_pb (fun _ => sample_identity) sample_span).
    { exists {[lit "k" := lit "v"]}, (lit "get"), 0%nat, (lit "svc").
      split_and!; [apply sample_span_ok|apply sample_span_copyable|reflexivity|apply sample_tracer_ok]. }
    by repeat constructor.
  - vm_compute. discriminate.
  - apply monitor_run_reachable, rtc_refl.
Defined.
