(* ===== verification/SamplerThreads.v ===== *)
(** * Threads that ask one sampler (sampler.c)

    The spans of a tracer are started by any number of threads, all of which ask
    the tracer's sampler. Here the sampler by operation, which each call
    searches and may extend under [adaptive->mutex], as an instance of the
    monitors of Monitor: what is kept however the calls interleave. And a defect
    that needs no second thread: the order of the samplers is not kept, so an
    operation can get more than one. *)
From S2P Require Import Prelude Machine Vector CString Float Clock Random Tag Sampler Monitor.

(** ** Definitions *)

(** The operation of the span that is started, and the vector for its tags. *)
Record sampler_call := Ask { asked : cstr; asked_tags : option (jaeger_vector jaeger_tag) }.

Section Calls.
Context {env : Env} {pb : Protobuf}.

(** The call made to an adaptive sampler, less its answer, which goes to the
    thread. *)
Definition adaptive_call (c : sampler_call) (s : jaeger_adaptive_sampler)
    : M jaeger_adaptive_sampler :=
  ' (_, s, _) ← jaeger_adaptive_sampler_is_sampled s (asked c) (asked_tags c);
  ret s.

(** The operations that have a sampler. *)
Definition operations (s : jaeger_adaptive_sampler) : list (option cstr) :=
  map op_name (contents (op_samplers s)).

(** ** Lemmas *)

(** What an answer does to the operations that have a sampler: none is lost,
    and the one that was asked for is the only one that can be new. *)
Lemma adaptive_answer_operations w s name d s' :
  adaptive_answer w s name d s' ->
  (forall o, o ∈ operations s -> o ∈ operations s') /\
  (forall o, o ∈ operations s' -> o ∈ operations s \/ o = Some name) /\
  (plenty w -> Some name ∈ operations s' \/ max_operations s <= len (op_samplers s)).
Proof.
  unfold operations. intros [i w1 r o g Ho Hn _ _ ->|i w1 r g g' _ _ _ _ _ ->|w1 r _ _ _ Hd ->].
  - assert (E : map op_name (<[i:=OperationSampler (Some name) g]> (contents (op_samplers s)))
            = map op_name (contents (op_samplers s))).
    { rewrite (list_fmap_insert op_name). cbn. apply list_insert_id.
      by rewrite list_lookup_fmap, Ho; cbn; rewrite Hn. }
    rewrite E. split_and!; [done|by left|]. intros _. left. rewrite <-Hn.
    apply list_elem_of_fmap. exists o. split; [done|]. by eapply list_elem_of_lookup_2.
  - rewrite map_app. cbn [map op_name].
    assert (E : map op_name (contents (op_samplers s)) = map op_name (take i (contents (op_samplers s)))
                  ++ map op_name (drop i (contents (op_samplers s)))).
    { by rewrite <-map_app, take_drop. }
    rewrite E. split_and!; [| |intros _; left].
    all: setoid_rewrite elem_of_app; setoid_rewrite elem_of_cons; tauto.
  - split_and!; [done|by left|]. intros Hp. right. by apply Hd.
Qed.

Lemma adaptive_answer_grows w s name d s' :
  adaptive_answer w s name d s' ->
  lenZ (contents (op_samplers s)) <= lenZ (contents (op_samplers s')).
Proof.
  intros [i w1 r o g _ _ _ _ ->|i w1 r g g' _ _ _ _ _ ->|w1 r _ _ _ _ ->].
  - by rewrite length_insert.
  - rewrite length_app. cbn [length]. rewrite length_take, length_drop. lia.
  - done.
Qed.

Hypothesis rand_r_range : rand_r_31 env.
Hypothesis key_create : pthread_key_create_ok = true.
Hypothesis clock : monotonic_clock env.

(** A call that can be made of any adaptive sampler. *)
Definition askable (c : sampler_call) : Prop :=
  tags_ready (asked_tags c) /\ short (asked c).

(** The sampler after the calls [calls] on [s0]. *)
Record after_calls s0 (w0 : world) (calls : list sampler_call) s (w : world) : Prop := {
  ac_progress : progress w0 w;
  ac_wf : adaptive_wf w s;
  ac_settings : settings s = settings s0;
  ac_len : len (op_samplers s0) <= len (op_samplers s)
           <= Z.max (len (op_samplers s0)) (max_operations s0);
  ac_kept : forall o, o ∈ operations s0 -> o ∈ operations s;
  ac_new : forall o, o ∈ operations s ->
    o ∈ operations s0 \/ exists c, c ∈ calls /\ o = Some (asked c);
  ac_served : plenty w0 -> Forall (fun c =>
    Some (asked c) ∈ operations s \/ max_operations s0 <= len (op_samplers s)) calls;
}.

Lemma settings_max s s' : settings s = settings s' -> max_operations s = max_operations s'.
Proof. unfold settings. congruence. Qed.

(** One more call. *)
Lemma after_one_more s0 w0 calls s w c d s' w' :
  after_calls s0 w0 calls s w -> progress w w' -> adaptive_wf w' s' -> settings s' = settings s ->
  len (op_samplers s') <= Z.max (len (op_samplers s)) (max_operations s) ->
  adaptive_answer w s (asked c) d s' -> after_calls s0 w0 (calls ++ [c]) s' w'.
Proof.
  intros [Hp Hwf Hset Hlen Hkept Hnew Hserved] Hp' Hwf' Hset' Hlen' Ha.
  apply adaptive_answer_grows in Ha as Hgrow.
  rewrite (length_contents _ (ad_vector _ _ Hwf)), (length_contents _ (ad_vector _ _ Hwf')) in Hgrow.
  apply adaptive_answer_operations in Ha as (Hk & Hn & Hs).
  pose proof (settings_max _ _ Hset) as Hmax. rewrite Hmax in *.
  split; [by etrans|done|congruence|lia|by auto| |].
  - intros o Ho. setoid_rewrite elem_of_app. destruct (Hn o Ho) as [H| ->].
    + destruct (Hnew o H) as [|(c' & Hc & ->)]; [by left|right; exists c'; by split; [left|]].
    + right. exists c. split; [right; by apply list_elem_of_singleton|done].
  - intros Hpl. apply Forall_app. split.
    + eapply Forall_impl; [by apply Hserved|]. intros c' [H|H]; [left; by apply Hk|right; lia].
    + apply Forall_singleton. destruct (Hs ltac:(by eapply plenty_progress)); [by left|right; lia].
Qed.

Lemma adaptive_call_keeps s0 w0 programs :
  adaptive_mutex s0 = false -> Forall askable (concat programs) ->
  keeps_running adaptive_call (fun l s w => after_calls s0 w0 l.*2 s w) programs.
Proof.
  intros Hm Hask l t c s w Hs [rest Hr].
  rewrite Hr, Forall_app, Forall_cons in Hask. destruct Hask as (_ & [Ht Hn] & _).
  unfold adaptive_call. apply wp_bind, adaptive_wp; [done..|apply Hs| |done|done|].
  - pose proof (ac_settings _ _ _ _ _ Hs) as E. unfold settings in E. congruence.
  - intros d tags' s' w' Hp Hwf _ Hset Hlen Ha. apply wp_ret. rewrite fmap_app.
    by eapply after_one_more.
Qed.
End Calls.

(** ** Properties *)

(** C15: Threads that ask one adaptive sampler, in any interleaving: no call faults,
    some thread can always go on, and each thread's calls are made in its order.
    At every moment the sampler is well formed with the settings it had; it has
    a sampler for every operation it had one for, and no others than for the
    operations that were asked for; it never has more than the maximum or than
    it had; and, while memory lasts, an operation that was asked for has a
    sampler of its own unless the maximum is reached. *)
Theorem concurrent_sampler_calls (env : Env) (pb : Protobuf) programs a w s :
  rand_r_31 env -> pthread_key_create_ok = true -> monotonic_clock env ->
  adaptive_wf w a -> adaptive_mutex a = false -> Forall askable (concat programs) ->
  monitor_reachable adaptive_call programs a w s ->
  after_calls a w (log s).*2 (object s) (machine s) /\
  (forall t th, callers s !! t = Some th ->
     programs !! t = Some (done_by t (log s) ++ left_to_do th)) /\
  (all_returned s -> (log s).*2 ≡ₚ concat programs) /\
  (all_returned s \/ exists t s', monitor_step adaptive_call t s = Some s').
Proof.
  intros Hr Hk Hc Hwf Hm Hask Hreach.
  destruct (monitor_keeps adaptive_call _ programs a w s
              (adaptive_call_keeps Hr Hk Hc a w programs Hm Hask)) as [Ho Hstep]; [|done|].
  { split; [done..|lia|done|by left|by constructor]. }
  split_and!; [done|apply (mi_order _ _ _ _ _ (monitor_inv_reachable _ _ _ _ _ Hreach))| |done].
  intros Hall. by eapply all_returned_log.
Qed.

(** *** The property at work *)

Definition sample_ask (name : cstr) : sampler_call := Ask name (Some sample_tags).

Definition sample_programs : list (list sampler_call) :=
  [[sample_ask (lit "put"); sample_ask (lit "get")]; [sample_ask (lit "post"); sample_ask (lit "put")]].

Definition sample_asked : monitor (O := jaeger_adaptive_sampler) (C := sampler_call) :=
  monitor_run (@adaptive_call sample_env sample_pb) sample_turns
    (monitor_initial sample_programs sample_adaptive ticked_world).

(** The two threads between them make samplers for two more operations. *)
Example sample_asked_operations :
  operations (object sample_asked) = map Some [lit "get"; lit "post"; lit "put"] /\
  all_returned sample_asked.
Proof. split; [vm_compute; reflexivity|]. vm_compute. repeat constructor. Qed.

Lemma concurrent_sampler_calls_witness :
  @after_calls sample_env sample_adaptive ticked_world (log sample_asked).*2 (object sample_asked)
    (machine sample_asked) /\
  (forall t th, callers sample_asked !! t = Some th ->
     sample_programs !! t = Some (done_by t (log sample_asked) ++ left_to_do th)) /\
  (all_returned sample_asked -> (log sample_asked).*2 ≡ₚ concat sample_programs) /\
  (all_returned sample_asked \/
   exists t s', monitor_step (@adaptive_call sample_env sample_pb) t sample_asked = Some s').
Proof.
  apply (concurrent_sampler_calls sample_env sample_pb sample_programs sample_adaptive ticked_world).
  - apply sample_rand_r.
  - reflexivity.
  - apply sample_monotonic.
  - apply sample_adaptive_wf.
  - reflexivity.
  - assert (forall name, short name -> @askable sample_pb (sample_ask name)) as H
      by (intros name Hn; split; [apply sample_tags_ready|exact Hn]).
    repeat (constructor; [apply H; vm_compute; reflexivity|]). constructor.
  - apply monitor_run_reachable, rtc_refl.
Defined.

(** *** A defect: the order of the samplers *)

(** An adaptive sampler that knows no operation yet. *)
Definition empty_adaptive : jaeger_adaptive_sampler :=
  AdaptiveSampler (Vector 0 10 (Some (replicate 10 zero_bytes)) 144)
    (ProbabilisticSampler (dconst 1 (-1))) (double_of_Z 2) 10 false.

Fixpoint ask_all {env : Env} {pb : Protobuf} (names : list cstr) (s : jaeger_adaptive_sampler)
    : M jaeger_adaptive_sampler :=
  match names with
  | [] => ret s
  | name :: names => s ← adaptive_call (Ask name None) s; ask_all names s
  end.

(** [jaeger_vector_lower_bound] inserts the third operation after the first, so
    the search misses the first when it is asked for again, and it gets a
    second sampler, with a lower bound of its own. *)
Theorem adaptive_sampler_duplicates :
  option_map operations (value (@ask_all sample_env sample_pb
    [lit "get"; lit "put"; lit "delete"; lit "get"] empty_adaptive ticked_world))
  = Some (map Some [lit "get"; lit "delete"; lit "get"; lit "put"]).
Proof. vm_compute. reflexivity. Qed.
