(* ===== verification/SpanThreads.v ===== *)
(** * Threads that share a span (span.c, span.h)

    The operations of span.c as what they do under the two mutexes of a span,
    [span->mutex] and [span->context.mutex], and threads that call them on one
    span at the same time. Reading the span and writing it back are separate
    steps, so that an operation without its mutex would lose updates; the
    acquisition of both mutexes is [jaeger_lock] as Threading models it. *)
From S2P Require Import Prelude Machine Vector CString Clock Threading Hashtable Tag SpanContext Span.

(** ** Definitions *)

(** *** Critical sections *)

(** What an operation tells its caller. *)
Inductive answer :=
  | Nothing
  | Told (b : bool)
  | Item (value : option cstr)
  | Sent (ok : bool) (message : Jaeger__Model__Span).

(** What is done under [span->mutex], under both mutexes, and to the context
    under [context.mutex]. *)
Inductive section :=
  | under_span (body : jaeger_span -> M (answer * jaeger_span))
  | under_both (body : jaeger_span -> M (answer * jaeger_span))
  | under_context (body : jaeger_span_context -> M answer).

(** What a thread does next may depend on what it was told. *)
Inductive program :=
  | Return
  | Section_ (sec : section) (rest : answer -> program).

Definition run_section (sec : section) (s : jaeger_span) : M (answer * jaeger_span) :=
  match sec with
  | under_span body | under_both body => body s
  | under_context body => a ← body (context s); ret (a, s)
  end.

(** *** The operations *)

Section Operations.
Context {env : Env} {pb : Protobuf} {msgs : SpanMessages}.

Definition silently (m : M jaeger_span) : M (answer * jaeger_span) := s ← m; ret (Nothing, s).

Definition set_operation_name_program (name : cstr) : program :=
  Section_ (under_span (fun s => silently (jaeger_span_set_operation_name s name)))
    (fun _ => Return).

Definition set_tag_program (k : cstr) (value : opentracing_value) : program :=
  let record := Section_ (under_span (fun s => silently (set_tag_locked s k value)))
                  (fun _ => Return) in
  if strcmp k JAEGERTRACINGC_SAMPLING_PRIORITY =? 0 then
    match value with
    | ot_int64 _ | ot_uint64 _ =>
        Section_ (under_both (fun s =>
                    ' (ok, s) ← jaeger_span_set_sampling_priority s value; ret (Told ok, s)))
          (fun a => match a with Told true => record | _ => Return end)
    | _ => Return
    end
  else record.

(** The timestamp has been read already, without a mutex. *)
Definition log_program (log_record : opentracing_log_record) : program :=
  Section_ (under_span (fun s => silently (log_locked s log_record))) (fun _ => Return).

Definition set_baggage_item_program (k v : cstr) : program :=
  Section_ (under_both (fun s => silently (jaeger_span_set_baggage_item s k v)))
    (fun _ => Return).

Definition baggage_item_program (k : cstr) : program :=
  Section_ (under_both (fun s => ' (v, s) ← jaeger_span_baggage_item s k; ret (Item v, s)))
    (fun _ => Return).

(** [jaeger_span_finish_with_options], the test of [jaeger_tracer_report_span],
    and the message a remote reporter makes of the span. *)
Definition finish_program (options : opentracing_finish_span_options) : program :=
  Section_ (under_span (fun s => silently (finish_locked s options))) (fun _ =>
  Section_ (under_both (fun s => ' (b, s) ← jaeger_span_is_sampled s; ret (Told b, s))) (fun a =>
  match a with
  | Told true =>
      Section_ (under_both (fun s =>
                  ' (ok, msg, s) ← jaeger_span_to_protobuf s; ret (Sent ok msg, s)))
        (fun _ => Return)
  | _ => Return
  end)).

(** Walking over the baggage. *)
Definition foreach_baggage_item_program {A} (f : A -> cstr -> cstr -> M (bool * A)) (arg : A)
    : program :=
  Section_ (under_context (fun ctx =>
              _ ← jaeger_span_context_foreach_baggage_item ctx f arg; ret Nothing))
    (fun _ => Return).
End Operations.

(** A thread makes one call after another. *)
Fixpoint after (p : program) (q : program) : program :=
  match p with
  | Return => q
  | Section_ sec rest => Section_ sec (fun a => after (rest a) q)
  end.

Definition calls (ps : list program) : program := foldr after Return ps.

(** *** The threads *)

(** The two mutexes of the span. *)
Definition span_lock : nat := 0.
Definition context_lock : nat := 1.

(** A thread in a call: it has not read the span yet, it has read it and is at
    work on what it saw, or it has written the span back. *)
Inductive stage :=
  | Before
  | Working (seen : jaeger_span)
  | After (a : answer).

Record thread := Thread { prog : program; at_stage : stage }.

(** [history]: which section each thread has written back, and what it was
    told, in order. *)
Record span_state := SpanState {
  locks : lock_state;
  threads : list thread;
  shared : jaeger_span;
  machine : world;
  history : list (nat * section * answer);
}.

(** The thread holds the mutexes of its section. *)
Definition entered (sec : section) (pc : lock_pc) : bool :=
  match sec, pc with
  | under_span _, Leaving m => bool_decide (m = span_lock)
  | under_context _, Leaving m => bool_decide (m = context_lock)
  | under_both _, Holding _ _ => true
  | _, _ => false
  end.

(** Taking one mutex. *)
Definition lock_one (t m : nat) (l : lock_state) : option lock_state :=
  match owner l !! m with
  | None => Some (LockState (<[t := Leaving m]> (pcs l)) (<[m := t]> (owner l)))
  | Some _ => None
  end.

(** [jaeger_mutex_lock] on the section's mutex, or [jaeger_lock] on both. *)
Definition acquire (t : nat) (sec : section) (pc : lock_pc) (l : lock_state) : option lock_state :=
  match pc, sec with
  | Idle, under_span _ => lock_one t span_lock l
  | Idle, under_context _ => lock_one t context_lock l
  | Idle, under_both _ =>
      Some (LockState (<[t := Locking span_lock context_lock]> (pcs l)) (owner l))
  | _, _ => jaeger_lock_step t l
  end.

(** The unlocks, [span->mutex] first. *)
Definition release (t : nat) (pc : lock_pc) (l : lock_state) : option lock_state :=
  match pc with
  | Holding _ _ =>
      Some (LockState (<[t := Leaving context_lock]> (pcs l)) (delete span_lock (owner l)))
  | Leaving m => Some (LockState (<[t := Idle]> (pcs l)) (delete m (owner l)))
  | _ => None
  end.

(** What a section reads, and what it writes. *)
Definition view (sec : section) (s : jaeger_span) : jaeger_span :=
  match sec with
  | under_context _ => set_context JAEGERTRACINGC_SPAN_INIT (context s)
  | _ => s
  end.

Definition commit (sec : section) (s' s : jaeger_span) : jaeger_span :=
  match sec with
  | under_span _ => set_context s' (context s)
  | under_both _ => s'
  | under_context _ => s
  end.

(** The next step of thread [t]; [None] when it has returned, is blocked, or
    its section faults. *)
Definition span_step (t : nat) (s : span_state) : option span_state :=
  match threads s !! t, pcs (locks s) !! t with
  | Some (Thread (Section_ sec rest) st), Some pc =>
      let goto l th := SpanState l (<[t := th]> (threads s)) in
      match st with
      | Before =>
          if entered sec pc then
            Some (goto (locks s) (Thread (Section_ sec rest) (Working (view sec (shared s))))
                    (shared s) (machine s) (history s))
          else
            l ← acquire t sec pc (locks s);
            Some (SpanState l (threads s) (shared s) (machine s) (history s))
      | Working seen =>
          match run_section sec seen (machine s) with
          | Ok (a, s') w =>
              Some (goto (locks s) (Thread (Section_ sec rest) (After a))
                      (commit sec s' (shared s)) w (history s ++ [(t, sec, a)]))
          | Fault _ => None
          end
      | After a =>
          l ← release t pc (locks s);
          match pc with
          | Leaving _ => Some (goto l (Thread (rest a) Before) (shared s) (machine s) (history s))
          | _ => Some (SpanState l (threads s) (shared s) (machine s) (history s))
          end
      end
  | _, _ => None
  end%stdpp.

Definition span_steps (s s' : span_state) : Prop := exists t, span_step t s = Some s'.

Definition span_initial (ps : list program) (span : jaeger_span) (w : world) : span_state :=
  SpanState (lock_initial (length ps)) (map (fun p => Thread p Before) ps) span w [].

Definition span_reachable (ps : list program) (span : jaeger_span) (w : world)
    : span_state -> Prop := rtc span_steps (span_initial ps span w).

(** *** The same, one section after another *)

Inductive serially : list (nat * section * answer) -> jaeger_span -> world ->
    jaeger_span -> world -> Prop :=
  | serially_nil s w : serially [] s w s w
  | serially_snoc h t sec a s w s1 w1 s2 w2 :
      serially h s w s1 w1 -> run_section sec s1 w1 = Ok (a, s2) w2 ->
      serially (h ++ [(t, sec, a)]) s w s2 w2.

(** The sections a program goes through when it is told these answers, and what
    is left of it. *)
Inductive follows : program -> list (section * answer) -> program -> Prop :=
  | follows_nil p : follows p [] p
  | follows_snoc p h sec rest a :
      follows p h (Section_ sec rest) -> follows p (h ++ [(sec, a)]) (rest a).

(** What thread [t] did. *)
Definition of_thread (t : nat) (h : list (nat * section * answer)) : list (section * answer) :=
  flat_map (fun '(u, sec, a) => if decide (u = t) then [(sec, a)] else []) h.

(** What thread [t] has left to do: a section written back is done. *)
Definition left_of (th : thread) : program :=
  match prog th, at_stage th with
  | Section_ _ rest, After a => rest a
  | p, _ => p
  end.

(** What makes a section fit the two mutexes: under [span->mutex] alone, the
    context is not written. *)
Definition section_ok (sec : section) : Prop :=
  match sec with
  | under_span body => forall s, ensures (body s) (fun r => context r.2 = context s)
  | _ => True
  end.

Inductive program_ok : program -> Prop :=
  | return_ok : program_ok Return
  | section_program_ok sec rest :
      section_ok sec -> (forall a, program_ok (rest a)) -> program_ok (Section_ sec rest).

(** ** Lemmas *)

(** *** The operations keep to their mutexes *)

Section OperationFacts.
Context {env : Env} {pb : Protobuf} {msgs : SpanMessages}.

Definition keeps_context (m : M jaeger_span) (s : jaeger_span) : Prop :=
  ensures m (fun s' => context s' = context s).

Lemma silently_keeps m s :
  keeps_context m s -> ensures (silently m) (fun r => context r.2 = context s).
Proof. intros H. eapply ensures_bind; [exact H|]. intros s' Hs. by apply ensures_ret. Qed.

(** Locks, does [f] to a span that has the same context, and unlocks. *)
Lemma locked_keeps (f : jaeger_span -> M jaeger_span) s :
  (forall m, keeps_context (f (set_mutex s m)) s) ->
  keeps_context (m ← jaeger_mutex_lock (span_mutex s); s ← f (set_mutex s m);
                 m ← jaeger_mutex_unlock (span_mutex s); ret (set_mutex s m)) s.
Proof.
  intros Hf. apply ensures_then. intros m. eapply ensures_bind; [apply Hf|].
  intros s' Hs. apply ensures_then. intros m'. by apply ensures_ret.
Qed.

Lemma log_no_locking_keeps s r : keeps_context (jaeger_span_log_no_locking s r) s.
Proof. unfold keeps_context, jaeger_span_log_no_locking. by repeat ensures_step. Qed.

Lemma log_records_keeps n rs s s0 :
  context s = context s0 -> keeps_context (log_records_loop n rs s) s0.
Proof.
  revert rs s. induction n as [|n IH]; intros [|r rs] s Hs; cbn [log_records_loop];
    try (by apply ensures_ret); [apply ensures_fail|].
  eapply ensures_bind; [apply log_no_locking_keeps|]. intros s' Hs'. apply IH. congruence.
Qed.

Lemma set_operation_name_keeps s name : keeps_context (jaeger_span_set_operation_name s name) s.
Proof.
  apply (locked_keeps (fun s => if negb (jaeger_span_is_sampled_no_locking s) then ret s else
    copy ← jaeger_strdup name;
    match copy with None => ret s | Some _ => ret (set_name s copy) end)).
  intros m. unfold keeps_context. by repeat ensures_step.
Qed.

Lemma set_tag_locked_keeps s k value : keeps_context (set_tag_locked s k value) s.
Proof.
  apply (locked_keeps (fun s => if jaeger_span_is_sampled_no_locking s
                                then jaeger_span_set_tag_no_locking s k value else ret s)).
  intros m. unfold keeps_context, jaeger_span_set_tag_no_locking. by repeat ensures_step.
Qed.

Lemma log_locked_keeps s r : keeps_context (log_locked s r) s.
Proof.
  apply (locked_keeps (fun s => if jaeger_span_is_sampled_no_locking s
                                then jaeger_span_log_no_locking s r else ret s)).
  intros m. unfold keeps_context. ensures_step; [exact (log_no_locking_keeps (set_mutex s m) r)|by apply ensures_ret].
Qed.

Lemma finish_locked_keeps s options : keeps_context (finish_locked s options) s.
Proof.
  apply (locked_keeps (fun s => if jaeger_span_is_sampled_no_locking s
                                then finish_sampled s options else ret s)).
  intros m. unfold keeps_context. ensures_step; [|by apply ensures_ret].
  unfold finish_sampled. ensures_step. ensures_step. ensures_step. do 2 ensures_step.
  by apply log_records_keeps.
Qed.

Lemma single_ok sec : section_ok sec -> program_ok (Section_ sec (fun _ => Return)).
Proof. intros H. constructor; [done|]. intros _. constructor. Qed.

Lemma set_operation_name_ok name : program_ok (set_operation_name_program name).
Proof. apply single_ok. intros s. apply silently_keeps, set_operation_name_keeps. Qed.

Lemma set_tag_ok k value : program_ok (set_tag_program k value).
Proof.
  assert (program_ok (Section_ (under_span (fun s => silently (set_tag_locked s k value)))
    (fun _ => Return))) as Hrec.
  { apply single_ok. intros s. apply silently_keeps, set_tag_locked_keeps. }
  unfold set_tag_program. destruct (_ =? 0); [|done].
  destruct value; try constructor; try done; intros [|[]| |]; try done; constructor.
Qed.

Lemma log_ok_program r : program_ok (log_program r).
Proof. apply single_ok. intros s. apply silently_keeps, log_locked_keeps. Qed.

Lemma set_baggage_item_ok k v : program_ok (set_baggage_item_program k v).
Proof. by apply single_ok. Qed.

Lemma baggage_item_ok k : program_ok (baggage_item_program k).
Proof. by apply single_ok. Qed.

Lemma finish_ok options : program_ok (finish_program options).
Proof.
  constructor; [intros s; apply silently_keeps, finish_locked_keeps|]. intros _.
  constructor; [done|]. intros [|[]| |]; try constructor. 
  all: done || (intros; constructor).
Qed.

Lemma foreach_baggage_item_ok {A} (f : A -> cstr -> cstr -> M (bool * A)) arg :
  program_ok (foreach_baggage_item_program f arg).
Proof. by apply single_ok. Qed.
End OperationFacts.

Lemma after_ok p q : program_ok p -> program_ok q -> program_ok (after p q).
Proof. induction 1; intros Hq; [done|]. constructor; auto. Qed.

Lemma calls_ok ps : Forall program_ok ps -> program_ok (calls ps).
Proof. induction 1; [constructor|]. by apply after_ok. Qed.

(** *** What holds in every reachable state *)

Definition is_both (sec : section) : bool :=
  match sec with under_both _ => true | _ => false end.

(** The mutexes a position names are the span's two. *)
Definition on_span (pc : lock_pc) : Prop :=
  match pc with
  | Locking a b | Trying a b | Unlocking a b | Yielding a b | Holding a b =>
      (a = span_lock /\ b = context_lock) \/ (a = context_lock /\ b = span_lock)
  | Idle | Leaving _ => True
  end.

(** Position and stage agree. *)
Definition stage_ok (th : thread) (pc : lock_pc) : Prop :=
  on_span pc /\
  match prog th, at_stage th with
  | Return, st => st = Before /\ pc = Idle
  | Section_ sec _, Before =>
      pc = Idle \/ entered sec pc = true \/ (is_both sec = true /\ in_jaeger_lock pc)
  | Section_ sec _, Working _ => entered sec pc = true
  | Section_ sec _, After _ =>
      entered sec pc = true \/ (is_both sec = true /\ pc = Leaving context_lock)
  end.

(** A thread at work has seen what its section reads as it is now. *)
Definition sees (th : thread) (s : jaeger_span) : Prop :=
  match prog th, at_stage th with
  | Section_ sec _, Working seen => seen = view sec s
  | _, _ => True
  end.

Record span_inv (ps : list program) (s0 : jaeger_span) (w0 : world) (s : span_state) : Prop := {
  inv_locks : lock_inv (locks s);
  inv_stage t th : threads s !! t = Some th ->
    exists pc, pcs (locks s) !! t = Some pc /\ stage_ok th pc;
  inv_sees t th : threads s !! t = Some th -> sees th (shared s);
  inv_ok t th : threads s !! t = Some th -> program_ok (prog th);
  inv_serial : serially (history s) s0 w0 (shared s) (machine s);
  inv_order t th : threads s !! t = Some th ->
    exists p, ps !! t = Some p /\ follows p (of_thread t (history s)) (left_of th);
  inv_who : Forall (fun e : nat * section * answer => (e.1.1 < length ps)%nat) (history s);
  inv_threads : length (threads s) = length ps;
  inv_pcs : length (pcs (locks s)) = length ps;
}.

Lemma of_thread_snoc t h u sec a :
  of_thread t (h ++ [(u, sec, a)])
  = of_thread t h ++ (if decide (u = t) then [(sec, a)] else []).
Proof. unfold of_thread. rewrite flat_map_app. cbn. by rewrite app_nil_r. Qed.

(** The mutexes a thread holds while it is in its section. *)
Definition needed (sec : section) : list nat :=
  match sec with
  | under_span _ => [span_lock]
  | under_both _ => [span_lock; context_lock]
  | under_context _ => [context_lock]
  end.

Lemma entered_held sec pc m :
  on_span pc -> entered sec pc = true -> m ∈ needed sec -> m ∈ held pc.
Proof.
  intros Hon He Hm. destruct sec, pc; cbn in He |- *; try done; reflect_bools; subst.
  - done.
  - cbn in Hm. rewrite !elem_of_cons in *. destruct Hon as [[-> ->]|[-> ->]]; naive_solver.
  - done.
Qed.

(** Two threads are not in sections that need the same mutex. *)
Lemma sections_exclude l t u pc pc' sec sec' m :
  lock_inv l -> pcs l !! t = Some pc -> pcs l !! u = Some pc' -> on_span pc -> on_span pc' ->
  entered sec pc = true -> entered sec' pc' = true -> m ∈ needed sec -> m ∈ needed sec' -> t = u.
Proof.
  intros Hinv Ht Hu Hon Hon' He He' Hm Hm'.
  pose proof (proj2 (lock_inv_held _ _ _ m Hinv Ht) (entered_held _ _ _ Hon He Hm)).
  pose proof (proj2 (lock_inv_held _ _ _ m Hinv Hu) (entered_held _ _ _ Hon' He' Hm')).
  congruence.
Qed.

(** What a section writes back is what it does to the span as it is. *)
Lemma commit_view sec s a s' w w' :
  section_ok sec -> run_section sec (view sec s) w = Ok (a, s') w' ->
  run_section sec s w = Ok (a, commit sec s' s) w'.
Proof.
  destruct sec as [body|body|body]; cbn [section_ok run_section view commit].
  - intros Hok H. rewrite H. f_equal. f_equal. pose proof (Hok _ _ _ _ H) as Hc. cbn in Hc.
    destruct s'. cbn in *. by rewrite Hc.
  - done.
  - intros _. unfold bind. cbn [context set_context].
    destruct (body (context s) w) as [a' w1|]; [|done]. by intros [= <- <- <-].
Qed.

(** Writing back leaves what another thread at work has seen. *)
Lemma commit_others sec sec' s s' :
  (forall m, m ∈ needed sec -> m ∈ needed sec' -> False) ->
  view sec' (commit sec s' s) = view sec' s.
Proof.
  intros Hdis. destruct sec, sec'; try done; exfalso;
    (apply (Hdis span_lock); [by left|by left]) ||
    (apply (Hdis context_lock); cbn; rewrite !elem_of_cons; by auto).
Qed.

(** *** Taking and releasing the mutexes *)

Lemma lock_one_inv t m l l' :
  lock_inv l -> pcs l !! t = Some Idle -> lock_one t m l = Some l' ->
  lock_inv l' /\ pcs l' = <[t := Leaving m]> (pcs l).
Proof.
  intros Hinv Hpc. unfold lock_one. destruct (owner l !! m) as [o|] eqn:Eo; [done|].
  intros [= <-]. split; [|done]. pose proof (fun m => lock_inv_held l t Idle m Hinv Hpc) as Hh.
  cbn in Hh. eapply lock_inv_move; [done..| |]; owner_solve.
Qed.

Lemma acquire_inv t sec pc l l' :
  lock_inv l -> pcs l !! t = Some pc -> on_span pc ->
  pc = Idle \/ (is_both sec = true /\ in_jaeger_lock pc) -> acquire t sec pc l = Some l' ->
  lock_inv l' /\ exists pc', pcs l' = <[t := pc']> (pcs l) /\ on_span pc' /\
    (entered sec pc' = true \/ (is_both sec = true /\ in_jaeger_lock pc')).
Proof.
  intros Hinv Hpc Hon [->|[Hb Hin]] H.
  - destruct sec as [body|body|body]; cbn [acquire] in H.
    + destruct (lock_one_inv _ _ _ _ Hinv Hpc H) as [? ?]. split; [done|].
      exists (Leaving span_lock). auto.
    + injection H as <-. split; [|exists (Locking span_lock context_lock); cbn; auto 6].
      pose proof (fun m => lock_inv_held l t Idle m Hinv Hpc) as Hh. cbn in Hh.
      by eapply lock_inv_move.
    + destruct (lock_one_inv _ _ _ _ Hinv Hpc H) as [? ?]. split; [done|].
      exists (Leaving context_lock). auto.
  - destruct sec as [body|body|body]; try done.
    assert (jaeger_lock_step t l = Some l') as Hr by by destruct pc.
    split; [by eapply lock_inv_run|]. unfold jaeger_lock_step in Hr. rewrite Hpc in Hr.
    destruct pc as [|a b|a b|a b|a b|a b|a]; try done; cbn in Hon;
      try destruct (owner l !! _); try done; injection Hr as <-;
      eexists; (split; [reflexivity|]); cbn; naive_solver.
Qed.

Lemma release_inv t sec pc l l' :
  lock_inv l -> pcs l !! t = Some pc -> on_span pc ->
  entered sec pc = true \/ (is_both sec = true /\ pc = Leaving context_lock) ->
  release t pc l = Some l' ->
  lock_inv l' /\ exists pc', pcs l' = <[t := pc']> (pcs l) /\
    match pc with Leaving _ => pc' = Idle | _ => is_both sec = true /\ pc' = Leaving context_lock end.
Proof.
  intros Hinv Hpc Hon He. pose proof (fun m => lock_inv_held l t pc m Hinv Hpc) as Hh.
  destruct pc as [|a b|a b|a b|a b|a b|a]; cbn [release]; try done; intros [= <-]; cbn in Hh.
  - split; [|exists (Leaving context_lock); destruct He as [He|[_ He]]; [by destruct sec|done]].
    assert (forall m, owner l !! m = Some t <-> m = span_lock \/ m = context_lock) as Hh'.
    { intros m. rewrite Hh, !elem_of_cons, elem_of_nil. cbn in Hon.
      destruct Hon as [[-> ->]|[-> ->]]; tauto. }
    eapply lock_inv_move; [done|done|done| |apply delete_other, Hh'; auto].
    intros m. rewrite lookup_delete_Some, Hh'. cbn. rewrite elem_of_cons, elem_of_nil.
    unfold span_lock, context_lock. naive_solver.
  - split; [|by exists Idle].
    eapply lock_inv_move; [done|done|done| |apply delete_other, Hh; by left]. owner_solve.
Qed.

(** *** Every step keeps the invariant *)

Section Step.
Context (ps : list program) (s0 : jaeger_span) (w0 : world).
Implicit Types (s : span_state) (th : thread).

(** Thread [t] moves; the others stay where they are. *)
Lemma span_inv_move s t th th' pc' l' sh' w' h' :
  span_inv ps s0 w0 s -> threads s !! t = Some th ->
  lock_inv l' -> pcs l' = <[t := pc']> (pcs (locks s)) -> stage_ok th' pc' ->
  sees th' sh' -> program_ok (prog th') -> serially h' s0 w0 sh' w' ->
  (forall u th, u <> t -> threads s !! u = Some th -> sees th (shared s) -> sees th sh') ->
  (forall u, u <> t -> of_thread u h' = of_thread u (history s)) ->
  Forall (fun e => (e.1.1 < length ps)%nat) h' ->
  (forall p, follows p (of_thread t (history s)) (left_of th) ->
     follows p (of_thread t h') (left_of th')) ->
  span_inv ps s0 w0 (SpanState l' (<[t := th']> (threads s)) sh' w' h').
Proof.
  intros Hinv Ht Hl Hpcs Hst Hsees Hok Hser Hothers Hh Hwho Hfol.
  pose proof (lookup_lt_Some _ _ _ Ht) as Hlt.
  assert (forall u th1, <[t := th']> (threads s) !! u = Some th1 ->
    (u = t /\ th1 = th') \/ (u <> t /\ threads s !! u = Some th1)) as Hcases.
  { intros u th1. destruct (decide (u = t)) as [->|Hne].
    - rewrite list_lookup_insert_eq by done. naive_solver.
    - rewrite list_lookup_insert_ne by done. naive_solver. }
  split; cbn [locks threads shared machine history].
  - done.
  - intros u th1 [[-> ->]|[Hne Hu]]%Hcases; rewrite Hpcs.
    + destruct (inv_stage _ _ _ _ Hinv _ _ Ht) as (pc & Hpc & _).
      exists pc'. rewrite list_lookup_insert_eq by by eapply lookup_lt_Some. done.
    + rewrite list_lookup_insert_ne by done. by apply (inv_stage _ _ _ _ Hinv).
  - intros u th1 [[-> ->]|[Hne Hu]]%Hcases; [done|].
    by eapply Hothers; [..|apply (inv_sees _ _ _ _ Hinv _ _ Hu)].
  - intros u th1 [[-> ->]|[Hne Hu]]%Hcases; [done|]. by apply (inv_ok _ _ _ _ Hinv u).
  - done.
  - intros u th1 [[-> ->]|[Hne Hu]]%Hcases.
    + destruct (inv_order _ _ _ _ Hinv _ _ Ht) as (p & Hp & Hf). exists p. auto.
    + destruct (inv_order _ _ _ _ Hinv _ _ Hu) as (p & ? & ?). exists p. by rewrite Hh.
  - done.
  - rewrite length_insert. by apply (inv_threads _ _ _ _ Hinv).
  - rewrite Hpcs, length_insert. by apply (inv_pcs _ _ _ _ Hinv).
Qed.

(** A step of the locks alone: the thread is still before its section, or past
    it. *)
Lemma span_inv_locks s t th pc' l' :
  span_inv ps s0 w0 s -> threads s !! t = Some th ->
  lock_inv l' -> pcs l' = <[t := pc']> (pcs (locks s)) -> stage_ok th pc' ->
  span_inv ps s0 w0 (SpanState l' (threads s) (shared s) (machine s) (history s)).
Proof.
  intros Hinv Ht Hl Hpcs Hst.
  rewrite <- (list_insert_id (threads s) t th Ht).
  eapply span_inv_move; try done.
  - by apply (inv_sees _ _ _ _ Hinv t).
  - by apply (inv_ok _ _ _ _ Hinv t).
  - apply (inv_serial _ _ _ _ Hinv).
  - apply (inv_who _ _ _ _ Hinv).
Qed.

Lemma span_step_inv t s s' :
  span_inv ps s0 w0 s -> span_step t s = Some s' -> span_inv ps s0 w0 s'.
Proof.
  intros Hinv H. unfold span_step in H.
  destruct (threads s !! t) as [[[|sec rest] st]|] eqn:Ht; [done| |done].
  destruct (inv_stage _ _ _ _ Hinv _ _ Ht) as (pc & Hpc & Hon & Hst). rewrite Hpc in H.
  cbn [prog at_stage] in Hst. pose proof (inv_locks _ _ _ _ Hinv) as Hl.
  pose proof (inv_ok _ _ _ _ Hinv _ _ Ht) as Hok. cbn [prog] in Hok. inv Hok.
  destruct st as [|seen|a].
  - destruct (entered sec pc) eqn:He.
    + injection H as <-. eapply span_inv_move; try done.
      * by rewrite list_insert_id.
      * by constructor.
      * apply (inv_serial _ _ _ _ Hinv).
      * apply (inv_who _ _ _ _ Hinv).
    + apply bind_Some in H as (l' & Hacq & [= <-]).
      destruct (acquire_inv _ _ _ _ _ Hl Hpc Hon ltac:(naive_solver) Hacq)
        as (Hl' & pc' & Hpcs & Hon' & Hst').
      eapply span_inv_locks; [done..|]. split; cbn; naive_solver.
  - destruct (run_section sec seen (machine s)) as [[a s1] w1|] eqn:Hrun; [|done].
    injection H as <-. pose proof (inv_sees _ _ _ _ Hinv _ _ Ht) as Hsees. cbn in Hsees.
    subst seen. apply commit_view in Hrun; [|done].
    eapply span_inv_move; try done.
    + by rewrite list_insert_id.
    + split; cbn; auto.
    + by constructor.
    + eapply serially_snoc; [apply (inv_serial _ _ _ _ Hinv)|done].
    + intros u th Hne Hu. destruct th as [[|sec' rest'] [|seen'|a']]; try done. cbn.
      intros ->. symmetry. apply commit_others. intros m Hm Hm'.
      destruct (inv_stage _ _ _ _ Hinv _ _ Hu) as (pc' & Hpc' & Hon' & He').
      cbn [prog at_stage] in He'.
      apply Hne. symmetry. by eapply (sections_exclude _ t u pc pc' sec sec' m).
    + intros u Hne. rewrite of_thread_snoc, decide_False by congruence. by rewrite app_nil_r.
    + apply Forall_app. split; [apply (inv_who _ _ _ _ Hinv)|]. constructor; [|constructor].
      apply lookup_lt_Some in Ht. by rewrite (inv_threads _ _ _ _ Hinv) in Ht.
    + intros p Hf. rewrite of_thread_snoc, decide_True by done. by constructor.
  - apply bind_Some in H as (l' & Hrel & H).
    destruct (release_inv _ _ _ _ _ Hl Hpc Hon Hst Hrel) as (Hl' & pc' & Hpcs & Hpc').
    destruct pc as [|a1 b1|a1 b1|a1 b1|a1 b1|a1 b1|a1]; try done; injection H as <-.
    + destruct Hpc' as [Hb ->]. eapply span_inv_locks; [done..|]. split; cbn; auto.
    + subst pc'. eapply span_inv_move; try done.
      * split; [done|]. cbn. destruct (rest a); auto.
      * by destruct (rest a).
      * cbn. auto.
      * apply (inv_serial _ _ _ _ Hinv).
      * apply (inv_who _ _ _ _ Hinv).
      * intros p. cbn. by destruct (rest a).
Qed.

Lemma span_inv_initial : Forall program_ok ps -> span_inv ps s0 w0 (span_initial ps s0 w0).
Proof.
  intros Hok. split; cbn.
  - apply lock_inv_initial.
  - intros t th Ht. apply list_lookup_fmap_Some in Ht as (p & -> & Hp). exists Idle. split.
    + apply lookup_replicate. split; [done|]. by eapply lookup_lt_Some.
    + split; [done|]. destruct p; cbn; auto.
  - intros t th Ht. apply list_lookup_fmap_Some in Ht as (p & -> & Hp). by destruct p.
  - intros t th Ht. apply list_lookup_fmap_Some in Ht as (p & -> & Hp).
    by eapply Forall_lookup_1 in Hp.
  - constructor.
  - intros t th Ht. apply list_lookup_fmap_Some in Ht as (p & -> & Hp). exists p.
    split; [done|]. destruct p; constructor.
  - constructor.
  - by rewrite length_map.
  - by rewrite length_replicate.
Qed.

Lemma span_inv_reachable s :
  Forall program_ok ps -> span_reachable ps s0 w0 s -> span_inv ps s0 w0 s.
Proof.
  intros Hok H. eapply (rtc_ind_r (span_inv ps s0 w0)); [by apply span_inv_initial| |exact H].
  intros s1 s2 _ [t Hs] Hi. by eapply span_step_inv.
Qed.
End Step.

(** *** Who can run *)

(** Thread [t] can take a step, or its section faults on the span as it is. *)
Definition runs_or_faults (t : nat) (s : span_state) : Prop :=
  (exists s', span_step t s = Some s') \/
  exists sec rest seen f, threads s !! t = Some (Thread (Section_ sec rest) (Working seen)) /\
    run_section sec (shared s) (machine s) = Fault f.

Lemma view_faults sec s w f :
  run_section sec (view sec s) w = Fault f -> run_section sec s w = Fault f.
Proof.
  destruct sec as [body|body|body]; cbn; try done. unfold bind.
  by destruct (body (context s) w).
Qed.

(** A thread that is not waiting for its first mutex. *)
Lemma runs_unless_waiting ps s0 w0 s t th pc :
  span_inv ps s0 w0 s -> threads s !! t = Some th -> pcs (locks s) !! t = Some pc ->
  prog th <> Return -> pc <> Idle ->
  (forall a b, pc = Locking a b -> owner (locks s) !! a = None) -> runs_or_faults t s.
Proof.
  intros Hinv Ht Hpc Hne Hidle Hwait.
  destruct (inv_stage _ _ _ _ Hinv _ _ Ht) as (pc' & Hpc' & _ & Hst).
  rewrite Hpc in Hpc'. injection Hpc' as <-.
  destruct th as [[|sec rest] [|seen|a]]; cbn [prog at_stage] in *; try done.
  - left. unfold span_step. rewrite Ht, Hpc. destruct (entered sec pc); [eauto|].
    destruct Hst as [?|[?|[Hb Hin]]]; [done..|]. destruct sec as [body|body|body]; try done.
    destruct (jaeger_lock_step_runs _ _ _ Hpc Hidle) as [[l Hl]|(a & b & u & -> & Ho)].
    + destruct pc; try done; cbn [acquire]; rewrite Hl; eauto.
    + by rewrite (Hwait a b) in Ho.
  - pose proof (inv_sees _ _ _ _ Hinv _ _ Ht) as Hsees. cbn in Hsees. subst seen.
    unfold runs_or_faults, span_step. rewrite Ht, Hpc.
    destruct (run_section _ _ _) as [[a s1] w1|f] eqn:E; [left; eauto|right].
    exists sec, rest, (view sec (shared s)), f. split; [done|]. by apply view_faults.
  - left. unfold span_step. rewrite Ht, Hpc.
    destruct Hst as [He|[_ ->]]; [|cbn; eauto].
    destruct sec, pc; try done; cbn; eauto.
Qed.

Lemma returned_idle ps s0 w0 s t th pc :
  span_inv ps s0 w0 s -> threads s !! t = Some th -> pcs (locks s) !! t = Some pc ->
  prog th = Return -> pc = Idle.
Proof.
  intros Hinv Ht Hpc Hr. destruct (inv_stage _ _ _ _ Hinv _ _ Ht) as (pc' & Hpc' & _ & Hst).
  rewrite Hpc in Hpc'. injection Hpc' as <-. rewrite Hr in Hst. tauto.
Qed.

(** Whoever holds a mutex can go on. *)
Lemma holder_runs ps s0 w0 s m u :
  span_inv ps s0 w0 s -> owner (locks s) !! m = Some u -> runs_or_faults u s.
Proof.
  intros Hinv Ho. apply (inv_owner _ (inv_locks _ _ _ _ Hinv)) in Ho as (pc & Hpc & Hm).
  destruct (lookup_lt_is_Some_2 (threads s) u) as [th Hth].
  { apply lookup_lt_Some in Hpc. pose proof (inv_threads _ _ _ _ Hinv).
    pose proof (inv_pcs _ _ _ _ Hinv). lia. }
  assert (pc <> Idle) as Hne by (intros ->; by apply not_elem_of_nil in Hm).
  eapply runs_unless_waiting; try done.
  - intros Hr. by apply Hne; eapply returned_idle.
  - intros a b ->. by apply not_elem_of_nil in Hm.
Qed.

Lemma idle_dec pc : pc = Idle \/ pc <> Idle.
Proof. destruct pc; auto. Qed.

Lemma locking_dec pc : (exists a b, pc = Locking a b) \/ ~ exists a b, pc = Locking a b.
Proof. destruct pc; (by left; eauto) || (right; by intros (? & ? & ?)). Qed.

Lemma someone_runs ps s0 w0 s t th :
  span_inv ps s0 w0 s -> threads s !! t = Some th -> prog th <> Return ->
  exists u, runs_or_faults u s.
Proof.
  intros Hinv Ht Hne. destruct (inv_stage _ _ _ _ Hinv _ _ Ht) as (pc & Hpc & Hon & Hst).
  assert (forall m, owner (locks s) !! m = None \/ exists u, runs_or_faults u s) as Hfree.
  { intros m. destruct (owner (locks s) !! m) as [u|] eqn:E; [right|by left].
    exists u. by eapply holder_runs. }
  destruct (idle_dec pc) as [->|Hidle].
  - destruct th as [[|sec rest] [|seen|a]]; cbn [prog at_stage] in *; try done;
      [|by destruct sec|by destruct Hst as [|[_ ?]]; [destruct sec|]].
    destruct sec as [body|body|body].
    + destruct (Hfree span_lock) as [Ho|]; [|done]. exists t. left. unfold span_step.
      rewrite Ht, Hpc. cbn. unfold lock_one. rewrite Ho. cbn. eauto.
    + exists t. left. unfold span_step. rewrite Ht, Hpc. cbn. eauto.
    + destruct (Hfree context_lock) as [Ho|]; [|done]. exists t. left. unfold span_step.
      rewrite Ht, Hpc. cbn. unfold lock_one. rewrite Ho. cbn. eauto.
  - destruct (locking_dec pc) as [(a & b & ->)|Hw].
    + destruct (Hfree a) as [Ho|]; [|done]. exists t. eapply runs_unless_waiting; try done.
      by intros a' b' [= <- <-].
    + exists t. eapply runs_unless_waiting; try done. intros a b ->. exfalso. eauto.
Qed.

(** *** A program on its own *)

(** What a call does when no other thread uses the span. *)
Fixpoint run_program (p : program) (s : jaeger_span) : M jaeger_span :=
  match p with
  | Return => ret s
  | Section_ sec rest => ' (a, s) ← run_section sec s; run_program (rest a) s
  end.

Lemma run_silently (f : jaeger_span -> M jaeger_span) (sec : section) s w :
  sec = under_span (fun s => silently (f s)) \/ sec = under_both (fun s => silently (f s)) ->
  run_program (Section_ sec (fun _ => Return)) s w = f s w.
Proof. intros [->| ->]; cbn; unfold silently, bind, ret; by destruct (f s w). Qed.

Section Alone.
Context {env : Env} {pb : Protobuf} {msgs : SpanMessages}.

Lemma sampling_priority_of_type s value :
  priority_of value = None -> jaeger_span_set_sampling_priority s value = ret (false, s).
Proof. by destruct value. Qed.

Lemma set_tag_alone s k value w :
  run_program (set_tag_program k value) s w = jaeger_span_set_tag s k value w.
Proof.
  set (record := fun s => set_tag_locked s k value).
  assert (forall s w, run_program (Section_ (under_span (fun s => silently (record s)))
    (fun _ => Return)) s w = set_tag_locked s k value w) as Hrec.
  { intros s1 w1. apply (run_silently record). by left. }
  unfold set_tag_program, jaeger_span_set_tag. destruct (_ =? 0); [|apply Hrec].
  destruct value; try done; cbn [run_program run_section]; unfold bind, ret;
    destruct (jaeger_span_set_sampling_priority _ _ _) as [[[] s1] w1|]; cbn [negb]; try done;
    apply Hrec.
Qed.
End Alone.

(** *** Threads that set one tag each *)

(** Who wrote, in order. *)
Definition writers (h : list (nat * section * answer)) : list nat := map (fun e => e.1.1) h.

Lemma of_thread_nil t h : of_thread t h = [] <-> t ∉ writers h.
Proof.
  induction h as [|[[u sec] a] h IH]; cbn; [by split; [intros _; apply not_elem_of_nil|]|].
  rewrite not_elem_of_cons, <- IH. case_decide; naive_solver.
Qed.

(** When no thread wrote twice, the writers are distinct. *)
Lemma writers_NoDup h :
  (forall t, (length (of_thread t h) <= 1)%nat) -> NoDup (writers h).
Proof.
  induction h as [|[[u sec] a] h IH]; intros Hone; cbn; [constructor|].
  apply NoDup_cons. split.
  - apply of_thread_nil. specialize (Hone u). cbn in Hone. rewrite decide_True in Hone by done.
    cbn in Hone. fold (of_thread u h) in Hone. destruct (of_thread u h); [done|cbn in Hone; lia].
  - apply IH. intros t. specialize (Hone t). cbn in Hone. fold (of_thread t h) in Hone.
    rewrite length_app in Hone. lia.
Qed.

(** A program of one section is before it, or behind it. *)
Lemma follows_one sec h q :
  follows (Section_ sec (fun _ => Return)) h q ->
  (h = [] /\ q = Section_ sec (fun _ => Return)) \/ (exists a, h = [(sec, a)] /\ q = Return).
Proof.
  intros H. remember (Section_ sec (fun _ => Return)) as p eqn:Hp.
  induction H as [|p h sec' rest a H IH]; [auto|]. subst p.
  destruct (IH eq_refl) as [[-> [= -> ->]]|(a' & -> & ?)]; [right; eauto|done].
Qed.

Lemma omap_lookup_from {A} (pre l : list A) :
  omap (fun i => (pre ++ l) !! i) (seq (length pre) (length l)) = l.
Proof.
  revert pre. induction l as [|x l IH]; intros pre; [done|]. cbn [length seq omap].
  specialize (IH (pre ++ [x])). rewrite length_app, Nat.add_1_r, <- app_assoc in IH.
  cbn [list_omap]. rewrite list_lookup_middle by done. f_equal. exact IH.
Qed.

Section Tags.
Context {env : Env} {pb : Protobuf}.
Context (kvs : list (cstr * opentracing_value)) (span : jaeger_span) (w : world).
Context (ordinary : Forall (fun kv => kv.1 <> JAEGERTRACINGC_SAMPLING_PRIORITY) kvs)
  (good : Forall (fun kv => field_ok (Some kv.1, kv.2)) kvs).

Definition tag_section (kv : cstr * opentracing_value) : section :=
  under_span (fun s => silently (set_tag_locked s kv.1 kv.2)).
Definition tag_programs : list program := map (fun kv => set_tag_program kv.1 kv.2) kvs.

Lemma tag_programs_lookup t p :
  tag_programs !! t = Some p ->
  exists kv, kvs !! t = Some kv /\ p = Section_ (tag_section kv) (fun _ => Return).
Proof.
  intros H. apply list_lookup_fmap_Some in H as (kv & -> & Hkv). exists kv. split; [done|].
  unfold set_tag_program. eapply Forall_lookup_1 in ordinary; [|done].
  rewrite (proj2 (Z.eqb_neq _ _)) by by rewrite strcmp_eq. done.
Qed.

(** Every section written back is the tag of the thread that wrote it. *)
Definition tag_entry (e : nat * section * answer) : Prop :=
  exists kv, kvs !! e.1.1 = Some kv /\ e.1.2 = tag_section kv.

(** The span on which [n] tags more can be set. *)
Record tag_ready (s : jaeger_span) (n : Z) : Prop := {
  ready_mutex : span_mutex s = false;
  ready_tags : vector_wf (tags s) /\ type_size (tags s) = sizeof_tag;
  ready_room : roomy_for (tags s) n;
  ready_sampled : Z.testbit (flags (context s)) 0 = true;
}.

Definition written_tags (h : list (nat * section * answer)) : list (option cstr * payload) :=
  omap field_value (map (fun kv => (Some kv.1, kv.2)) (omap (fun t => kvs !! t) (writers h))).

Lemma tags_serially h s' w' n :
  serially h span w s' w' -> plenty w -> tag_ready span n -> Forall tag_entry h ->
  lenZ h <= n ->
  plenty w' /\ tag_ready s' (n - lenZ h) /\
  map tag_value (contents (tags s')) = map tag_value (contents (tags span)) ++ written_tags h.
Proof.
  induction 1 as [|h t sec a s1 w1 s2 w2 s3 w3 Hser IH Hrun]; intros Hp Hr He Hn.
  - rewrite Z.sub_0_r. cbn. by rewrite app_nil_r.
  - apply Forall_app in He as [He Hkv]. apply Forall_singleton in Hkv as (kv & Hkv & Hsec).
    cbn [fst snd] in *. subst sec. rewrite length_app in *. cbn [length] in *.
    destruct IH as (Hp2 & [Hm [Hwf Hts] Hroom Hsam] & Htags); [done|done|done|lia|].
    pose proof (Forall_lookup_1 _ _ _ _ good Hkv) as Hf.
    assert (wp (set_tag_locked s2 kv.1 kv.2) (fun s' w' => plenty w' /\
      tag_ready s' (n - Z.of_nat (length h + 1)) /\
      map tag_value (contents (tags s'))
      = map tag_value (contents (tags s1)) ++ written_tags h ++ omap field_value [(Some kv.1, kv.2)])
      w2) as Hwp.
    { apply set_tag_locked_wp; [done|done|done|unfold roomy_for in *; lia|done|].
      intros v w' Hw' Hwf' Hts' [Hl Hc] Hv. split; [by eapply plenty_alloc_only|]. split.
      - split; cbn [tags set_tags context span_mutex]; try done. unfold roomy_for in *. lia.
      - cbn [tags set_tags]. rewrite (Hv Hp2), Hsam, Htags. by rewrite <- app_assoc. }
    apply wp_returns in Hwp as (s' & w' & E & Hp3 & Hr3 & Ht3).
    cbn [run_section tag_section] in Hrun. unfold silently, bind, ret in Hrun. rewrite E in Hrun.
    injection Hrun as <- <- <-. split_and!; [done|done|]. rewrite Ht3. f_equal.
    unfold written_tags, writers. rewrite map_app, omap_app. cbn [map omap list_omap fst].
    rewrite Hkv. by rewrite map_app, omap_app.
Qed.
Lemma tag_programs_ok : Forall program_ok tag_programs.
Proof. apply Forall_forall. intros p (kv & -> & _)%list_elem_of_fmap. apply set_tag_ok. Qed.

(** What a thread of these did: nothing yet, or its section. *)
Lemma tag_thread s t th :
  span_inv tag_programs span w s -> threads s !! t = Some th ->
  exists kv, kvs !! t = Some kv /\
    (of_thread t (history s) = [] /\ prog th <> Return \/
     exists a, of_thread t (history s) = [(tag_section kv, a)]).
Proof.
  intros Hinv Ht. destruct (inv_order _ _ _ _ Hinv _ _ Ht) as (p & Hp & Hf).
  apply tag_programs_lookup in Hp as (kv & Hkv & ->). exists kv. split; [done|].
  apply follows_one in Hf as [[-> Hq]|(a & -> & _)]; [left|right; eauto].
  split; [done|]. intros Hr. unfold left_of in Hq. by rewrite Hr in Hq.
Qed.

Lemma tag_entries s :
  span_inv tag_programs span w s ->
  Forall tag_entry (history s) /\ NoDup (writers (history s)).
Proof.
  intros Hinv.
  assert (forall t, (t < length kvs)%nat -> exists th, threads s !! t = Some th) as Hth.
  { intros t Ht. apply lookup_lt_is_Some. rewrite (inv_threads _ _ _ _ Hinv).
    unfold tag_programs. by rewrite length_map. }
  split.
  - apply Forall_forall. intros [[t sec] a] Hin.
    pose proof (proj1 (Forall_forall _ _) (inv_who _ _ _ _ Hinv) _ Hin) as Hlt. cbn in Hlt.
    unfold tag_programs in Hlt. rewrite length_map in Hlt.
    destruct (Hth t Hlt) as [th Ht].
    destruct (tag_thread s t th Hinv Ht) as (kv & Hkv & Hone).
    assert ((sec, a) ∈ of_thread t (history s)) as Hsec.
    { unfold of_thread. apply list_elem_of_In, in_flat_map. exists (t, sec, a).
      split; [by apply list_elem_of_In|]. rewrite decide_True by done. by left. }
    exists kv. split; [done|]. cbn.
    destruct Hone as [[Hn _]|[b Hb]]; rewrite ?Hn, ?Hb in Hsec.
    + by apply not_elem_of_nil in Hsec.
    + apply list_elem_of_singleton in Hsec. congruence.
  - apply writers_NoDup. intros t. destruct (decide (t < length kvs)%nat) as [Hlt|Hge].
    + destruct (Hth t Hlt) as [th Ht].
      destruct (tag_thread s t th Hinv Ht) as (kv & _ & [[-> _]|[a ->]]); cbn; lia.
    + replace (of_thread t (history s)) with (@nil (section * answer)); [cbn; lia|].
      symmetry. apply of_thread_nil. intros Hin.
      apply list_elem_of_fmap in Hin as (e & -> & He).
      pose proof (proj1 (Forall_forall _ _) (inv_who _ _ _ _ Hinv) _ He) as Hlt.
      cbn in Hlt. unfold tag_programs in Hlt. rewrite length_map in Hlt. lia.
Qed.

(** When all of them have returned, each has written. *)
Lemma all_written s :
  span_inv tag_programs span w s -> Forall (fun th => prog th = Return) (threads s) ->
  writers (history s) ≡ₚ seq 0 (length kvs).
Proof.
  intros Hinv Hret. apply NoDup_Permutation.
  - by apply tag_entries.
  - apply NoDup_seq.
  - intros t. rewrite elem_of_seq. split.
    + intros Hin. apply list_elem_of_fmap in Hin as (e & -> & He).
      pose proof (proj1 (Forall_forall _ _) (inv_who _ _ _ _ Hinv) _ He) as Hlt.
      cbn in Hlt. unfold tag_programs in Hlt. rewrite length_map in Hlt. lia.
    + intros [_ Hlt]. destruct (lookup_lt_is_Some_2 (threads s) t) as [th Ht].
      { rewrite (inv_threads _ _ _ _ Hinv). unfold tag_programs. rewrite length_map. lia. }
      destruct (tag_thread s t th Hinv Ht) as (kv & _ & [[_ Hn]|[a Ha]]).
      * by eapply Forall_lookup_1 in Hret.
      * destruct (decide (t ∈ writers (history s))) as [|Hno]; [done|].
        apply of_thread_nil in Hno. by rewrite Hno in Ha.
Qed.
End Tags.

(** ** Properties *)

(** C8: Serialisation: however any number of threads interleave their calls on one
    span, the span and the machine are what the sections written back so far
    make of them one after another, and each thread was told what it would be
    told then: no update is lost, and nothing half done is seen. Each thread's
    sections come in the order of its program. *)
Theorem span_threads_serialise ps span w s :
  Forall program_ok ps -> span_reachable ps span w s ->
  serially (history s) span w (shared s) (machine s) /\
  forall t th, threads s !! t = Some th ->
    exists p, ps !! t = Some p /\ follows p (of_thread t (history s)) (left_of th).
Proof.
  intros Hok Hr. pose proof (span_inv_reachable _ _ _ _ Hok Hr) as Hinv. split.
  - apply (inv_serial _ _ _ _ Hinv).
  - apply (inv_order _ _ _ _ Hinv).
Qed.

(** The operations of span.c fit their mutexes: what is done under
    [span->mutex] alone never writes the context. And a call that has the span
    to itself does what the function does. *)
Theorem span_programs_ok (env : Env) (pb : Protobuf) (msgs : SpanMessages) (A : Type)
    name k value log_record v options (f : A -> cstr -> cstr -> M (bool * A)) arg :
  Forall program_ok
    [set_operation_name_program name; set_tag_program k value; log_program log_record;
     set_baggage_item_program k v; baggage_item_program k; finish_program options;
     foreach_baggage_item_program f arg] /\
  forall s w,
    run_program (set_operation_name_program name) s w = jaeger_span_set_operation_name s name w /\
    run_program (set_tag_program k value) s w = jaeger_span_set_tag s k value w /\
    run_program (log_program log_record) s w = log_locked s log_record w /\
    run_program (set_baggage_item_program k v) s w = jaeger_span_set_baggage_item s k v w.
Proof.
  split.
  - repeat apply Forall_cons_2; [..|apply Forall_nil_2].
    + apply set_operation_name_ok.
    + apply set_tag_ok.
    + apply log_ok_program.
    + apply set_baggage_item_ok.
    + apply baggage_item_ok.
    + apply finish_ok.
    + apply foreach_baggage_item_ok.
  - intros s w. split_and!.
    + apply (run_silently (fun s => jaeger_span_set_operation_name s name)). auto.
    + apply set_tag_alone.
    + apply (run_silently (fun s => log_locked s log_record)). auto.
    + apply (run_silently (fun s => jaeger_span_set_baggage_item s k v)). auto.
Qed.

(** C10: Progress: while a thread has not returned from its calls, some thread can
    take a step, unless one is at a section that faults, and would on its own:
    the two mutexes never block all threads. *)
Theorem span_threads_progress ps span w s t th :
  Forall program_ok ps -> span_reachable ps span w s ->
  threads s !! t = Some th -> prog th <> Return -> exists u, runs_or_faults u s.
Proof.
  intros Hok Hr. eapply someone_runs. by apply span_inv_reachable.
Qed.

(** Exclusion: while a thread works on the span, no other works on what it
    may write: none at all on the span, and none on the context unless neither
    writes it. *)
Theorem span_threads_exclude ps span w s t u sec sec' rest rest' seen seen' :
  Forall program_ok ps -> span_reachable ps span w s -> t <> u ->
  threads s !! t = Some (Thread (Section_ sec rest) (Working seen)) ->
  threads s !! u = Some (Thread (Section_ sec' rest') (Working seen')) ->
  (forall m, m ∈ needed sec -> m ∉ needed sec') /\
  seen = view sec (shared s) /\ seen' = view sec' (shared s).
Proof.
  intros Hok Hr Hne Ht Hu. pose proof (span_inv_reachable _ _ _ _ Hok Hr) as Hinv. split.
  - intros m Hm Hm'. apply Hne.
    destruct (inv_stage _ _ _ _ Hinv _ _ Ht) as (pc & Hpc & Hon & He).
    destruct (inv_stage _ _ _ _ Hinv _ _ Hu) as (pc' & Hpc' & Hon' & He').
    by eapply (sections_exclude _ t u pc pc' sec sec' m); [apply (inv_locks _ _ _ _ Hinv)|..].
  - split; [apply (inv_sees _ _ _ _ Hinv _ _ Ht)|apply (inv_sees _ _ _ _ Hinv _ _ Hu)].
Qed.

(** C9: No ordinary tag is lost: when threads set one tag each on a sampled span,
    none of them with the key [sampling.priority], at the same time and in any
    interleaving, the span ends up, after the tags it had, with those of all the
    threads in some order, each with its key and value, while memory lasts. A
    null value is recorded as what the generated initialiser holds; only values
    of a type [opentracing_value] does not name are not recorded. The key
    [sampling.priority] is left out because setting it to zero stops the
    sampling of the span, and with it the recording of the other tags. *)
Theorem span_tags_all_recorded (env : Env) (pb : Protobuf) kvs span w s :
  Forall (fun kv => kv.1 <> JAEGERTRACINGC_SAMPLING_PRIORITY) kvs ->
  Forall (fun kv => field_ok (Some kv.1, kv.2)) kvs ->
  plenty w -> tag_ready span (lenZ kvs) -> span_reachable (tag_programs kvs) span w s ->
  Forall (fun th => prog th = Return) (threads s) ->
  exists order, order ≡ₚ kvs /\
    map tag_value (contents (tags (shared s)))
    = map tag_value (contents (tags span)) ++
      omap field_value (map (fun kv => (Some kv.1, kv.2)) order).
Proof.
  intros Hord Hgood Hp Hready Hr Hret.
  pose proof (span_inv_reachable _ _ _ _ (tag_programs_ok kvs) Hr) as Hinv.
  pose proof (all_written kvs span w Hord s Hinv Hret) as Hperm.
  exists (omap (fun t => kvs !! t) (writers (history s))). split.
  - rewrite Hperm. pose proof (omap_lookup_from [] kvs) as E. cbn [length app] in E. by rewrite E.
  - apply (tags_serially kvs span w Hgood (history s) (shared s) (machine s) (lenZ kvs)); try done.
    + apply (inv_serial _ _ _ _ Hinv).
    + apply (tag_entries kvs span w Hord s Hinv).
    + apply Permutation_length in Hperm. unfold writers in Hperm.
      rewrite length_map, length_seq in Hperm. lia.
Qed.

(** *** The properties at work *)

(** A schedule: the thread that runs next, when it can. *)
Fixpoint span_run (schedule : list nat) (s : span_state) : span_state :=
  match schedule with
  | [] => s
  | t :: schedule => span_run schedule (default s (span_step t s))
  end.

Lemma span_run_steps schedule s : rtc span_steps s (span_run schedule s).
Proof.
  revert s. induction schedule as [|t schedule IH]; intros s; [apply rtc_refl|].
  cbn. destruct (span_step t s) as [s'|] eqn:E; [|apply IH].
  eapply rtc_l; [by exists t|apply IH].
Qed.

#[local] Existing Instance sample_pb.

(** Two threads set one tag each. *)
Definition sample_tags : list (cstr * opentracing_value) :=
  [(lit "db.type", ot_string (lit "sql")); (lit "error", ot_bool true)].

Definition sample_schedule : list nat := concat (replicate 8 [0; 1; 0; 1; 1]%nat).

Definition sample_start : span_state :=
  span_initial (@tag_programs sample_env sample_pb sample_tags) sample_span initial_world.

Definition sample_end : span_state := span_run sample_schedule sample_start.

Example sample_end_tags :
  map tag_value (contents (tags (shared sample_end)))
  = map tag_value (contents (tags sample_span)) ++
    omap field_value (map (fun kv => (Some kv.1, kv.2)) sample_tags).
Proof. vm_compute. reflexivity. Qed.

(** The second thread waits for the mutex while the first one is at work. *)
Example sample_waits :
  span_step 1 (span_run [0; 0]%nat sample_start) = None.
Proof. vm_compute. reflexivity. Qed.

(** A thread that sets [sampling.priority] to zero before the other sets its tag:
    neither is recorded. *)
Example priority_stops_recording :
  let kvs := [(JAEGERTRACINGC_SAMPLING_PRIORITY, ot_int64 0); (lit "db.type", ot_bool true)] in
  let s := span_run (replicate 40 0%nat ++ replicate 40 1%nat)
             (span_initial (@tag_programs sample_env sample_pb kvs) sample_span initial_world) in
  forallb (fun th => match prog th with Return => true | _ => false end) (threads s) = true /\
  contents (tags (shared s)) = contents (tags sample_span).
Proof. vm_compute. split; reflexivity. Qed.

Lemma sample_programs_ok :
  Forall program_ok (@tag_programs sample_env sample_pb sample_tags).
Proof. apply tag_programs_ok. Qed.

Lemma span_threads_serialise_witness :
  serially (history sample_end) sample_span initial_world (shared sample_end)
    (machine sample_end) /\
  forall t th, threads sample_end !! t = Some th ->
    exists p, @tag_programs sample_env sample_pb sample_tags !! t = Some p /\
      follows p (of_thread t (history sample_end)) (left_of th).
Proof.
  apply (span_threads_serialise (@tag_programs sample_env sample_pb sample_tags)).
  - apply sample_programs_ok.
  - apply span_run_steps.
Defined.

Lemma span_threads_progress_witness :
  exists u, runs_or_faults u sample_start.
Proof.
  apply (span_threads_progress (@tag_programs sample_env sample_pb sample_tags) sample_span
    initial_world sample_start 1
    (Thread (@set_tag_program sample_env sample_pb (lit "error") (ot_bool true)) Before)).
  - apply sample_programs_ok.
  - apply rtc_refl.
  - reflexivity.
  - discriminate.
Defined.

Lemma span_tags_all_recorded_witness :
  exists order, order ≡ₚ sample_tags /\
    map tag_value (contents (tags (shared sample_end)))
    = map tag_value (contents (tags sample_span)) ++
      omap field_value (map (fun kv => (Some kv.1, kv.2)) order).
Proof.
  apply (span_tags_all_recorded sample_env sample_pb sample_tags sample_span initial_world
    sample_end).
  - repeat constructor; discriminate.
  - repeat constructor; try (intros k [= <-]); vm_compute; reflexivity.
  - apply plenty_sample.
  - split; [reflexivity|apply sample_span_ok|vm_compute; discriminate|reflexivity].
  - apply span_run_steps.
  - vm_compute. repeat constructor.
Defined.
