(* ===== verification/LockOrder.v ===== *)
(** * The order of the client's mutexes (span.c, reporter.c, sampler.c, tracer.c, metrics.c, logging.c)

    Which mutexes each operation of the client takes and gives up, in order,
    with the mutexes it takes while it holds others, and threads that run such
    sequences at the same time. A sequence that only waits for mutexes of a
    higher rank than those it holds is in order; whatever threads whose
    sequences are in order have done, they can all finish. The client's
    operations are in order, except the two places where span.c and tracer.c
    go wrong. *)
From S2P Require Import Prelude Machine.

(** ** Definitions *)

(** *** Threads that take mutexes *)

Section System.
Context {L : Type} `{EqDecision L} (rank : L -> nat).

(** [jaeger_mutex_lock], [jaeger_lock] and [jaeger_mutex_unlock]. *)
Inductive action :=
  | Lock (m : L)
  | LockBoth (m0 m1 : L)
  | Unlock (m : L).

(** Where a thread is in [jaeger_lock], as in Threading: about to lock its
    first mutex, about to try the other, the try having failed, about to yield
    and swap. [Ready]: between two actions. *)
Inductive phase :=
  | Ready
  | Locking (m0 m1 : L)
  | Trying (m0 m1 : L)
  | Unlocking (m0 m1 : L)
  | Yielding (m0 m1 : L).

Record thread := Thread {
  todo : list action;
  at_phase : phase;
  holds : list L;
}.

Definition without (m : L) (h : list L) : list L := filter (fun x => (x <> m)) h.

(** A mutex is locked while some thread holds it. *)
Definition locked (m : L) (s : list thread) : bool :=
  existsb (fun th => bool_decide (m ∈ holds th)) s.

(** The next step of a thread, among the threads [s]: [None] when it is
    blocked, when it has finished, or when it unlocks a mutex it does not hold,
    which is undefined. *)
Definition thread_step (s : list thread) (th : thread) : option thread :=
  let h := holds th in
  match todo th, at_phase th with
  | Lock m :: rest, Ready =>
      if locked m s then None else Some (Thread rest Ready (m :: h))
  | LockBoth m0 m1 :: rest, Ready => Some (Thread (todo th) (Locking m0 m1) h)
  | Unlock m :: rest, Ready =>
      if bool_decide (m ∈ h) then Some (Thread rest Ready (without m h)) else None
  | LockBoth _ _ :: _, Locking m0 m1 =>
      if locked m0 s then None else Some (Thread (todo th) (Trying m0 m1) (m0 :: h))
  | LockBoth _ _ :: rest, Trying m0 m1 =>
      if locked m1 s then Some (Thread (todo th) (Unlocking m0 m1) h)
      else Some (Thread rest Ready (m1 :: h))
  | LockBoth _ _ :: _, Unlocking m0 m1 =>
      Some (Thread (todo th) (Yielding m0 m1) (without m0 h))
  | LockBoth _ _ :: _, Yielding m0 m1 => Some (Thread (todo th) (Locking m1 m0) h)
  | _, _ => None
  end.

Definition step (t : nat) (s : list thread) : option (list thread) :=
  match s !! t with
  | Some th => match thread_step s th with Some th' => Some (<[t := th']> s) | None => None end
  | None => None
  end.

Definition steps (s s' : list thread) : Prop := exists t, step t s = Some s'.

Definition initial (programs : list (list action)) : list thread :=
  map (fun p => Thread p Ready []) programs.

Definition finished (s : list thread) : Prop := Forall (fun th => todo th = []) s.

(** A sequence of actions that starts with the mutexes [h] held: it waits only
    for mutexes above all those it holds, unlocks what it holds, and ends with
    nothing. The two mutexes of [jaeger_lock] need no order between them. *)
Fixpoint in_order (h : list L) (p : list action) : Prop :=
  match p with
  | [] => h = []
  | Lock m :: p => Forall (fun x => rank x < rank m)%nat h /\ in_order (m :: h) p
  | LockBoth a b :: p =>
      a <> b /\ Forall (fun x => rank x < rank a /\ rank x < rank b)%nat h /\
      in_order (b :: a :: h) p
  | Unlock m :: p => m ∈ h /\ in_order (without m h) p
  end.

(** ** Lemmas *)

(** *** What the threads of a system have in common *)

(** The thread's sequence is in order from where it stands. *)
Definition orderly (th : thread) : Prop :=
  match at_phase th with
  | Ready => in_order (holds th) (todo th)
  | Locking a b | Yielding a b =>
      exists x y rest, todo th = LockBoth x y :: rest /\ [a; b] ≡ₚ [x; y] /\
        in_order (holds th) (todo th)
  | Trying a b | Unlocking a b =>
      exists x y rest h, todo th = LockBoth x y :: rest /\ [a; b] ≡ₚ [x; y] /\
        holds th = a :: h /\ (a ∉ h) /\ in_order h (todo th)
  end.

(** The mutexes a thread may be waiting for. *)
Definition wanted (th : thread) : list L :=
  match todo th, at_phase th with
  | Lock m :: _, Ready => [m]
  | LockBoth a b :: _, Ready | LockBoth _ _ :: _, Locking a b => [a; b]
  | _, _ => []
  end.

(** What is left to do, in steps of [jaeger_lock]. *)
Definition weight (th : thread) : nat :=
  4 * length (todo th) +
  match at_phase th with
  | Trying _ _ => 3 | Unlocking _ _ => 2 | Yielding _ _ => 1 | Ready | Locking _ _ => 0
  end.

Definition total (s : list thread) : nat := sum_list_with weight s.

Lemma without_notin m h : m ∉ h -> without m h = h.
Proof.
  intros Hm. unfold without. induction h as [|x h IH]; [done|].
  rewrite not_elem_of_cons in Hm. rewrite filter_cons_True by (intros ->; tauto).
  f_equal. apply IH. tauto.
Qed.

Lemma without_head m h : m ∉ h -> without m (m :: h) = h.
Proof.
  intros Hm. unfold without. rewrite filter_cons_False by naive_solver.
  by apply without_notin.
Qed.

Lemma perm_pair {A} (a b x y : A) : [a; b] ≡ₚ [x; y] -> (a = x /\ b = y) \/ (a = y /\ b = x).
Proof.
  intros H. apply Permutation_length_2_inv in H as [H|H]; injection H; intros; subst; auto.
Qed.

(** Being in order does not depend on the order in which mutexes were taken. *)
Lemma in_order_perm p h h' : h ≡ₚ h' -> in_order h p -> in_order h' p.
Proof.
  revert h h'. induction p as [|[m|a b|m] p IH]; intros h h' Hh; cbn.
  - intros ->. by apply Permutation_nil_l in Hh.
  - intros [Hf Hp]. split; [by rewrite <-Hh|]. eapply IH; [|done]. by rewrite Hh.
  - intros (? & Hf & Hp). split_and!; [done|by rewrite <-Hh|]. eapply IH; [|done]. by rewrite Hh.
  - intros [Hm Hp]. split; [by rewrite <-Hh|]. eapply IH; [|done].
    unfold without. by rewrite Hh.
Qed.

Lemma fresh_above h m : Forall (fun x => rank x < rank m)%nat h -> m ∉ h.
Proof. rewrite Forall_forall. intros Hf Hm. specialize (Hf _ Hm). lia. Qed.

(** The clauses of [in_order] for [jaeger_lock], whichever mutex comes first. *)
Lemma in_order_both h x y p a b :
  in_order h (LockBoth x y :: p) -> [a; b] ≡ₚ [x; y] ->
  a <> b /\ (a ∉ h) /\ (b ∉ h) /\ in_order (b :: a :: h) p /\
  Forall (fun z => rank z < rank a /\ rank z < rank b)%nat h.
Proof.
  cbn. intros (Hne & Hf & Hp) Hab. apply perm_pair in Hab as [[-> ->]|[-> ->]].
  - split_and!; [done|..|done|done]; apply fresh_above; eapply Forall_impl; try done; cbn; lia.
  - split_and!; [done|..].
    1,2: apply fresh_above; eapply Forall_impl; try done; cbn; lia.
    + eapply in_order_perm; [|done]. constructor.
    + eapply Forall_impl; [done|]. cbn. lia.
Qed.

Lemma thread_step_orderly s th th' :
  orderly th -> thread_step s th = Some th' -> orderly th'.
Proof.
  destruct th as [p ph h]. unfold orderly, thread_step. cbn [at_phase todo holds].
  destruct ph as [|a b|a b|a b|a b].
  - destruct p as [|[m|x y|m] p]; [done|..]; cbn -[in_order without].
    + intros [_ Hp]. destruct (locked m s); [done|]. by intros [= <-].
    + intros Hp [= <-]. cbn -[in_order without]. eauto 7.
    + intros [Hm Hp]. case_bool_decide; [|done]. by intros [= <-].
  - intros (x & y & rest & -> & Hab & Hp). destruct (locked a s); [done|].
    intros [= <-]. cbn -[in_order without]. destruct (in_order_both _ _ _ _ _ _ Hp Hab) as (?&?&?&?&?).
    eauto 10.
  - intros (x & y & rest & h' & -> & Hab & -> & Ha & Hp).
    destruct (in_order_both _ _ _ _ _ _ Hp Hab) as (?&?&?&?&?).
    destruct (locked b s); intros [= <-]; cbn -[in_order without]; [eauto 10|done].
  - intros (x & y & rest & h' & -> & Hab & -> & Ha & Hp) [= <-]. cbn -[in_order without].
    rewrite without_head by done. eauto 10.
  - intros (x & y & rest & -> & Hab & Hp) [= <-]. cbn -[in_order without].
    exists x, y, rest. split_and!; [done| |done]. rewrite <-Hab. constructor.
Qed.

Lemma step_orderly t s s' : Forall orderly s -> step t s = Some s' -> Forall orderly s'.
Proof.
  unfold step. intros Hs Hstep. destruct (s !! t) as [th|] eqn:Ht; [|done].
  destruct (thread_step s th) as [th'|] eqn:E; [|done]. injection Hstep as <-.
  apply Forall_insert; [done|]. eapply thread_step_orderly; [|done]. by eapply Forall_lookup_1.
Qed.

Lemma steps_orderly s s' : Forall orderly s -> rtc steps s s' -> Forall orderly s'.
Proof. intros Hs H. induction H as [|s1 s2 s3 [t Ht] _ IH]; eauto using step_orderly. Qed.

Lemma initial_orderly programs :
  Forall (in_order []) programs -> Forall orderly (initial programs).
Proof. intros Hp. apply Forall_map. eapply Forall_impl; [done|]. done. Qed.

(** *** Some thread can always get further *)

Lemma total_insert s t th th' :
  s !! t = Some th -> (total (<[t := th']> s) + weight th = total s + weight th')%nat.
Proof.
  unfold total. revert t. induction s as [|x s IH]; intros [|t] Ht; try done; cbn -[weight] in *.
  - injection Ht as ->. lia.
  - specialize (IH _ Ht). unfold insert in *. lia.
Qed.

(** A thread that gets further by one step. *)
Lemma one_step s t th th' :
  s !! t = Some th -> thread_step s th = Some th' -> (weight th' < weight th)%nat ->
  exists s', rtc steps s s' /\ (total s' < total s)%nat.
Proof.
  intros Ht Hs Hw. exists (<[t := th']> s).
  split; [|pose proof (total_insert s t th th' Ht); lia].
  apply rtc_once. exists t. unfold step. by rewrite Ht, Hs.
Qed.

Lemma locked_insert m s t th th' :
  s !! t = Some th -> (m ∈ holds th' -> m ∈ holds th) -> locked m s = false ->
  locked m (<[t := th']> s) = false.
Proof.
  intros Ht Hh. unfold locked. rewrite <-!not_true_iff_false, !existsb_exists. intros Hn (x & Hx & Hm).
  apply list_elem_of_In, list_elem_of_lookup in Hx as [i Hi].
  apply bool_decide_eq_true in Hm. apply Hn.
  apply list_lookup_insert_Some in Hi as [(<- & -> & _)|[_ Hi]].
  - exists th. split; [by apply list_elem_of_In, list_elem_of_lookup_2 with t|].
    apply bool_decide_eq_true. auto.
  - exists x. split; [by apply list_elem_of_In, list_elem_of_lookup_2 with i|].
    by apply bool_decide_eq_true.
Qed.

(** [jaeger_lock] returns if nobody holds either mutex. *)
Lemma locks_both s t x y rest a b h :
  s !! t = Some (Thread (LockBoth x y :: rest) (Locking a b) h) ->
  a <> b -> locked a s = false -> locked b s = false ->
  exists s', rtc steps s s' /\ (total s' < total s)%nat.
Proof.
  intros Ht Hab Ha' Hb'. pose proof (lookup_lt_Some _ _ _ Ht) as Hlt.
  set (th1 := Thread (LockBoth x y :: rest) (Trying a b) (a :: h)).
  set (th2 := Thread rest Ready (b :: a :: h)).
  exists (<[t := th2]> (<[t := th1]> s)). split.
  - eapply rtc_l; [|apply rtc_once].
    + exists t. unfold step, thread_step. rewrite Ht. cbn. by rewrite Ha'.
    + exists t. unfold step, thread_step. rewrite list_lookup_insert_eq by done. cbn.
      change (Thread _ (Trying a b) (a :: h)) with th1.
      rewrite (locked_insert b s t _ th1 Ht); [done| |done].
      cbn. rewrite elem_of_cons. naive_solver.
  - rewrite list_insert_insert_eq. pose proof (total_insert s t _ th2 Ht). cbn in *. lia.
Qed.

(** A thread that is not blocked gets further. *)
Lemma gets_further s t th :
  s !! t = Some th -> orderly th -> todo th <> [] ->
  Forall (fun m => locked m s = false) (wanted th) ->
  exists s', rtc steps s s' /\ (total s' < total s)%nat.
Proof.
  intros Ht Ho Hne Hw. pose proof (lookup_lt_Some _ _ _ Ht) as Hlt.
  destruct th as [p ph h]. unfold orderly in Ho. cbn [at_phase todo holds] in Ho, Hne.
  destruct ph as [|a b|a b|a b|a b].
  - destruct p as [|[m|x y|m] p]; [done|..].
    + apply Forall_cons in Hw as [Hm _]. eapply one_step; [done|cbn; by rewrite Hm|cbn; lia].
    + cbn in Ho. destruct Ho as (Hxy & _ & _). cbn in Hw.
      apply Forall_cons in Hw as [Hx [Hy _]%Forall_cons].
      set (th' := Thread (LockBoth x y :: p) (Locking x y) h).
      destruct (locks_both (<[t := th']> s) t x y p x y h) as (s' & Hs & Htot);
        [by apply list_lookup_insert_eq|done|by eapply locked_insert..|].
      exists s'. split; [eapply rtc_l; [|exact Hs]; exists t; unfold step; by rewrite Ht|].
      pose proof (total_insert s t _ th' Ht) as Hins. unfold weight in Hins. cbn [th' todo at_phase] in Hins. lia.
    + destruct Ho as [Hm _]. eapply one_step; [done|cbn; by rewrite bool_decide_eq_true_2|cbn; lia].
  - destruct Ho as (x & y & rest & -> & Hab & Ho).
    apply in_order_both with (a := a) (b := b) in Ho as (Hne' & _); [|done].
    cbn in Hw. apply Forall_cons in Hw as [Hx [Hy _]%Forall_cons]. by eapply locks_both.
  - destruct Ho as (x & y & rest & h' & -> & _). destruct (locked b s) eqn:E;
      (eapply one_step; [done|cbn; by rewrite E|cbn; lia]).
  - destruct Ho as (x & y & rest & h' & -> & _). by eapply one_step; [done..|cbn; lia].
  - destruct Ho as (x & y & rest & -> & _). by eapply one_step; [done..|cbn; lia].
Qed.

Lemma both_above h a b m x :
  Forall (fun z => rank z < rank a /\ rank z < rank b)%nat h -> m ∈ [a; b] -> x ∈ h ->
  (rank x < rank m)%nat.
Proof.
  rewrite Forall_forall, elem_of_cons, list_elem_of_singleton.
  intros Hf [-> | ->] Hx; apply Hf, Hx.
Qed.

(** What a thread waits for ranks above all it holds. *)
Lemma wanted_above th m x :
  orderly th -> m ∈ wanted th -> x ∈ holds th -> (rank x < rank m)%nat.
Proof.
  intros Ho Hm Hx. destruct th as [p ph h]. unfold orderly, wanted in *.
  cbn [at_phase todo holds] in *.
  destruct ph as [|a b|a b|a b|a b], p as [|[l|c d|l] p]; try (by apply not_elem_of_nil in Hm).
  - destruct Ho as [Hf _]. apply list_elem_of_singleton in Hm as ->.
    by apply (proj1 (Forall_forall _ _) Hf).
  - destruct (in_order_both _ _ _ _ _ _ Ho (Permutation_refl _)) as (_ & _ & _ & _ & Hf).
    by eapply both_above.
  - destruct Ho as (x' & y' & rest & [= -> -> ->] & Hab & Ho).
    destruct (in_order_both _ _ _ _ _ _ Ho Hab) as (_ & _ & _ & _ & Hf).
    by eapply both_above.
Qed.

(** A thread that has finished holds nothing. *)
Lemma holder_unfinished th m : orderly th -> m ∈ holds th -> todo th <> [].
Proof.
  intros Ho Hm Hp. destruct th as [p ph h]. unfold orderly in Ho. cbn in *. subst p.
  destruct ph; [cbn in Ho; subst; by apply not_elem_of_nil in Hm|naive_solver..].
Qed.

Definition blocked (s : list thread) (th : thread) : Prop :=
  Exists (fun m => locked m s = true) (wanted th).

(** If every thread that has not finished is blocked, then some thread waits for
    a mutex of any rank: the holder of the mutex a thread waits for is itself
    blocked, on a higher one. *)
Lemma blocked_chain s :
  Forall orderly s -> Forall (fun th => todo th <> [] -> blocked s th) s -> ~ finished s ->
  forall k, exists th m, th ∈ s /\ m ∈ wanted th /\ locked m s = true /\ (k <= rank m)%nat.
Proof.
  intros Ho Hb Hf. rewrite Forall_forall in Ho, Hb. induction k as [|k IH].
  - unfold finished in Hf. apply not_Forall_Exists in Hf; [|intros ?; apply _].
    apply Exists_exists in Hf as (th & Hth & Hne).
    apply Hb, Exists_exists in Hne as (m & ? & ?); [|done]. exists th, m. split_and!; auto with lia.
  - destruct IH as (th & m & Hth & Hm & Hl & Hk). unfold locked in Hl.
    apply existsb_exists in Hl as (u & Hu & Hmu). apply list_elem_of_In in Hu.
    apply bool_decide_eq_true in Hmu.
    pose proof (holder_unfinished _ _ (Ho _ Hu) Hmu) as Hne.
    apply Hb, Exists_exists in Hne as (m' & Hm' & Hl'); [|done].
    pose proof (wanted_above _ _ _ (Ho _ Hu) Hm' Hmu). exists u, m'. split_and!; auto with lia.
Qed.

Lemma some_thread_free s :
  Forall orderly s -> ~ finished s ->
  exists t th, s !! t = Some th /\ todo th <> [] /\
    Forall (fun m => locked m s = false) (wanted th).
Proof.
  intros Ho Hf.
  destruct (decide (Forall (fun th => todo th <> [] -> blocked s th) s)) as [Hb|Hb].
  - destruct (blocked_chain s Ho Hb Hf
      (S (max_list (map rank (concat (map wanted s)))))) as (th & m & Hth & Hm & _ & Hk).
    assert (rank m <= max_list (map rank (concat (map wanted s))))%nat; [|lia].
    apply max_list_elem_of_le, list_elem_of_fmap. exists m. split; [done|].
    apply list_elem_of_In, in_concat. exists (wanted th).
    split; [apply in_map|]; by apply list_elem_of_In.
  - apply not_Forall_Exists in Hb; [|intros ?; apply _].
    apply Exists_exists in Hb as (th & Hth & Hn). apply list_elem_of_lookup in Hth as [t Ht].
    exists t, th. split; [done|]. unfold blocked in Hn.
    destruct (decide (todo th = [])); [naive_solver|]. split; [done|].
    apply Forall_forall. intros m Hm. apply not_true_iff_false. intros Hl.
    apply Hn. intros _. apply Exists_exists. eauto.
Qed.

Lemma can_finish s : Forall orderly s -> exists s', rtc steps s s' /\ finished s'.
Proof.
  induction s as [s IH] using (well_founded_induction
    (well_founded_ltof _ total)). intros Ho.
  destruct (decide (finished s)) as [Hf|Hf]; [by exists s|].
  destruct (some_thread_free s Ho Hf) as (t & th & Ht & Hne & Hw).
  destruct (gets_further s t th Ht) as (s1 & Hs1 & Hlt); [by eapply Forall_lookup_1|done..|].
  destruct (IH s1 Hlt) as (s2 & Hs2 & Hf2); [by eapply steps_orderly|].
  exists s2. split; [by etrans|done].
Qed.

(** *** Building sequences in order *)

(** Acquiring one mutex, or two with [jaeger_lock], around a body. *)
Definition critical (m : L) (body : list action) : list action := Lock m :: body ++ [Unlock m].

Definition both (m0 m1 : L) (body : list action) : list action :=
  LockBoth m0 m1 :: body ++ [Unlock m0; Unlock m1].

(** A sequence that is in order while [h] is held, and holds [h] again at its
    end. *)
Definition neutral (h : list L) (p : list action) : Prop :=
  forall q, in_order h q -> in_order h (p ++ q).

Lemma neutral_nil h : neutral h [].
Proof. by intros q Hq. Qed.

Lemma neutral_app h p p' : neutral h p -> neutral h p' -> neutral h (p ++ p').
Proof. intros Hp Hp' q Hq. rewrite <-app_assoc. by apply Hp, Hp'. Qed.

Lemma neutral_concat h ps : Forall (neutral h) ps -> neutral h (concat ps).
Proof. induction 1; [apply neutral_nil|by apply neutral_app]. Qed.

Lemma neutral_critical h m body :
  Forall (fun x => rank x < rank m)%nat h -> neutral (m :: h) body ->
  neutral h (critical m body).
Proof.
  intros Hm Hb q Hq. cbn -[without]. split; [done|]. rewrite <-app_assoc. apply Hb.
  cbn -[without]. rewrite without_head by (by apply fresh_above). split; [left|done].
Qed.

Lemma without_two a b h : a <> b -> a ∉ h -> without a (b :: a :: h) = b :: h.
Proof.
  intros Hab Ha. unfold without. rewrite filter_cons_True by congruence.
  f_equal. by apply without_head.
Qed.

Lemma neutral_unlocks h a b body (swapped : bool) :
  a <> b -> Forall (fun x => rank x < rank a /\ rank x < rank b)%nat h ->
  neutral (b :: a :: h) body ->
  neutral h (LockBoth a b :: body ++ if swapped then [Unlock b; Unlock a] else [Unlock a; Unlock b]).
Proof.
  intros Hab Hf Hb q Hq. cbn -[without]. split_and!; [done..|]. rewrite <-app_assoc. apply Hb.
  assert (a ∉ h) by (apply fresh_above; eapply Forall_impl; [done|]; cbn; lia).
  assert (b ∉ h) by (apply fresh_above; eapply Forall_impl; [done|]; cbn; lia).
  destruct swapped; cbn -[without].
  - rewrite without_head by (rewrite not_elem_of_cons; auto). rewrite without_head by done.
    repeat constructor. done.
  - rewrite without_two, without_head by done. split; [right; left|]. split; [left|done].
Qed.

Lemma neutral_both h a b body :
  a <> b -> Forall (fun x => rank x < rank a /\ rank x < rank b)%nat h ->
  neutral (b :: a :: h) body -> neutral h (both a b body).
Proof. apply (neutral_unlocks h a b body false). Qed.

Lemma neutral_in_order p : neutral [] p -> in_order [] p.
Proof. intros Hp. rewrite <-(app_nil_r p). by apply Hp. Qed.

(** *** A mutex locked twice *)

(** A thread that waits in [jaeger_lock] for a mutex it holds itself stays
    there for ever, whatever the others do. *)
Lemma self_deadlock t x y rest a b h s s' :
  s !! t = Some (Thread (LockBoth x y :: rest) (Locking a b) h) -> a ∈ h ->
  rtc steps s s' -> s' !! t = s !! t.
Proof.
  intros Ht Ha Hr. revert Ht. induction Hr as [|s1 s2 s3 [u Hu] _ IH]; intros Ht; [done|].
  enough (s2 !! t = s1 !! t) as E by (rewrite <-E; apply IH; by rewrite E).
  unfold step in Hu. destruct (decide (u = t)) as [->|Hne].
  - rewrite Ht in Hu. cbn in Hu. unfold locked in Hu.
    rewrite (proj2 (existsb_exists _ s1)) in Hu; [done|].
    eexists. split; [apply list_elem_of_In, list_elem_of_lookup; by exists t|].
    by apply bool_decide_eq_true.
  - destruct (s1 !! u) as [th|]; [|done]. destruct (thread_step s1 th); [|done].
    injection Hu as <-. by rewrite list_lookup_insert_ne.
Qed.
End System.
