(* ===== verification/ClientLocks.v ===== *)
(** * The mutexes each operation of the client takes (span.c, reporter.c, sampler.c, tracer.c, metrics.c, logging.c)

    For every operation that locks something: the mutexes it acquires and gives
    up, in order, by how far it gets; what it does in between is modelled in
    the other files. An argument of these definitions that is not an object
    says which way a branch goes. The ranks of the mutexes, and the theorem that
    threads which use the client can always finish their calls. *)
From S2P Require Import Prelude Machine LockOrder.

(** ** Definitions *)

(** *** The client's mutexes *)

(** Contexts: a span's own, a reference's (a span keeps a vector of them), and
    those that belong to no span. *)
Inductive context :=
  | in_span (s : nat)
  | ref_of (s i : nat)
  | standalone (c : nat).

Inductive mutex :=
  | reporter_mutex (r : nat)              (* jaeger_remote_reporter, jaeger_in_memory_reporter *)
  | remote_sampler_mutex (s : nat)        (* jaeger_remotely_controlled_sampler *)
  | adaptive_mutex (s : nat)              (* jaeger_adaptive_sampler *)
  | span_mutex (s : nat)                  (* jaeger_span *)
  | context_mutex (c : context)           (* jaeger_span_context *)
  | counter_mutex (c : nat)               (* jaeger_default_counter without atomics *)
  | gauge_mutex (g : nat)                 (* jaeger_default_gauge without atomics *)
  | stdout_mutex                          (* logging.c *)
  | stderr_mutex.

#[export] Instance context_eq_dec : EqDecision context.
Proof. solve_decision. Defined.

#[export] Instance mutex_eq_dec : EqDecision mutex.
Proof. solve_decision. Defined.

Definition rank (m : mutex) : nat :=
  match m with
  | reporter_mutex _ => 0
  | remote_sampler_mutex _ => 1
  | adaptive_mutex _ => 2
  | span_mutex _ => 3
  | context_mutex (in_span _ | standalone _) => 4
  | context_mutex (ref_of _ _) => 5
  | counter_mutex _ | gauge_mutex _ => 6
  | stdout_mutex | stderr_mutex => 7
  end.

(** *** metrics.c, logging.c *)

(** A counter or gauge that takes no mutex (atomic, null, or no metrics) is
    [None]. *)
Definition inc_locks (counter : option nat) : list action :=
  match counter with Some c => critical (counter_mutex c) [] | None => [] end.

Definition update_locks (gauge : option nat) : list action :=
  match gauge with Some g => critical (gauge_mutex g) [] | None => [] end.

(** The counters the operations below increment. *)
Record counters := Counters {
  spans_started : option nat;
  spans_finished : option nat;
  spans_sampled : option nat;
  traces_started_sampled : option nat;
  traces_started_not_sampled : option nat;
  reporter_success : option nat;
  reporter_failure : option nat;
  reporter_dropped : option nat;
  sampler_retrieved : option nat;
  sampler_updated : option nat;
  sampler_update_failure : option nat;
  sampler_query_failure : option nat;
}.

Definition std_log_locks (error_or_warning : bool) : list action :=
  critical (if error_or_warning then stderr_mutex else stdout_mutex) [].

(** A sequence with messages logged anywhere in it. *)
Inductive logged : list action -> list action -> Prop :=
  | logged_end : logged [] []
  | logged_action a p q : logged p q -> logged (a :: p) (a :: q)
  | logged_message level p q : logged p q -> logged p (std_log_locks level ++ q).

(** *** span.c *)

Definition jaeger_span_context_foreach_baggage_item_locks (ctx : context) : list action :=
  critical (context_mutex ctx) [].

Definition jaeger_span_context_copy_locks (dst src : context) : list action :=
  both (context_mutex src) (context_mutex dst) [].

Definition jaeger_span_ref_to_protobuf_locks (ids_allocated : bool) (src : context) : list action :=
  if ids_allocated then critical (context_mutex src) [] else [].

Definition jaeger_span_is_sampled_locks (s : nat) : list action :=
  both (span_mutex s) (context_mutex (in_span s)) [].

Definition jaeger_span_set_operation_name_locks (s : nat) : list action :=
  critical (span_mutex s) [].

Definition jaeger_span_set_baggage_item_locks (s : nat) : list action :=
  both (span_mutex s) (context_mutex (in_span s)) [].

Definition jaeger_span_baggage_item_locks (s : nat) : list action :=
  both (span_mutex s) (context_mutex (in_span s)) [].

Definition jaeger_span_set_sampling_priority_locks (integer : bool) (s : nat) : list action :=
  if integer then both (span_mutex s) (context_mutex (in_span s)) [] else [].

(** The key is the sampling priority or not; the value is an integer, and not 0. *)
Definition jaeger_span_set_tag_locks (priority integer nonzero : bool) (s : nat) : list action :=
  if priority then
    jaeger_span_set_sampling_priority_locks integer s ++
    if integer && nonzero then critical (span_mutex s) [] else []
  else critical (span_mutex s) [].

Definition jaeger_span_log_locks (s : nat) : list action := critical (span_mutex s) [].

(** [refs]: the references it copies, the last of them perhaps in vain. *)
Definition jaeger_span_copy_locks (vectors_ok copied : bool) (refs : nat) (dst src : nat)
    : list action :=
  if vectors_ok then
    LockBoth (span_mutex dst) (span_mutex src) ::
      (jaeger_span_context_copy_locks (in_span dst) (in_span src) ++
       concat (map (fun i => jaeger_span_context_copy_locks (ref_of dst i) (ref_of src i)) (seq 0 refs)))
      ++ if negb copied then [Unlock (span_mutex src); Unlock (span_mutex dst)]
         else [Unlock (span_mutex dst); Unlock (span_mutex src)]
  else [].

(** Without memory for the identifiers, it goes to [cleanup] before it has
    locked anything. *)
Definition jaeger_span_to_protobuf_locks (ids_allocated : bool) (refs : list bool) (s : nat)
    : list action :=
  if ids_allocated then
    both (span_mutex s) (context_mutex (in_span s))
      (concat (imap (fun i ok => jaeger_span_ref_to_protobuf_locks ok (ref_of s i)) refs))
  else [Unlock (span_mutex s); Unlock (context_mutex (in_span s))].

Definition jaeger_span_context_format_locks (ctx : context) : list action :=
  critical (context_mutex ctx) [].

Definition jaeger_span_context_scan_locks (well_formed : bool) (ctx : context) : list action :=
  if well_formed then critical (context_mutex ctx) [] else [].

(** *** sampler.c *)

(** The sampler a remotely controlled sampler chooses among: only the adaptive
    one has a mutex. *)
Inductive choice :=
  | unguarded
  | adaptive (s : nat).

Inductive sampler :=
  | chosen (c : choice)
  | remotely_controlled (s : nat) (inner : choice).

Definition choice_is_sampled_locks (c : choice) : list action :=
  match c with
  | unguarded => []
  | adaptive s => critical (adaptive_mutex s) []
  end.

Definition is_sampled_locks (s : sampler) : list action :=
  match s with
  | chosen c => choice_is_sampled_locks c
  | remotely_controlled s inner =>
      critical (remote_sampler_mutex s) (choice_is_sampled_locks inner)
  end.

Definition jaeger_adaptive_sampler_update_locks (s : nat) : list action :=
  critical (adaptive_mutex s) [].

(** [adaptive_updated]: the adaptive sampler that is updated, if the answer has
    strategies per operation and the current sampler is one. *)
Definition jaeger_remotely_controlled_sampler_update_locks (m : counters)
    (answered success : bool) (adaptive_updated : option nat) (s : nat) : list action :=
  if answered then
    critical (remote_sampler_mutex s)
      (inc_locks (sampler_retrieved m) ++
       match adaptive_updated with
       | Some a => jaeger_adaptive_sampler_update_locks a
       | None => []
       end ++
       inc_locks (if success then sampler_updated m else sampler_update_failure m))
  else inc_locks (sampler_query_failure m).

(** *** reporter.c *)

(** The in-memory reporter: no room for the span, or the slot it is copied to. *)
Definition in_memory_reporter_report_locks (slot : option nat) (vectors_ok copied : bool)
    (refs : nat) (r s : nat) : list action :=
  critical (reporter_mutex r)
    match slot with
    | Some dst => jaeger_span_copy_locks vectors_ok copied refs dst s
    | None => []
    end.

(** The remote reporter: no room, a span that cannot be converted, or one that
    is queued. *)
Inductive remote_report :=
  | no_room
  | not_converted (ids_allocated : bool) (refs : list bool)
  | queued (refs : list bool).

Definition remote_reporter_report_locks (m : counters) (outcome : remote_report) (r s : nat)
    : list action :=
  critical (reporter_mutex r)
    match outcome with
    | no_room => []
    | not_converted ids_allocated refs => jaeger_span_to_protobuf_locks ids_allocated refs s
    | queued refs =>
        jaeger_span_to_protobuf_locks true refs s ++ inc_locks (reporter_dropped m)
    end.

(** One batch: even its first span is too large, or the rest of the queue is
    kept or dropped and the datagram is sent or not. *)
Inductive batch :=
  | too_large
  | packed (rest_dropped sent : bool).

Definition batch_sent (b : batch) : bool :=
  match b with too_large => false | packed _ sent => sent end.

Definition build_batch_locks (m : counters) (b : batch) : list action :=
  match b with
  | too_large | packed true _ => inc_locks (reporter_dropped m)
  | packed false _ => []
  end.

Definition remote_reporter_flush_batch_locks (m : counters) (b : batch) : list action :=
  build_batch_locks m b ++
  match b with
  | too_large => []
  | packed _ true => inc_locks (reporter_success m) ++ inc_locks (reporter_dropped m)
  | packed _ false => inc_locks (reporter_failure m) ++ inc_locks (reporter_dropped m)
  end.

(** The loop stops at the first batch that is not sent. *)
Fixpoint flush_batches_locks (m : counters) (bs : list batch) : list action :=
  match bs with
  | [] => []
  | b :: bs =>
      remote_reporter_flush_batch_locks m b ++
      if batch_sent b then flush_batches_locks m bs else []
  end.

Definition remote_reporter_flush_locks (m : counters) (bs : list batch) (r : nat) : list action :=
  critical (reporter_mutex r) (flush_batches_locks m bs).

(** What a reporter does with a span, by its type; the children of a composite
    reporter are called in turn. *)
Inductive report :=
  | unreported                            (* null and logging reporters *)
  | in_memory (slot : option nat) (vectors_ok copied : bool) (refs r : nat)
  | remote (outcome : remote_report) (r : nat)
  | composite (children : list report).

Fixpoint report_locks (m : counters) (s : nat) (rep : report) : list action :=
  match rep with
  | unreported => []
  | in_memory slot vectors_ok copied refs r =>
      in_memory_reporter_report_locks slot vectors_ok copied refs r s
  | remote outcome r => remote_reporter_report_locks m outcome r s
  | composite children => concat (map (report_locks m s) children)
  end.

(** *** tracer.c *)

(** [report]: [None] if the span is not sampled. *)
Definition jaeger_tracer_report_span_locks (m : counters) (rep : option report) (s : nat)
    : list action :=
  inc_locks (spans_finished m) ++ jaeger_span_is_sampled_locks s ++
  match rep with Some rep => report_locks m s rep | None => [] end.

Definition jaeger_span_finish_with_options_locks (m : counters) (rep : option report) (s : nat)
    : list action :=
  critical (span_mutex s) [] ++ jaeger_tracer_report_span_locks m rep s.

(** [refs]: the contexts referred to, and where each is copied unless it is
    skipped; [decided_by]: the sampler, if the span starts a trace. *)
Definition span_inherit_from_parent_locks (refs : list (context * option nat))
    (decided_by : option sampler) (s : nat) : list action :=
  concat (map (fun '(ctx, slot) =>
    critical (context_mutex ctx) [] ++
    match slot with
    | Some i => jaeger_span_context_copy_locks (ref_of s i) ctx
    | None => []
    end) refs) ++
  match decided_by with Some sampler => is_sampled_locks sampler | None => [] end.

Definition update_metrics_for_new_span_locks (m : counters) (sampled is_new_trace : bool) (s : nat)
    : list action :=
  inc_locks (spans_started m) ++
  (Lock (span_mutex s) :: jaeger_span_is_sampled_locks s ++ [Unlock (span_mutex s)]) ++
  inc_locks (spans_sampled m) ++
  if is_new_trace then
    inc_locks (if sampled then traces_started_sampled m else traces_started_not_sampled m)
  else [].

Definition jaeger_tracer_start_span_with_options_locks (m : counters)
    (refs : list (context * option nat)) (decided_by : option sampler)
    (sampled is_new_trace : bool) (s : nat) : list action :=
  span_inherit_from_parent_locks refs decided_by s ++
  update_metrics_for_new_span_locks m sampled is_new_trace s.

(** *** The calls an application makes *)

(** [inherit]: starting a span that fails before it is counted. *)
Inductive call :=
  | set_operation_name (s : nat)
  | set_tag (priority integer nonzero : bool) (s : nat)
  | log_fields (s : nat)
  | set_baggage_item (s : nat)
  | baggage_item (s : nat)
  | finish (rep : option report) (s : nat)
  | foreach_baggage_item (ctx : context)
  | inject (ctx : context)
  | extract (well_formed : list bool) (ctx : context)
  | flush (bs : list batch) (r : nat)
  | refresh_sampler (answered success : bool) (adaptive_updated : option nat) (s : nat)
  | inherit (refs : list (context * option nat)) (decided_by : option sampler) (s : nat)
  | start_span (refs : list (context * option nat)) (decided_by : option sampler)
      (sampled is_new_trace : bool) (s : nat)
  | count (counter : option nat)
  | gauge (g : option nat).

Definition call_locks (m : counters) (c : call) : list action :=
  match c with
  | set_operation_name s => jaeger_span_set_operation_name_locks s
  | set_tag priority integer nonzero s => jaeger_span_set_tag_locks priority integer nonzero s
  | log_fields s => jaeger_span_log_locks s
  | set_baggage_item s => jaeger_span_set_baggage_item_locks s
  | baggage_item s => jaeger_span_baggage_item_locks s
  | finish rep s => jaeger_span_finish_with_options_locks m rep s
  | foreach_baggage_item ctx => jaeger_span_context_foreach_baggage_item_locks ctx
  | inject ctx => jaeger_span_context_format_locks ctx
  | extract well_formed ctx =>
      concat (map (fun ok => jaeger_span_context_scan_locks ok ctx) well_formed)
  | flush bs r => remote_reporter_flush_locks m bs r
  | refresh_sampler answered success adaptive_updated s =>
      jaeger_remotely_controlled_sampler_update_locks m answered success adaptive_updated s
  | inherit refs decided_by s => span_inherit_from_parent_locks refs decided_by s
  | start_span refs decided_by sampled is_new_trace s =>
      jaeger_tracer_start_span_with_options_locks m refs decided_by sampled is_new_trace s
  | count counter => inc_locks counter
  | gauge g => update_locks g
  end.

(** Calls that use the mutexes as they should: copies do not overlap
    ([restrict]); the identifiers of a message are allocated, since without them
    span.c unlocks what it has not locked ([failed_conversion_unlocks_unheld]);
    and no span is started and counted, since the thread that does waits for
    itself ([new_span_never_counted]). *)
Fixpoint sound_report (s : nat) (rep : report) : bool :=
  match rep with
  | unreported => true
  | in_memory (Some dst) _ _ _ _ => negb (bool_decide (dst = s))
  | in_memory None _ _ _ _ => true
  | remote (not_converted ids_allocated _) _ => ids_allocated
  | remote _ _ => true
  | composite children => forallb (sound_report s) children
  end.

Definition sound_call (c : call) : bool :=
  match c with
  | finish (Some rep) s => sound_report s rep
  | inherit refs _ s =>
      forallb (fun '(ctx, slot) =>
        match slot with Some i => negb (bool_decide (ctx = ref_of s i)) | None => true end) refs
  | start_span _ _ _ _ _ => false
  | _ => true
  end.

(** ** Lemmas *)

(** Every mutex held ranks below [n]. *)
Definition tops (n : nat) (h : list mutex) : Prop := Forall (fun x => rank x < n)%nat h.

Lemma tops_nil n : tops n [].
Proof. constructor. Qed.

Lemma tops_cons n m h : (rank m < n)%nat -> tops n h -> tops n (m :: h).
Proof. by constructor. Qed.

Lemma tops_weaken n n' h : tops n h -> (n <= n')%nat -> tops n' h.
Proof. intros H Hn. eapply Forall_impl; [exact H|]. cbn. lia. Qed.

Lemma tops_both h a b :
  tops (Nat.min (rank a) (rank b)) h ->
  Forall (fun x => rank x < rank a /\ rank x < rank b)%nat h.
Proof. intros H. eapply Forall_impl; [exact H|]. cbn. lia. Qed.

Lemma without_tops n l h : tops n h -> tops n (without l h).
Proof.
  unfold without, tops. rewrite !Forall_forall. intros Hh x [_ Hx]%list_elem_of_filter. auto.
Qed.

(** An action that is not a logger's. *)
Definition quiet (a : action) : bool :=
  match a with
  | Lock l | Unlock l => (rank l <? 7)%nat
  | LockBoth a b => (rank a <? 7)%nat && (rank b <? 7)%nat
  end.

(** A sequence that is in order and does not log by itself. *)
Definition silent (h : list mutex) (p : list action) : Prop :=
  neutral rank h p /\ forallb quiet p = true.

Lemma silent_nil h : silent h [].
Proof. split; [apply neutral_nil|done]. Qed.

Lemma silent_app h p p' : silent h p -> silent h p' -> silent h (p ++ p').
Proof.
  intros [Hp Hq] [Hp' Hq']. split; [by apply neutral_app|]. by rewrite forallb_app, Hq, Hq'.
Qed.

Lemma silent_concat h ps : Forall (silent h) ps -> silent h (concat ps).
Proof. induction 1; [apply silent_nil|by apply silent_app]. Qed.

Lemma silent_guard h m body :
  (rank m < 7)%nat -> tops (rank m) h -> silent (m :: h) body -> silent h (critical m body).
Proof.
  intros Hm%Nat.ltb_lt Hh [Hb Hq]. split; [by apply neutral_critical|].
  cbn [critical forallb quiet]. rewrite Hm, forallb_app, Hq. cbn [forallb quiet]. by rewrite Hm.
Qed.

Lemma silent_unlocks h a b body (swapped : bool) :
  (rank a < 7)%nat -> (rank b < 7)%nat -> a <> b -> tops (Nat.min (rank a) (rank b)) h ->
  silent (b :: a :: h) body ->
  silent h (LockBoth a b :: body ++ if swapped then [Unlock b; Unlock a] else [Unlock a; Unlock b]).
Proof.
  intros Ha%Nat.ltb_lt Hb%Nat.ltb_lt Hne Hh%tops_both [Hbody Hq].
  split; [by apply neutral_unlocks|]. cbn [forallb quiet]. rewrite Ha, Hb, forallb_app, Hq.
  destruct swapped; cbn [forallb quiet]; by rewrite Ha, Hb.
Qed.

Lemma silent_guards h a b body :
  (rank a < 7)%nat -> (rank b < 7)%nat -> a <> b -> tops (Nat.min (rank a) (rank b)) h ->
  silent (b :: a :: h) body -> silent h (both a b body).
Proof. apply (silent_unlocks h a b body false). Qed.

Create HintDb locks.

(** Decides that a sequence built from the definitions above is in order when
    the mutexes already held rank low enough. *)
Ltac in_order_solve :=
  repeat match goal with
    | |- silent _ [] => apply silent_nil
    | |- silent _ (_ ++ _) => apply silent_app
    | |- silent _ (critical _ _) => apply silent_guard; [cbn; lia| |]
    | |- silent _ (both _ _ _) => apply silent_guards; [cbn; lia|cbn; lia| | |]
    | |- silent _ (if ?b then _ else _) => destruct b
    | |- silent _ (match ?b with _ => _ end) => destruct b
    | |- tops _ (_ :: _) => apply tops_cons; [cbn; lia|]
    | |- tops _ [] => apply tops_nil
    | Hh : tops _ ?h |- tops _ ?h => eapply tops_weaken; [exact Hh|cbn; lia]
    | |- _ <> _ => congruence
    | _ => eauto with locks
    end.

Section Sequences.
Context (m : counters).

Lemma inc_neutral h c : tops 6 h -> silent h (inc_locks c).
Proof. intros Hh. unfold inc_locks. in_order_solve. Qed.

Lemma update_neutral h g : tops 6 h -> silent h (update_locks g).
Proof. intros Hh. unfold update_locks. in_order_solve. Qed.

Lemma message_neutral h level : tops 7 h -> neutral rank h (std_log_locks level).
Proof. intros Hh. apply neutral_critical; [by destruct level|apply neutral_nil]. Qed.

Lemma context_rank ctx : (4 <= rank (context_mutex ctx) <= 5)%nat.
Proof. destruct ctx; cbn; lia. Qed.

Lemma context_neutral h ctx : tops 4 h -> silent h (critical (context_mutex ctx) []).
Proof.
  intros Hh. pose proof (context_rank ctx). apply silent_guard; [lia| |apply silent_nil].
  eapply tops_weaken; [done|lia].
Qed.

Lemma context_copy_neutral h dst src :
  tops 4 h -> dst <> src -> silent h (jaeger_span_context_copy_locks dst src).
Proof.
  intros Hh Hne. pose proof (context_rank dst). pose proof (context_rank src).
  apply silent_guards; [lia|lia|congruence| |apply silent_nil].
  eapply tops_weaken; [done|lia].
Qed.

Lemma span_neutral h s : tops 3 h -> silent h (critical (span_mutex s) []).
Proof. intros Hh. in_order_solve. Qed.

Lemma span_and_context_neutral h s :
  tops 3 h -> silent h (both (span_mutex s) (context_mutex (in_span s)) []).
Proof. intros Hh. in_order_solve. Qed.

Lemma span_copy_neutral h vectors_ok copied refs dst src :
  tops 3 h -> dst <> src ->
  silent h (jaeger_span_copy_locks vectors_ok copied refs dst src).
Proof.
  intros Hh Hne. unfold jaeger_span_copy_locks. destruct vectors_ok; [|apply silent_nil].
  assert (tops 4 (span_mutex src :: span_mutex dst :: h)) by in_order_solve.
  apply silent_unlocks; [cbn; lia|cbn; lia|congruence|done|]. apply silent_app.
  - apply context_copy_neutral; [done|congruence].
  - apply silent_concat, Forall_map, Forall_forall. intros i _.
    apply context_copy_neutral; [done|congruence].
Qed.

Lemma span_to_protobuf_neutral h refs s :
  tops 3 h -> silent h (jaeger_span_to_protobuf_locks true refs s).
Proof.
  intros Hh. cbn. apply silent_guards; [cbn; lia|cbn; lia|congruence|done|].
  apply silent_concat, Forall_forall. intros p (i & ok & -> & _)%elem_of_lookup_imap.
  unfold jaeger_span_ref_to_protobuf_locks. in_order_solve.
Qed.
End Sequences.

#[export] Hint Resolve inc_neutral update_neutral message_neutral context_neutral
  span_neutral span_and_context_neutral span_copy_neutral
  span_to_protobuf_neutral : locks.

Section Calls.
Context (m : counters).

Lemma choice_neutral h c : tops 2 h -> silent h (choice_is_sampled_locks c).
Proof. intros Hh. unfold choice_is_sampled_locks. in_order_solve. Qed.

Lemma is_sampled_neutral s : silent [] (is_sampled_locks s).
Proof.
  destruct s as [c|s c]; cbn; [apply choice_neutral, tops_nil|].
  apply silent_guard; [cbn; lia|apply tops_nil|]. apply choice_neutral. in_order_solve.
Qed.

Lemma flush_batches_neutral h bs : tops 6 h -> silent h (flush_batches_locks m bs).
Proof.
  intros Hh. induction bs as [|b bs IH]; cbn; [apply silent_nil|].
  unfold remote_reporter_flush_batch_locks, build_batch_locks. in_order_solve.
Qed.

Lemma sampler_update_neutral answered success a s :
  silent [] (jaeger_remotely_controlled_sampler_update_locks m answered success a s).
Proof.
  unfold jaeger_remotely_controlled_sampler_update_locks, jaeger_adaptive_sampler_update_locks.
  assert (tops 6 [remote_sampler_mutex s]) by in_order_solve.
  assert (tops 6 []) by apply tops_nil. in_order_solve.
Qed.

Lemma report_neutral s rep : sound_report s rep = true -> silent [] (report_locks m s rep).
Proof.
  revert rep. fix IH 1. intros [|slot vectors_ok copied refs r|outcome r|children] Hs; cbn in *.
  - apply silent_nil.
  - apply silent_guard; [cbn; lia|apply tops_nil|]. destruct slot as [dst|]; [|apply silent_nil].
    apply span_copy_neutral; [in_order_solve|]. apply negb_true_iff, bool_decide_eq_false in Hs. done.
  - assert (tops 3 [reporter_mutex r]) by in_order_solve.
    assert (tops 6 [reporter_mutex r]) by in_order_solve.
    apply silent_guard; [cbn; lia|apply tops_nil|].
    destruct outcome; subst; in_order_solve.
  - apply silent_concat. induction children as [|rep reps IHreps]; [constructor|].
    cbn in Hs. apply andb_true_iff in Hs as [Hr Hs]. constructor; [by apply IH|by apply IHreps].
Qed.

Lemma call_neutral c : sound_call c = true -> silent [] (call_locks m c).
Proof.
  assert (tops 3 []) by apply tops_nil. assert (tops 4 []) by apply tops_nil.
  assert (tops 6 []) by apply tops_nil.
  destruct c as [s|priority integer nonzero s|s|s|s|rep s|ctx|ctx|oks ctx|bs r|answered success a s
    |refs sampler s|refs sampler sampled new s|c|g]; cbn [call_locks sound_call]; intros Hs;
    try by first [discriminate Hs | apply span_neutral | apply span_and_context_neutral | apply context_neutral
                 | apply inc_neutral | apply update_neutral].
  - unfold jaeger_span_set_tag_locks, jaeger_span_set_sampling_priority_locks. in_order_solve.
  - unfold jaeger_span_finish_with_options_locks, jaeger_tracer_report_span_locks,
      jaeger_span_is_sampled_locks.
    in_order_solve. by apply report_neutral.
  - apply silent_concat, Forall_map, Forall_forall. intros ok _.
    unfold jaeger_span_context_scan_locks. in_order_solve.
  - apply silent_guard; [cbn; lia|apply tops_nil|]. apply flush_batches_neutral. in_order_solve.
  - apply sampler_update_neutral.
  - unfold span_inherit_from_parent_locks.
    apply silent_app; [|destruct sampler; [apply is_sampled_neutral|apply silent_nil]].
    apply silent_concat, Forall_map, Forall_forall. intros [ctx slot] Hin. cbn beta iota.
    apply silent_app; [by apply context_neutral|]. destruct slot as [i|]; [|apply silent_nil].
    apply context_copy_neutral; [done|]. rewrite forallb_forall in Hs.
    apply list_elem_of_In, Hs in Hin. cbn in Hin. apply negb_true_iff, bool_decide_eq_false in Hin.
    congruence.
Qed.

Lemma calls_in_order cs :
  forallb sound_call cs = true -> silent [] (concat (map (call_locks m) cs)).
Proof.
  intros Hs. apply silent_concat, Forall_map, Forall_forall.
  intros c Hc. apply call_neutral. rewrite forallb_forall in Hs. by apply Hs, list_elem_of_In.
Qed.

(** Messages keep a sequence in order. *)
Lemma logged_in_order p q h :
  logged p q -> forallb quiet p = true -> tops 7 h -> in_order rank h p -> in_order rank h q.
Proof.
  intros Hl. revert h. induction Hl as [|a p q Hl IH|level p q Hl IH]; intros h Hq Hh Hp; [done| |].
  - cbn [forallb] in Hq. apply andb_true_iff in Hq as [Ha Hq].
    destruct a as [l|a b|l]; cbn -[without Nat.ltb] in Ha, Hp |- *.
    + destruct Hp as [Hf Hp]. split; [done|]. apply IH; [done|constructor; [|done]|done].
      by apply Nat.ltb_lt.
    + destruct Hp as (Hne & Hf & Hp). apply andb_true_iff in Ha as [?%Nat.ltb_lt ?%Nat.ltb_lt].
      split_and!; [done..|]. apply IH; [done|by apply tops_cons; [|apply tops_cons]|done].
    + destruct Hp as [Hm Hp]. split; [done|]. apply IH; [done|by apply without_tops|done].
  - by apply message_neutral, IH.
Qed.

Lemma run_in_order cs p :
  forallb sound_call cs = true -> logged (concat (map (call_locks m) cs)) p ->
  in_order rank [] p.
Proof.
  intros Hs Hl. destruct (calls_in_order cs Hs) as [Hn Hq].
  eapply logged_in_order; [done..|apply tops_nil|by apply neutral_in_order].
Qed.
End Calls.

(** ** Properties *)

(** C11: Deadlock freedom of the client, but for two calls that fail by themselves:
    any number of threads make calls in any order, on spans, contexts, samplers,
    reporters and counters they share, each call going the way its arguments say
    and logging messages at any points. The calls left out are the start of a
    span that gets as far as its count, which waits for itself
    ([new_span_never_counted]), and the report of a span for whose identifiers
    memory is lacking, which unlocks what it does not hold
    ([failed_conversion_unlocks_unheld]); and no span or context is copied onto
    itself. Whatever the threads have done so far, there is a way for all of them
    to return from all their calls: no cycle of threads that wait for each other
    can ever form, whichever of a span's mutexes [jaeger_lock] takes first. *)
Theorem client_threads_can_finish (m : counters) (programs : list (list call))
    (runs : list (list action)) s :
  Forall (fun cs => forallb sound_call cs = true) programs ->
  Forall2 (fun cs p => logged (concat (map (call_locks m) cs)) p) programs runs ->
  rtc steps (initial runs) s ->
  exists s', rtc steps s s' /\ finished s'.
Proof.
  intros Hs Hr Hreach. apply (can_finish rank), (steps_orderly rank (initial runs)); [|done].
  apply initial_orderly. clear Hreach. induction Hr as [|cs p programs runs Hl _ IH]; [constructor|].
  apply Forall_cons in Hs as [Hc Hs]. constructor; [by eapply run_in_order|by apply IH].
Qed.

(** Starting a span, with [spans_started] counted atomically: once the thread that counts a new
    span has taken the span's mutex, it stays in [jaeger_span_is_sampled] for
    ever, whatever the other threads do. *)
Theorem new_span_never_counted (m : counters) sampled is_new_trace s t h rest st st' :
  spans_started m = None ->
  st !! t = Some (Thread (update_metrics_for_new_span_locks m sampled is_new_trace s ++ rest) Ready h) ->
  locked (span_mutex s) st = false ->
  exists stuck, rtc steps st stuck /\
    (rtc steps stuck st' -> exists th, st' !! t = Some th /\ todo th <> []).
Proof.
  intros Hm Ht Hl. pose proof (lookup_lt_Some _ _ _ Ht) as Hlt.
  unfold update_metrics_for_new_span_locks in Ht. rewrite Hm in Ht. cbn in Ht.
  match type of Ht with _ = Some (Thread (_ :: ?p) _ _) => set (p1 := p) in Ht end.
  set (th1 := Thread p1 Ready (span_mutex s :: h)).
  set (th2 := Thread p1 (Locking (span_mutex s) (context_mutex (in_span s))) (span_mutex s :: h)).
  exists (<[t := th2]> (<[t := th1]> st)). split.
  - eapply rtc_l; [|apply rtc_once].
    + exists t. unfold step. rewrite Ht. cbn. by rewrite Hl.
    + exists t. unfold step. by rewrite list_lookup_insert_eq.
  - intros Hr. rewrite list_insert_insert_eq in Hr.
    eapply self_deadlock in Hr; [|by apply list_lookup_insert_eq|left].
    rewrite list_lookup_insert_eq in Hr by done. by exists th2.
Qed.

(** A conversion that lacks memory for the identifiers unlocks the span's mutex
    without holding it, which is undefined. *)
Theorem failed_conversion_unlocks_unheld refs s h rest st :
  span_mutex s ∉ h ->
  thread_step st (Thread (jaeger_span_to_protobuf_locks false refs s ++ rest) Ready h) = None.
Proof. intros Hh. cbn. by rewrite bool_decide_eq_false_2. Qed.

(** Three threads on one span: one finishes it to a remote reporter that logs
    an error, one sets baggage and a sampling priority, one starts a child of it
    and refreshes the sampler. *)
Definition sample_counters : counters :=
  (Counters (Some 0) (Some 1) (Some 2) None None (Some 3) (Some 4) (Some 5) (Some 6) (Some 7)
    (Some 8) (Some 9))%nat.

Definition sample_calls : list (list call) := (
  [[finish (Some (composite [remote (queued [true; true]) 0; in_memory (Some 9) true false 1 1])) 7;
    flush [packed false true; too_large] 0];
   [set_baggage_item 7; set_tag true true true 7; inject (in_span 7)];
   [inherit [(in_span 7, Some 0)] (Some (remotely_controlled 0 (adaptive 0))) 8;
    refresh_sampler true true (Some 0) 0]])%nat.

Definition sample_runs : list (list action) :=
  match map (fun cs => concat (map (call_locks sample_counters) cs)) sample_calls with
  | p :: ps => (std_log_locks true ++ p) :: ps
  | [] => []
  end.

(** The threads take turns, a step each, [n] times; one that cannot step waits. *)
Definition take_turns (n : nat) (s : list (@thread mutex)) : list (@thread mutex) :=
  foldl (fun s t => match step t s with Some s' => s' | None => s end) s
    (concat (replicate n [0; 1; 2]))%nat.

Lemma take_turns_steps (ts : list nat) (s : list (@thread mutex)) :
  rtc steps s (foldl (fun s t => match step t s with Some s' => s' | None => s end) s ts).
Proof.
  revert s. induction ts as [|t ts IH]; intros s; cbn; [done|].
  destruct (step t s) eqn:E; [|apply IH]. eapply rtc_l; [by exists t|apply IH].
Qed.

Lemma logged_refl p : logged p p.
Proof. induction p; by constructor. Qed.

Lemma client_threads_can_finish_witness :
  exists s', rtc steps (take_turns 8 (initial sample_runs)) s' /\ finished s'.
Proof.
  apply (client_threads_can_finish sample_counters sample_calls sample_runs).
  - repeat constructor.
  - constructor; [apply logged_message, logged_refl|].
    constructor; [apply logged_refl|]. constructor; [apply logged_refl|constructor].
  - apply take_turns_steps.
Defined.

Example sample_still_running : forallb (fun th => match todo th with [] => true | _ => false end)
  (take_turns 8 (initial sample_runs)) = false.
Proof. vm_compute. reflexivity. Qed.

Example sample_finishes : finished (take_turns 60 (initial sample_runs)).
Proof. vm_compute. repeat constructor. Qed.
