(* ===== verification/Tracer.v ===== *)
(** * The tracer (tracer.c, tracer.h)

    The object an application holds: it names the service, owns or borrows the
    metrics, the sampler and the reporter, starts spans (deciding whether they
    are sampled, or inheriting that from a parent), receives them back when
    they are finished, and passes contexts to propagation.c. The sampler and
    the reporter are reached through their interfaces. *)
From S2P Require Import Prelude Machine Vector CString Siphash Float Clock Random TraceId Threading Hashtable.
From S2P Require Import Strings Metrics Tag SpanContext Span Net Sampler Propagation Reporter.

(** ** Definitions *)

(** *** Code outside the source *)

(** An element of the list [getifaddrs] makes: flags and an address, of which
    [sin_s_addr] is what its bytes are as an IPv4 address and [sin_port] the
    port in network order. *)
Record ifaddr_sockaddr := IfSockaddr {
  sa_family : Z;
  sin_s_addr : Z;
  sin_port : Z;
}.

Record ifaddrs := IfAddrs { ifa_flags : Z; ifa_addr : option ifaddr_sockaddr }.

(** The host's name and addresses, [inet_ntop], the version string generated
    by the build, and the value zero bytes are in opentracing-c's header. *)
Class Host := {
  gethostname : option cstr;
  getifaddrs : option (list ifaddrs);
  inet_ntop : ifaddr_sockaddr -> option cstr;
  JAEGERTRACINGC_CLIENT_VERSION : cstr;
  zero_value : opentracing_value;
}.

(** *** Constants *)

Definition JAEGERTRACINGC_CLIENT_VERSION_TAG_KEY : cstr := lit "jaeger.version".
Definition JAEGERTRACINGC_DEBUG_HEADER : cstr := lit "jaeger-debug-id".
Definition JAEGERTRACINGC_TRACER_HOSTNAME_TAG_KEY : cstr := lit "hostname".
Definition JAEGERTRACINGC_TRACER_IP_TAG_KEY : cstr := lit "ip".
Definition SAMPLING_PRIORITY_TAG_KEY : cstr := lit "sampling.priority".

(** <net/if.h>, <netinet/in.h> on Linux; the second is [htonl(INADDR_LOOPBACK)]
    on a little-endian machine. *)
Definition IFF_UP : Z := 1.
Definition IFF_LOOPBACK : Z := 8.
Definition INADDR_LOOPBACK_network : Z := 0x0100007f.

(** *** Data *)

Record jaeger_tracer_options := TracerOptions { gen_128_bit : bool }.
Definition JAEGER_TRACER_OPTIONS_INIT : jaeger_tracer_options := TracerOptions false.

(** Metrics are shared through their cells; [allocated_*] tell the members the
    tracer made itself. *)
Record jaeger_tracer (S R : Type) := Tracer {
  t_service_name : option cstr;
  t_metrics : option jaeger_metrics;
  t_sampler : option S;
  t_reporter : option R;
  t_options : jaeger_tracer_options;
  t_headers : jaeger_headers_config;
  t_tags : jaeger_vector jaeger_tag;
  allocated_metrics : bool;
  allocated_sampler : bool;
  allocated_reporter : bool;
}.
Arguments Tracer {S R}.
Arguments t_service_name {S R} _.
Arguments t_metrics {S R} _.
Arguments t_sampler {S R} _.
Arguments t_reporter {S R} _.
Arguments t_options {S R} _.
Arguments t_headers {S R} _.
Arguments t_tags {S R} _.
Arguments allocated_metrics {S R} _.
Arguments allocated_sampler {S R} _.
Arguments allocated_reporter {S R} _.

Definition JAEGERTRACINGC_TRACER_INIT {S R} : jaeger_tracer S R :=
  Tracer None None None None JAEGER_TRACER_OPTIONS_INIT JAEGERTRACINGC_HEADERS_CONFIG_INIT
    JAEGERTRACINGC_VECTOR_INIT false false false.

(** [opentracing_span_reference]: a type and a pointer to a context, here one
    of this client's. *)
Record opentracing_span_reference := OtReference {
  ot_ref_type : Z;
  referenced_context : option jaeger_span_context;
}.
Definition opentracing_span_reference_child_of : Z := 0.

Record opentracing_start_span_options := StartSpanOptions {
  opt_start_time_steady : jaeger_duration;
  opt_start_time_system : jaeger_timestamp;
  references : option (list opentracing_span_reference);
  num_references : Z;
  opt_tags : option (list (option cstr * opentracing_value));
  num_tags : Z;
}.

Section Setters.
Context {S R : Type}.
Implicit Types t : jaeger_tracer S R.

Definition set_t_service_name t n : jaeger_tracer S R :=
  Tracer n (t_metrics t) (t_sampler t) (t_reporter t) (t_options t) (t_headers t) (t_tags t)
    (allocated_metrics t) (allocated_sampler t) (allocated_reporter t).
Definition set_t_metrics t m allocated : jaeger_tracer S R :=
  Tracer (t_service_name t) m (t_sampler t) (t_reporter t) (t_options t) (t_headers t) (t_tags t)
    allocated (allocated_sampler t) (allocated_reporter t).
Definition set_t_sampler t s allocated : jaeger_tracer S R :=
  Tracer (t_service_name t) (t_metrics t) s (t_reporter t) (t_options t) (t_headers t) (t_tags t)
    (allocated_metrics t) allocated (allocated_reporter t).
Definition set_t_reporter t r allocated : jaeger_tracer S R :=
  Tracer (t_service_name t) (t_metrics t) (t_sampler t) r (t_options t) (t_headers t) (t_tags t)
    (allocated_metrics t) (allocated_sampler t) allocated.
Definition set_t_options t o h : jaeger_tracer S R :=
  Tracer (t_service_name t) (t_metrics t) (t_sampler t) (t_reporter t) o h (t_tags t)
    (allocated_metrics t) (allocated_sampler t) (allocated_reporter t).
Definition set_t_tags t v : jaeger_tracer S R :=
  Tracer (t_service_name t) (t_metrics t) (t_sampler t) (t_reporter t) (t_options t) (t_headers t)
    v (allocated_metrics t) (allocated_sampler t) (allocated_reporter t).
End Setters.

Section HostTags.
Context {env : Env} {pb : Protobuf} {net : Network} {host : Host}.

(** *** Tags that describe the process *)

Definition hostname : M (option cstr) :=
  match gethostname with
  | None => ret None
  | Some name => jaeger_strdup name
  end.

Definition score_addr (addr : ifaddrs) : Z :=
  match ifa_addr addr with
  | None => 0
  | Some sock_addr =>
      let score := if sa_family sock_addr =? AF_INET then 300 else 0 in
      if (Z.land (ifa_flags addr) IFF_LOOPBACK =? 0)
         && negb (sin_s_addr sock_addr =? INADDR_LOOPBACK_network)
      then if negb (Z.land (ifa_flags addr) IFF_UP =? 0) then score + 100 + 100 else score + 100
      else score
  end.

(** The loop over the addresses: the first of the highest positive score. *)
Fixpoint best_addr (addrs : list ifaddrs) (best : option ifaddrs) (max_score : Z)
    : option ifaddrs :=
  match addrs with
  | [] => best
  | iter :: addrs =>
      let score := score_addr iter in
      if score >? max_score then best_addr addrs (Some iter) score
      else best_addr addrs best max_score
  end.

(** [htons]. *)
Definition htons (n : Z) : Z :=
  Z.lor (Z.shiftl (Z.land n 255) 8) (Z.land (Z.shiftr n 8) 255).

(** The text goes through [strdup], the C library's. *)
Definition local_ip_str : M (option cstr) :=
  match getifaddrs with
  | None => ret None
  | Some addrs =>
      match best_addr addrs None 0 with
      | Some (IfAddrs _ (Some addr)) =>
          let size := HOST_NAME_MAX + 1 + JAEGERTRACINGC_MAX_PORT_STR_LEN in
          match inet_ntop addr with
          | None => ret None
          | Some buffer =>
              let len := strlen buffer in
              let rem_len := size - len in
              let '(num_chars, port) :=
                snprintf rem_len (":"%char :: print_dec (htons (sin_port addr))) in
              if num_chars <=? rem_len then
                granted ← built_in_malloc;
                ret (if (granted : bool) then Some (buffer ++ default [] port) else None)
              else ret None
          end
      | _ => ret None
      end
  end.

(** [append_tag]: the cleanup shortens the vector even when nothing was
    appended. *)
Definition append_tag (tags : jaeger_vector jaeger_tag) (key : cstr) (value : option cstr)
    : M (bool * jaeger_vector jaeger_tag) :=
  match value with
  | None => ret (false, tags)
  | Some value =>
      ' (tag, tags) ← jaeger_vector_append tags;
      match tag with
      | None => ret (false, set_len tags (len tags - 1))
      | Some _ =>
          ' (ok, tg) ← jaeger_tag_init JAEGERTRACINGC_TAG_INIT key;
          if negb ok then
            tags ← store tags tag (default tg (jaeger_tag_destroy (Some tg)));
            ret (false, set_len tags (len tags - 1))
          else
            tags ← store tags tag
              (Tag (tag_key tg) V_STRING (Some value) (v_bool tg) (v_int64 tg) (v_float64 tg)
                 (v_binary tg));
            ret (true, tags)
      end
  end.

(** The three tags, in order, until one cannot be made. *)
Definition append_process_tags (tags : jaeger_vector jaeger_tag) : M (jaeger_vector jaeger_tag) :=
  granted ← built_in_malloc;
  let version := if (granted : bool) then Some JAEGERTRACINGC_CLIENT_VERSION else None in
  ' (ok, tags) ← append_tag tags JAEGERTRACINGC_CLIENT_VERSION_TAG_KEY version;
  if negb ok then ret tags
  else
    name ← hostname;
    ' (ok, tags) ← append_tag tags JAEGERTRACINGC_TRACER_HOSTNAME_TAG_KEY name;
    if negb ok then ret tags
    else
      ip ← local_ip_str;
      ' (_, tags) ← append_tag tags JAEGERTRACINGC_TRACER_IP_TAG_KEY ip;
      ret tags.
End HostTags.

(** *** The tracer's own operations *)

Section TracerOps.
Context {env : Env} {pb : Protobuf} {net : Network} {batches : BatchMessages} {host : Host}.
Context {S R : Type} {sampler_ops : Sampler S} {reporter_ops : Reporter R}.
Implicit Types t : jaeger_tracer S R.

Definition default_metrics : M (option jaeger_metrics) :=
  granted ← jaeger_malloc;
  if negb granted then ret None
  else
    ' (ok, metrics) ← jaeger_default_metrics_init;
    if negb ok then ret None else ret (Some metrics).

(** [manager_init] makes the HTTP manager of the sampler, which is used through
    its interface. *)
Definition make_default_sampler {X : Type} (manager_init : M (bool * X))
    (of_remote_sampler : jaeger_remotely_controlled_sampler -> X -> S)
    (name : cstr) (metrics : option jaeger_metrics) : M (option S) :=
  granted ← jaeger_malloc;
  if negb granted then ret None
  else
    ' (ok, s, manager) ← jaeger_remotely_controlled_sampler_init manager_init name None 0 metrics;
    if negb ok then ret None else ret (Some (of_remote_sampler s manager)).

Definition default_reporter (of_remote_reporter : jaeger_remote_reporter -> R)
    (metrics : option jaeger_metrics) : M (option R) :=
  granted ← jaeger_malloc;
  if negb granted then ret None
  else
    r ← jaeger_remote_reporter_init None 0 metrics;
    ret (of_remote_reporter <$> r).

Definition jaeger_tracer_flush t : M (bool * jaeger_tracer S R) :=
  match t_reporter t with
  | None => fail NullDeref
  | Some r => ' (ok, r) ← flush r; ret (ok, set_t_reporter t (Some r) (allocated_reporter t))
  end.

Definition jaeger_tracer_close t : M (jaeger_tracer S R) :=
  ' (_, t) ← jaeger_tracer_flush t; ret t.

(** The flags of members that were allocated are cleared with them. *)
Definition jaeger_tracer_destroy t : M (jaeger_tracer S R) :=
  t ← jaeger_tracer_close t;
  let t := set_t_service_name t None in
  t ← (match t_metrics t with
       | None => ret t
       | Some m => _ ← jaeger_metrics_destroy (Some m); ret (set_t_metrics t None false)
       end);
  t ← (match t_sampler t with
       | None => ret t
       | Some s => _ ← sampler_destroy s; ret (set_t_sampler t None false)
       end);
  t ← (match t_reporter t with
       | None => ret t
       | Some r => _ ← destroy r; ret (set_t_reporter t None false)
       end);
  tags ← for_each (fun tag => ret (default tag (jaeger_tag_destroy (Some tag)))) (t_tags t);
  ret (set_t_tags t (jaeger_vector_destroy tags)).

Definition init_cleanup t : M (bool * jaeger_tracer S R) :=
  t ← jaeger_tracer_destroy t; ret (false, t).

(** The defaults are made with the metrics argument, NULL when the tracer's
    own metrics were. *)
Definition jaeger_tracer_init {X : Type} (manager_init : M (bool * X))
    (of_remote_sampler : jaeger_remotely_controlled_sampler -> X -> S)
    (of_remote_reporter : jaeger_remote_reporter -> R) t (name : cstr)
    (sampler : option S) (reporter : option R) (metrics : option jaeger_metrics)
    (options : option jaeger_tracer_options) (headers : option jaeger_headers_config)
    : M (bool * jaeger_tracer S R) :=
  copy ← jaeger_strdup name;
  let t := set_t_service_name t copy in
  if bool_decide (copy = None) then init_cleanup t
  else
    m ← (match metrics with None => default_metrics | Some _ => ret metrics end);
    let t := set_t_metrics t m (if m is Some _ then bool_decide (metrics = None)
                                else allocated_metrics t) in
    if bool_decide (m = None) then init_cleanup t
    else
      s ← (match sampler with
           | None => make_default_sampler manager_init of_remote_sampler name metrics
           | Some _ => ret sampler
           end);
      let t := set_t_sampler t s (if s is Some _ then negb (bool_decide (is_Some sampler))
                                  else allocated_sampler t) in
      match s with
      | None => init_cleanup t
      | Some _ =>
          r ← (match reporter with
               | None => default_reporter of_remote_reporter metrics
               | Some _ => ret reporter
               end);
          let t := set_t_reporter t r
                     (if r is Some _ then negb (bool_decide (is_Some reporter))
                      else allocated_reporter t) in
          match r with
          | None => init_cleanup t
          | Some _ =>
              let t := set_t_options t (default (t_options t) options)
                         (default (t_headers t) headers) in
              ' (ok, v) ← jaeger_vector_init (t_tags t) sizeof_tag;
              if negb ok then ret (false, set_t_tags t v)
              else
                v ← append_process_tags v;
                ret (true, set_t_tags t v)
          end
      end.

(** *** Starting a span *)

(** The loop over the references. A reference to a context that says anything
    is copied by a function that reads it as a [jaeger_span_ref], which holds
    a context where the reference holds a pointer to one. *)
Fixpoint inherit_references (n : nat) (span_refs : list opentracing_span_reference)
    (span : jaeger_span) (parent : option jaeger_span_context) (has_parent : bool)
    : M (bool * jaeger_span * option jaeger_span_context * bool) :=
  match n, span_refs with
  | O, _ => ret (true, span, parent, has_parent)
  | Datatypes.S _, [] => fail OutOfBounds
  | Datatypes.S n, span_ref :: span_refs =>
      match referenced_context span_ref with
      | None => fail NullDeref
      | Some ctx =>
          m ← jaeger_mutex_lock (ctx_mutex ctx);
          let num_baggage_items := to_signed 32 (ht_size (baggage ctx)) in
          _ ← jaeger_mutex_unlock m;
          if negb (jaeger_span_context_is_valid ctx)
             && negb (jaeger_span_context_is_debug_id_container_only ctx)
             && (num_baggage_items =? 0)
          then inherit_references n span_refs span parent has_parent
          else
            ' (span_ref_copy, v) ← jaeger_vector_append (refs span);
            match span_ref_copy with
            | None => ret (false, set_refs span v, parent, has_parent)
            | Some _ => fail TypeConfusion
            end
      end
  end.

(** The sampler's decision for the span's new trace. *)
Definition sample_new_trace t (span : jaeger_span) : M (jaeger_tracer S R * jaeger_span) :=
  match t_sampler t with
  | None => fail NullDeref
  | Some s =>
      ' (sampled, s, v) ←
        is_sampled s (trace_id (context span)) (operation_name span) (Some (tags span));
      let t := set_t_sampler t (Some s) (allocated_sampler t) in
      let span := set_tags span (default (tags span) v) in
      let ctx := context span in
      ret (t, if (sampled : bool)
              then set_context span
                     (set_flags ctx (u8 (Z.lor (flags ctx) jaeger_sampling_flag_sampled)))
              else span)
  end.

Definition new_trace t (span : jaeger_span) (parent : option jaeger_span_context)
    (has_parent : bool) : M (jaeger_tracer S R * jaeger_span) :=
  low ← jaeger_random64;
  high ← (if gen_128_bit (t_options t) then jaeger_random64
          else ret (high (trace_id (context span))));
  let ctx := SpanContext (TraceId high low) low 0 (baggage (context span))
               (debug_id (context span)) (ctx_mutex (context span)) in
  let span := set_context span ctx in
  match (if has_parent then parent else None) with
  | Some p =>
      if jaeger_span_context_is_debug_id_container_only p then
        let f := Z.lor jaeger_sampling_flag_sampled jaeger_sampling_flag_debug in
        ' (_, v) ← append_tag (tags span) JAEGERTRACINGC_DEBUG_HEADER (debug_id p);
        ret (t, set_tags (set_context span (set_flags ctx (u8 (Z.lor (flags ctx) f)))) v)
      else sample_new_trace t span
  | None => sample_new_trace t span
  end.

(** What follows the loop over the references: the identity of the span is new
    or derives from the parent's, and the parent's baggage is copied. *)
Definition inherit_identity t (span : jaeger_span) (parent : option jaeger_span_context)
    (has_parent : bool) : M (bool * jaeger_tracer S R * jaeger_span * bool) :=
  let valid := if parent is Some p then jaeger_span_context_is_valid p else false in
  let has_parent := has_parent || valid in
  ' (t, span) ←
    (match parent with
     | Some p =>
         if negb has_parent || negb valid then new_trace t span parent has_parent
         else
           id ← jaeger_random64;
           let ctx := context span in
           ret (t, set_context span
                     (SpanContext (trace_id p) id (flags p) (baggage ctx) (debug_id ctx)
                        (ctx_mutex ctx)))
     | None => new_trace t span parent has_parent
     end);
  if has_parent then
    match parent with
    | None => c_assert false;; fail NullDeref
    | Some p =>
        ' (ok, h) ← jaeger_hashtable_copy (baggage p);
        ret (ok, t, set_context span (set_baggage (context span) h), has_parent)
    end
  else ret (true, t, span, has_parent).

Definition span_inherit_from_parent t (span : jaeger_span)
    (span_refs : option (list opentracing_span_reference)) (num_span_refs : Z)
    : M (bool * jaeger_tracer S R * jaeger_span * bool) :=
  c_assert (bool_decide (is_Some span_refs));;
  ' (ok, span, parent, has_parent) ←
    (match span_refs with
     | None => if num_span_refs >? 0 then fail NullDeref else ret (true, span, None, false)
     | Some span_refs =>
         inherit_references (Z.to_nat num_span_refs) span_refs span None false
     end);
  if negb ok then ret (false, t, span, has_parent)
  else inherit_identity t span parent has_parent.

(** Both branches count a sampled span. *)
Definition update_metrics_for_new_span (metrics : option jaeger_metrics) (span : jaeger_span)
    (is_new_trace : bool) : M jaeger_span :=
  match metrics with
  | None => c_assert false;; fail NullDeref
  | Some metrics =>
      inc (counter metrics spans_started) 1;;
      m ← jaeger_mutex_lock (span_mutex span);
      ' (sampled, span) ← jaeger_span_is_sampled (set_mutex span m);
      m ← jaeger_mutex_unlock (span_mutex span);
      let span := set_mutex span m in
      inc (counter metrics spans_sampled) 1;;
      (if is_new_trace then
         inc (counter metrics (if (sampled : bool) then traces_started_sampled
                               else traces_started_not_sampled)) 1
       else ret tt);;
      ret span
  end.

(** One tag of the options: its value is converted, then dropped, and a zeroed
    value is recorded under its key. *)
Definition add_option_tag (span : jaeger_span) (tag : option cstr * opentracing_value)
    : M jaeger_span :=
  ' (_, src_tag) ← jaeger_tag_from_key_value JAEGERTRACINGC_TAG_INIT tag.1 tag.2;
  match tag_key src_tag with
  | None => c_assert false;; fail NullDeref
  | Some k =>
      ' (done, span) ←
        (if (strcmp k SAMPLING_PRIORITY_TAG_KEY =? 0) && bool_decide (v_type src_tag = V_INT64)
         then jaeger_span_set_sampling_priority span zero_value
         else ret (false, span));
      if (done : bool) then ret span else jaeger_span_set_tag_no_locking span k zero_value
  end.

Fixpoint option_tags_loop (n : nat) (tags : list (option cstr * opentracing_value))
    (span : jaeger_span) : M jaeger_span :=
  match n, tags with
  | O, _ => ret span
  | Datatypes.S _, [] => fail OutOfBounds
  | Datatypes.S n, tag :: tags =>
      span ← add_option_tag span tag; option_tags_loop n tags span
  end.

Definition start_cleanup t (span : jaeger_span)
    : M (option jaeger_span * jaeger_tracer S R) :=
  _ ← jaeger_span_destroy (Some span); ret (None, t).

Definition zero_time (v : opentracing_time_value) : bool :=
  (tv_sec v =? 0) && (tv_nsec v =? 0).

(** The span once it exists: tracer, name, times and metrics. *)
Definition complete_span (self : nat) t (span : jaeger_span) (operation_name : cstr)
    (options : opentracing_start_span_options) (has_parent : bool)
    : M (option jaeger_span * jaeger_tracer S R) :=
  let span := set_tracer span (Some self) in
  name ← jaeger_strdup operation_name;
  let span := set_name span name in
  if bool_decide (name = None) then start_cleanup t span
  else
    system ← (if zero_time (opt_start_time_system options) then jaeger_timestamp_now
              else ret (opt_start_time_system options));
    steady ← (if zero_time (opt_start_time_steady options) then jaeger_duration_now
              else ret (opt_start_time_steady options));
    let span := set_times span system steady (TimeValue 0 0) in
    span ← update_metrics_for_new_span (t_metrics t) span (negb has_parent);
    ret (Some span, t).

(** [self]: the tracer's address, which the span keeps. *)
Definition start_span_with (self : nat) t (operation_name : cstr)
    (options : opentracing_start_span_options)
    : M (option jaeger_span * jaeger_tracer S R) :=
  c_assert (num_references options >=? 0);;
  c_assert (bool_decide (references options = None) || (num_references options =? 0));;
  c_assert (num_tags options >=? 0);;
  c_assert (bool_decide (opt_tags options = None) || (num_tags options =? 0));;
  granted ← jaeger_malloc;
  if negb granted then ret (None, t)
  else
    ' (ok, span) ← jaeger_span_init;
    if negb ok then start_cleanup t span
    else
      ' (ok, t, span, has_parent) ←
        span_inherit_from_parent t span (references options) (num_references options);
      if negb ok then start_cleanup t span
      else
        span ← (match opt_tags options with
                | None => if num_tags options >? 0 then c_assert false;; fail NullDeref
                          else ret span
                | Some tags => option_tags_loop (Z.to_nat (num_tags options)) tags span
                end);
        complete_span self t span operation_name options has_parent.

Definition jaeger_tracer_start_span_with_options (self : nat) t (operation_name : option cstr)
    (options : option opentracing_start_span_options)
    : M (option jaeger_span * jaeger_tracer S R) :=
  match operation_name with
  | None => c_assert false;; fail NullDeref
  | Some name =>
      match options with
      | Some options => start_span_with self t name options
      | None =>
          steady ← jaeger_duration_now;
          system ← jaeger_timestamp_now;
          start_span_with self t name (StartSpanOptions steady system None 0 None 0)
      end
  end.

Definition jaeger_tracer_start_span (self : nat) t (operation_name : option cstr)
    : M (option jaeger_span * jaeger_tracer S R) :=
  jaeger_tracer_start_span_with_options self t operation_name None.

(** *** Finished spans *)

Definition jaeger_tracer_report_span t (span : jaeger_span)
    : M (jaeger_tracer S R * jaeger_span) :=
  match t_metrics t with
  | None => fail NullDeref
  | Some metrics =>
      inc (counter metrics spans_finished) 1;;
      ' (sampled, span) ← jaeger_span_is_sampled span;
      if (sampled : bool) then
        match t_reporter t with
        | None => fail NullDeref
        | Some r =>
            ' (r, s) ← report r (Some span);
            ret (set_t_reporter t (Some r) (allocated_reporter t), default span s)
        end
      else ret (t, span)
  end.
End TracerOps.

(** *** Propagation *)

(** [opentracing_span_context]: a descriptor of the type, with its terminating
    NUL, and the context when it is one of this client's. *)
Record opentracing_span_context := OtSpanContext {
  type_descriptor : list ascii;
  jaeger_context : option jaeger_span_context;
}.

Definition jaeger_span_context_type_descriptor : list ascii :=
  lit "jaeger_span_context" ++ [nul].

Definition of_jaeger_context (ctx : jaeger_span_context) : opentracing_span_context :=
  OtSpanContext jaeger_span_context_type_descriptor (Some ctx).

Section TracerPropagation.
Context {env : Env} {S R : Type}.
Implicit Types t : jaeger_tracer S R.
Abbreviation code := opentracing_propagation_error_code.

(** CHECK_SPAN_CONTEXT and the cast that follows it. *)
Definition check_span_context {A} (ctx : opentracing_span_context) (a : A)
    (k : jaeger_span_context -> M (code * A)) : M (code * A) :=
  if bool_decide (type_descriptor ctx = jaeger_span_context_type_descriptor) then
    match jaeger_context ctx with
    | None => fail TypeConfusion
    | Some ctx => k ctx
    end
  else ret (error_invalid_span_context, a).

Definition jaeger_tracer_inject_text_map {W} t (set : W -> cstr -> cstr -> M (code * W)) (s : W)
    (ctx : opentracing_span_context) : M (code * W) :=
  check_span_context ctx s (fun ctx => jaeger_inject_into_text_map set s ctx (t_headers t)).

Definition jaeger_tracer_inject_http_headers {W} t (set : W -> cstr -> cstr -> M (code * W))
    (s : W) (ctx : opentracing_span_context) : M (code * W) :=
  check_span_context ctx s (fun ctx => jaeger_inject_into_http_headers set s ctx (t_headers t)).

Definition jaeger_tracer_inject_binary {W} t (callback : W -> list Z -> M (Z * W)) (s : W)
    (ctx : opentracing_span_context) : M (code * W) :=
  check_span_context ctx s (fun ctx => jaeger_inject_into_binary callback s ctx).

Definition jaeger_tracer_inject_custom {W} t (inject : W -> jaeger_span_context -> M (code * W))
    (s : W) (ctx : opentracing_span_context) : M (code * W) :=
  check_span_context ctx s (fun ctx => jaeger_inject_into_custom inject s ctx).

Definition jaeger_tracer_extract_text_map t (foreach_key : foreach_key_type)
    : M (code * option jaeger_span_context) :=
  jaeger_extract_from_text_map foreach_key (t_metrics t) (t_headers t).

Definition jaeger_tracer_extract_http_headers t (foreach_key : foreach_key_type)
    : M (code * option jaeger_span_context) :=
  jaeger_extract_from_http_headers foreach_key (t_metrics t) (t_headers t).

Definition jaeger_tracer_extract_binary {W} t (callback : W -> Z -> M (Z * list Z * W)) (s : W)
    : M (code * option jaeger_span_context) :=
  jaeger_extract_from_binary callback s (t_metrics t).

(** The carrier's own [extract] is called directly. *)
Definition jaeger_tracer_extract_custom t (extract : M (code * option jaeger_span_context))
    : M (code * option jaeger_span_context) := extract.
End TracerPropagation.

(** ** Lemmas *)

(** *** What a sampler promises the tracer *)

(** It decides, keeps the allocator and the metrics, and appends its tags:
    [decided s d s' vals] relates a sampler, a decision, the sampler afterwards
    and the tags. *)
Class Decides {env : Env} {pb : Protobuf} (S : Type) `{!Sampler S} := {
  can_decide : world -> S -> Prop;
  decided : S -> bool -> S -> list (option cstr * payload) -> Prop;
  can_decide_progress w w' s : progress w w' -> can_decide w s -> can_decide w' s;
  is_sampled_decides s tid name tags w :
    can_decide w s -> tags_ready tags ->
    wp (is_sampled s tid name tags) (fun '(d, s', tags') w' =>
      progress w w' /\ exists vals, decided s d s' vals /\ tags_ok tags' /\
        (tags = None <-> tags' = None) /\
        (plenty w -> tags <> None -> tag_values tags' = tag_values tags ++ vals)) w;
}.

Section DecidesInstances.
Context {env : Env} {pb : Protobuf}.

#[export] Instance const_decides : Decides jaeger_const_sampler.
Proof.
  refine {| can_decide _ _ := True;
            decided s d s' vals := d = decision s /\ s' = s /\
              vals = sampler_values JAEGERTRACINGC_SAMPLER_TYPE_CONST (PBool (decision s)) |};
    [done|].
  intros s tid name tags w _ [Hok Hroom]. cbn [is_sampled const_sampler_ops].
  unfold jaeger_const_sampler_is_sampled. do 2 apply wp_bind.
  eapply append_sampler_tags_wp; [done|done|by vm_compute| |done|].
  - split; [|done]. by eexists.
  - intros tags' w' Hw' (Hok' & Hn & Hv). do 2 apply wp_ret.
    split; [eauto with jaeger|]. eexists. split; [done|]. by split_and!.
Defined.

Hypothesis rand_r_range : rand_r_31 env.
Hypothesis key_create : pthread_key_create_ok = true.
Hypothesis clock : monotonic_clock env.

Definition probabilistic_decides : Decides jaeger_probabilistic_sampler.
Proof.
  refine {| can_decide _ _ := True;
            decided s d s' vals :=
              (exists w r, drawn w r /\ d = probabilistic_decision s r) /\ s' = s /\
              vals = sampler_values JAEGERTRACINGC_SAMPLER_TYPE_PROBABILISTIC
                       (PFloat (sampling_rate s)) |}; [done|].
  intros s tid name tags w _ Ht. cbn [is_sampled probabilistic_sampler_ops].
  apply wp_bind, probabilistic_wp; [done..|]. intros r tags' w' Hw' Hr (Hok' & Hn & Hv).
  apply wp_ret. split; [by apply random_progress|]. eexists. split; [split; [by exists w, r|done]|]. by split_and!.
Defined.

Definition rate_limiting_decides : Decides jaeger_rate_limiting_sampler.
Proof.
  refine {| can_decide w s := ticked w (tok s);
            decided s d s' vals :=
              (exists now tok', charged (tok s) (double_of_Z 1) now d tok' /\
                 s' = RateLimitingSampler tok' (max_traces_per_second s)) /\
              vals = sampler_values JAEGERTRACINGC_SAMPLER_TYPE_RATE_LIMITING
                       (PFloat (max_traces_per_second s)) |}; [eauto with jaeger|].
  intros s tid name tags w Htick Ht. cbn [is_sampled rate_limiting_sampler_ops].
  apply rate_limiting_wp; [done..|].
  intros ok tok' tags' w' Hw' _ Hc (Hok' & Hn & Hv).
  split; [done|]. eexists. split; [by eauto|]. by split_and!.
Defined.
End DecidesInstances.

(** *** A new trace *)

Section IdentityFacts.
Context {env : Env} {pb : Protobuf} {net : Network} {batches : BatchMessages} {host : Host}.
Context {S R : Type} {sampler_ops : Sampler S} {reporter_ops : Reporter R} {law : Decides S}.
Hypothesis rand_r_range : rand_r_31 env.
Hypothesis key_create : pthread_key_create_ok = true.
Implicit Types (t : jaeger_tracer S R) (w : world).

(** The flags of a new trace. *)
Definition new_flags (d : bool) : Z := if d then jaeger_sampling_flag_sampled else 0.

Lemma sample_new_trace_wp t s span Q w :
  t_sampler t = Some s -> can_decide w s -> tags_ready (Some (tags span)) ->
  flags (context span) = 0 ->
  (forall d s' vals v w',
     is_sampled s (trace_id (context span)) (operation_name span) (Some (tags span)) w
       = Ok (d, s', Some v) w' ->
     progress w w' -> decided s d s' vals ->
     (plenty w -> map tag_value (contents v) = map tag_value (contents (tags span)) ++ vals) ->
     Q (set_t_sampler t (Some s') (allocated_sampler t),
        set_context (set_tags span v) (set_flags (context span) (new_flags d))) w') ->
  wp (sample_new_trace t span) Q w.
Proof.
  intros Hs Hcan Ht Hf HQ. unfold sample_new_trace. rewrite Hs. wp_step.
  eapply wp_eqn; [by apply is_sampled_decides|].
  intros [[d s'] tags'] w' E (Hw' & vals & Hd & Hok & Hn & Hv).
  destruct tags' as [v|]; [|by specialize (proj2 Hn eq_refl)].
  wp_step. cbn [from_option id].
  assert (plenty w -> map tag_value (contents v) = map tag_value (contents (tags span)) ++ vals)
    as Hv' by (intros Hp; by apply Hv).
  specialize (HQ d s' vals v w' E Hw' Hd Hv'). destruct d; cbn [new_flags] in HQ.
  - cbn [set_tags context]. by rewrite Hf.
  - assert (set_flags (context span) 0 = context span) as Ec
      by (destruct (context span); cbn in *; by subst).
    rewrite Ec in HQ. by destruct span.
Qed.

(** The identity of a new trace: two draws when the identifier has 128 bits. *)
Definition trace_id_drawn t (span : jaeger_span) (id : jaeger_trace_id) w w' : Prop :=
  exists w1, jaeger_random64 w = Ok (low id) w1 /\
    if gen_128_bit (t_options t) then jaeger_random64 w1 = Ok (high id) w'
    else high id = high (trace_id (context span)) /\ w' = w1.

(** The context of a span that starts the trace [id]. *)
Definition new_trace_context (span : jaeger_span) (id : jaeger_trace_id) (d : bool)
    : jaeger_span_context :=
  SpanContext id (low id) (new_flags d) (baggage (context span)) (debug_id (context span))
    (ctx_mutex (context span)).

Lemma new_trace_wp t s span Q w :
  t_sampler t = Some s -> can_decide w s -> tags_ready (Some (tags span)) ->
  (forall id w1 d s' vals v w', trace_id_drawn t span id w w1 ->
     is_sampled s id (operation_name span) (Some (tags span)) w1 = Ok (d, s', Some v) w' ->
     progress w w' -> decided s d s' vals ->
     (plenty w -> map tag_value (contents v) = map tag_value (contents (tags span)) ++ vals) ->
     Q (set_t_sampler t (Some s') (allocated_sampler t),
        set_context (set_tags span v) (new_trace_context span id d)) w') ->
  wp (new_trace t span None false) Q w.
Proof.
  intros Hs Hcan Ht HQ. unfold new_trace. wp_step.
  apply random64_drawn_wp; [done|done|]. intros low w1 E1 Hw1 _. wp_step.
  eapply wp_mono with (P := fun h w' =>
    random_only w1 w' /\ trace_id_drawn t span (TraceId h low) w w').
  { unfold trace_id_drawn. destruct (gen_128_bit (t_options t)).
    - apply random64_drawn_wp; [done|done|]. intros h w2 E2 Hw2 _. eauto.
    - apply wp_ret. split; [done|]. by exists w1. }
  intros h w2 [Hw2 Hdrawn]. assert (progress w w2) as Hw by (apply random_progress; by etrans).
  cbn [from_option]. eapply sample_new_trace_wp; [done| |done|done|].
  { by eapply can_decide_progress. }
  intros d s' vals v w3 E3 Hw3 Hd Hv. eapply HQ; [done|done|by etrans|done|].
  intros Hp. apply Hv. by eapply plenty_progress.
Qed.
End IdentityFacts.

(** *** Starting a span *)

Section NeverStarts.
Context {env : Env} {pb : Protobuf} {net : Network} {batches : BatchMessages} {host : Host}.
Context {S R : Type} {sampler_ops : Sampler S} {reporter_ops : Reporter R}.
Hypothesis checked_build : mt = true \/ ndebug = false.
Implicit Types (t : jaeger_tracer S R).

(** Locking a mutex that is held. *)
Lemma relock_never (P : jaeger_mutex -> Prop) : ensures (jaeger_mutex_lock true) P.
Proof.
  intros w a w'. unfold jaeger_mutex_lock, c_assert. destruct mt eqn:Em; [done|].
  cbn. destruct checked_build as [|En]; [congruence|]. by rewrite En.
Qed.

Lemma lock_holds m : ensures (jaeger_mutex_lock m) (fun m' => m' = true).
Proof.
  intros w a w'. unfold jaeger_mutex_lock, c_assert.
  destruct mt, m, ndebug; cbn; by intros [=].
Qed.

(** [jaeger_span_is_sampled] takes the mutex the caller holds. *)
Lemma update_metrics_never metrics span new P :
  ensures (update_metrics_for_new_span metrics span new) P.
Proof.
  destruct metrics as [m|]; cbn [update_metrics_for_new_span]; [|by repeat ensures_step].
  apply ensures_then. intros _. eapply ensures_bind; [apply lock_holds|]. intros ? ->.
  eapply ensures_bind with (P := fun _ => False); [|done].
  unfold jaeger_span_is_sampled, lock_span, jaeger_lock. cbn [set_mutex span_mutex].
  do 3 (eapply ensures_bind with (P := fun _ => False); [|done]). apply relock_never.
Qed.

Definition no_span {A} (r : option jaeger_span * A) : Prop := r.1 = None.

Lemma start_cleanup_none t span : ensures (start_cleanup t span) no_span.
Proof. unfold start_cleanup. by repeat ensures_step. Qed.

Lemma complete_span_none self t span name options has_parent :
  ensures (complete_span self t span name options has_parent) no_span.
Proof.
  unfold complete_span. ensures_step. ensures_step; [apply start_cleanup_none|].
  do 2 ensures_step. eapply ensures_bind; [apply update_metrics_never|].
  instantiate (1 := fun _ => False). done.
Qed.

Lemma start_span_with_none self t name options :
  ensures (start_span_with self t name options) no_span.
Proof.
  unfold start_span_with. do 5 ensures_step. ensures_step; [by apply ensures_ret|].
  ensures_step. ensures_step. ensures_step; [apply start_cleanup_none|].
  ensures_step. do 3 ensures_step. ensures_step; [apply start_cleanup_none|].
  ensures_step. apply complete_span_none.
Qed.

Lemma start_span_none self t name options :
  ensures (jaeger_tracer_start_span_with_options self t name options) no_span.
Proof.
  unfold jaeger_tracer_start_span_with_options. destruct name; [|by repeat ensures_step].
  destruct options; [apply start_span_with_none|]. do 2 ensures_step.
  apply start_span_with_none.
Qed.
End NeverStarts.

(** The rest of a computation runs from where its first part ends. *)
Lemma bind_ok {A B} (m : M A) (k : A -> M B) w a w' : m w = Ok a w' -> bind m k w = k a w'.
Proof. unfold bind. by intros ->. Qed.

Section SpanFacts.
Context {env : Env} {pb : Protobuf} {net : Network} {batches : BatchMessages} {host : Host}.
Context {S R : Type} {sampler_ops : Sampler S} {reporter_ops : Reporter R}.
Implicit Types (t : jaeger_tracer S R) (w : world).

Lemma span_is_sampled_wp s Q w :
  span_mutex s = false -> ctx_mutex (context s) = false ->
  Q (Z.testbit (flags (context s)) 0, s) w -> wp (jaeger_span_is_sampled s) Q w.
Proof.
  intros Hm Hc HQ. unfold jaeger_span_is_sampled. wp_step. apply lock_span_wp; [done..|].
  wp_step. unfold unlock_span. cbn [span_mutex set_context set_mutex context ctx_mutex set_ctx_mutex].
  wp_step. apply mutex_unlock_wp. wp_step. apply mutex_unlock_wp. do 2 wp_step.
  rewrite sampled_testbit. cbn [context set_context set_ctx_mutex flags].
  destruct s as [? [] ? ? ? ? ? ? ? ?]. cbn in *. by subst.
Qed.

(** A span of a valid parent: the parent's trace and flags, a random
    identifier, and a copy of the baggage. *)
Lemma child_identity_wp t span p m has_parent Q w :
  rand_r_31 env -> pthread_key_create_ok = true -> plenty w ->
  context_ok p m -> jaeger_span_context_is_valid p = true ->
  (forall id w1 h w', jaeger_random64 w = Ok id w1 -> random_only w w' ->
     represents h m -> Hashtable.counted h m ->
     Q (true, t, set_context span
          (SpanContext (trace_id p) id (flags p) h (debug_id (context span))
             (ctx_mutex (context span))), true) w') ->
  wp (inherit_identity t span (Some p) has_parent) Q w.
Proof.
  intros Hr Hk Hp [Hrep Hcnt Hsh Hsz _] Hv HQ. unfold inherit_identity. rewrite Hv, orb_true_r.
  cbn [negb orb]. wp_step. wp_step. apply random64_drawn_wp; [done|done|]. intros id w1 Hid Hw1 _.
  do 2 wp_step. apply (copy_wp (baggage p) m); [done|done|done|lia| |].
  - intros h w2 Hw2 Hrep' Hcnt'. wp_step. eapply HQ; [done| |done..].
    etrans; [done|]. by apply alloc_random_only.
  - intros h w2 _ Hno. destruct Hno. destruct Hw1 as (Ha & _). by split; [rewrite Ha; apply Hp|apply Hp].
Qed.
End SpanFacts.

Section InitFacts.
Context {env : Env} {pb : Protobuf} {net : Network} {batches : BatchMessages} {host : Host}.
Context {S R : Type} {sampler_ops : Sampler S} {reporter_ops : Reporter R}.
Implicit Types (t : jaeger_tracer S R) (w : world).

Lemma append_tag_wp v key value Q w :
  plenty w -> vector_wf v -> len v < capacity v -> capacity v <= INT_MAX -> short key ->
  (forall v' w', alloc_only w w' -> vector_wf v' -> len v' = len v + 1 ->
     capacity v' = capacity v -> type_size v' = type_size v ->
     map tag_value (contents v') = map tag_value (contents v) ++ [(Some key, PStr (Some value))] ->
     Q (true, v') w') ->
  wp (append_tag v key (Some value)) Q w.
Proof.
  intros Hp Hwf Hroom Hmax Hk HQ. unfold append_tag. wp_step.
  pose proof (length_contents _ Hwf). pose proof (wf_len _ Hwf).
  apply append_room_wp; [done..|]. intros v1 slot Hwf1 El1 Et1 Ec1 Econt1.
  wp_step. unfold jaeger_tag_init. wp_step. apply wp_strdup; [done|by intros|].
  intros w1 Hw1. wp_step. cbn [negb]. wp_step. apply store_wp; [done|lia|].
  intros v2 Hwf2 El2 Ec2 Et2 Econt2. wp_step. apply HQ; [done|done|lia..| |].
  { congruence. }
  rewrite Econt2, Econt1, insert_app_r_alt by lia.
  replace (_ - _)%nat with 0%nat by lia. by rewrite map_app.
Qed.

(** *** The address of the process *)

Definition sockaddr_test (P : ifaddr_sockaddr -> bool) (a : ifaddrs) : bool :=
  match ifa_addr a with Some s => P s | None => false end.

(** An IPv4 address; one that is not of loopback; and one whose interface is up. *)
Definition is_ipv4 : ifaddrs -> bool := sockaddr_test (fun s => sa_family s =? AF_INET).
Definition is_outside (a : ifaddrs) : bool :=
  sockaddr_test (fun s =>
    (Z.land (ifa_flags a) IFF_LOOPBACK =? 0) && negb (sin_s_addr s =? INADDR_LOOPBACK_network)) a.
Definition is_up (a : ifaddrs) : bool := negb (Z.land (ifa_flags a) IFF_UP =? 0).

(** Whether [b] is preferred to [a]: by the first of the three in which they
    differ, where an interface that is up counts for outside addresses. *)
Definition preferred (b a : ifaddrs) : bool :=
  if xorb (is_ipv4 b) (is_ipv4 a) then is_ipv4 b
  else if xorb (is_outside b) (is_outside a) then is_outside b
  else is_outside b && is_up b && negb (is_up a).

Definition usable (a : ifaddrs) : bool := is_ipv4 a || is_outside a.

(** The usable address no other is preferred to, the first of them. *)
Record best (addrs : list ifaddrs) (a : ifaddrs) : Prop := {
  best_usable : usable a = true;
  best_first : exists before after, addrs = before ++ a :: after /\
    (forall b, b ∈ before -> preferred a b = true) /\
    (forall b, b ∈ after -> preferred b a = false);
}.

(** The port of an address, from its bytes in network order. *)
Definition port_number (s : ifaddr_sockaddr) : Z :=
  256 * (sin_port s mod 256) + sin_port s / 256 mod 256.

(** The address that describes the process: the best one as text, with its
    port; none when the addresses or that text cannot be had. *)
Inductive process_address : option cstr -> Prop :=
  | address_known addrs a s text :
      getifaddrs = Some addrs -> best addrs a -> ifa_addr a = Some s -> inet_ntop s = Some text ->
      process_address (Some (text ++ lit ":" ++ print_dec (port_number s)))
  | address_no_text addrs a s :
      getifaddrs = Some addrs -> best addrs a -> ifa_addr a = Some s -> inet_ntop s = None ->
      process_address None
  | address_none_usable addrs :
      getifaddrs = Some addrs -> (forall a, a ∈ addrs -> usable a = false) -> process_address None
  | address_unknown : getifaddrs = None -> process_address None.

Lemma score_addr_range a : 0 <= score_addr a <= 500.
Proof. unfold score_addr. repeat case_match; lia. Qed.

Lemma score_preferred a b : preferred b a = (score_addr a <? score_addr b).
Proof.
  unfold preferred, is_ipv4, is_outside, is_up, sockaddr_test, score_addr.
  destruct (ifa_addr a), (ifa_addr b); repeat case_ifs; done.
Qed.

Lemma score_usable a : usable a = (0 <? score_addr a).
Proof.
  unfold usable, is_ipv4, is_outside, sockaddr_test, score_addr.
  destruct (ifa_addr a); repeat case_ifs; done.
Qed.

(** The loop keeps the best it has seen. *)
Lemma best_addr_loop addrs found max_score :
  (best_addr addrs found max_score = found /\ Forall (fun b => score_addr b <= max_score) addrs) \/
  exists before a after, best_addr addrs found max_score = Some a /\ addrs = before ++ a :: after /\
    max_score < score_addr a /\ Forall (fun b => score_addr b < score_addr a) before /\
    Forall (fun b => score_addr b <= score_addr a) after.
Proof.
  revert found max_score. induction addrs as [|a addrs IH]; intros found max_score; cbn [best_addr].
  { by left. }
  destruct (score_addr a >? max_score) eqn:E; rewrite Z.gtb_ltb in E; reflect_bools.
  - right. destruct (IH (Some a) (score_addr a)) as [[-> Hle]|(before & b & after & -> & -> & Hlt & H1 & H2)].
    + exists [], a, addrs. split_and!; [done|done|lia|constructor|done].
    + exists (a :: before), b, after. split_and!; [done|done|lia|by constructor|done].
  - destruct (IH found max_score) as [[-> Hle]|(before & b & after & -> & -> & Hlt & H1 & H2)].
    + left. split; [done|]. by constructor.
    + right. exists (a :: before), b, after. split_and!; [done|done|lia| |done].
      constructor; [lia|done].
Qed.

Lemma best_addr_best addrs :
  match best_addr addrs None 0 with
  | Some a => best addrs a
  | None => forall a, a ∈ addrs -> usable a = false
  end.
Proof.
  destruct (best_addr_loop addrs None 0) as [[-> Hle]|(before & a & after & -> & -> & Hlt & H1 & H2)].
  - intros a Ha. rewrite score_usable. apply Z.ltb_ge. rewrite Forall_forall in Hle. by apply Hle.
  - split; [rewrite score_usable; by apply Z.ltb_lt|].
    exists before, after. rewrite Forall_forall in H1, H2. split_and!; [done| |];
      intros b Hb; rewrite score_preferred; [apply Z.ltb_lt, H1, Hb|apply Z.ltb_ge, H2, Hb].
Qed.

Lemma htons_port s : htons (sin_port s) = port_number s.
Proof.
  unfold htons, port_number. change 255 with (Z.ones 8).
  rewrite !Z.land_ones, Z.shiftr_div_pow2, Z.lor_comm by lia.
  rewrite lor_shiftl_add; [|lia|apply Z.mod_pos_bound; lia|pose proof (Z.mod_pos_bound (sin_port s) (2 ^ 8)); lia].
  change (2 ^ 8) with 256. lia.
Qed.

(** [inet_ntop] gives no more than INET6_ADDRSTRLEN bytes, with the NUL. *)
Definition address_texts_short : Prop :=
  forall s text, inet_ntop s = Some text -> lenZ text < 46.

Lemma local_ip_wp Q w :
  plenty w -> address_texts_short ->
  (forall ip w', alloc_only w w' -> process_address ip -> Q ip w') -> wp local_ip_str Q w.
Proof.
  intros Hp Hshort HQ. unfold local_ip_str.
  destruct getifaddrs as [addrs|] eqn:Eg; [|apply HQ; [done|by apply address_unknown]].
  pose proof (best_addr_best addrs) as Hb. destruct (best_addr addrs None 0) as [a|];
    [|apply HQ; [done|by eapply address_none_usable]].
  destruct a as [f [s|]]; [|by destruct Hb as [[=] _]].
  destruct (inet_ntop s) as [text|] eqn:Et; [|apply HQ; [done|by eapply address_no_text]].
  pose proof (Hshort _ _ Et). rewrite htons_port.
  assert (0 <= port_number s) as Hport
    by (unfold port_number; pose proof (Z.mod_pos_bound (sin_port s) 256);
        pose proof (Z.mod_pos_bound (sin_port s / 256) 256); lia).
  pose proof (print_dec_short _ Hport).
  unfold strlen, HOST_NAME_MAX, JAEGERTRACINGC_MAX_PORT_STR_LEN.
  rewrite snprintf_fits by (cbn [length]; lia).
  rewrite (proj2 (Z.leb_le _ _)) by (cbn [length]; lia).
  apply wp_bind. unfold built_in_malloc. cbn. rewrite (proj2 Hp). apply HQ; [done|].
  by eapply address_known.
Qed.

(** The tags of the process: the address is left out when it is not known. *)
Definition process_values (name : cstr) (ip : option cstr) : list (option cstr * payload) :=
  [(Some (lit "jaeger.version"), PStr (Some JAEGERTRACINGC_CLIENT_VERSION));
   (Some (lit "hostname"), PStr (Some name))]
  ++ (if ip is Some ip then [(Some (lit "ip"), PStr (Some ip))] else []).

Lemma process_tags_wp v name Q w :
  plenty w -> address_texts_short -> gethostname = Some name -> short name -> vector_wf v ->
  len v = 0 -> capacity v = 10 ->
  (forall v' ip w', process_address ip -> alloc_only w w' -> vector_wf v' -> type_size v' = type_size v ->
     map tag_value (contents v') = process_values name ip -> Q v' w') ->
  wp (append_process_tags v) Q w.
Proof.
  intros Hp Hshort Hn Hs Hwf Hl Hc HQ. unfold append_process_tags.
  assert (contents v = []) as Econt.
  { apply length_zero_iff_nil. pose proof (length_contents _ Hwf). lia. }
  apply wp_bind. unfold built_in_malloc at 1. cbn. rewrite (proj2 Hp). wp_step.
  assert (alloc_only w (count_alloc w)) as Hw0 by by repeat split.
  apply append_tag_wp; [by eapply plenty_alloc_only|done|lia|unfold INT_MAX; lia|by vm_compute|].
  intros v1 w1 Hw1 Hwf1 El1 Ec1 Et1 Ev1. cbn [negb]. wp_step. unfold hostname. rewrite Hn.
  assert (alloc_only w w1) by by etrans. assert (plenty w1) by by eapply plenty_alloc_only.
  apply wp_strdup; [done|by intros|]. intros w2 Hw2. wp_step.
  assert (alloc_only w w2) by by etrans. assert (plenty w2) by by eapply plenty_alloc_only.
  apply append_tag_wp; [done|done|lia|unfold INT_MAX; lia|by vm_compute|].
  intros v3 w3 Hw3 Hwf3 El3 Ec3 Et3 Ev3. cbn [negb]. wp_step.
  assert (plenty w3) by by eapply plenty_alloc_only. apply local_ip_wp; [done|done|].
  intros ip w4 Hw4 Hip. assert (alloc_only w w4) by (etrans; [|exact Hw4]; by etrans).
  assert (plenty w4) by by eapply plenty_alloc_only. wp_step.
  rewrite Econt in Ev1. destruct ip as [ip|].
  - apply append_tag_wp; [done|done|lia|unfold INT_MAX; lia|by vm_compute|].
    intros v5 w5 Hw5 Hwf5 El5 Ec5 Et5 Ev5. wp_step. apply (HQ v5 (Some ip)); [done|by etrans|done| |].
    + congruence.
    + by rewrite Ev5, Ev3, Ev1.
  - unfold append_tag. do 2 wp_step. apply (HQ v3 None); [done|done|done|congruence|].
    by rewrite Ev3, Ev1.
Qed.

Lemma tracer_init_wp {X} (manager_init : M (bool * X)) fs fr t name hname s r m options headers Q w :
  plenty w -> address_texts_short -> short name -> gethostname = Some hname -> short hname ->
  (forall v w', alloc_only w w' -> vector_wf v -> type_size v = sizeof_tag ->
     (exists ip, process_address ip /\ map tag_value (contents v) = process_values hname ip) ->
     Q (true, Tracer (Some name) (Some m) (Some s) (Some r) (default (t_options t) options)
                (default (t_headers t) headers) v false false false) w') ->
  wp (jaeger_tracer_init manager_init fs fr t name (Some s) (Some r) (Some m) options headers) Q w.
Proof.
  intros Hp Hshort Hs Hn Hsn HQ. unfold jaeger_tracer_init. wp_step.
  apply wp_strdup; [done|by intros|]. intros w1 Hw1. rewrite bool_decide_eq_false_2 by done.
  do 2 wp_step. rewrite !bool_decide_eq_false_2 by done. do 2 wp_step.
  rewrite (bool_decide_eq_true_2 (is_Some (Some s))) by done. do 2 wp_step.
  rewrite (bool_decide_eq_true_2 (is_Some (Some r))) by done. wp_step.
  pose proof sizeof_tag_range. apply init_wp; [lia|unfold INT_MAX, JAEGERTRACINGC_VECTOR_INIT_CAPACITY; lia| |].
  2: { intros w2 _ Hno. destruct Hno. by eapply plenty_alloc_only. }
  intros v w2 Hw2 Hwf Econt El Ec Ets. cbn [negb]. wp_step.
  assert (alloc_only w w2) by by etrans.
  eapply process_tags_wp; [by eapply plenty_alloc_only|done..|].
  intros v' ip w3 Hip Hw3 Hwf' Ets' Ev. wp_step. cbn.
  apply HQ; [by etrans|done|congruence|by exists ip].
Qed.
End InitFacts.

(** ** Properties *)

(** C27: In a build with threads or with assertions, no call of start_span ever
    returns a span, whatever the tracer, the options and the machine: the last
    step takes the span's mutex twice. *)
Theorem start_span_never_succeeds (env : Env) (pb : Protobuf) (host : Host) (S R : Type)
    (sampler_ops : Sampler S) self (t : jaeger_tracer S R) name options w :
  mt = true \/ ndebug = false ->
  match jaeger_tracer_start_span_with_options self t name options w with
  | Ok (started, _) _ => started = None
  | Fault _ => True
  end.
Proof.
  intros Hb. destruct (jaeger_tracer_start_span_with_options self t name options w)
    as [[started t'] w'|] eqn:E; [|done].
  exact (start_span_none Hb self t name options w _ w' E).
Qed.

(** C19: The identity of a span without a parent, while memory lasts: the low
    half of its trace identifier is the number [jaeger_random64] draws first,
    the high half the one it draws next when 128 bits are asked for (else it
    is left as it was), and its own identifier is the low half; the sampler is
    then asked once about this identifier and its answer alone sets the flags;
    the tags become those the sampler leaves, which end with what it records;
    the tracer keeps the sampler as it is afterwards, and the rest of the span
    and of the tracer does not change. *)
Theorem new_trace_spec (env : Env) (pb : Protobuf) (host : Host) (S R : Type)
    (ops : Sampler S) (law : Decides S) (t : jaeger_tracer S R) s span w :
  rand_r_31 env -> pthread_key_create_ok = true -> plenty w ->
  t_sampler t = Some s -> can_decide w s -> tags_ready (Some (tags span)) ->
  exists id w1 d s' vals v w',
    trace_id_drawn t span id w w1 /\
    is_sampled s id (operation_name span) (Some (tags span)) w1 = Ok (d, s', Some v) w' /\
    inherit_identity t span None false w
      = Ok (true, set_t_sampler t (Some s') (allocated_sampler t),
            set_context (set_tags span v) (new_trace_context span id d), false) w' /\
    decided s d s' vals /\
    map tag_value (contents v) = map tag_value (contents (tags span)) ++ vals.
Proof.
  intros Hr Hk Hp Hs Hcan Ht.
  enough (wp (inherit_identity t span None false) (fun r w' => exists id w1 d s' vals v,
    r = (true, set_t_sampler t (Some s') (allocated_sampler t),
         set_context (set_tags span v) (new_trace_context span id d), false) /\
    trace_id_drawn t span id w w1 /\
    is_sampled s id (operation_name span) (Some (tags span)) w1 = Ok (d, s', Some v) w' /\
    decided s d s' vals /\
    map tag_value (contents v) = map tag_value (contents (tags span)) ++ vals) w)
    as (? & w' & E & id & w1 & d & s' & vals & v & -> & H1 & H2 & H3 & H4)%wp_returns
    by by exists id, w1, d, s', vals, v, w'.
  unfold inherit_identity. cbn [orb]. wp_step. eapply new_trace_wp; [done..|].
  intros id w1 d s' vals v w' Hid Hs' Hw' Hd Hv. wp_step.
  exists id, w1, d, s', vals, v. split_and!; try done. by apply Hv.
Qed.

(** A span with a valid parent joins its trace: same trace identifier, same
    flags, a random span identifier, and a table with the parent's baggage;
    the tracer and the rest of the span are unchanged. *)
Theorem child_span_spec (env : Env) (pb : Protobuf) (host : Host) (S R : Type)
    (ops : Sampler S) (t : jaeger_tracer S R) span p m has_parent w :
  rand_r_31 env -> pthread_key_create_ok = true -> plenty w ->
  context_ok p m -> jaeger_span_context_is_valid p = true ->
  exists id w1 h w',
    jaeger_random64 w = Ok id w1 /\
    inherit_identity t span (Some p) has_parent w
      = Ok (true, t, set_context span
              (SpanContext (trace_id p) id (flags p) h (debug_id (context span))
                 (ctx_mutex (context span))), true) w' /\
    represents h m /\ random_only w w'.
Proof.
  intros Hr Hk Hp Hm Hv.
  enough (wp (inherit_identity t span (Some p) has_parent) (fun r w' => exists id w1 h,
    r = (true, t, set_context span
              (SpanContext (trace_id p) id (flags p) h (debug_id (context span))
                 (ctx_mutex (context span))), true) /\
    jaeger_random64 w = Ok id w1 /\ represents h m /\ random_only w w') w)
    as (? & w' & E & id & w1 & h & -> & H1 & H2 & H3)%wp_returns by by exists id, w1, h, w'.
  eapply child_identity_wp; [done..|]. intros id w1 h w' Hid Hw' Hrep _. by exists id, w1, h.
Qed.

(** C20: A finished span is counted once, and reaches the reporter exactly when its
    sampled flag is set. *)
Theorem jaeger_tracer_report_span_spec (env : Env) (pb : Protobuf) (S R : Type)
    (ops : Reporter R) span (law : Accepts span R) (t : jaeger_tracer S R) m r n w :
  plenty w -> t_metrics t = Some m -> metrics_wf m w ->
  total m (Some spans_finished) w = Some n -> t_reporter t = Some r -> accepts r ->
  span_mutex span = false -> ctx_mutex (context span) = false ->
  exists w1, total m (Some spans_finished) w1 = Some (to_signed 64 (n + 1)) /\
    (forall k, k <> Some spans_finished -> total m k w1 = total m k w) /\
    if Z.testbit (flags (context span)) 0 then
      exists r' w', jaeger_tracer_report_span t span w
          = Ok (set_t_reporter t (Some r') (allocated_reporter t), span) w' /\
        report r (Some span) w1 = Ok (r', Some span) w' /\ took r r'
    else jaeger_tracer_report_span t span w = Ok (t, span) w1.
Proof.
  intros Hp Hm Hwf Hn Hr Hacc Hmu Hcm.
  destruct (inc_total m spans_finished n 1 w Hwf Hn) as (w1 & Einc & _ & Ht & Ho & Ha).
  exists w1. split; [done|]. split; [done|].
  assert (jaeger_span_is_sampled span w1 = Ok (Z.testbit (flags (context span)) 0, span) w1) as Es.
  { assert (wp (jaeger_span_is_sampled span) (fun x w' => x = (Z.testbit (flags (context span)) 0, span) /\ w' = w1) w1)
      as (? & ? & E & -> & ->)%wp_returns by by apply span_is_sampled_wp. done. }
  unfold jaeger_tracer_report_span.
  rewrite Hm, !(bind_ok _ _ _ _ _ Einc), !(bind_ok _ _ _ _ _ Es), Hr.
  destruct (Z.testbit (flags (context span)) 0); [|done].
  pose proof (report_accepts r w1 ltac:(by eapply plenty_same_allocator) Hacc)
    as ([r' s'] & w' & Er & _ & Htook & Es')%wp_returns. cbn in Htook, Es'. subst s'.
  exists r', w'. by rewrite (bind_ok _ _ _ _ _ Er).
Qed.

(** C26: A tracer given its sampler, reporter and metrics borrows them, copies the
    service name, takes the options or keeps the defaults, and describes the
    process in its tags: version, host name and, when known, address. The
    address is the text of one of the host's, with its port: an IPv4 address
    rather than another, then one that is not of loopback, then one of an
    interface that is up; it is left out only when the addresses cannot be
    listed, all are loopback addresses of other families, or that one has no
    text. *)
Theorem jaeger_tracer_init_spec (env : Env) (pb : Protobuf) (net : Network)
    (batches : BatchMessages) (host : Host) (S R : Type) (sops : Sampler S) (rops : Reporter R)
    (X : Type) (manager_init : M (bool * X)) of_sampler of_reporter (t : jaeger_tracer S R)
    name hname s r m options headers w :
  plenty w -> address_texts_short -> short name -> gethostname = Some hname -> short hname ->
  exists v ip w',
    jaeger_tracer_init manager_init of_sampler of_reporter t name (Some s) (Some r) (Some m)
      options headers w
    = Ok (true, Tracer (Some name) (Some m) (Some s) (Some r) (default (t_options t) options)
                  (default (t_headers t) headers) v false false false) w' /\
    alloc_only w w' /\ vector_wf v /\ process_address ip /\
    map tag_value (contents v) =
      [(Some (lit "jaeger.version"), PStr (Some JAEGERTRACINGC_CLIENT_VERSION));
       (Some (lit "hostname"), PStr (Some hname))] ++
      match ip with Some ip => [(Some (lit "ip"), PStr (Some ip))] | None => [] end.
Proof.
  intros Hp Hshort Hs Hn Hsn.
  enough (wp (jaeger_tracer_init manager_init of_sampler of_reporter t name (Some s) (Some r) (Some m)
      options headers) (fun x w' => exists v ip, x = (true, Tracer (Some name) (Some m) (Some s)
        (Some r) (default (t_options t) options) (default (t_headers t) headers) v false false false) /\
      alloc_only w w' /\ vector_wf v /\ process_address ip /\
      map tag_value (contents v) = process_values hname ip) w)
    as (? & w' & E & v & ip & -> & H)%wp_returns by by exists v, ip, w'.
  eapply tracer_init_wp; [done..|]. intros v w' Hw' Hwf _ [ip [Hip Hv]]. by exists v, ip.
Qed.

(** *** The properties at work *)

Definition sample_host : Host :=
  {| gethostname := Some (lit "node-1");
     getifaddrs := Some [IfAddrs 9 (Some (IfSockaddr 2 INADDR_LOOPBACK_network 0));
                         IfAddrs 1 (Some (IfSockaddr 2 0x0a00000a 0))];
     inet_ntop _ := Some (lit "10.0.0.10");
     JAEGERTRACINGC_CLIENT_VERSION := lit "C-0.1.0";
     zero_value := ot_bool false |}.

Definition sample_ops : Sampler jaeger_const_sampler := @const_sampler_ops sample_env sample_pb.
Definition sample_decides : @Decides sample_env sample_pb _ sample_ops :=
  @const_decides sample_env sample_pb.

Definition sample_tracer : jaeger_tracer jaeger_const_sampler jaeger_in_memory_reporter :=
  Tracer (Some (lit "svc")) (Some sample_metrics) (Some (ConstSampler true))
    (Some sample_in_memory) (TracerOptions true) JAEGERTRACINGC_HEADERS_CONFIG_INIT
    (sample_vec [] 96) false false false.

(** Looking at the address of the interface that is up, and not at loopback. *)
Example sample_ip :
  value (@local_ip_str sample_env sample_net sample_host initial_world)
  = Some (Some (lit "10.0.0.10:0")).
Proof. vm_compute. reflexivity. Qed.

Lemma start_span_never_succeeds_witness :
  match @jaeger_tracer_start_span_with_options sample_env sample_pb sample_host _ _ sample_ops
    0%nat sample_tracer (Some (lit "get")) None metrics_world with
  | Ok (started, _) _ => started = None
  | Fault _ => True
  end.
Proof.
  apply (start_span_never_succeeds sample_env sample_pb sample_host). by left.
Defined.

Lemma sample_span_tags_ready : @tags_ready sample_pb (Some (tags sample_span)).
Proof.
  split.
  - intros v [= <-]. by apply (@sample_vec_ok jaeger_tag zero_tag [sample_tag] 96); cbn; lia.
  - intros v [= <-]. unfold tags_room, INT_MAX. cbn. lia.
Qed.

Lemma new_trace_spec_witness :
  exists id w1 d s' vals v w',
    @trace_id_drawn sample_env jaeger_const_sampler jaeger_in_memory_reporter sample_tracer sample_span id
      metrics_world w1 /\
    @is_sampled _ sample_ops (ConstSampler true) id (operation_name sample_span)
      (Some (tags sample_span)) w1 = Ok (d, s', Some v) w' /\
    @inherit_identity sample_env sample_pb jaeger_const_sampler jaeger_in_memory_reporter
        sample_ops sample_tracer sample_span None false metrics_world
      = Ok (true, set_t_sampler sample_tracer (Some s') false,
            set_context (set_tags sample_span v) (new_trace_context sample_span id d), false) w' /\
    @decided sample_env sample_pb _ sample_ops sample_decides (ConstSampler true) d s' vals /\
    map tag_value (contents v) = map tag_value (contents (tags sample_span)) ++ vals.
Proof.
  apply (new_trace_spec sample_env sample_pb sample_host jaeger_const_sampler
    jaeger_in_memory_reporter sample_ops sample_decides sample_tracer (ConstSampler true));
    [apply sample_rand_r|done|done|done|exact I|apply sample_span_tags_ready].
Defined.

Lemma child_span_spec_witness :
  exists id w1 h w',
    @jaeger_random64 sample_env metrics_world = Ok id w1 /\
    @inherit_identity sample_env sample_pb jaeger_const_sampler jaeger_in_memory_reporter
        sample_ops sample_tracer sample_span (Some sample_context) false metrics_world
      = Ok (true, sample_tracer, set_context sample_span
              (SpanContext (trace_id sample_context) id (flags sample_context) h
                 (debug_id (context sample_span)) (ctx_mutex (context sample_span))), true) w' /\
    @represents sample_env h {[lit "k" := lit "v"]} /\ random_only metrics_world w'.
Proof.
  apply (child_span_spec sample_env sample_pb sample_host jaeger_const_sampler
    jaeger_in_memory_reporter sample_ops);
    [apply sample_rand_r|done|done|exact sample_context_ok|done].
Defined.

Lemma jaeger_tracer_report_span_spec_witness :
  exists w1, total sample_metrics (Some spans_finished) w1 = Some (to_signed 64 (0 + 1)) /\
    (forall k, k <> Some spans_finished ->
       total sample_metrics k w1 = total sample_metrics k metrics_world) /\
    if Z.testbit (flags (context sample_span)) 0 then
      exists r' w', @jaeger_tracer_report_span sample_env jaeger_const_sampler _
          (@in_memory_reporter_ops sample_env sample_pb) sample_tracer sample_span metrics_world
          = Ok (set_t_reporter sample_tracer (Some r') false, sample_span) w' /\
        @in_memory_reporter_report sample_env sample_pb sample_in_memory (Some sample_span) w1
          = Ok (r', Some sample_span) w' /\
        @in_memory_took sample_env sample_pb sample_span {[lit "k" := lit "v"]} sample_in_memory r'
    else @jaeger_tracer_report_span sample_env jaeger_const_sampler _
           (@in_memory_reporter_ops sample_env sample_pb) sample_tracer sample_span metrics_world
         = Ok (sample_tracer, sample_span) w1.
Proof.
  apply (jaeger_tracer_report_span_spec sample_env sample_pb jaeger_const_sampler
    jaeger_in_memory_reporter (@in_memory_reporter_ops sample_env sample_pb) sample_span
    (@in_memory_accepts sample_env sample_pb sample_span sample_copyable) sample_tracer
    sample_metrics sample_in_memory);
    [done|done|apply sample_metrics_wf|reflexivity|done|apply sample_in_memory_ok|done|done].
Defined.

Lemma sample_address ip :
  @process_address sample_net sample_host ip -> ip = Some (lit "10.0.0.10:0").
Proof.
  assert (Hno : forall addrs, @getifaddrs sample_host = Some addrs ->
    forall a, @best sample_net addrs a -> ifa_addr a = Some (IfSockaddr 2 0x0a00000a 0)).
  { intros addrs [= <-] a [_ (before & after & He & Hb & Ha)].
    destruct before as [|b [|b' [|? before]]]; cbn in He; simplify_eq; [|done].
    by specialize (Ha _ ltac:(by left)). }
  intros [addrs a s text Hg Ha Hs Ht|addrs a s Hg Ha Hs Ht|addrs Hg Hu|Hg]; [|done| |done].
  - rewrite (Hno _ Hg _ Ha) in Hs. injection Hs as <-. injection Ht as <-. reflexivity.
  - injection Hg as <-. by specialize (Hu _ ltac:(by left)).
Qed.

Lemma jaeger_tracer_init_spec_witness :
  exists v w',
    @jaeger_tracer_init sample_env sample_pb sample_net sample_batches sample_host
      jaeger_const_sampler jaeger_in_memory_reporter sample_ops
      (@in_memory_reporter_ops sample_env sample_pb) unit (ret (true, tt))
      (fun _ _ => ConstSampler false)
      (fun _ => sample_in_memory) JAEGERTRACINGC_TRACER_INIT (lit "svc")
      (Some (ConstSampler true)) (Some sample_in_memory) (Some sample_metrics) None None
      metrics_world
    = Ok (true, Tracer (Some (lit "svc")) (Some sample_metrics) (Some (ConstSampler true))
                  (Some sample_in_memory) JAEGER_TRACER_OPTIONS_INIT
                  JAEGERTRACINGC_HEADERS_CONFIG_INIT v false false false) w' /\
    map tag_value (contents v) =
      [(Some (lit "jaeger.version"), PStr (Some (lit "C-0.1.0")));
       (Some (lit "hostname"), PStr (Some (lit "node-1")));
       (Some (lit "ip"), PStr (Some (lit "10.0.0.10:0")))].
Proof.
  destruct (jaeger_tracer_init_spec sample_env sample_pb sample_net sample_batches sample_host
    jaeger_const_sampler jaeger_in_memory_reporter sample_ops
    (@in_memory_reporter_ops sample_env sample_pb) unit (ret (true, tt)) (fun _ _ => ConstSampler false)
    (fun _ => sample_in_memory) JAEGERTRACINGC_TRACER_INIT (lit "svc") (lit "node-1")
    (ConstSampler true) sample_in_memory sample_metrics None None metrics_world)
    as (v & ip & w' & E & _ & _ & Hip & Hv).
  - done.
  - by intros s text [= <-].
  - by vm_compute.
  - done.
  - by vm_compute.
  - exists v, w'. split; [exact E|]. by rewrite Hv, (sample_address ip Hip).
Defined.

(** *** Defects *)

(** Starting a span with references that are present and empty, without
    assertions: the metrics update waits for a mutex it holds. *)
Theorem start_span_deadlocks :
  @jaeger_tracer_start_span_with_options sample_env sample_pb sample_host _ _ sample_ops
    0%nat sample_tracer (Some (lit "get"))
    (Some (StartSpanOptions (TimeValue 1 0) (TimeValue 1 0) (Some []) 0 None 0)) metrics_world
  = Fault Deadlock.
Proof. vm_compute. reflexivity. Qed.

(** Starting a span the usual way, without references. *)
Theorem start_span_asserts :
  @jaeger_tracer_start_span sample_env sample_pb sample_host _ _ sample_ops
    0%nat sample_tracer (Some (lit "get")) metrics_world = Fault AssertFailed.
Proof. vm_compute. reflexivity. Qed.

(** A reference to any context that says something is read as a structure of
    another type. *)
Theorem references_are_misread :
  @span_inherit_from_parent sample_env sample_pb jaeger_const_sampler jaeger_in_memory_reporter
    sample_ops sample_tracer sample_span
    (Some [OtReference opentracing_span_reference_child_of (Some sample_context)]) 1 metrics_world
  = Fault TypeConfusion.
Proof. vm_compute. reflexivity. Qed.

(** The sampler is asked before the operation name is set, so the one that
    samples by operation is handed a NULL name. *)
Theorem new_trace_null_operation_name :
  @sample_new_trace jaeger_adaptive_sampler jaeger_in_memory_reporter
    (@adaptive_sampler_ops sample_env sample_pb)
    (set_t_sampler JAEGERTRACINGC_TRACER_INIT (Some sample_adaptive) false)
    (set_name sample_span None) metrics_world = Fault AssertFailed.
Proof. vm_compute. reflexivity. Qed.

(** A tracer that cannot copy its name flushes through a NULL reporter instead
    of reporting failure. *)
Theorem tracer_init_failure_dereferences_null (env : Env) (pb : Protobuf) (net : Network)
    (batches : BatchMessages) (host : Host) (S R : Type) (sops : Sampler S) (rops : Reporter R)
    (X : Type) (manager_init : M (bool * X)) of_sampler of_reporter name sampler reporter metrics options headers w :
  short name -> w_allocator w = null_alloc ->
  jaeger_tracer_init manager_init of_sampler of_reporter
    (JAEGERTRACINGC_TRACER_INIT : jaeger_tracer S R) name sampler reporter metrics options headers w
  = Fault NullDeref.
Proof.
  intros Hs Hw. unfold jaeger_tracer_init.
  assert (jaeger_strdup name w = Ok None w) as E.
  { unfold jaeger_strdup, short in *.
    rewrite (bind_ok (int_chk (lenZ name + 1)) _ w (lenZ name + 1) w).
    - unfold bind, jaeger_malloc, jaeger_get_allocator, get_world, bind, ret. by rewrite Hw.
    - unfold int_chk, INT_MAX, INT_MIN in *. by rewrite !(proj2 (Z.leb_le _ _)) by lia. }
  by rewrite (bind_ok _ _ _ _ _ E).
Qed.
