(* ===== verification/Client.v ===== *)
(** * The client as a whole

    Theorems about components that work together: a trace that continues in
    another process, and a finished span on its way to the agent. *)
From S2P Require Import Prelude Machine Vector CString Float Clock Random Threading TraceId.
From S2P Require Import Hashtable Strings Metrics Tag SpanContext Span Net Sampler Propagation.
From S2P Require Import Reporter Tracer.

(** ** Lemmas *)

Section FinishFacts.
Context {env : Env} {pb : Protobuf}.
Implicit Types (w : world) (s : jaeger_span).

(** A span that is finished now: the clocks agree. *)
Definition finishes_now s w : Prop :=
  normalised (start_time_steady s) /\ normalised (clock_monotonic (w_mono w)) /\
  nanoseconds (start_time_steady s) <= nanoseconds (clock_monotonic (w_mono w)).

(** A finished span: only its duration is new. *)
Definition finished s (d : jaeger_duration) : jaeger_span :=
  set_times s (start_time_system s) (start_time_steady s) d.

Lemma finish_now_wp s Q w :
  span_mutex s = false -> finishes_now s w -> Z.testbit (flags (context s)) 0 = true ->
  (forall d w', progress w w' ->
     nanoseconds d = nanoseconds (clock_monotonic (w_mono w)) - nanoseconds (start_time_steady s) ->
     Q (finished s d) w') ->
  wp (finish_locked s JAEGERTRACINGC_FINISH_SPAN_OPTIONS_INIT) Q w.
Proof.
  intros Hm (Hn1 & Hn2 & Hle) Hf HQ. unfold finish_locked. rewrite Hm. wp_step.
  apply mutex_lock_wp. rewrite sampled_testbit. cbn [set_mutex context]. rewrite Hf.
  wp_step. unfold finish_sampled. wp_step. cbn. wp_step.
  apply time_subtract_wp; [done|done|]. intros d Hd _. wp_step.
  apply wp_assert; [by apply Z.leb_le|]. do 2 wp_step. apply wp_ret. wp_step. apply mutex_unlock_wp. wp_step.
  replace (set_mutex _ false) with (finished s d) by (destruct s; cbn in *; by subst).
  apply HQ; [|done]. repeat split; cbn; lia.
Qed.

Lemma finished_ok s m d : span_ok s m -> span_ok (finished s d) m.
Proof. intros []. by split. Qed.

Lemma finished_copyable s name d : span_copyable s name -> span_copyable (finished s d) name.
Proof. intros []. by split. Qed.
End FinishFacts.

Section ReportFacts.
Context {env : Env} {pb : Protobuf} {msgs : SpanMessages} {batches : BatchMessages}
  {net : Network} (tracer_of : nat -> tracer_identity) {S : Type}.
Implicit Types (w : world) (t : jaeger_tracer S jaeger_remote_reporter).
#[local] Instance reporter_ops : Reporter jaeger_remote_reporter := remote_reporter_ops tracer_of.

(** A remote reporter with messages [q] in its queue, room for one more, and
    packed sizes that are ints. *)
Record reporter_ready (r : jaeger_remote_reporter) (q : list Jaeger__Model__Span)
    (m : jaeger_metrics) (vs : Z) w : Prop := {
  ready_queue : queue_wf (spans r) q /\ Forall message_wf q;
  ready_room : 16 * (Z.max (len (spans r) + 1) (capacity (spans r)) + 10) <= INT_MAX;
  ready_sizes : forall p msg, sizes_int p (q ++ [msg]);
  ready_metrics : r_metrics r = Some m /\ succeeded m vs w /\ to_signed 64 vs = vs;
  ready_mutex : r_mutex r = false /\ candidates_ok r;
}.

(** A span of a tracer's that can be reported. *)
Record reportable (s : jaeger_span) (tname : cstr) : Prop := {
  reportable_span : exists b name, span_ok s b /\ span_copyable s name;
  reportable_tracer : exists i, tracer s = Some i /\ tracer_ok (tracer_of i) tname;
  reportable_sampled : Z.testbit (flags (context s)) 0 = true;
}.

Lemma reportable_finished s tname d : reportable s tname -> reportable (finished s d) tname.
Proof.
  intros [(b & name & H1 & H2) H3 H4]. split; [|done|done].
  exists b, name. split; [by apply finished_ok|by apply finished_copyable].
Qed.

Lemma succeeded_other m k vs w w' :
  k <> reporter_success -> counted_one m k w w' -> metrics_wf m w' -> succeeded m vs w ->
  succeeded m vs w'.
Proof. intros Hk [_ Ho] Hm [_ Hv]. split; [done|]. rewrite Ho; [done|congruence]. Qed.

Lemma succeeded_progress m vs w w' : progress w w' -> succeeded m vs w -> succeeded m vs w'.
Proof.
  intros Hw [Hm Hv]. split; [by eapply metrics_wf_progress|].
  destruct Hw as (_ & _ & Ec & _). by rewrite (total_cells m _ w).
Qed.

(** Reporting a sampled span through the tracer puts its message in the queue. *)
Lemma tracer_report_wp t r q s tname m vs Q w :
  plenty w -> t_metrics t = Some m -> t_reporter t = Some r -> reporter_ready r q m vs w ->
  reportable s tname ->
  (forall v p msg w', same_allocator w w' -> succeeded m vs w' -> queue_wf v (q ++ [msg]) ->
     span_message s msg -> message_wf msg ->
     Q (set_t_reporter t (Some (set_r_mutex (set_process (set_spans r v) p) false))
          (allocated_reporter t), s) w') ->
  wp (jaeger_tracer_report_span t s) Q w.
Proof.
  intros Hp Hm Hr [[Hq Hqm] Hroom _ (Hrm & Hs & _) [Hmu _]]
    [(b & name & Hok & Hcopy) (i & Htr & Ht) Hsam] HQ.
  unfold jaeger_tracer_report_span. rewrite Hm. wp_step. apply inc_one_wp; [apply Hs|].
  intros w1 Ha1 Hm1 Hc1. wp_step. pose proof Hok as [Hsm [_ _ _ _ Hcm] _ _ _ _].
  apply span_is_sampled_wp; [done|done|]. rewrite Hsam, Hr. wp_step.
  assert (succeeded m vs w1) by by eapply (succeeded_other _ spans_finished).
  eapply (remote_report_wp tracer_of r q s b name i _ tname m vs); try done.
  { by eapply plenty_same_allocator. }
  intros v msg p w2 Ha2 Hs2 Hq2 _ Hmsg Hmw _. wp_step. apply (HQ v p msg); try done. by etrans.
Qed.

Lemma finish_report_wp t r q s tname m vs Q w :
  plenty w -> t_metrics t = Some m -> t_reporter t = Some r -> reporter_ready r q m vs w ->
  reportable s tname -> finishes_now s w ->
  (forall d v p msg w', same_allocator w w' -> succeeded m vs w' -> queue_wf v (q ++ [msg]) ->
     nanoseconds d = nanoseconds (clock_monotonic (w_mono w)) - nanoseconds (start_time_steady s) ->
     span_message (finished s d) msg -> message_wf msg ->
     Q (set_t_reporter t (Some (set_r_mutex (set_process (set_spans r v) p) false))
          (allocated_reporter t), finished s d) w') ->
  wp (jaeger_span_finish jaeger_tracer_report_span t s) Q w.
Proof.
  intros Hp Hm Hr Hready Hrep Hnow HQ.
  pose proof Hrep as [(b & name & [Hsm _ _ _ _ _] & _) (i & Htr & _) Hsam].
  unfold jaeger_span_finish. cbn [jaeger_span_finish_with_options]. unfold finish_with_options.
  wp_step. apply finish_now_wp; [done|done|done|]. intros d w1 Hw1 Hd.
  cbn [finished set_times tracer]. rewrite Htr.
  eapply (tracer_report_wp _ r q _ tname m vs); [by eapply plenty_progress|done|done| | |].
  - destruct Hready as [? ? ? (? & ? & ?) ?]. split; try done. split_and!; try done.
    by eapply succeeded_progress.
  - by apply reportable_finished.
  - intros v p msg w2 Ha2 Hs2 Hq2 Hmsg Hmw. apply (HQ d v p msg); try done.
    etrans; [by apply progress_same_allocator|done].
Qed.
End ReportFacts.

(** ** Properties *)

(** C1: A finished span on its way to the agent, while memory lasts: finishing a
    sampled span measures its duration and queues its message after those that
    wait; flushing the tracer then sends the queue in order, in datagrams, and
    counts what was sent, and when it reports success the span's message was
    sent last. *)
Theorem finished_span_reaches_agent (env : Env) (pb : Protobuf) (msgs : SpanMessages)
    (batches : BatchMessages) (net : Network) (laws : BatchLaws batches) (log : NetworkLog net)
    (tracer_of : nat -> tracer_identity) (S : Type)
    (t : jaeger_tracer S jaeger_remote_reporter) r q s tname m vs w :
  let ops := remote_reporter_ops tracer_of in
  plenty w -> t_metrics t = Some m -> t_reporter t = Some r -> reporter_ready r q m vs w ->
  reportable tracer_of s tname -> finishes_now s w ->
  exists d msg t1 r1 w1 ok r2 w2,
    jaeger_span_finish jaeger_tracer_report_span t s w = Ok (t1, finished s d) w1 /\
    nanoseconds d = nanoseconds (clock_monotonic (w_mono w)) - nanoseconds (start_time_steady s) /\
    span_message (finished s d) msg /\
    t_reporter t1 = Some r1 /\ queue_wf (spans r1) (q ++ [msg]) /\ r_socket r1 = r_socket r /\
    jaeger_tracer_flush t1 w1
    = Ok (ok, set_t_reporter t1 (Some r2) (allocated_reporter t1)) w2 /\
    flushed m vs r1 (q ++ [msg]) ok r2 w2 /\
    (ok = true -> exists packets, concat packets = q ++ [msg] /\
       delivered (r_socket r2) = delivered (r_socket r) ++ map (batch_pack (process r1)) packets).
Proof.
  intros ops Hp Hm Hr Hready Hrep Hnow.
  assert (wp (jaeger_span_finish jaeger_tracer_report_span t s) (fun x w' =>
    exists d v p msg, x = (set_t_reporter t
        (Some (set_r_mutex (set_process (set_spans r v) p) false)) (allocated_reporter t),
      finished s d) /\ same_allocator w w' /\ succeeded m vs w' /\ queue_wf v (q ++ [msg]) /\
      nanoseconds d = nanoseconds (clock_monotonic (w_mono w))
                      - nanoseconds (start_time_steady s) /\
      span_message (finished s d) msg /\ message_wf msg) w)
    as (? & w1 & E1 & d & v & p & msg & -> & Ha & Hs & Hq & Hd & Hmsg & Hmw)%wp_returns.
  { eapply finish_report_wp; [done..|]. intros d v p msg w' ? ? ? ? ? ?. by exists d, v, p, msg. }
  set (r1 := set_r_mutex (set_process (set_spans r v) p) false) in *.
  destruct Hready as [[_ Hqm] _ Hsizes (Hrm & _ & Hvs) [_ Hc]].
  assert (wp (remote_reporter_flush r1) (fun x w' => flushed m vs r1 (q ++ [msg]) x.1 x.2 w') w1)
    as ([ok r2] & w2 & E2 & Hf)%wp_returns.
  { eapply remote_flush_wp; try done; [by eapply plenty_same_allocator|..].
    - destruct Hq as (Hwf & ? & Hc1 & ?). split; [|done]. pose proof (length_contents _ Hwf) as Hl.
      cbn. rewrite Hc1, length_map in Hl. pose proof (wf_len _ Hwf). lia.
    - apply Forall_app. by split; [|constructor]. }
  exists d, msg, (set_t_reporter t (Some r1) (allocated_reporter t)), r1, w1, ok, r2, w2.
  do 6 (split; [done|]). split.
  { unfold jaeger_tracer_flush. cbn [t_reporter set_t_reporter]. by rewrite (bind_ok _ _ _ _ _ E2). }
  split; [done|]. intros ->. destruct Hf as (packets & unsent & Eq & _ & Hdel & _ & -> & _).
  exists packets. rewrite app_nil_r in Eq. by split.
Qed.


(** *** The properties at work *)

Definition sample_client : jaeger_tracer jaeger_const_sampler (@jaeger_remote_reporter sample_net) :=
  set_t_reporter (set_t_metrics JAEGERTRACINGC_TRACER_INIT (Some sample_metrics) false)
    (Some new_remote_reporter) false.

Lemma sample_ready :
  @reporter_ready sample_env sample_pb sample_batches sample_net new_remote_reporter []
    sample_metrics 0 metrics_world.
Proof.
  split.
  - split; [apply new_queue_wf|constructor].
  - vm_compute. discriminate.
  - intros p msg i n. cbn -[take drop Z.mul]. rewrite length_take, length_drop. cbn [length].
    unfold INT_MAX. lia.
  - split; [done|]. split; [|done]. split; [apply sample_metrics_wf|done].
  - split; [done|]. intros cs [= <-]. by repeat constructor.
Qed.

Lemma sample_reportable :
  @reportable sample_env sample_pb (fun _ => sample_identity) sample_span (lit "svc").
Proof.
  split.
  - exists {[lit "k" := lit "v"]}, (lit "get").
    split; [apply sample_span_ok|apply sample_span_copyable].
  - exists 0%nat. split; [done|apply sample_tracer_ok].
  - done.
Qed.

Lemma sample_finishes_now : @finishes_now sample_env sample_span metrics_world.
Proof.
  unfold finishes_now, normalised, nanoseconds. split_and!; vm_compute; done || discriminate.
Qed.

Lemma finished_span_reaches_agent_witness :
  let ops := @remote_reporter_ops sample_env sample_pb sample_messages sample_batches sample_net
               (fun _ => sample_identity) in
  exists d msg t1 r1 w1 ok r2 w2,
    @jaeger_span_finish sample_env sample_pb _ (@jaeger_tracer_report_span sample_env _ _ ops)
      sample_client sample_span metrics_world = Ok (t1, finished sample_span d) w1 /\
    nanoseconds d = nanoseconds (@clock_monotonic sample_env (w_mono metrics_world))
                    - nanoseconds (start_time_steady sample_span) /\
    span_message (finished sample_span d) msg /\
    t_reporter t1 = Some r1 /\ queue_wf (spans r1) [msg] /\ r_socket r1 = [] /\
    @jaeger_tracer_flush _ _ ops t1 w1
    = Ok (ok, set_t_reporter t1 (Some r2) (allocated_reporter t1)) w2 /\
    @flushed sample_batches sample_net sample_net_log sample_metrics 0 r1 [msg] ok r2 w2 /\
    (ok = true -> exists packets, concat packets = [msg] /\
       @delivered _ sample_net_log (r_socket r2)
       = map (@batch_pack sample_batches (process r1)) packets).
Proof.
  apply (finished_span_reaches_agent sample_env sample_pb sample_messages sample_batches sample_net
    sample_batch_laws sample_net_log (fun _ => sample_identity) _ sample_client
    new_remote_reporter [] sample_span (lit "svc") sample_metrics 0 metrics_world).
  - done.
  - reflexivity.
  - reflexivity.
  - apply sample_ready.
  - apply sample_reportable.
  - apply sample_finishes_now.
Defined.

Definition sample_server : jaeger_tracer jaeger_const_sampler jaeger_in_memory_reporter :=
  JAEGERTRACINGC_TRACER_INIT.

