(* ===== verification/Http.v ===== *)
(** * HTTP messages and http-parser (for mock_agent.h)

    The text of the requests and responses the client and the mock agent
    exchange, written from RFC 7230 and apart from the code that prints them;
    http-parser for requests, as a parameter; what it is documented to do with
    such texts, as laws; and parsers that obey the laws. *)
From S2P Require Import Prelude Machine Vector CString Net Strategies.

(** ** Definitions *)

(** http-parser for requests: [http_parser_execute] on a parser that has just
    been initialised calls [on_url] with pieces of the URL. *)
Class RequestParser := {
  UF_QUERY : Z;
  http_request_execute {A} (on_url : A -> list ascii -> M (Z * A)) (a : A) (bytes : list ascii) :
    M (Z * A);
}.

(** *** Messages *)

Definition header_field : Type := cstr * cstr.

Definition header_line (h : header_field) : cstr := h.1 ++ lit ": " ++ h.2 ++ crlf.

(** A start line, header fields, and the empty line. *)
Definition message_head (start : cstr) (headers : list header_field) : cstr :=
  start ++ crlf ++ concat (map header_line headers) ++ crlf.

(** A request for a target. The version can be left out, as it was in HTTP/0.9. *)
Definition get_request (target version : cstr) (headers : list header_field) : cstr :=
  message_head (lit "GET " ++ target ++ version) headers.

(** A response that carries JSON, with its length. *)
Definition json_headers (body : cstr) : list header_field :=
  [(lit "Content-Type", lit "application/json");
   (lit "Content-Length", print_dec (lenZ body))].

Definition json_answer (body : cstr) : cstr :=
  message_head (lit "HTTP/1.1 200 OK") (json_headers body) ++ body.

(** Visible characters, but for the one that starts a fragment. *)
Definition url_char (c : ascii) : Prop := 33 <= code c < 127 /\ c <> "#"%char.
Definition token_char (c : ascii) : Prop := isalnum c = true \/ c = "-"%char.
Definition field_char (c : ascii) : Prop := 32 <= code c < 127.

(** A path, and a query that is not empty. *)
Definition url_path (path : cstr) : Prop :=
  Forall url_char path /\ take 1 path = lit "/" /\ "?"%char ∉ path.
Definition url_query (query : cstr) : Prop := Forall url_char query /\ query <> [].

Definition url_target (path query : cstr) : cstr := path ++ lit "?" ++ query.

(** The fields http-parser reads itself: they say where a message ends, or
    change the protocol. *)
Definition framing_fields : list cstr :=
  [lit "content-length"; lit "transfer-encoding"; lit "connection"; lit "proxy-connection";
   lit "upgrade"].

Definition header_ok (h : header_field) : Prop :=
  h.1 <> [] /\ Forall token_char h.1 /\ (map tolower h.1 ∉ framing_fields) /\
  Forall field_char h.2.

Definition HTTP_MAX_HEADER_SIZE : Z := 80 * 1024.

(** A request http-parser accepts, without a body. *)
Record request_ok (path query version : cstr) (headers : list header_field) : Prop := {
  rq_path : url_path path;
  rq_query : url_query query;
  rq_version : version = [] \/ version = lit " HTTP/1.1";
  rq_headers : Forall header_ok headers;
  rq_length : lenZ (get_request (url_target path query) version headers) < HTTP_MAX_HEADER_SIZE;
}.

(** *** What http-parser does *)

Section Pieces.
Context {A : Type} (on_url : A -> list ascii -> M (Z * A)).

Fixpoint run_pieces (a : A) (pieces : list (list ascii)) : M (bool * A) :=
  match pieces with
  | [] => ret (true, a)
  | p :: pieces =>
      ' (r, a) ← on_url a p;
      if r =? 0 then run_pieces a pieces else ret (false, a)
  end.
End Pieces.

(** An accepted request is consumed whole when no callback stops the parser; the
    pieces of the URL make up its target; and the query of a target is found
    behind the question mark. *)
Class RequestParserLaws (parser : UrlParser) (requests : RequestParser) := {
  url_pieces : list ascii -> list (list ascii);
  execute_request {A} (on_url : A -> list ascii -> M (Z * A)) a path query version headers w a' w' :
    request_ok path query version headers ->
    let request := get_request (url_target path query) version headers in
    run_pieces on_url a (url_pieces request) w = Ok (true, a') w' ->
    http_request_execute on_url a request w = Ok (lenZ request, a') w';
  pieces_of_target path query version headers :
    request_ok path query version headers ->
    concat (url_pieces (get_request (url_target path query) version headers))
      = url_target path query;
  parse_target path query :
    url_path path -> url_query query -> lenZ (url_target path query) <= USHRT_MAX ->
    exists parsed, http_parser_parse_url (url_target path query) = (0, parsed) /\
      Z.land (field_set parsed) (2 ^ UF_QUERY) <> 0 /\
      field_data parsed UF_QUERY = (lenZ path + 1, lenZ query);
}.

(** A response with JSON is accepted however it is cut up, its body handed over
    in pieces, and complete with its last byte. *)
Class AnswerLaws (http : HttpParser) {plaws : HttpParserLaws http} :=
  parse_answer body chunks :
    lenZ body <= INT_MAX -> Forall (fun c => c <> []) chunks -> concat chunks = json_answer body ->
    answers http_parser_init chunks body.

(** ** Lemmas *)

Lemma url_char_not_cr c : url_char c -> c <> chr 13 /\ c <> " "%char.
Proof. intros [Hc _]. split; intros ->; vm_compute in Hc; intuition discriminate. Qed.

(** *** Parsers that obey the laws *)

(** The characters before the first one that ends a URL. *)
Fixpoint until (stop : ascii -> bool) (text : list ascii) : list ascii :=
  match text with
  | [] => []
  | c :: text => if stop c then [] else c :: until stop text
  end.

Lemma until_app stop text c rest :
  Forall (fun c => stop c = false) text -> stop c = true -> until stop (text ++ c :: rest) = text.
Proof.
  intros HF Hc. induction HF as [|d text Hd _ IH]; cbn; [by rewrite Hc|]. by rewrite Hd, IH.
Qed.

Definition ends_url (c : ascii) : bool := bool_decide (c = " "%char) || bool_decide (c = chr 13).
Definition is_question (c : ascii) : bool := bool_decide (c = "?"%char).

(** The query starts after the first question mark. *)
Definition sample_target_parser : UrlParser := {|
  UF_HOST := 1; UF_PORT := 2; UF_PATH := 3;
  http_parser_parse_url url :=
    let off := lenZ (until is_question url) + 1 in
    (0, ParsedUrl 24 (fun i => if i =? 4 then (off, lenZ url - off) else (0, off - 1))) |}.

(** Hands the URL of a request over in two pieces. *)
Definition sample_pieces (bytes : list ascii) : list (list ascii) :=
  let url := until ends_url (drop 4 bytes) in [take 5 url; drop 5 url].

Definition sample_requests : RequestParser := {|
  UF_QUERY := 4;
  http_request_execute A on_url a bytes :=
    ' (ok, a) ← run_pieces on_url a (sample_pieces bytes);
    ret (if (ok : bool) then lenZ bytes else 0, a) |}.

Lemma target_chars path query :
  url_path path -> url_query query -> Forall (fun c => ends_url c = false) (url_target path query).
Proof.
  intros (Hp & _) (Hq & _). unfold url_target.
  rewrite !Forall_app. split_and!; [|by repeat constructor|].
  all: eapply Forall_impl; [done|]; intros c [Hc1 Hc2]%url_char_not_cr; unfold ends_url;
    by rewrite !bool_decide_eq_false_2.
Qed.

#[export] Instance sample_requests_laws : RequestParserLaws sample_target_parser sample_requests.
Proof.
  refine {| url_pieces := sample_pieces |}.
  - intros A on_url a path query version headers w a' w' _ request H.
    cbn [http_request_execute sample_requests]. unfold bind. by rewrite H.
  - intros path query version headers [Hp Hq Hv _ _].
    unfold sample_pieces, get_request, message_head.
    assert (exists c rest, drop 4 ((lit "GET " ++ url_target path query ++ version) ++ crlf ++
      concat (map header_line headers) ++ crlf) = url_target path query ++ c :: rest /\
      ends_url c = true) as (c & rest & -> & Hc).
    { rewrite <- !app_assoc. destruct Hv as [-> | ->]; [exists (chr 13)|exists " "%char];
        eexists; (split; [reflexivity|by vm_compute]). }
    rewrite until_app by (done || by apply target_chars). cbn [concat].
    by rewrite app_nil_r, take_drop.
  - intros path query Hp Hq _. eexists. split; [reflexivity|]. split; [done|].
    cbn [field_data]. assert (until is_question (url_target path query) = path) as ->.
    { unfold url_target. apply until_app; [|done]. destruct Hp as (_ & _ & Hno).
      apply Forall_forall. intros c Hc. apply bool_decide_eq_false_2. by intros ->. }
    unfold url_target. rewrite !length_app. cbn [length lit String.list_ascii_of_string].
    f_equal. lia.
Defined.

(** Where the length of a response is. *)
Definition answer_start : cstr :=
  lit "HTTP/1.1 200 OK" ++ crlf ++ lit "Content-Type: application/json" ++ crlf ++
  lit "Content-Length: ".

Lemma json_answer_start body :
  json_answer body = answer_start ++ print_dec (lenZ body) ++ crlf ++ crlf ++ body.
Proof.
  unfold json_answer, message_head, json_headers, answer_start, header_line.
  cbn [map concat fst snd]. by rewrite <- !app_assoc.
Qed.

(** The body of a response, if it is one. *)
Definition answer_body (text : cstr) : cstr :=
  drop 4 (strtol 10 (drop (length answer_start) text)).2.

Lemma scan_answer body rest :
  lenZ body <= INT_MAX ->
  strtol 10 (drop (length answer_start) (json_answer body ++ rest))
  = (lenZ body, crlf ++ crlf ++ body ++ rest).
Proof.
  intros Hb. rewrite json_answer_start, <- !app_assoc, drop_app_length.
  apply strtol_print_dec; [lia|]. by vm_compute.
Qed.

Lemma answer_body_of body : lenZ body <= INT_MAX -> answer_body (json_answer body) = body.
Proof.
  intros Hb. unfold answer_body. rewrite <- (app_nil_r (json_answer body)), scan_answer by done.
  by rewrite app_nil_r.
Qed.

(** No response is the start of another. *)
Lemma json_answer_prefix body body' rest :
  lenZ body <= INT_MAX -> lenZ body' <= INT_MAX -> json_answer body' ++ rest = json_answer body ->
  rest = [].
Proof.
  intros Hb Hb' He. pose proof (scan_answer body' rest Hb') as H1.
  rewrite He, <- (app_nil_r (json_answer body)), scan_answer in H1 by done.
  injection H1 as Hl H1. rewrite app_nil_r in H1. apply (f_equal length) in H1.
  rewrite length_app in H1. apply length_zero_iff_nil. lia.
Qed.

(** Calls back when it has all of a response. *)
Definition answer_events (acc bytes : list ascii) : list http_event :=
  let text := acc ++ bytes in
  if bool_decide (text = json_answer (answer_body text)) && (lenZ (answer_body text) <=? INT_MAX)
  then [headers_complete HTTP_OK; body (answer_body text); message_complete] else [].

Definition sample_answers : HttpParser :=
  {| http_parser := list ascii;
     http_parser_init := [];
     http_parser_execute A cb a acc bytes :=
       ' (ok, a) ← run_callbacks cb a (answer_events acc bytes);
       ret (if (ok : bool) then lenZ bytes else 0, acc ++ bytes, a) |}.

#[export] Instance sample_answers_laws : HttpParserLaws sample_answers.
Proof.
  refine {| parser_events := fun (acc : @http_parser sample_answers) bytes =>
              (answer_events acc bytes, acc ++ bytes : @http_parser sample_answers) |}.
  intros A cb a p bytes w a' w' H. cbn [http_parser_execute sample_answers fst snd] in *.
  unfold bind. by rewrite H.
Defined.

#[export] Instance sample_answers_ok : AnswerLaws sample_answers.
Proof.
  intros text chunks Hl Hne Hcat.
  assert (Hg : forall acc, acc ++ concat chunks = json_answer text -> chunks <> [] ->
    @answers sample_answers _ acc chunks text).
  2: { apply Hg; [done|]. intros ->. by destruct (json_answer text) eqn:E. }
  clear Hcat. induction chunks as [|c chunks IH]; intros acc Hcat Hnil; [done|].
  apply Forall_cons in Hne as [Hc Hne]. cbn [concat] in Hcat.
  destruct chunks as [|d chunks].
  - cbn [concat] in Hcat. rewrite app_nil_r in Hcat.
    assert (He : answer_events acc c = [headers_complete HTTP_OK; body text; message_complete]).
    { unfold answer_events. rewrite Hcat, answer_body_of by done.
      by rewrite bool_decide_true, (proj2 (Z.leb_le _ _)) by done. }
    pose proof (answers_last (plaws := sample_answers_laws) acc c) as H.
    cbn [parser_events sample_answers_laws fst] in H. rewrite He in H.
    unfold events_text in H. cbn [map event_text concat app] in H. rewrite app_nil_r in H. apply H; [|done]. by repeat constructor.
  - assert (He : answer_events acc c = []).
    { unfold answer_events. case_bool_decide as Heq; [|done].
      destruct (lenZ _ <=? INT_MAX) eqn:E; [|done]. apply Z.leb_le in E. cbn [andb].
      rewrite app_assoc, Heq in Hcat. apply json_answer_prefix in Hcat; [|done..].
      apply Forall_cons in Hne as [Hd _]. cbn [concat] in Hcat. by destruct d. }
    pose proof (answers_more (plaws := sample_answers_laws) acc c (d :: chunks) text) as H.
    cbn [parser_events sample_answers_laws fst snd] in H. rewrite He in H.
    apply H; [constructor|done|]. apply IH; [done| |done]. by rewrite <-app_assoc.
Qed.
