(* ===== verification/Crossdock.v ===== *)
(** * The crossdock client (crossdock/main.c, crossdock/messages.h)

    The integration client: the messages it parses from JSON, the requests it
    answers, and its accept loop with the threads that serve. It is verified
    against an interface of OpenTracing tracers, of which the tracer of Tracer.v
    is an instance. The array variables the code leaves uninitialised start
    with arbitrary bytes; http-parser's table of statuses and jansson are
    parameters. *)
From S2P Require Import Prelude Machine Vector CString Float Clock Threading TraceId Hashtable.
From S2P Require Import Tag SpanContext Span Net Sampler Strategies Reporter Tracer Http.

(** ** Definitions *)

(** *** Statuses *)

Definition HTTP_STATUS_OK : Z := 200.
Definition HTTP_STATUS_BAD_REQUEST : Z := 400.
Definition HTTP_STATUS_NOT_FOUND : Z := 404.
Definition HTTP_STATUS_INTERNAL_SERVER_ERROR : Z := 500.

(** HTTP_STATUS_MAP of http_parser.h: the text of each status. *)
Class HttpStatus := { HTTP_STATUS_MAP : Z -> option cstr }.

(** *** Messages *)

Inductive transport_type := transport_type_http | transport_type_tchannel | transport_type_dummy.

(** The transport of a parsed message is not a [transport_type]: the pointer to
    its name has been stored over it. *)
Inductive stored_transport :=
  | transport (t : transport_type)
  | name_pointer (name : cstr).

Inductive downstream_message := DownstreamMessage {
  ds_service_name : option cstr;
  ds_server_role : option cstr;
  ds_host : option cstr;
  ds_port : option cstr;
  ds_transport : stored_transport;
  ds_downstream : option downstream_message;
}.

(** [memset(downstream, 0, sizeof( *downstream))]. *)
Definition zero_downstream : downstream_message :=
  DownstreamMessage None None None None (transport transport_type_http) None.

Record start_trace_request := StartTraceRequest {
  req_server_role : option cstr;
  req_sampled : bool;
  req_baggage : option cstr;
  req_downstream : downstream_message;
}.

Definition zero_request : start_trace_request :=
  StartTraceRequest None false None zero_downstream.

Record observed_span := ObservedSpan {
  obs_trace_id : option cstr;
  obs_sampled : bool;
  obs_baggage : option cstr;
}.

Section Messages.
Context {env : Env} {jansson : Jansson} {statuses : HttpStatus}.

(** The C library's allocator, whatever allocator is installed. *)
Definition libc_strdup (s : cstr) : M (option cstr) :=
  granted ← built_in_malloc; ret (if granted then Some s else None).

Definition http_status_line (status : Z) : M cstr :=
  match HTTP_STATUS_MAP status with
  | Some line => ret line
  | None => c_assert false;; fail Uninitialised
  end.

(** [result] is what the pointer points to; [None]: NULL. *)
Definition parse_transport_type (name : option cstr) (result : option transport_type)
    : Z * option transport_type :=
  match result, name with
  | None, _ | _, None | _, Some [] => (HTTP_STATUS_BAD_REQUEST, result)
  | Some _, Some (c :: s) =>
      let cmp (text : cstr) (t : transport_type) :=
        if strcmp (c :: s) text =? 0 then (HTTP_STATUS_OK, Some t)
        else (HTTP_STATUS_BAD_REQUEST, result) in
      if bool_decide (c = "D"%char) then cmp (lit "DUMMY") transport_type_dummy
      else if bool_decide (c = "H"%char) then cmp (lit "HTTP") transport_type_http
      else if bool_decide (c = "T"%char) then cmp (lit "TCHANNEL") transport_type_tchannel
      else (HTTP_STATUS_BAD_REQUEST, result)
  end.

Definition downstream_message_destroy (downstream : option downstream_message)
    : option downstream_message :=
  match downstream with None => None | Some _ => Some zero_downstream end.

Definition downstream_fields : list unpack_field :=
  [field_string (lit "serviceName"); field_string (lit "serverRole");
   field_string (lit "host"); field_string (lit "port"); field_string (lit "transport");
   field_optional (lit "downstream")].

Definition is_null {A} (p : option A) : bool := bool_decide (p = None).

(** The recursive call is given the NULL pointer the message has just been
    initialised with, so that a call makes at most one other: [fuel] 1 is
    enough. *)
Fixpoint parse_downstream_message (fuel : nat) (downstream : option downstream_message)
    (json : option json_t) : M (Z * option downstream_message) :=
  match downstream, json with
  | None, _ | _, None => ret (HTTP_STATUS_BAD_REQUEST, downstream)
  | Some _, Some json =>
      match json_unpack_ex (Some json) downstream_fields with
      | None => ret (HTTP_STATUS_BAD_REQUEST, downstream)
      | Some [got_string service_name; got_string server_role; got_string host;
              got_string port; got_string transport_name; child] =>
          service_name ← libc_strdup service_name;
          server_role ← libc_strdup server_role;
          host ← libc_strdup host;
          port ← libc_strdup port;
          let d := DownstreamMessage service_name server_role host port
                     (name_pointer transport_name) None in
          ' (code, inner) ←
            (match child with
             | got_json child =>
                 match fuel with
                 | O => fail OutOfFuel
                 | S fuel => parse_downstream_message fuel (ds_downstream d) (Some child)
                 end
             | _ => ret (HTTP_STATUS_OK, ds_downstream d)
             end);
          let d := DownstreamMessage service_name server_role host port
                     (name_pointer transport_name) inner in
          if negb (code =? HTTP_STATUS_OK) then
            ret (code, downstream_message_destroy (Some d))
          else if is_null service_name || is_null server_role || is_null host || is_null port
          then ret (HTTP_STATUS_INTERNAL_SERVER_ERROR, downstream_message_destroy (Some d))
          else ret (code, Some d)
      | Some _ => fail TypeConfusion
      end
  end.

Definition start_trace_request_destroy (req : option start_trace_request)
    : option start_trace_request :=
  match req with None => None | Some _ => Some zero_request end.

Definition start_trace_fields : list unpack_field :=
  [field_string (lit "serverRole"); field_bool (lit "sampled"); field_string (lit "baggage");
   field_object (lit "downstream")].

Definition parse_start_trace_request (req : option start_trace_request) (json : option json_t)
    : M (Z * option start_trace_request) :=
  match req, json with
  | None, _ | _, None => ret (HTTP_STATUS_BAD_REQUEST, req)
  | Some _, Some json =>
      match json_unpack_ex (Some json) start_trace_fields with
      | None => ret (HTTP_STATUS_BAD_REQUEST, req)
      | Some [got_string server_role; got_bool sampled; got_string baggage; got_json downstream] =>
          server_role ← libc_strdup server_role;
          baggage ← libc_strdup baggage;
          let req := StartTraceRequest server_role sampled baggage zero_downstream in
          if is_null server_role || is_null baggage then
            ret (HTTP_STATUS_INTERNAL_SERVER_ERROR, start_trace_request_destroy (Some req))
          else
            ' (code, d) ← parse_downstream_message 1 (Some (req_downstream req)) (Some downstream);
            let req := StartTraceRequest server_role sampled baggage (default zero_downstream d) in
            if negb (code =? HTTP_STATUS_OK) then
              ret (code, start_trace_request_destroy (Some req))
            else ret (code, Some req)
      | Some _ => fail TypeConfusion
      end
  end.

(** *** Observing a span *)

Definition baggage_key : cstr := lit "crossdock-baggage-key".

(** The context's mutex is left as it was found; on [false] the span may be
    partly assigned. *)
Definition make_observed_span (span : observed_span) (ctx : opentracing_span_context)
    : M (bool * observed_span) :=
  let td := type_descriptor ctx in
  let jtd := jaeger_span_context_type_descriptor in
  if negb (lenZ td =? lenZ jtd) || (strcmp (until_nul td) (until_nul jtd) =? 0) then
    ret (false, span)
  else
    match jaeger_context ctx with
    | None => fail TypeConfusion
    | Some ctx =>
        let trace_id_len := JAEGERTRACINGC_TRACE_ID_MAX_STR_LEN + 1 in
        granted ← built_in_malloc;
        if negb granted then ret (false, ObservedSpan None (obs_sampled span) (obs_baggage span))
        else
          m ← jaeger_mutex_lock (ctx_mutex ctx);
          ' (_, text) ← jaeger_trace_id_format (SpanContext.trace_id ctx) trace_id_len;
          let sampled := negb (Z.land (flags ctx) jaeger_sampling_flag_sampled =? 0) in
          kv ← jaeger_hashtable_find (baggage ctx) baggage_key;
          match kv with
          | None => c_assert false;; fail NullDeref
          | Some kv =>
              value ← libc_strdup (kv_value kv);
              _ ← jaeger_mutex_unlock m;
              ret (true, ObservedSpan text sampled value)
          end
    end.
End Messages.

(** *** The C library's scanners *)

(** [strstr]: the text from the first occurrence on. *)
Fixpoint strstr (s needle : cstr) : option cstr :=
  if bool_decide (take (length needle) s = needle) then Some s
  else match s with [] => None | _ :: s => strstr s needle end.

(** The word [%<width>s] reads, and the text after it. *)
Fixpoint span_word (width : nat) (s : cstr) : cstr * cstr :=
  match width, s with
  | S width, c :: s' =>
      if isspace c then ([], s)
      else let '(word, rest) := span_word width s' in (c :: word, rest)
  | _, _ => ([], s)
  end.

Definition scan_word (width : nat) (s : cstr) : option (cstr * cstr) :=
  match span_word width (skip_space s) with
  | ([], _) => None
  | r => Some r
  end.

(** *** Array variables *)

Section Arrays.
Context {env : Env}.
Implicit Types buffer : list ascii.

Definition set_byte buffer (i : Z) (c : ascii) : M (list ascii) :=
  if (0 <=? i) && (i <? lenZ buffer) then ret (<[Z.to_nat i := c]> buffer) else fail OutOfBounds.

(** A text and its NUL at the start of an array. *)
Definition put_text buffer (text : cstr) : M (list ascii) :=
  if lenZ buffer <? lenZ text + 1 then fail OutOfBounds
  else ret (text ++ [nul] ++ drop (length text + 1) buffer).

Definition strncpy buffer (s : cstr) (n : Z) : M (list ascii) :=
  if (n <? 0) || (lenZ buffer <? n) then fail OutOfBounds
  else ret (take (Z.to_nat n) (s ++ replicate (Z.to_nat n) nul) ++ drop (Z.to_nat n) buffer).

(** An array read as a C string: it must hold a NUL. *)
Definition c_string buffer : M cstr :=
  if bool_decide (nul ∈ buffer) then ret (until_nul buffer) else fail OutOfBounds.
End Arrays.

(** *** Serving *)

(** The client's end of a connection: the bytes written to it, and how often it
    has been closed. *)
Record connection := Connection { sent : list ascii; closed : nat }.

(** The tracer the crossdock client uses, through OpenTracing's pointers to
    functions. *)
Class OpentracingTracer (T Sp : Type) := {
  ot_start_span : T -> cstr -> M (option Sp * T);
  ot_set_tag : Sp -> cstr -> opentracing_value -> M Sp;
  ot_set_baggage_item : Sp -> cstr -> cstr -> M Sp;
}.

Definition ot_crlf2 : cstr := crlf ++ crlf.

Definition response_text (code : Z) (line : cstr) : cstr :=
  lit "HTTP/1.1 " ++ print_dec code ++ lit " " ++ line ++ ot_crlf2.

Section Serving.
Context {env : Env} {jansson : Jansson} {statuses : HttpStatus}.
Context {T Sp : Type} {tracers : OpentracingTracer T Sp}.
(** What an array variable of the given name and size holds before it is
    written, and the tracer that is registered. *)
Context (stack : cstr -> nat -> list ascii) (global_tracer : option T).

Definition close_connection (c : connection) : connection := Connection (sent c) (S (closed c)).

(** [snprintf] with [size], [write] of the length it returns, [close]. *)
Definition send_status (array : list ascii) (size code : Z) (c : connection)
    : M (list ascii * connection) :=
  line ← http_status_line code;
  let '(len, text) := snprintf size (response_text code line) in
  array ← put_text array (default [] text);
  if lenZ array <? len then fail OutOfBounds
  else ret (array, close_connection (Connection (sent c ++ take (Z.to_nat len) array) (closed c))).

(** Not written yet. *)
Definition prepare_response (server_role : option cstr) (downstream : downstream_message)
    (c : connection) : M unit := ret tt.

Definition start_trace (json : json_t) (c : connection) : M (option Sp * connection) :=
  let failed code :=
    ' (_, c) ← send_status (stack (lit "buffer") 512) 511 code c; ret (None, c) in
  ' (code, req) ← parse_start_trace_request (Some zero_request) (Some json);
  if negb (code =? HTTP_STATUS_OK) then failed code
  else
    match global_tracer, req with
    | None, _ => failed HTTP_STATUS_INTERNAL_SERVER_ERROR
    | Some _, None => fail NullDeref
    | Some tracer, Some req =>
        ' (span, _) ← ot_start_span tracer (default [] (req_server_role req));
        match span with
        | None => fail NullDeref
        | Some span =>
            span ← (if req_sampled req
                    then ot_set_tag span (lit "sampling.priority") (ot_uint64 1) else ret span);
            span ← ot_set_baggage_item span baggage_key (default [] (req_baggage req));
            prepare_response (req_server_role req) (req_downstream req) c;;
            ret (Some span, c)
        end
    end.

(** Not written yet. *)
Definition join_trace (json : json_t) (c : connection) : M (option Sp * connection) :=
  ret (None, c).

Definition parse_content_length (request : cstr) : M Z :=
  match strstr request (lit "Content-Length: ") with
  | None => ret 0
  | Some line =>
      let text := drop (length (lit "Content-Length:")) line in
      match scan_number 10 text with
      | None => ret 0
      | Some _ => int_chk (strtol 10 text).1
      end
  end.

(** The body as it is copied out of the request; [None] when its length is
    refused. *)
Definition read_body (request text : cstr) : M (option (list ascii)) :=
  let content := stack (lit "body") 512 in
  content_length ← parse_content_length request;
  if content_length =? 0 then
    content ← strncpy content text 510;
    content ← set_byte content 511 nul;
    ret (Some content)
  else if 511 <? u64 content_length then ret None
  else
    content ← strncpy content text content_length;
    content ← set_byte content (content_length + 1) nul;
    ret (Some content).

(** [sscanf(request, "%64s %64s HTTP/1.1\r\n", method, path)]: the array
    [path] after it. *)
Definition read_path (request : cstr) : M (list ascii) :=
  match scan_word 64 request with
  | None => ret (stack (lit "path") 64)
  | Some (method, rest) =>
      _ ← put_text (stack (lit "method") 64) method;
      match scan_word 64 rest with
      | None => ret (stack (lit "path") 64)
      | Some (path, _) => put_text (stack (lit "path") 64) path
      end
  end.

Definition answer (code : Z) (c : connection) : M (option Sp * connection) :=
  ' (_, c) ← send_status (stack (lit "buffer") 64) 64 code c; ret (None, c).

(** The span of a trace that has been started is what is left of it. *)
Definition handle_request (request : cstr) (c : connection) : M (option Sp * connection) :=
  path ← read_path request;
  let body_pos := option_map (drop 4) (strstr request ot_crlf2) in
  content ← (match body_pos with
          | None => ret (Some (stack (lit "body") 512))
          | Some text => read_body request text
          end);
  match content with
  | None => answer HTTP_STATUS_INTERNAL_SERVER_ERROR c
  | Some content =>
      path ← c_string path;
      if (strcmp path (lit "/start_trace") =? 0) || (strcmp path (lit "/join_trace") =? 0) then
        if is_null body_pos then answer HTTP_STATUS_BAD_REQUEST c
        else
          text ← c_string content;
          match json_loads 0 text with
          | None => answer HTTP_STATUS_BAD_REQUEST c
          | Some json =>
              ' (span, c) ← (if strcmp path (lit "/start_trace") =? 0 then start_trace json c
                             else c_assert (strcmp path (lit "/join_trace") =? 0);; join_trace json c);
              ret (span, close_connection c)
          end
      else answer (if strcmp path (lit "/") =? 0 then HTTP_STATUS_OK else HTTP_STATUS_NOT_FOUND) c
  end.

(** [received]: the result of [read], which is -1 or the number of bytes. *)
Definition serve (received : option (list ascii)) (c : connection) : M (option Sp * connection) :=
  let num_read := match received with Some bytes => lenZ bytes | None => -1 end in
  let bytes := default [] received in
  let buffer := bytes ++ drop (length bytes) (stack (lit "buffer") 1024) in
  ' (buffer, c) ← (if num_read + 1 >=? 1024
                   then send_status buffer 1024 HTTP_STATUS_INTERNAL_SERVER_ERROR c
                   else ret (buffer, c));
  buffer ← set_byte buffer (num_read + 1) nul;
  request ← c_string buffer;
  handle_request request c.
End Serving.

(** *** The server's socket *)

(** The calls that prepare it: a result and the socket. *)
Class ServerCalls {net : Network} := {
  server_bind : socket -> Z -> Z * socket;
  server_setsockopt_reuseaddr : socket -> Z * socket;
  server_listen : socket -> Z -> Z * socket;
}.

Definition port : Z := 8080.
Definition backlog : Z := 8.

(** [None]: the process has ended with a failure. *)
Definition main_socket {net : Network} {calls : ServerCalls} : option (Z * socket) :=
  let '(server_fd, s) := sys_socket AF_INET SOCK_STREAM in
  if negb (server_fd >=? 0) then None
  else
    let '(result, s) := server_bind s port in
    if negb (result =? 0) then None
    else
      let '(result, s) := server_setsockopt_reuseaddr s in
      if negb (result =? 0) then None
      else
        let '(result, s) := server_listen s backlog in
        if negb (result =? 0) then None else Some (server_fd, s).

(** *** The accept loop *)

Definition num_threads : nat := 4.

(** A thread reads the descriptor through the pointer it is given, serves the
    connection and returns. *)
Inductive serve_thread := created | serving (client_fd : Z) | returned.

Inductive main_pc := accepting | joining | creating | exited.

(** A thread is its place in [pool]; [threads] is the array of the last threads,
    with no entry for zero; [client_fd] is the variable of the loop's body, whose
    address every thread is given. *)
Record accept_loop := AcceptLoop {
  al_pc : main_pc;
  threads : list (option nat);
  thread_index : nat;
  client_fd : Z;
  pool : list serve_thread;
}.

Definition main_init : accept_loop :=
  AcceptLoop accepting (replicate num_threads None) 0 0 [].

Inductive main_step : accept_loop -> accept_loop -> Prop :=
  | step_accept s fd :
      al_pc s = accepting -> 0 <= fd ->
      main_step s (AcceptLoop joining (threads s) (thread_index s) fd (pool s))
  | step_accept_failed s fd :
      al_pc s = accepting -> fd < 0 ->
      main_step s (AcceptLoop exited (threads s) (thread_index s) fd (pool s))
  | step_no_join s :
      al_pc s = joining -> threads s !! thread_index s = Some None ->
      main_step s (AcceptLoop creating (threads s) (thread_index s) (client_fd s) (pool s))
  | step_join s thread :
      al_pc s = joining -> threads s !! thread_index s = Some (Some thread) ->
      pool s !! thread = Some returned ->
      main_step s (AcceptLoop creating (threads s) (thread_index s) (client_fd s) (pool s))
  | step_create s :
      al_pc s = creating ->
      main_step s
        (AcceptLoop accepting (<[thread_index s := Some (length (pool s))]> (threads s))
           ((thread_index s + 1) `mod` num_threads) (client_fd s) (pool s ++ [created]))
  | step_create_failed s :
      al_pc s = creating ->
      main_step s (AcceptLoop exited (threads s) (thread_index s) (client_fd s) (pool s))
  | step_read s thread :
      pool s !! thread = Some created ->
      main_step s
        (AcceptLoop (al_pc s) (threads s) (thread_index s) (client_fd s)
           (<[thread := serving (client_fd s)]> (pool s)))
  | step_return s thread fd :
      pool s !! thread = Some (serving fd) ->
      main_step s
        (AcceptLoop (al_pc s) (threads s) (thread_index s) (client_fd s)
           (<[thread := returned]> (pool s))).

(** ** The messages *)

#[local] Arguments lit : simpl never.

(** Documented values of the calls the client relies on. *)
Class HttpStatusLaws (statuses : HttpStatus) := {
  status_ok : HTTP_STATUS_MAP 200 = Some (lit "OK");
  status_bad_request : HTTP_STATUS_MAP 400 = Some (lit "Bad Request");
  status_not_found : HTTP_STATUS_MAP 404 = Some (lit "Not Found");
  status_internal_error : HTTP_STATUS_MAP 500 = Some (lit "Internal Server Error");
}.

Section MessageFacts.
Context {env : Env} {jansson : Jansson} {laws : JanssonLaws jansson}.
Implicit Types (w : world).

(** The C library never refuses memory. *)
Definition granted : Prop := forall n, sys_malloc_ok n = true.

Lemma wp_libc_strdup s Q w :
  (forall p w', (granted -> p = Some s) -> (p = None \/ p = Some s) -> alloc_only w w' -> Q p w') ->
  wp (libc_strdup s) Q w.
Proof.
  intros H. unfold libc_strdup, built_in_malloc, wp, bind, ret.
  destruct (sys_malloc_ok (w_allocs w)) eqn:E; (apply H; [|by auto|done]); [done|].
  intros Hg. by rewrite Hg in E.
Qed.

(** The JSON of a downstream service, with what it says of its own downstream. *)
Record downstream_json (j : json_t) (service role host port name : cstr)
    (child : option json_t) : Prop := {
  dj_object : json_is_object j = true;
  dj_service : json_member j (lit "serviceName") ≫= json_string = Some service;
  dj_role : json_member j (lit "serverRole") ≫= json_string = Some role;
  dj_host : json_member j (lit "host") ≫= json_string = Some host;
  dj_port : json_member j (lit "port") ≫= json_string = Some port;
  dj_transport : json_member j (lit "transport") ≫= json_string = Some name;
  dj_child : json_member j (lit "downstream") = child;
}.

Record start_trace_json (j : json_t) (role : cstr) (sampled : bool) (baggage : cstr)
    (downstream : json_t) : Prop := {
  sj_object : json_is_object j = true;
  sj_role : json_member j (lit "serverRole") ≫= json_string = Some role;
  sj_sampled : json_member j (lit "sampled") ≫= json_boolean = Some sampled;
  sj_baggage : json_member j (lit "baggage") ≫= json_string = Some baggage;
  sj_downstream : json_member j (lit "downstream") = Some downstream;
}.

Lemma unpack_downstream j service role host port name child :
  downstream_json j service role host port name child ->
  json_unpack_ex (Some j) downstream_fields =
  Some [got_string service; got_string role; got_string host; got_string port;
        got_string name; from_option got_json got_nothing child].
Proof.
  intros [Ho H1 H2 H3 H4 H5 H6]. rewrite unpack_object, Ho.
  unfold downstream_fields. cbn [mapM unpack_one].
  by rewrite H1, H2, H3, H4, H5, H6.
Qed.

Lemma unpack_start_trace j role sampled baggage downstream :
  start_trace_json j role sampled baggage downstream ->
  json_unpack_ex (Some j) start_trace_fields =
  Some [got_string role; got_bool sampled; got_string baggage; got_json downstream].
Proof.
  intros [Ho H1 H2 H3 H4]. rewrite unpack_object, Ho.
  unfold start_trace_fields. cbn [mapM unpack_one].
  by rewrite H1, H2, H3, H4.
Qed.

(** What is left of a message that was refused: nothing. *)
Definition parsed_or_released {A} (zero good : A) (r : Z * option A) : Prop :=
  (r.1 = HTTP_STATUS_OK /\ r.2 = Some good) \/
  ((r.1 = HTTP_STATUS_BAD_REQUEST \/ r.1 = HTTP_STATUS_INTERNAL_SERVER_ERROR) /\
   r.2 = Some zero).

Lemma parse_downstream_wp fuel j service role host port name child d Q w :
  downstream_json j service role host port name child ->
  (forall r w', parsed_or_released zero_downstream
       (DownstreamMessage (Some service) (Some role) (Some host) (Some port)
          (name_pointer name) None) r ->
     (is_Some child -> r.1 = HTTP_STATUS_BAD_REQUEST) ->
     (child = None -> granted -> r.1 = HTTP_STATUS_OK) -> alloc_only w w' -> Q r w') ->
  wp (parse_downstream_message (S fuel) (Some d) (Some j)) Q w.
Proof.
  intros Hj HQ. cbn [parse_downstream_message]. rewrite (unpack_downstream _ _ _ _ _ _ _ Hj).
  do 4 (apply wp_bind, wp_libc_strdup; intros ? ? ? ? ?).
  destruct child as [child|]; cbn [from_option parse_downstream_message ds_downstream].
  - destruct fuel; apply wp_bind, wp_ret; cbn -[zero_downstream];
      (apply HQ; [by right; split; [by left|]|done|done|by repeat (etrans; [eassumption|])]).
  - apply wp_bind, wp_ret; cbn -[zero_downstream is_null].
    destruct (is_null p || is_null p0 || is_null p1 || is_null p2) eqn:E.
    + apply HQ; [by right; split; [by right|]|by intros []| |by repeat (etrans; [eassumption|])].
      intros _ Hg. destruct_or?; subst; naive_solver.
    + unfold is_null in E. reflect_bools.
      destruct_or?; subst; try done.
      apply HQ; [by left|by intros []|done|by repeat (etrans; [eassumption|])].
Qed.

Lemma parse_start_trace_wp j role sampled baggage dj service drole host port name child Q w :
  start_trace_json j role sampled baggage dj ->
  downstream_json dj service drole host port name child ->
  (forall r w', parsed_or_released zero_request
       (StartTraceRequest (Some role) sampled (Some baggage)
          (DownstreamMessage (Some service) (Some drole) (Some host) (Some port)
             (name_pointer name) None)) r ->
     (is_Some child -> r.1 <> HTTP_STATUS_OK) ->
     (granted -> r.1 = if is_null child then HTTP_STATUS_OK else HTTP_STATUS_BAD_REQUEST) ->
     alloc_only w w' -> Q r w') ->
  wp (parse_start_trace_request (Some zero_request) (Some j)) Q w.
Proof.
  intros Hj Hd HQ. cbn [parse_start_trace_request]. rewrite (unpack_start_trace _ _ _ _ _ Hj).
  do 2 (apply wp_bind, wp_libc_strdup; intros ? ? ? ? ?).
  destruct (is_null p || is_null p0) eqn:E; unfold is_null in E; reflect_bools.
  { apply wp_ret, HQ; [by right; split; [by right|]|done| |by etrans].
    intros Hg. destruct_or?; subst; naive_solver. }
  destruct_or?; subst; try done.
  apply wp_bind. eapply parse_downstream_wp; [done|]. intros [code d] w2 Hr Hc Hn ?.
  unfold parsed_or_released in Hr. cbn [fst snd] in *.
  destruct Hr as [[-> ->]|[Hcode ->]]; cbn -[zero_request].
  - apply HQ; [by left| | |by repeat (etrans; [eassumption|])].
    + intros Hs. by specialize (Hc Hs).
    + intros Hg. unfold is_null. case_bool_decide as Hb; [done|].
      by apply not_eq_None_Some in Hb; apply Hc in Hb.
  - destruct (code =? HTTP_STATUS_OK) eqn:Eok; reflect_bools; [by destruct_or?; subst|].
    apply wp_ret, HQ; [by right| | |by repeat (etrans; [eassumption|])].
    + done.
    + intros Hg. unfold is_null. case_bool_decide as Hb; [by specialize (Hn Hb Hg)|].
      by apply not_eq_None_Some in Hb; apply Hc in Hb.
Qed.
End MessageFacts.

(** ** The answers *)

Lemma strstr_suffix s needle t : strstr s needle = Some t -> t `suffix_of` s.
Proof.
  induction s as [|c s IH]; cbn [strstr]; case_bool_decide; intros H1; try congruence.
  - by injection H1 as <-.
  - by injection H1 as <-.
  - by apply suffix_cons_r, IH.
Qed.

Lemma skip_space_suffix s : skip_space s `suffix_of` s.
Proof.
  induction s as [|c s IH]; cbn [skip_space]; [done|].
  destruct (isspace c); [by apply suffix_cons_r|done].
Qed.

Lemma span_word_split width s : let '(word, rest) := span_word width s in s = word ++ rest.
Proof.
  revert s. induction width as [|width IH]; intros [|c s]; cbn; try done.
  destruct (isspace c); [done|]. specialize (IH s). destruct (span_word width s).
  cbn. by rewrite IH.
Qed.

(** Without a NUL in a text there is none in its words. *)
Lemma scan_word_no_nul width s word rest :
  scan_word width s = Some (word, rest) -> (nul ∉ s) -> (nul ∉ word) /\ (nul ∉ rest).
Proof.
  unfold scan_word. pose proof (skip_space_suffix s) as [pre Hpre].
  pose proof (span_word_split width (skip_space s)) as Hw.
  destruct (span_word width (skip_space s)) as [[|c l] r]; [done|].
  intros [= <- <-] Hn. rewrite Hpre, Hw, !elem_of_app in Hn. tauto.
Qed.

(** The words of a request line. *)
Record request_line (request method path : cstr) : Prop := {
  rl_no_nul : nul ∉ request;
  rl_method : (lenZ method < 64)%Z;
  rl_path : (lenZ path < 64)%Z;
  rl_scan : exists rest rest', scan_word 64 request = Some (method, rest) /\
                               scan_word 64 rest = Some (path, rest');
}.

(** The number the request announces, zero when there is none. *)
Definition announced_length (request : cstr) : Z :=
  match strstr request (lit "Content-Length: ") with
  | None => 0
  | Some line => (strtol 10 (drop (length (lit "Content-Length:")) line)).1
  end.

(** The body as the client reads it: when the text fills the number of bytes
    that are copied, the array's next byte comes after it. *)
Definition body_read (array : list ascii) (announced : Z) (text : cstr) : cstr :=
  let n := if announced =? 0 then 510 else announced in
  if lenZ text <? n then text
  else take (Z.to_nat n) text ++ until_nul (take 1 (drop (Z.to_nat n) array)).

Definition length_refused (announced : Z) : bool := (announced <? 0) || (511 <? announced).

Inductive decision {jansson : Jansson} :=
  | Reply (status_line : cstr)
  | Trace (json : json_t)
  | Join.

Lemma until_nul_app s t : nul ∉ s -> until_nul (s ++ t) = s ++ until_nul t.
Proof.
  induction s as [|c s IH]; intros Hn; cbn; [done|]. apply not_elem_of_cons in Hn as [Hc Hn].
  rewrite bool_decide_false by congruence. by rewrite IH.
Qed.

(** What a request with a path and a body asks for; [announced] is meaningless
    without a body. *)
Definition decide_request {jansson : Jansson} (array : list ascii) (path : cstr)
    (announced : Z) (text : option cstr) : decision :=
  let tracing := bool_decide (path = lit "/start_trace") || bool_decide (path = lit "/join_trace") in
  match text with
  | None =>
      if tracing then Reply (lit "HTTP/1.1 400 Bad Request")
      else if bool_decide (path = lit "/") then Reply (lit "HTTP/1.1 200 OK")
      else Reply (lit "HTTP/1.1 404 Not Found")
  | Some text =>
      if length_refused announced then
        Reply (lit "HTTP/1.1 500 Internal Server Error")
      else if tracing then
        match json_loads 0 (body_read array announced text) with
        | None => Reply (lit "HTTP/1.1 400 Bad Request")
        | Some json => if bool_decide (path = lit "/start_trace") then Trace json else Join
        end
      else if bool_decide (path = lit "/") then Reply (lit "HTTP/1.1 200 OK")
      else Reply (lit "HTTP/1.1 404 Not Found")
  end.

Definition body_of (request : cstr) : option cstr := option_map (drop 4) (strstr request ot_crlf2).

Section ServingFacts.
Context {env : Env} {jansson : Jansson} {statuses : HttpStatus} {laws : HttpStatusLaws statuses}.
Context {T Sp : Type} {tracers : OpentracingTracer T Sp}.
Context (stack : cstr -> nat -> list ascii) (global_tracer : option T).
Context (stack_length : forall name n, length (stack name n) = n).
Implicit Types (w : world) (c : connection).

Definition replied (code : Z) (line : cstr) (c : connection) : connection :=
  Connection (sent c ++ response_text code line) (S (closed c)).

(** A response without headers or a body, and the end of the connection. *)
Definition answered (status_line : cstr) (c : connection) : connection :=
  Connection (sent c ++ message_head status_line []) (S (closed c)).

Lemma replied_answered c :
  replied HTTP_STATUS_OK (lit "OK") c = answered (lit "HTTP/1.1 200 OK") c /\
  replied HTTP_STATUS_BAD_REQUEST (lit "Bad Request") c
    = answered (lit "HTTP/1.1 400 Bad Request") c /\
  replied HTTP_STATUS_NOT_FOUND (lit "Not Found") c = answered (lit "HTTP/1.1 404 Not Found") c /\
  replied HTTP_STATUS_INTERNAL_SERVER_ERROR (lit "Internal Server Error") c
    = answered (lit "HTTP/1.1 500 Internal Server Error") c.
Proof. unfold replied, answered. split_and!; do 2 f_equal; vm_compute; reflexivity. Qed.

Lemma put_text_ok array text w :
  lenZ text < lenZ array ->
  put_text array text w = Ok (text ++ [nul] ++ drop (length text + 1) array) w.
Proof. intros H. unfold put_text. by rewrite (proj2 (Z.ltb_ge _ _)) by lia. Qed.

Lemma send_status_ok array size code line c w :
  HTTP_STATUS_MAP code = Some line -> lenZ (response_text code line) < size <= lenZ array ->
  exists array', send_status array size code c w = Ok (array', replied code line c) w.
Proof.
  intros Hl Hs. unfold send_status, http_status_line. rewrite Hl.
  unfold bind at 1, ret at 1. rewrite snprintf_fits by lia. cbn [default from_option id].
  unfold bind. rewrite put_text_ok by lia.
  rewrite (proj2 (Z.ltb_ge _ _)); last first.
  { rewrite !length_app, length_drop. cbn [length]. lia. }
  eexists. unfold ret, replied, close_connection. cbn [sent closed].
  by rewrite Nat2Z.id, take_app_length.
Qed.

Lemma answer_ok code line c w :
  HTTP_STATUS_MAP code = Some line -> lenZ (response_text code line) < 64 ->
  answer (Sp := Sp) stack code c w = Ok (None, replied code line c) w.
Proof.
  intros Hl Hs. unfold answer, bind.
  destruct (send_status_ok (stack (lit "buffer") 64) 64 code line c w Hl) as [array ->]; [|done].
  rewrite stack_length. lia.
Qed.

(** Each status the client sends fits its buffer of 64 bytes. *)
Lemma answer_ok_cases w c :
  answer (Sp := Sp) stack HTTP_STATUS_OK c w = Ok (None, answered (lit "HTTP/1.1 200 OK") c) w /\
  answer (Sp := Sp) stack HTTP_STATUS_BAD_REQUEST c w =
    Ok (None, answered (lit "HTTP/1.1 400 Bad Request") c) w /\
  answer (Sp := Sp) stack HTTP_STATUS_NOT_FOUND c w =
    Ok (None, answered (lit "HTTP/1.1 404 Not Found") c) w /\
  answer (Sp := Sp) stack HTTP_STATUS_INTERNAL_SERVER_ERROR c w =
    Ok (None, answered (lit "HTTP/1.1 500 Internal Server Error") c) w.
Proof.
  destruct (replied_answered c) as (<- & <- & <- & <-).
  repeat split; apply answer_ok; (apply laws || (vm_compute; reflexivity)).
Qed.

Lemma read_path_ok request method path w :
  request_line request method path ->
  exists tail, read_path stack request w = Ok (path ++ [nul] ++ tail) w /\ nul ∉ path.
Proof.
  intros [Hn Hm Hp (rest & rest' & H1 & H2)]. unfold read_path. rewrite H1.
  destruct (scan_word_no_nul _ _ _ _ H1 Hn) as [_ Hr].
  destruct (scan_word_no_nul _ _ _ _ H2 Hr) as [Hpn _].
  unfold bind. rewrite put_text_ok by (rewrite stack_length; lia).
  rewrite H2, put_text_ok by (rewrite stack_length; lia). by eexists.
Qed.

Lemma c_string_ok text tail w :
  nul ∉ text -> c_string (text ++ [nul] ++ tail) w = Ok text w.
Proof.
  intros Hn. unfold c_string. rewrite bool_decide_true by set_solver.
  by rewrite until_nul_app, app_nil_r.
Qed.

(** [strncpy] and the NUL one byte after what it copies. *)
Lemma copied_text (array : list ascii) n text :
  nul ∉ text -> (n + 1 < length array)%nat ->
  let content := <[(n + 1)%nat := nul]>
    (take n (text ++ replicate n nul) ++ drop n array) in
  nul ∈ content /\
  until_nul content = if decide (length text < n)%nat then text
                      else take n text ++ until_nul (take 1 (drop n array)).
Proof.
  intros Hn Hlen content. subst content.
  assert (Hl : length (take n (text ++ replicate n nul)) = n).
  { rewrite length_take, length_app, length_replicate. lia. }
  rewrite insert_app_r_alt, Hl by lia. replace (n + 1 - n)%nat with 1%nat by lia.
  assert (exists a b r, drop n array = a :: b :: r) as (a & b & r & Hd).
  { assert (2 <= length (drop n array))%nat by (rewrite length_drop; lia).
    destruct (drop n array) as [|a [|b r]]; cbn in *; try lia. by do 3 eexists. }
  rewrite Hd. cbn [insert list_insert take]. split; [set_solver|].
  case_decide as Hs.
  - rewrite take_app, take_ge by lia. rewrite <-app_assoc.
    replace (n - length text)%nat with (S (n - length text - 1)) by lia.
    replace (take _ (replicate n nul)) with (nul :: replicate (n - length text - 1) nul).
    + rewrite until_nul_app by done. by rewrite app_nil_r.
    + rewrite take_replicate. by replace (S (n - length text - 1) `min` n)%nat
        with (S (n - length text - 1)) by lia.
  - rewrite take_app_le by lia. rewrite until_nul_app by
      (intros Ht; apply Hn; rewrite <-(take_drop n text); apply elem_of_app; by left).
    done.
Qed.

Lemma parse_content_length_ok request w :
  INT_MIN <= announced_length request <= INT_MAX ->
  parse_content_length request w = Ok (announced_length request) w.
Proof.
  unfold announced_length, parse_content_length, strtol.
  destruct (strstr request _) as [line|]; [|done].
  destruct (scan_number _ _) as [[[neg v] rest]|]; [|done].
  intros [H1 H2]. unfold int_chk. by rewrite (proj2 (Z.leb_le _ _) H1), (proj2 (Z.leb_le _ _) H2).
Qed.

Lemma read_body_ok request text w :
  nul ∉ text -> INT_MIN <= announced_length request <= INT_MAX ->
  announced_length request <> 511 ->
  exists content, read_body stack request text w = Ok content w /\
    if length_refused (announced_length request) then content = None
    else exists bytes, content = Some bytes /\ nul ∈ bytes /\
      until_nul bytes = body_read (stack (lit "body") 512) (announced_length request) text.
Proof.
  intros Hn Hint H511. unfold read_body, bind. rewrite parse_content_length_ok by done.
  set (n := announced_length request) in *. set (array := stack (lit "body") 512).
  assert (Hl : length array = 512%nat) by apply stack_length.
  assert (Hcopy : forall k, 0 <= k -> k + 1 < 512 ->
    exists bytes, (content ← strncpy array text k; content ← set_byte content (k + 1) nul;
                   ret (Some content)) w = Ok (Some bytes) w /\ nul ∈ bytes /\
      until_nul bytes = if lenZ text <? k then text
                        else take (Z.to_nat k) text ++ until_nul (take 1 (drop (Z.to_nat k) array))).
  { intros k H0 H1. unfold strncpy. unfold bind at 1.
    replace ((k <? 0) || (lenZ array <? k)) with false
      by (symmetry; apply orb_false_iff; split; apply Z.ltb_ge; lia).
    unfold ret at 1, set_byte.
    replace ((0 <=? k + 1) && (k + 1 <? _)) with true; last first.
    { symmetry. apply andb_true_iff. split; [apply Z.leb_le; lia|]. apply Z.ltb_lt.
      rewrite length_app, length_take, length_app, length_replicate, length_drop. lia. }
    eexists. split; [done|]. rewrite (Z2Nat.inj_add k 1) by lia.
    destruct (copied_text array (Z.to_nat k) text Hn ltac:(lia)) as [Hin Heq].
    split; [exact Hin|]. change (Z.to_nat 1) with 1%nat. rewrite Heq.
    case_decide; case_ifs; reflect_bools; done || lia. }
  destruct (n =? 0) eqn:E0; reflect_bools.
  - rewrite E0. cbn [length_refused Z.ltb Z.compare orb].
    destruct (Hcopy 510) as (bytes & He & Hin & Heq); [lia..|].
    exists (Some bytes). split; [exact He|]. exists bytes. by split_and!.
  - unfold length_refused. unfold u64, wrap. unfold INT_MIN, INT_MAX in Hint.
    destruct (decide (n < 0)).
    + rewrite (proj2 (Z.ltb_lt n 0)) by lia. cbn [orb].
      rewrite (proj2 (Z.ltb_lt 511 _)); [by exists None|].
      rewrite <-(Z.mod_add n 1) by done. rewrite Z.mod_small; lia.
    + rewrite (proj2 (Z.ltb_ge n 0)) by lia. cbn [orb]. rewrite Z.mod_small by lia.
      destruct (511 <? n) eqn:E; reflect_bools; [by exists None|].
      destruct (Hcopy n) as (bytes & He & Hin & Heq); [lia..|].
      exists (Some bytes). split; [exact He|]. exists bytes. split_and!; [done|done|].
      rewrite Heq. unfold body_read. by rewrite (proj2 (Z.eqb_neq n 0)).
Qed.

(** The path's comparisons, as [decide_request] makes them. *)
Lemma strcmp_decide s text : (strcmp s text =? 0) = bool_decide (s = text).
Proof.
  case_bool_decide as H; [subst; by rewrite strcmp_refl|].
  apply Z.eqb_neq. by rewrite strcmp_eq.
Qed.

Lemma body_of_no_nul request text : body_of request = Some text -> (nul ∉ request) -> nul ∉ text.
Proof.
  unfold body_of. destruct (strstr request ot_crlf2) as [t|] eqn:E; [|done].
  intros [= <-] Hn Hin. apply strstr_suffix in E as [pre ->]. apply Hn.
  apply elem_of_app. right. rewrite <-(take_drop 4 t). apply elem_of_app. by right.
Qed.

(** The part of [handle_request] after the body has been copied. *)
Lemma handle_request_ok request method path c w :
  request_line request method path ->
  (is_Some (body_of request) ->
   INT_MIN <= announced_length request <= INT_MAX /\ announced_length request <> 511) ->
  handle_request stack global_tracer request c w =
  match decide_request (stack (lit "body") 512) path (announced_length request)
          (body_of request) with
  | Reply status_line => Ok (None, answered status_line c) w
  | Trace json =>
      (' (span, c') ← start_trace stack global_tracer json c; ret (span, close_connection c')) w
  | Join => Ok (None, close_connection c) w
  end.
Proof.
  intros Hr Hlen. destruct (read_path_ok _ _ _ w Hr) as (tail & Hp & Hpn).
  destruct (answer_ok_cases w c) as (Ho & Hb & Hnf & Hi).
  unfold handle_request. unfold bind at 1. rewrite Hp.
  change (option_map (drop 4) (strstr request ot_crlf2)) with (body_of request).
  destruct (body_of request) as [text|] eqn:E; cbn zeta.
  - destruct Hlen as [Hint H511]; [done|].
    destruct (read_body_ok request text w) as (content & Hc & Hspec); [|done|done|].
    { eapply body_of_no_nul; [done|apply Hr]. }
    unfold bind at 1. rewrite Hc. unfold decide_request.
    destruct (length_refused _); [subst content; apply Hi|].
    destruct Hspec as (bytes & -> & Hin & Hu).
    unfold bind at 1. rewrite c_string_ok by done. rewrite !strcmp_decide.
    destruct (bool_decide (path = lit "/start_trace")) eqn:Es; cbn [orb is_null].
    + unfold is_null. rewrite bool_decide_false by done.
      unfold bind at 1. unfold c_string. rewrite bool_decide_true by done. unfold ret at 1.
      rewrite Hu. by destruct (json_loads 0 _).
    + destruct (bool_decide (path = lit "/join_trace")) eqn:Ej.
      * unfold is_null. rewrite bool_decide_false by done.
        unfold bind at 1. unfold c_string. rewrite bool_decide_true by done. unfold ret at 1.
        rewrite Hu. destruct (json_loads 0 _); [done|apply Hb].
      * destruct (bool_decide (path = lit "/")); [apply Ho|apply Hnf].
  - unfold bind at 1, ret at 1, bind at 1. rewrite c_string_ok by done. rewrite !strcmp_decide.
    unfold decide_request. destruct (_ || _).
    + apply Hb.
    + destruct (bool_decide (path = lit "/")); [apply Ho|apply Hnf].
Qed.

(** A trace that is not started: the answer has been sent and the connection
    closed, and it is closed again. *)
Lemma start_trace_refused json code line c w w' :
  parse_start_trace_request (Some zero_request) (Some json) w = Ok (code, Some zero_request) w' ->
  code <> HTTP_STATUS_OK -> HTTP_STATUS_MAP code = Some line ->
  lenZ (response_text code line) < 511 ->
  (' (span, c') ← start_trace stack global_tracer json c; ret (span, close_connection c')) w =
  Ok (None, close_connection (replied code line c)) w'.
Proof.
  intros Hp Hc Hl Hlen. unfold start_trace. unfold bind at 1, bind at 1. rewrite Hp.
  rewrite (proj2 (Z.eqb_neq _ _)) by done. cbn [negb]. unfold bind at 1.
  destruct (send_status_ok (stack (lit "buffer") 512) 511 code line c w' Hl) as [array ->]; [|done].
  rewrite stack_length. lia.
Qed.

(** A trace as the request describes it, and the connection closed without an
    answer. *)
Definition trace_started (t : T) (role : cstr) (sampled : bool) (item : cstr) (c : connection)
    : M (option Sp * connection) :=
  ' (span, _) ← ot_start_span t role;
  match span with
  | None => fail NullDeref
  | Some span =>
      span ← (if sampled then ot_set_tag span (lit "sampling.priority") (ot_uint64 1)
              else ret span);
      span ← ot_set_baggage_item span (lit "crossdock-baggage-key") item;
      ret (Some span, Connection (sent c) (S (closed c)))
  end.

Context {jlaws : JanssonLaws jansson}.

(** What becomes of a well-formed trace request, when memory is granted. *)
Lemma start_trace_ok j role sampled item dj service drole host port name child c w :
  granted -> start_trace_json j role sampled item dj ->
  downstream_json dj service drole host port name child ->
  exists w', alloc_only w w' /\
    (' (span, c') ← start_trace stack global_tracer j c; ret (span, close_connection c')) w =
    match child, global_tracer with
    | Some _, _ =>
        Ok (None, close_connection (answered (lit "HTTP/1.1 400 Bad Request") c)) w'
    | None, None =>
        Ok (None, close_connection
              (answered (lit "HTTP/1.1 500 Internal Server Error") c)) w'
    | None, Some t => trace_started t role sampled item c w'
    end.
Proof.
  destruct (replied_answered c) as (_ & <- & _ & <-).
  intros Hg Hj Hd.
  assert (Hp : wp (parse_start_trace_request (Some zero_request) (Some j))
    (fun r w' => alloc_only w w' /\
       parsed_or_released zero_request
         (StartTraceRequest (Some role) sampled (Some item)
            (DownstreamMessage (Some service) (Some drole) (Some host) (Some port)
               (name_pointer name) None)) r /\
       r.1 = if is_null child then HTTP_STATUS_OK else HTTP_STATUS_BAD_REQUEST) w).
  { eapply parse_start_trace_wp; [done..|]. intros r w' Hr _ Hcode Ha. by auto. }
  apply wp_returns in Hp as ([code req] & w' & Hp & Ha & Hr & Hc).
  unfold parsed_or_released in Hr. cbn [fst snd] in *. exists w'. split; [done|].
  destruct child as [child|]; cbn in Hc; subst code.
  - destruct Hr as [[? _]|[_ ->]]; [done|].
    apply start_trace_refused; [done|done|apply laws|by vm_compute].
  - destruct Hr as [[_ ->]|[[?|?] _]]; [|done..].
    unfold start_trace. unfold bind at 1, bind at 1. rewrite Hp. cbn [Z.eqb negb].
    destruct global_tracer as [t|]; cbn -[send_status].
    + unfold trace_started, baggage_key, bind, ret.
      destruct (ot_start_span t role w') as [[[span|] ?] ?|?]; try done. cbn.
      destruct sampled; cbn; repeat case_match; naive_solver.
    + unfold bind.
      destruct (send_status_ok (stack (lit "buffer") 512) 511 HTTP_STATUS_INTERNAL_SERVER_ERROR _ c w' status_internal_error)
        as [array ->]; [|done].
      rewrite stack_length. split; [by vm_compute|lia].
Qed.
End ServingFacts.


(** Parsing the request to start a trace gives the server's role, the baggage,
    whether to sample, and the downstream service, as the JSON has them,
    whenever memory is granted and that service has no downstream of its own;
    otherwise nothing of the request is left, and the result is 400 or 500. *)
Theorem parse_start_trace_request_spec (env : Env) (jansson : Jansson) (laws : JanssonLaws jansson)
    j role sampled item dj service drole host port name child w :
  start_trace_json j role sampled item dj ->
  downstream_json dj service drole host port name child ->
  exists r w', parse_start_trace_request (Some zero_request) (Some j) w = Ok r w' /\
    alloc_only w w' /\
    (r = (HTTP_STATUS_OK,
          Some (StartTraceRequest (Some role) sampled (Some item)
                  (DownstreamMessage (Some service) (Some drole) (Some host) (Some port)
                     (name_pointer name) None))) \/
     r = (HTTP_STATUS_BAD_REQUEST, Some zero_request) \/
     r = (HTTP_STATUS_INTERNAL_SERVER_ERROR, Some zero_request)) /\
    (granted -> r.1 = if is_null child then HTTP_STATUS_OK else HTTP_STATUS_BAD_REQUEST) /\
    (is_Some child -> r.1 <> HTTP_STATUS_OK).
Proof.
  intros Hj Hd. apply wp_returns. eapply parse_start_trace_wp; [done..|].
  intros [code req] w' Hr Hc Hg Ha. split_and!; [done| |done|done].
  unfold parsed_or_released in Hr. cbn in Hr.
  destruct Hr as [[-> ->]|[[->| ->] ->]]; auto.
Qed.

(** *** The accept loop *)

(** Threads that have not returned are in the array, and the place the next one
    is written to is free of them. *)
Record loop_inv (s : accept_loop) : Prop := {
  li_threads : length (threads s) = num_threads;
  li_index : (thread_index s < num_threads)%nat;
  li_held : forall thread state, pool s !! thread = Some state -> state <> returned ->
    Some thread ∈ threads s;
  li_known : forall thread, Some thread ∈ threads s -> (thread < length (pool s))%nat;
  li_free : al_pc s = creating ->
    forall thread state, threads s !! thread_index s = Some (Some thread) ->
    pool s !! thread = Some state -> state = returned;
}.

Lemma loop_inv_init : loop_inv main_init.
Proof.
  split; cbn [threads thread_index pool al_pc main_init]; try done.
  - unfold num_threads. lia.
  - intros thread H. apply elem_of_replicate in H as [? _]. congruence.
Qed.

(** A thread that goes on, from [old] to [new]. *)
Lemma loop_inv_thread s thread old new :
  loop_inv s -> pool s !! thread = Some old -> old <> returned ->
  loop_inv (AcceptLoop (al_pc s) (threads s) (thread_index s) (client_fd s)
              (<[thread := new]> (pool s))).
Proof.
  intros [Ht Hi Hh Hk Hf] Hold Hne. split; cbn; try done.
  - intros i st Hl Hr. destruct (decide (i = thread)) as [->|Hd]; [by eapply Hh|].
    rewrite list_lookup_insert_ne in Hl by done. by eapply Hh.
  - intros i Hin. rewrite length_insert. by apply Hk.
  - intros Hpc i st Hl Hp. destruct (decide (i = thread)) as [->|Hd].
    + exfalso. apply Hne. by eapply Hf.
    + rewrite list_lookup_insert_ne in Hp by done. by eapply Hf.
Qed.

Lemma loop_inv_create s :
  al_pc s = creating -> loop_inv s ->
  loop_inv (AcceptLoop accepting (<[thread_index s := Some (length (pool s))]> (threads s))
              ((thread_index s + 1) `mod` num_threads) (client_fd s) (pool s ++ [created])).
Proof.
  intros Hpc [Ht Hi Hh Hk Hf]. split; cbn -[num_threads]; try done.
  - by rewrite length_insert.
  - apply Nat.mod_upper_bound. done.
  - intros i st Hl Hr. apply lookup_app_Some in Hl as [Hl|[Hge Hl]].
    + specialize (Hh _ _ Hl Hr). apply list_elem_of_lookup in Hh as [k Hk'].
      apply list_elem_of_lookup. exists k. rewrite list_lookup_insert_ne; [done|].
      intros <-. apply Hr. by eapply Hf.
    + apply list_lookup_singleton_Some in Hl as [Hz _].
      replace i with (length (pool s)) by lia.
      apply list_elem_of_lookup. exists (thread_index s).
      apply list_lookup_insert_eq. lia.
  - intros i Hin. rewrite length_app. cbn.
    apply list_elem_of_lookup in Hin as [k Hl]. apply list_lookup_insert_Some in Hl as [Hl|[_ Hl]].
    + destruct Hl as (_ & Hl & _). injection Hl as <-. lia.
    + apply list_elem_of_lookup_2, Hk in Hl. lia.
Qed.

Lemma loop_inv_step s s' : main_step s s' -> loop_inv s -> loop_inv s'.
Proof.
  intros Hs Hinv. destruct Hs as [s fd|s fd|s|s thread|s|s|s thread|s thread fd];
    try (by eapply loop_inv_thread); try (by apply loop_inv_create);
    destruct Hinv as [Ht Hi Hh Hk Hf]; split; cbn; try done.
  - intros _ thread state Hl. congruence.
  - intros _ i state Hl Hp. congruence.
Qed.

Lemma loop_inv_reachable s : rtc main_step main_init s -> loop_inv s.
Proof.
  intros Hr. assert (Hg : forall a b, rtc main_step a b -> loop_inv a -> loop_inv b).
  { induction 1; [done|]. eauto using loop_inv_step. }
  exact (Hg _ _ Hr loop_inv_init).
Qed.

(** The threads that have not returned. *)
Definition is_live (state : serve_thread) : bool :=
  match state with returned => false | _ => true end.

Definition live_threads (s : accept_loop) : list nat :=
  filter (fun i => from_option is_live false (pool s !! i)) (seq 0 (length (pool s))).

(** *** The client's tracer *)

(** The tracer of Tracer.v behind OpenTracing's interface. *)
#[local] Instance jaeger_opentracing {env : Env} {pb : Protobuf} {host : Host}
    {S R : Type} {ops : Sampler S} :
    OpentracingTracer (nat * jaeger_tracer S R) jaeger_span := {
  ot_start_span '(self, t) name :=
    ' (span, t) ← jaeger_tracer_start_span self t (Some name); ret (span, (self, t));
  ot_set_tag := jaeger_span_set_tag;
  ot_set_baggage_item := jaeger_span_set_baggage_item;
}.

(** On a jaeger tracer no trace is ever started: the span never comes, and the
    client uses it all the same. *)
Theorem jaeger_trace_never_starts (env : Env) (pb : Protobuf) (host : Host) (S R : Type)
    (ops : Sampler S) (t : nat * jaeger_tracer S R) role sampled item c :
  mt = true \/ ndebug = false ->
  ensures (trace_started t role sampled item c) (fun _ => False).
Proof.
  intros Hb. unfold trace_started. destruct t as [self t].
  apply ensures_bind with (P := fun r => r.1 = None).
  - cbn [ot_start_span jaeger_opentracing].
    apply ensures_bind with (P := no_span); [by apply start_span_none|].
    intros [span t'] H. by apply ensures_ret.
  - intros [span t'] H. cbn [fst] in H. subst span. apply ensures_fail.
Qed.

(** C13: However connections come and threads run, at most four threads serve at
    once, and a thread is created only in a place whose thread has been
    joined. *)
Theorem accept_loop_bounded s :
  rtc main_step main_init s ->
  (length (live_threads s) <= num_threads)%nat /\
  (al_pc s = creating -> forall thread, threads s !! thread_index s = Some (Some thread) ->
   pool s !! thread = Some returned).
Proof.
  intros Hr. destruct (loop_inv_reachable s Hr) as [Ht Hi Hh Hk Hf]. split.
  - rewrite <-Ht, <-(length_fmap Some (live_threads s)). apply submseteq_length, NoDup_submseteq.
    + apply NoDup_fmap_2; [by intros ? ? [= ->]|]. apply NoDup_filter, NoDup_seq.
    + intros x Hx. apply list_elem_of_fmap in Hx as (i & -> & Hi').
      apply list_elem_of_filter in Hi' as [Hl _].
      destruct (pool s !! i) as [st|] eqn:E; [|done]. eapply Hh; [done|]. by intros ->.
  - intros Hpc thread Hl.
    destruct (lookup_lt_is_Some_2 (pool s) thread) as [st Hst].
    { by eapply Hk, list_elem_of_lookup_2. }
    rewrite Hst. f_equal. by eapply Hf.
Qed.

(** ** Concrete requests *)

Definition sample_statuses : HttpStatus := {|
  HTTP_STATUS_MAP code :=
    if code =? 200 then Some (lit "OK") else if code =? 400 then Some (lit "Bad Request")
    else if code =? 404 then Some (lit "Not Found")
    else if code =? 500 then Some (lit "Internal Server Error") else None |}.

#[local] Instance sample_statuses_laws : HttpStatusLaws sample_statuses.
Proof. by split. Defined.

(** A tracer whose spans are the list of what has been done with them. *)
Definition sample_tracers : OpentracingTracer unit (list cstr) := {|
  ot_start_span t name := ret (Some [name], t);
  ot_set_tag span k _ := ret (span ++ [k]);
  ot_set_baggage_item span k v := ret (span ++ [k; v]) |}.

Definition sample_downstream (child : list (cstr * sample_json)) : sample_json :=
  JObject ([(lit "serviceName", JString (lit "svc")); (lit "serverRole", JString (lit "S2"));
            (lit "host", JString (lit "node")); (lit "port", JString (lit "8081"));
            (lit "transport", JString (lit "HTTP"))] ++ child).

Definition sample_trace (child : list (cstr * sample_json)) : sample_json :=
  JObject [(lit "serverRole", JString (lit "S1")); (lit "sampled", JBool true);
           (lit "baggage", JString (lit "hot")); (lit "downstream", sample_downstream child)].

(** The texts [one] and [two] say traces through one and two services. *)
Definition crossdock_jansson : Jansson :=
  sample_jansson [(lit "one", sample_trace []);
                  (lit "two", sample_trace [(lit "downstream", sample_downstream [])])].

#[local] Instance crossdock_jansson_laws : JanssonLaws crossdock_jansson :=
  sample_jansson_laws _.

Definition sample_request (content : cstr) : cstr :=
  lit "POST /start_trace HTTP/1.1" ++ crlf ++ lit "Content-Length: 3" ++ ot_crlf2 ++ content.

(** The bytes array variables start with. *)
Definition filled (c : ascii) (name : cstr) (n : nat) : list ascii := replicate n c.

Definition sample_handle (c : ascii) (t : option unit) (request : cstr) :=
  @handle_request sample_env crossdock_jansson sample_statuses unit (list cstr) sample_tracers
    (filled c) t request (Connection [] 0) initial_world.

Example sample_decides_trace :
  @decide_request crossdock_jansson (filled nul [] 512%nat) (lit "/start_trace")
    (announced_length (sample_request (lit "one"))) (body_of (sample_request (lit "one"))) =
  @Trace crossdock_jansson (sample_trace []).
Proof. vm_compute. reflexivity. Qed.

Lemma sample_line content rest :
  (nul ∉ sample_request content) ->
  scan_word 64 (sample_request content) = Some (lit "POST", lit " /start_trace" ++ rest) ->
  scan_word 64 (lit " /start_trace" ++ rest) = Some (lit "/start_trace", rest) ->
  request_line (sample_request content) (lit "POST") (lit "/start_trace").
Proof. intros. split; [done..|]. by do 2 eexists. Qed.

Lemma sample_request_line content :
  content = lit "one" \/ content = lit "two" ->
  request_line (sample_request content) (lit "POST") (lit "/start_trace").
Proof.
  intros [-> | ->].
  - eapply sample_line; [|vm_compute; reflexivity|vm_compute; reflexivity].
    apply (bool_decide_unpack _). vm_compute. exact I.
  - eapply sample_line; [|vm_compute; reflexivity|vm_compute; reflexivity].
    apply (bool_decide_unpack _). vm_compute. exact I.
Qed.

Lemma sample_trace_json child :
  @start_trace_json crossdock_jansson _ (sample_trace child) (lit "S1") true (lit "hot")
    (sample_downstream child).
Proof. by split. Qed.


Lemma parse_start_trace_request_spec_witness :
  exists r w', @parse_start_trace_request sample_env crossdock_jansson (Some zero_request)
      (Some (sample_trace [])) initial_world = Ok r w' /\
    alloc_only initial_world w' /\
    (r = (HTTP_STATUS_OK,
          Some (StartTraceRequest (Some (lit "S1")) true (Some (lit "hot"))
                  (DownstreamMessage (Some (lit "svc")) (Some (lit "S2")) (Some (lit "node"))
                     (Some (lit "8081")) (name_pointer (lit "HTTP")) None))) \/
     r = (HTTP_STATUS_BAD_REQUEST, Some zero_request) \/
     r = (HTTP_STATUS_INTERNAL_SERVER_ERROR, Some zero_request)) /\
    (@granted sample_env -> r.1 = HTTP_STATUS_OK) /\
    (is_Some (@None sample_json) -> r.1 <> HTTP_STATUS_OK).
Proof.
  apply (parse_start_trace_request_spec sample_env crossdock_jansson _ (sample_trace [])
           (lit "S1") true (lit "hot") (sample_downstream []) (lit "svc") (lit "S2")
           (lit "node") (lit "8081") (lit "HTTP") None).
  - apply sample_trace_json.
  - by split.
Defined.

Lemma jaeger_trace_never_starts_witness :
  ensures (@trace_started _ _
             (@jaeger_opentracing sample_env sample_pb sample_host _ _ sample_ops)
             (0%nat, sample_tracer) (lit "S1") true (lit "hot") (Connection [] 0))
    (fun _ => False).
Proof.
  apply (jaeger_trace_never_starts sample_env sample_pb sample_host). by left.
Defined.

(** *** Defects *)

(** A context whose descriptor is the jaeger one is the one that is refused. *)
Theorem observed_span_rejects_jaeger (env : Env) span ctx :
  type_descriptor ctx = jaeger_span_context_type_descriptor ->
  make_observed_span span ctx = ret (false, span).
Proof. intros H. unfold make_observed_span. by rewrite H, strcmp_refl, orb_true_r. Qed.

(** The NUL after the body is written one byte too far. *)
Theorem body_takes_stray_byte :
  body_read (filled "x" [] 512%nat) 3 (lit "one") = lit "onex".
Proof. vm_compute. reflexivity. Qed.

(** With a body of 511 bytes, outside the array. *)
Theorem body_of_511_overruns :
  sample_handle nul (Some tt)
    (lit "POST / HTTP/1.1" ++ crlf ++ lit "Content-Length: 511" ++ ot_crlf2) = Fault OutOfBounds.
Proof. vm_compute. reflexivity. Qed.

(** The widths of the conversions leave no room for the NUL. *)
Theorem long_path_overruns :
  sample_handle nul (Some tt) (lit "GET " ++ replicate 64 "p"%char ++ lit " HTTP/1.1" ++ ot_crlf2)
  = Fault OutOfBounds.
Proof. vm_compute. reflexivity. Qed.

(** A request that fills the buffer is answered, and then the NUL is written
    after the buffer. *)
Theorem large_request_overruns :
  @serve sample_env crossdock_jansson sample_statuses unit (list cstr) sample_tracers (filled nul)
    (Some tt) (Some (replicate 1023 "g"%char)) (Connection [] 0) initial_world
  = Fault OutOfBounds.
Proof. vm_compute. reflexivity. Qed.

(** The transport of a message is the pointer to its name. *)
Theorem transport_is_pointer :
  option_map (fun r => option_map (fun req => ds_transport (req_downstream req)) r.2)
    (value (@parse_start_trace_request sample_env crossdock_jansson (Some zero_request)
              (Some (sample_trace [])) initial_world)) =
  Some (Some (name_pointer (lit "HTTP"))).
Proof. vm_compute. reflexivity. Qed.

Definition two_connections : accept_loop :=
  AcceptLoop accepting [Some 0%nat; Some 1%nat; None; None] 2 8 [serving 8; serving 8].

Ltac main_step_by step := eapply rtc_l; [eapply step; cbn; (done || lia)|cbn].

Lemma two_connections_reachable : rtc main_step main_init two_connections.
Proof.
  eapply rtc_l; [apply (step_accept _ 7); cbn; (done || lia)|].
  main_step_by step_no_join. main_step_by step_create.
  eapply rtc_l; [apply (step_accept _ 8); cbn; (done || lia)|].
  main_step_by step_no_join. main_step_by step_create.
  eapply rtc_l; [apply (step_read _ 0); done|].
  eapply rtc_l; [apply (step_read _ 1); done|]. apply rtc_refl.
Qed.

(** The threads are given the address of a variable the loop goes on to write:
    with two connections, 7 and 8, both threads can serve the second. *)
Theorem accept_loop_races :
  exists s, rtc main_step main_init s /\ pool s = [serving 8; serving 8].
Proof. exists two_connections. split; [apply two_connections_reachable|done]. Qed.

Lemma accept_loop_bounded_witness :
  (length (live_threads two_connections) <= num_threads)%nat /\
  (al_pc two_connections = creating ->
   forall thread, threads two_connections !! thread_index two_connections = Some (Some thread) ->
   pool two_connections !! thread = Some returned).
Proof. apply accept_loop_bounded, two_connections_reachable. Defined.
