(* ===== verification/MockAgent.v ===== *)
(** * The mock agent (mock_agent.h)

    The HTTP server the tests of the remotely controlled sampler talk to: the
    responses it holds by service name, one request and its answer, the loop
    over a connection, and the start and the end of its thread, which are a
    transition system of two threads with a mutex and a condition variable. A
    TEST_ASSERT that fails is the fault [TestFailed]. http-parser, the socket
    calls and the resolver are parameters. *)
From S2P Require Import Prelude Machine Vector CString Float Threading Net Sampler Strategies Http.

(** ** Definitions *)

Definition test_assert (b : bool) : M unit := if b then ret tt else fail TestFailed.

Definition MOCK_HTTP_MAX_URL : Z := 256.

Record mock_http_response := MockResponse {
  service_name : option cstr;
  json_format : option cstr;
  arg_value : double;
}.

Definition sizeof_mock_http_response : Z := 24.

#[export] Instance zero_mock_response : ZeroBytes mock_http_response :=
  MockResponse None None (S754_zero false).

(** [thread]: zero or a thread's identifier. *)
Record mock_http_server := MockServer {
  server_fd : Z;
  client_fd : Z;
  thread : Z;
  mutex : jaeger_mutex;
  url_len : Z;
  url_buffer : list ascii;
  responses : jaeger_vector mock_http_response;
  running : bool;
}.

(** [client_fd] has no initialiser, so it is zero. *)
Definition MOCK_HTTP_SERVER_INIT : mock_http_server :=
  MockServer (-1) 0 0 JAEGERTRACINGC_MUTEX_INIT 0
    (replicate (Z.to_nat MOCK_HTTP_MAX_URL) nul) JAEGERTRACINGC_VECTOR_INIT false.

(** The calls that make a socket listen: a result and the socket, and for
    [getsockname] the size of the address as well. *)
Class Listening {net : Network} := {
  sys_bind : socket -> Z * socket;
  sys_listen : socket -> Z -> Z * socket;
  getsockname : socket -> Z * Z;
}.

(** *** [snprintf] of a double *)

(** [%f]: six digits after the point, rounded to nearest, ties to even. *)
Definition scaled_magnitude (m : positive) (e : Z) : Z :=
  let n := Z.pos m * 1000000 in
  if 0 <=? e then n * 2 ^ e
  else
    let q := n / 2 ^ (- e) in
    let r := n mod 2 ^ (- e) in
    match 2 * r ?= 2 ^ (- e) with
    | Lt => q
    | Gt => q + 1
    | Eq => if Z.even q then q else q + 1
    end.

(** Decimal digits, for numbers of any size. *)
Fixpoint decimal (fuel : nat) (n : Z) : cstr :=
  match fuel with
  | O => []
  | S fuel => if n <? 10 then [digit_char n] else decimal fuel (n / 10) ++ [digit_char (n mod 10)]
  end.

Definition print_f (d : double) : cstr :=
  let sign (s : bool) := if s then lit "-" else [] in
  match d with
  | S754_nan => lit "nan"
  | S754_infinity s => sign s ++ lit "inf"
  | S754_zero s => sign s ++ lit "0.000000"
  | S754_finite s m e =>
      let n := scaled_magnitude m e in
      sign s ++ decimal 310 (n / 1000000) ++ lit "." ++ digits 10 6 (n mod 1000000)
  end.

(** A format with at most one conversion, [%f]; [None] for another one, which
    the tests do not have. *)
Fixpoint format_double (format : cstr) (arg : double) : option cstr :=
  match format with
  | [] => Some []
  | c :: rest =>
      if bool_decide (c = "%"%char) then
        match rest with
        | d :: rest =>
            if bool_decide (d = "%"%char) then cons c <$> format_double rest arg
            else if bool_decide (d = "f"%char) && negb (bool_decide ("%"%char ∈ rest))
            then Some (print_f arg ++ rest)
            else None
        | [] => None
        end
      else cons c <$> format_double rest arg
  end.

(** *** Requests *)

Section Server.
Context {env : Env} {parser : UrlParser} {net : Network} {requests : RequestParser}.
Implicit Types (server : mock_http_server).

Definition set_client_fd server fd : mock_http_server :=
  MockServer (server_fd server) fd (thread server) (mutex server) (url_len server)
    (url_buffer server) (responses server) (running server).
Definition set_server_mutex server m : mock_http_server :=
  MockServer (server_fd server) (client_fd server) (thread server) m (url_len server)
    (url_buffer server) (responses server) (running server).
Definition set_server_url server n buffer : mock_http_server :=
  MockServer (server_fd server) (client_fd server) (thread server) (mutex server) n
    buffer (responses server) (running server).
Definition set_responses server v : mock_http_server :=
  MockServer (server_fd server) (client_fd server) (thread server) (mutex server)
    (url_len server) (url_buffer server) v (running server).
Definition set_running server b : mock_http_server :=
  MockServer (server_fd server) (client_fd server) (thread server) (mutex server)
    (url_len server) (url_buffer server) (responses server) b.

Definition lock_server server : M mock_http_server :=
  m ← jaeger_mutex_lock (mutex server); ret (set_server_mutex server m).
Definition unlock_server server : M mock_http_server :=
  m ← jaeger_mutex_unlock (mutex server); ret (set_server_mutex server m).

(** The sum of an [int] and a [size_t]. *)
Definition mock_http_server_on_url server (at_ : list ascii) : M (Z * mock_http_server) :=
  let n := url_len server in
  test_assert (u64 (n + lenZ at_) <=? MOCK_HTTP_MAX_URL);;
  if n <? 0 then fail OutOfBounds
  else
    ret (0, set_server_url server (n + lenZ at_)
              (take (Z.to_nat n) (url_buffer server) ++ at_ ++
               drop (Z.to_nat n + length at_) (url_buffer server))).

(** [read] into the start of the array: more bytes than it has are written past
    its end. *)
Definition read_into (s : socket) (buffer : list ascii) : M (Z * list ascii * socket) :=
  let '(num_read, bytes, s) :=
    sys_read s JAEGERTRACINGC_HTTP_SAMPLING_MANAGER_REQUEST_MAX_LEN in
  let bytes := take (Z.to_nat num_read) bytes in
  if lenZ buffer <? lenZ bytes then fail OutOfBounds
  else ret (num_read, bytes ++ drop (length bytes) buffer, s).

(** The loop after a first read: [fuel] is the number of further reads. *)
Fixpoint read_request_loop (fuel : nat) (s : socket) (buffer : list ascii)
    (buffer_len num_read : Z) : M (bool * list ascii * Z * socket) :=
  let max := JAEGERTRACINGC_HTTP_SAMPLING_MANAGER_REQUEST_MAX_LEN in
  if num_read >? 0 then
    test_assert (buffer_len <=? max);;
    test_assert (buffer_len + num_read <=? max);;
    let buffer_len := buffer_len + num_read in
    if (buffer_len >=? 4) && (lenZ buffer <? buffer_len) then fail OutOfBounds
    else if (buffer_len >=? 4) &&
       bool_decide (take 4 (drop (Z.to_nat (buffer_len - 4)) buffer) = crlf ++ crlf)
    then ret (0 <=? num_read, buffer, buffer_len, s)
    else
      match fuel with
      | O => fail OutOfFuel
      | S fuel =>
          ' (num_read, buffer, s) ← read_into s buffer;
          read_request_loop fuel s buffer buffer_len num_read
      end
  else ret (0 <=? num_read, buffer, buffer_len, s).

(** [fuel]: the number of reads. *)
Definition read_client_request (fuel : nat) (s : socket) (buffer : list ascii) (buffer_len : Z)
    : M (bool * list ascii * Z * socket) :=
  match fuel with
  | O => fail OutOfFuel
  | S fuel =>
      ' (num_read, buffer, s) ← read_into s buffer;
      read_request_loop fuel s buffer buffer_len num_read
  end.

(** *** Answers *)

(** The loop over the responses. *)
Fixpoint find_response (n : nat) (i : Z) (v : jaeger_vector mock_http_response) (query : cstr)
    : M (option mock_http_response) :=
  match n with
  | O => ret None
  | S n =>
      existing_response ← load v (jaeger_vector_offset v i);
      match service_name existing_response with
      | None => fail TestFailed
      | Some name =>
          let text := lit "service=" ++ name in
          let '(result, buffer) := snprintf (lenZ (lit "service=") + lenZ name + 1) text in
          test_assert (lenZ (lit "service=") + lenZ name =? result);;
          if strcmp (default [] buffer) query =? 0 then ret (Some existing_response)
          else find_response n (i + 1) v query
      end
  end.

Definition http_response_format : cstr :=
  lit "HTTP/1.1 200 OK" ++ crlf ++ lit "Content-Type: application/json" ++ crlf ++
  lit "Content-Length: %zu" ++ crlf ++ crlf ++ lit "%s".

Definition http_response_text (content : cstr) : cstr :=
  lit "HTTP/1.1 200 OK" ++ crlf ++ lit "Content-Type: application/json" ++ crlf ++
  lit "Content-Length: " ++ print_dec (lenZ content) ++ crlf ++ crlf ++ content.

Definition num_digits : Z := 10.

Definition format_response (response : mock_http_response) : M cstr :=
  match json_format response with
  | None => fail NullDeref
  | Some format =>
      match format_double format (arg_value response) with
      | None => fail TypeConfusion
      | Some text =>
          let strategy_size := lenZ format + 10 in
          let '(result, strategy_response) := snprintf strategy_size text in
          test_assert (result <? strategy_size);;
          let strategy_response := default [] strategy_response in
          let http_size := lenZ strategy_response + lenZ http_response_format + num_digits + 1 in
          let '(result, http_response) :=
            snprintf http_size (http_response_text strategy_response) in
          test_assert (result <=? http_size - 1);;
          ret (default [] http_response)
      end
  end.

(** The text of the query in the URL that has been collected. *)
Definition request_query server : M cstr :=
  let '(code, url) := http_parser_parse_url (take (Z.to_nat (url_len server)) (url_buffer server)) in
  test_assert (code =? 0);;
  test_assert (negb (Z.land (field_set url) (2 ^ UF_QUERY) =? 0));;
  let '(off, n) := field_data url UF_QUERY in
  if (off <? 0) || (n <? 0) || (lenZ (url_buffer server) <? off + n) then fail OutOfBounds
  else ret (until_nul (take (Z.to_nat n) (drop (Z.to_nat off) (url_buffer server)))).

(** One turn of the loop over a connection: [false] when it ends. *)
Definition serve_request (fuel : nat) server (s : socket) : M (bool * mock_http_server * socket) :=
  let server := set_server_url server 0 (url_buffer server) in
  let max := Z.to_nat JAEGERTRACINGC_HTTP_SAMPLING_MANAGER_REQUEST_MAX_LEN in
  ' (ok, buffer, buffer_len, s) ← read_client_request fuel s (replicate max nul) 0;
  if negb ok || (buffer_len =? 0) then ret (false, server, s)
  else
    ' (parsed_len, server) ←
      http_request_execute mock_http_server_on_url server (take (Z.to_nat buffer_len) buffer);
    test_assert (buffer_len =? parsed_len);;
    query ← request_query server;
    server ← lock_server server;
    response ← find_response (Z.to_nat (jaeger_vector_length (responses server))) 0
                 (responses server) query;
    match response with
    | None => fail TestFailed
    | Some response =>
        http_response ← format_response response;
        server ← unlock_server server;
        let '(num_written, s) := sys_write s http_response in
        test_assert (lenZ http_response =? num_written);;
        ret (true, server, s)
    end.

(** [turns] bounds how often the peer asks. *)
Fixpoint serve_connection (turns fuel : nat) server (s : socket)
    : M (mock_http_server * socket) :=
  match turns with
  | O => fail OutOfFuel
  | S turns =>
      ' (more, server, s) ← serve_request fuel server s;
      if (more : bool) then serve_connection turns fuel server s else ret (server, s)
  end.

(** [accepted]: the descriptor and the connection [accept] gives. *)
Definition mock_http_server_run_loop (turns fuel : nat) server (accepted : Z * socket)
    : M (mock_http_server * socket) :=
  let server := set_client_fd server (-1) in
  server ← lock_server server;
  server ← unlock_server (set_running server true);
  let '(fd, s) := accepted in
  test_assert (0 <=? fd);;
  server ← lock_server server;
  server ← unlock_server (set_client_fd server fd);
  serve_connection turns fuel server s.

(** *** The responses *)

Definition mock_http_response_destroy (response : mock_http_response) : M mock_http_response :=
  test_assert (bool_decide (is_Some (service_name response)));;
  test_assert (bool_decide (is_Some (json_format response)));;
  ret (MockResponse None None (double_of_Z 0)).

Definition mock_http_response_copy (dst src : mock_http_response) : M mock_http_response :=
  match service_name src, json_format src with
  | Some name, Some format =>
      name ← jaeger_strdup name;
      test_assert (bool_decide (is_Some name));;
      format ← jaeger_strdup format;
      test_assert (bool_decide (is_Some format));;
      ret (MockResponse name format (arg_value src))
  | _, _ => fail NullDeref
  end.

(** The search goes on after a match; [copy] is the last. *)
Fixpoint replace_loop (n : nat) (i : Z) (v : jaeger_vector mock_http_response) (name : cstr)
    (copy : option Z) : M (option Z * jaeger_vector mock_http_response) :=
  match n with
  | O => ret (copy, v)
  | S n =>
      let ptr := jaeger_vector_offset v i in
      existing_response ← load v ptr;
      match service_name existing_response with
      | None => fail TestFailed
      | Some existing =>
          if strcmp existing name =? 0 then
            destroyed ← mock_http_response_destroy existing_response;
            v ← store v ptr destroyed;
            replace_loop n (i + 1) v name ptr
          else replace_loop n (i + 1) v name copy
      end
  end.

Definition mock_http_server_set_response server (response : mock_http_response)
    : M mock_http_server :=
  match service_name response, json_format response with
  | Some name, Some _ =>
      server ← lock_server server;
      let v := responses server in
      ' (copy, v) ← replace_loop (Z.to_nat (jaeger_vector_length v)) 0 v name None;
      ' (copy, v) ← (match copy with
                     | None => jaeger_vector_append v
                     | Some _ => ret (copy, v)
                     end);
      test_assert (bool_decide (is_Some copy));;
      old ← load v copy;
      new ← mock_http_response_copy old response;
      v ← store v copy new;
      unlock_server (set_responses server v)
  | _, _ => fail TestFailed
  end.

Fixpoint destroy_responses (n : nat) (i : Z) (v : jaeger_vector mock_http_response)
    : M (jaeger_vector mock_http_response) :=
  match n with
  | O => ret v
  | S n =>
      r ← load v (jaeger_vector_offset v i);
      r ← mock_http_response_destroy r;
      v ← store v (jaeger_vector_offset v i) r;
      destroy_responses n (i + 1) v
  end.

(** *** The start and the end, less what the thread does *)

Definition mock_http_server_listen {listening : Listening} server : M mock_http_server :=
  ' (ok, v) ← jaeger_vector_init (responses server) sizeof_mock_http_response;
  test_assert ok;;
  let '(fd, s) := sys_socket AF_INET SOCK_STREAM in
  let server := MockServer fd (client_fd server) (thread server) (mutex server)
                  (url_len server) (url_buffer server) v (running server) in
  test_assert (0 <=? fd);;
  let '(result, s) := sys_bind s in
  test_assert (0 =? result);;
  let '(result, s) := sys_listen s 1 in
  test_assert (0 =? result);;
  let '(result, addr_len) := getsockname s in
  test_assert (0 =? result);;
  test_assert (sizeof_sockaddr_in =? addr_len);;
  ret server.

(** The descriptors that are closed, in order, and the server. *)
Definition mock_http_server_destroy server : M (list Z * mock_http_server) :=
  server ← lock_server server;
  let fds := (if client_fd server >? -1 then [client_fd server] else []) ++
             (if server_fd server >? -1 then [server_fd server] else []) in
  let minus fd := if fd >? -1 then -1 else fd in
  let started := negb (thread server =? 0) in
  let server := MockServer (minus (server_fd server)) (minus (client_fd server)) 0 (mutex server)
                  (url_len server) (url_buffer server) (responses server)
                  (if started then false else running server) in
  server ← unlock_server server;
  ' (_, m) ← jaeger_mutex_destroy (mutex server);
  let server := set_server_mutex server m in
  v ← destroy_responses (Z.to_nat (jaeger_vector_length (responses server))) 0 (responses server);
  ret (fds, set_responses server (jaeger_vector_destroy v)).
End Server.

(** *** The thread that starts and ends the server, and the server's thread *)

(** Where [mock_http_server_start] is, and then [mock_http_server_destroy]. *)
Inductive starter_pc :=
  | start_lock | start_create | start_check
  | start_wait              (* in [jaeger_cond_wait], without the mutex *)
  | start_relock            (* woken, about to take the mutex again *)
  | start_unlock | start_cond_destroy
  | started
  | end_lock | end_shutdown | end_join | end_unlock | ended.

(** Where [mock_http_server_run_loop] is. *)
Inductive runner_pc :=
  | not_created
  | run_lock | run_set | run_unlock | run_signal
  | run_accept | accept_lock | accept_set | accept_unlock
  | run_read | find_lock | finding | run_write
  | run_failed              (* a TEST_ASSERT failed *)
  | run_exited.

Inductive who := starter | runner.

#[export] Instance starter_pc_eq_dec : EqDecision starter_pc.
Proof. solve_decision. Defined.
#[export] Instance runner_pc_eq_dec : EqDecision runner_pc.
Proof. solve_decision. Defined.
#[export] Instance who_eq_dec : EqDecision who.
Proof. solve_decision. Defined.

(** The mutex's holder, [server->running], whether the condition variable
    exists and whether it was signalled when it did not, and whether the
    descriptors are open. *)
Record handshake := Handshake {
  h_start : starter_pc;
  h_run : runner_pc;
  h_holder : option who;
  h_running : bool;
  h_cond : bool;
  h_stray_signal : bool;
  h_open : bool;
}.

#[export] Instance handshake_eq_dec : EqDecision handshake.
Proof. solve_decision. Defined.

Definition handshake_init : handshake :=
  Handshake start_lock not_created None false true false true.

Section Handshake.
Implicit Types (s : handshake).

Definition start_to s pc : handshake :=
  Handshake pc (h_run s) (h_holder s) (h_running s) (h_cond s) (h_stray_signal s) (h_open s).
Definition run_to s pc : handshake :=
  Handshake (h_start s) pc (h_holder s) (h_running s) (h_cond s) (h_stray_signal s) (h_open s).
Definition held_by s h : handshake :=
  Handshake (h_start s) (h_run s) h (h_running s) (h_cond s) (h_stray_signal s) (h_open s).
Definition with_running s b : handshake :=
  Handshake (h_start s) (h_run s) (h_holder s) b (h_cond s) (h_stray_signal s) (h_open s).
Definition without_cond s : handshake :=
  Handshake (h_start s) (h_run s) (h_holder s) (h_running s) false (h_stray_signal s) (h_open s).
Definition shut_down s : handshake :=
  Handshake (h_start s) (h_run s) (h_holder s) (h_running s) (h_cond s) (h_stray_signal s) false.

(** The thread that waits, if it does, is woken. *)
Definition signal s : handshake :=
  if h_cond s then
    if bool_decide (h_start s = start_wait) then start_to s start_relock else s
  else Handshake (h_start s) (h_run s) (h_holder s) (h_running s) (h_cond s) true (h_open s).

(** Taking the mutex, when it is free. *)
Definition take_mutex (w : who) s : list handshake :=
  match h_holder s with None => [held_by s (Some w)] | Some _ => [] end.

Definition starter_steps s : list handshake :=
  let to pc s := start_to s pc in
  match h_start s with
  | start_lock => to start_create <$> take_mutex starter s
  | start_create => [run_to (to start_check s) run_lock]
  | start_check =>
      if h_running s then [to start_unlock s] else [held_by (to start_wait s) None]
  | start_wait => []
  | start_relock => to start_check <$> take_mutex starter s
  | start_unlock => [held_by (to start_cond_destroy s) None]
  | start_cond_destroy => [without_cond (to started s)]
  | started => [to end_lock s]
  | end_lock => to end_shutdown <$> take_mutex starter s
  | end_shutdown => [shut_down (with_running (to end_join s) false)]
  | end_join => if bool_decide (h_run s = run_exited) then [to end_unlock s] else []
  | end_unlock => [held_by (to ended s) None]
  | ended => []
  end.

Definition runner_steps s : list handshake :=
  let to pc s := run_to s pc in
  match h_run s with
  | not_created | run_failed | run_exited => []
  | run_lock => to run_set <$> take_mutex runner s
  | run_set => [with_running (to run_unlock s) true]
  | run_unlock => [held_by (to run_signal s) None]
  | run_signal => [signal (to run_accept s)]
  | run_accept => if h_open s then [to accept_lock s] else [to run_failed s]
  | accept_lock => to accept_set <$> take_mutex runner s
  | accept_set => [to accept_unlock s]
  | accept_unlock => [held_by (to run_read s) None]
  | run_read => (if h_open s then [to find_lock s] else []) ++ [to run_exited s]
  | find_lock => to finding <$> take_mutex runner s
  | finding => [held_by (to run_write s) None]
  | run_write => [to run_read s]
  end.

(** [jaeger_cond_wait] may return without a signal. *)
Definition spurious_steps s : list handshake :=
  if bool_decide (h_start s = start_wait) then [start_to s start_relock] else [].

Definition thread_step s s' : Prop := s' ∈ starter_steps s ++ runner_steps s.
Definition handshake_step s s' : Prop :=
  s' ∈ starter_steps s ++ runner_steps s ++ spurious_steps s.
End Handshake.

(** ** The states of the two threads *)

Section Explore.
Implicit Types (s : handshake) (known : list handshake).

Definition all_steps s : list handshake :=
  starter_steps s ++ runner_steps s ++ spurious_steps s.

(** Breadth-first search from [todo]. *)
Fixpoint explore (fuel : nat) known (todo : list handshake) : list handshake :=
  match fuel, todo with
  | S fuel, s :: todo =>
      if bool_decide (s ∈ known) then explore fuel known todo
      else explore fuel (s :: known) (todo ++ all_steps s)
  | _, _ => known
  end.

Definition explored : list handshake := explore 2000 [] [handshake_init].

Definition closed_set known : bool :=
  forallb (fun s => forallb (fun s' => bool_decide (s' ∈ known)) (all_steps s)) known.

Lemma closed_set_reachable known s s' :
  closed_set known = true -> rtc handshake_step s s' -> s ∈ known -> s' ∈ known.
Proof.
  intros Hc. induction 1 as [|s s1 s2 Hs _ IH]; [done|]. intros Hin. apply IH.
  unfold closed_set in Hc. rewrite forallb_forall in Hc.
  apply list_elem_of_In, Hc in Hin. rewrite forallb_forall in Hin.
  specialize (Hin s1). rewrite bool_decide_eq_true in Hin. apply Hin. by apply list_elem_of_In.
Qed.

(** What holds of every explored state holds of every reachable one. *)
Lemma handshake_check (P : handshake -> bool) s :
  forallb P explored = true -> rtc handshake_step handshake_init s -> P s = true.
Proof.
  intros HP Hr. rewrite forallb_forall in HP. apply HP, list_elem_of_In.
  eapply closed_set_reachable; [|exact Hr|]; [vm_compute; reflexivity|].
  apply (bool_decide_eq_true (handshake_init ∈ explored)). vm_compute. reflexivity.
Qed.

(** The steps of the threads themselves, without spurious wake-ups. *)
Definition thread_steps s : list handshake := starter_steps s ++ runner_steps s.

(** Whether some steps lead to [goal]. *)
Fixpoint leads_to_goal (next : handshake -> list handshake) (fuel : nat)
    (goal : handshake -> bool) s : bool :=
  goal s ||
  match fuel with
  | O => false
  | S fuel => existsb (leads_to_goal next fuel goal) (next s)
  end.

Lemma leads_to_goal_sound next fuel goal s :
  leads_to_goal next fuel goal s = true ->
  exists s', rtc (fun s s' => s' ∈ next s) s s' /\ goal s' = true.
Proof.
  revert s. induction fuel as [|fuel IH]; intros s; cbn [leads_to_goal];
    (intros [Hg|H]%orb_true_iff; [exists s; by split|]); [done|].
  apply existsb_exists in H as (s1 & Hin & H). apply IH in H as (s2 & Hr & Hg).
  exists s2. split; [|done]. eapply rtc_l; [|done]. by apply list_elem_of_In.
Qed.

Definition before_started s : bool :=
  match h_start s with
  | start_lock | start_create | start_check | start_wait | start_relock | start_unlock
  | start_cond_destroy => true
  | _ => false
  end.
End Explore.

(** ** Requests and answers *)

Section ReadFacts.
Context {env : Env} {net : Network}.
Implicit Types (w : world).

(** Documented behaviour of [read]: it gives no more bytes than it was asked for. *)
Definition reads_within (net : Network) : Prop :=
  forall (s : socket) n, (sys_read s n).1.1 <= Z.max 0 n.

(** What reading a request can give. *)
Definition read_result (buffer : list ascii) w
    (r : result (bool * list ascii * Z * socket)) : Prop :=
  match r with
  | Ok (_, buffer', n, _) w' =>
      w' = w /\ 0 <= n <= JAEGERTRACINGC_HTTP_SAMPLING_MANAGER_REQUEST_MAX_LEN /\
      length buffer' = length buffer
  | Fault f => f = TestFailed
  end.

Lemma read_into_ok s buffer w :
  reads_within net -> lenZ buffer = JAEGERTRACINGC_HTTP_SAMPLING_MANAGER_REQUEST_MAX_LEN ->
  exists n buffer' s', read_into s buffer w = Ok (n, buffer', s') w /\ length buffer' = length buffer.
Proof.
  intros Hread Hb. unfold read_into.
  specialize (Hread s JAEGERTRACINGC_HTTP_SAMPLING_MANAGER_REQUEST_MAX_LEN).
  unfold JAEGERTRACINGC_HTTP_SAMPLING_MANAGER_REQUEST_MAX_LEN in *.
  destruct (sys_read s 256) as [[n bytes] s']. cbn [fst] in Hread.
  assert (length (take (Z.to_nat n) bytes) <= Z.to_nat n)%nat as Hl by (rewrite length_take; lia).
  rewrite (proj2 (Z.ltb_ge _ _)) by lia. eexists _, _, _. split; [reflexivity|].
  rewrite length_app, length_drop. lia.
Qed.

Lemma read_request_loop_ends fuel s buffer n num_read w :
  reads_within net -> lenZ buffer = JAEGERTRACINGC_HTTP_SAMPLING_MANAGER_REQUEST_MAX_LEN ->
  0 <= n <= JAEGERTRACINGC_HTTP_SAMPLING_MANAGER_REQUEST_MAX_LEN ->
  JAEGERTRACINGC_HTTP_SAMPLING_MANAGER_REQUEST_MAX_LEN <= n + Z.of_nat fuel ->
  read_result buffer w (read_request_loop fuel s buffer n num_read w).
Proof.
  intros Hread. unfold read_result.
  revert s buffer n num_read. induction fuel as [|fuel IH]; intros s buffer n num_read Hb Hn Hf;
    cbn [read_request_loop]; unfold JAEGERTRACINGC_HTTP_SAMPLING_MANAGER_REQUEST_MAX_LEN in *;
    (destruct (num_read >? 0) eqn:E; [apply Z.gtb_lt in E|by split_and!; [done|lia|lia|done]]);
    unfold test_assert, bind at 1 2;
    (destruct (n <=? 256) eqn:E1; [|done]); cbn [ret];
    (destruct (n + num_read <=? 256) eqn:E2; [|done]); reflect_bools; cbn [ret];
    (destruct (_ && _) eqn:E3; [apply andb_true_iff in E3 as [_ E3]; reflect_bools; lia|clear E3]);
    (destruct (_ && _); [split_and!; [done|lia|lia|done]|]); [lia|].
  destruct (read_into_ok s buffer w Hread Hb) as (m & buffer' & s' & Er & Hl).
  unfold bind. rewrite Er. rewrite <- Hl. apply IH; lia.
Qed.

Lemma crlf2_at_end pre :
  take 4 (drop (length pre) (pre ++ crlf ++ crlf)) = crlf ++ crlf.
Proof. by rewrite drop_app_length. Qed.

(** A request that comes in one piece and ends with a blank line. *)
Lemma read_client_request_ok fuel s pre s1 w :
  let request := pre ++ crlf ++ crlf in
  lenZ request <= JAEGERTRACINGC_HTTP_SAMPLING_MANAGER_REQUEST_MAX_LEN ->
  sys_read s JAEGERTRACINGC_HTTP_SAMPLING_MANAGER_REQUEST_MAX_LEN = (lenZ request, request, s1) ->
  exists tail,
    read_client_request (S fuel) s (replicate 256 nul) 0 w =
    Ok (true, request ++ tail, lenZ request, s1) w.
Proof.
  intros request Hlen Hread. unfold read_client_request, read_into. rewrite Hread.
  assert (Hr : request = pre ++ crlf ++ crlf) by done. clearbody request.
  assert (Hl : (length request = length pre + 4)%nat) by (subst; by rewrite length_app).
  unfold JAEGERTRACINGC_HTTP_SAMPLING_MANAGER_REQUEST_MAX_LEN in *.
  rewrite (take_ge request) by lia. rewrite length_replicate, (proj2 (Z.ltb_ge _ _)) by lia.
  exists (drop (length request) (replicate 256 nul)). unfold bind at 1. cbn [ret].
  destruct fuel; cbn [read_request_loop];
    rewrite Z.gtb_ltb, (proj2 (Z.ltb_lt _ _)) by lia;
    unfold test_assert, bind, JAEGERTRACINGC_HTTP_SAMPLING_MANAGER_REQUEST_MAX_LEN;
    rewrite (proj2 (Z.leb_le (0 + _) 256)) by lia; cbn [Z.leb Z.compare ret Z.add];
    rewrite Z.geb_leb, (proj2 (Z.leb_le 4 _)), (proj2 (Z.ltb_ge (lenZ (_ ++ _)) _))
      by (rewrite ?length_app; lia); cbn [andb];
    (rewrite bool_decide_true;
      [by rewrite (proj2 (Z.leb_le 0 _)) by lia
      |replace (Z.to_nat (0 + lenZ request - 4)) with (length pre) by lia;
       by rewrite Hr, <-app_assoc, drop_app_length]).
Qed.
End ReadFacts.

Section ResponseFacts.
Context {env : Env}.
Implicit Types (w : world) (v : jaeger_vector mock_http_response).

Definition named : Type := cstr * (cstr * double).
Implicit Types (rs : list named).

Definition to_response (r : named) : mock_http_response :=
  MockResponse (Some r.1) (Some r.2.1) r.2.2.

(** The vector holds these responses, one for each service. *)
Record holds v rs : Prop := {
  h_wf : vector_wf v;
  h_contents : contents v = map to_response rs;
  h_unique : NoDup rs.*1;
}.

Definition response_map rs : gmap cstr (cstr * double) := list_to_map rs.

(** A response takes the place of the one for its service, or comes last. *)
Fixpoint upsert (r : named) rs : list named :=
  match rs with
  | [] => [r]
  | r' :: rs => if decide (r'.1 = r.1) then r :: rs else r' :: upsert r rs
  end.

Lemma upsert_new r rs : (r.1 ∉ rs.*1) -> upsert r rs = rs ++ [r].
Proof.
  induction rs as [|r' rs IH]; intros Hn; cbn; [done|].
  rewrite fmap_cons, not_elem_of_cons in Hn. destruct Hn as [Hne Hn].
  rewrite decide_False by congruence. by rewrite IH.
Qed.

Lemma upsert_old r r0 rs1 rs2 :
  (r.1 ∉ rs1.*1) -> r0.1 = r.1 -> upsert r (rs1 ++ r0 :: rs2) = rs1 ++ r :: rs2.
Proof.
  intros Hn Hr. induction rs1 as [|r' rs1 IH]; cbn; [by rewrite decide_True|].
  rewrite fmap_cons, not_elem_of_cons in Hn. destruct Hn as [Hne Hn].
  rewrite decide_False by congruence. by rewrite IH.
Qed.

Lemma split_at_name (name : cstr) rs :
  (name ∉ rs.*1) \/ exists rs1 r0 rs2, rs = rs1 ++ r0 :: rs2 /\ (name ∉ rs1.*1) /\ r0.1 = name.
Proof.
  induction rs as [|r rs IH]; [left; apply not_elem_of_nil|].
  destruct (decide (r.1 = name)) as [He|Hne].
  - right. exists [], r, rs. split_and!; [done|apply not_elem_of_nil|done].
  - destruct IH as [Hn|(rs1 & r0 & rs2 & -> & Hn & Hr)].
    + left. rewrite fmap_cons. by apply not_elem_of_cons.
    + right. exists (r :: rs1), r0, rs2. split_and!; [done| |done].
      rewrite fmap_cons. by apply not_elem_of_cons.
Qed.

Lemma upsert_names r rs : NoDup rs.*1 -> NoDup (upsert r rs).*1.
Proof.
  intros Hnd. destruct (split_at_name r.1 rs) as [Hn|(rs1 & r0 & rs2 & -> & Hn & Hr)].
  - rewrite upsert_new, fmap_app by done. apply NoDup_app.
    split_and!; [done| |apply NoDup_singleton].
    intros x Hx Hin. apply list_elem_of_singleton in Hin. by subst.
  - rewrite (upsert_old r r0) by done. by rewrite fmap_app, fmap_cons, Hr in *.
Qed.

Lemma upsert_map r rs : response_map (upsert r rs) = <[r.1 := r.2]> (response_map rs).
Proof.
  unfold response_map. induction rs as [|r' rs IH]; cbn; [done|].
  case_decide as He; cbn.
  - by rewrite He, insert_insert_eq.
  - rewrite IH. by rewrite insert_insert_ne.
Qed.

(** The search gives the response of the service, whatever comes first. *)
Lemma find_response_wp rs pre v name Q w :
  vector_wf v -> contents v = pre ++ map to_response rs ->
  Q (to_response <$> (pair name <$> (list_to_map rs : gmap cstr (cstr * double)) !! name)) w ->
  wp (find_response (length rs) (lenZ pre) v (lit "service=" ++ name)) Q w.
Proof.
  intros Hwf. revert pre. induction rs as [|r rs IH]; intros pre Hc HQ; cbn [length find_response].
  - by apply wp_ret.
  - apply wp_bind. pose proof (wf_cells _ Hwf) as (cells & Ed & _).
    unfold jaeger_vector_offset. rewrite Ed. eapply load_wp; [done|lia| |].
    { rewrite Hc, Nat2Z.id. cbn [map]. by apply list_lookup_middle. }
    cbn [service_name to_response]. rewrite snprintf_fits by (rewrite length_app; lia).
    apply wp_bind. unfold test_assert.
    rewrite (proj2 (Z.eqb_eq _ _)) by (rewrite length_app; lia). apply wp_ret.
    cbn [default from_option id].
    destruct (strcmp _ _ =? 0) eqn:E; reflect_bools.
    + apply strcmp_eq, app_inv_head in E. apply wp_ret. cbn in HQ.
      rewrite E, lookup_insert_eq in HQ. rewrite <-E in HQ. by destruct r as [n [f d]].
    + replace (lenZ pre + 1) with (lenZ (pre ++ [to_response r])) by (rewrite length_app; cbn; lia).
      apply IH; [by rewrite Hc, <-app_assoc|].
      cbn in HQ. rewrite lookup_insert_ne in HQ; [done|]. intros Hn. apply E, strcmp_eq. congruence.
Qed.
(** What a response leaves behind when it is destroyed. *)
Definition destroyed : mock_http_response := MockResponse None None (double_of_Z 0).

Lemma response_destroy_wp r Q w :
  Q destroyed w -> wp (mock_http_response_destroy (to_response r)) Q w.
Proof. done. Qed.

(** Past the place of a service, its name does not come again. *)
Lemma replace_loop_skip rs pre v name copy Q w :
  vector_wf v -> contents v = pre ++ map to_response rs -> (name ∉ rs.*1) ->
  Q (copy, v) w -> wp (replace_loop (length rs) (lenZ pre) v name copy) Q w.
Proof.
  intros Hwf. revert pre. induction rs as [|r rs IH]; intros pre Hc Hn HQ; cbn [length replace_loop].
  - by apply wp_ret.
  - rewrite fmap_cons, not_elem_of_cons in Hn. destruct Hn as [Hne Hn].
    pose proof (wf_cells _ Hwf) as (cells & Ed & _). unfold jaeger_vector_offset. rewrite Ed.
    apply wp_bind. eapply load_wp; [done|lia| |].
    { rewrite Hc, Nat2Z.id. cbn [map]. by apply list_lookup_middle. }
    cbn [service_name to_response]. destruct (strcmp _ _ =? 0) eqn:E; reflect_bools.
    { apply strcmp_eq in E. congruence. }
    replace (lenZ pre + 1) with (lenZ (pre ++ [to_response r])) by (rewrite length_app; cbn; lia).
    apply IH; [by rewrite Hc, <-app_assoc|done|done].
Qed.

Lemma replace_loop_found rs1 r0 rs2 pre v Q w :
  vector_wf v -> contents v = pre ++ map to_response (rs1 ++ r0 :: rs2) ->
  NoDup (rs1 ++ r0 :: rs2).*1 ->
  (forall v', vector_wf v' -> len v' = len v -> capacity v' = capacity v ->
     type_size v' = type_size v ->
     contents v' = pre ++ map to_response rs1 ++ destroyed :: map to_response rs2 ->
     Q (Some (lenZ pre + lenZ rs1), v') w) ->
  wp (replace_loop (length (rs1 ++ r0 :: rs2)) (lenZ pre) v r0.1 None) Q w.
Proof.
  intros Hwf. revert pre. induction rs1 as [|r rs1 IH]; intros pre Hc Hnd HQ;
    cbn [app length replace_loop]; cbn [app] in Hnd; rewrite fmap_cons in Hnd;
    apply NoDup_cons in Hnd as [Hn Hnd];
    pose proof (wf_cells _ Hwf) as (cells & Ed & _); unfold jaeger_vector_offset; rewrite Ed;
    apply wp_bind.
  - eapply load_wp; [done|lia| |].
    { rewrite Hc, Nat2Z.id. cbn [map app]. by apply list_lookup_middle. }
    cbn [service_name to_response]. rewrite strcmp_refl. cbn [Z.eqb].
    apply wp_bind, response_destroy_wp, wp_bind. pose proof (length_contents _ Hwf) as Hlen.
    rewrite Hc, length_app in Hlen. cbn [map app length] in Hlen.
    apply store_wp; [done|lia|]. intros v' Hwf' Hl Hcap Hts Hc'.
    rewrite Hc, Nat2Z.id in Hc'. cbn [map app] in Hc'.
    rewrite insert_app_r_alt, Nat.sub_diag in Hc' by lia. cbn in Hc'.
    replace (lenZ pre + 1) with (lenZ (pre ++ [destroyed])) by (rewrite length_app; cbn; lia).
    apply replace_loop_skip; [done|by rewrite Hc', <-app_assoc|done|].
    replace (lenZ pre) with (lenZ pre + lenZ (@nil named)) by (cbn; lia). by apply HQ.
  - eapply load_wp; [done|lia| |].
    { rewrite Hc, Nat2Z.id. cbn [map app]. by apply list_lookup_middle. }
    cbn [service_name to_response]. destruct (strcmp _ _ =? 0) eqn:E; reflect_bools.
    { exfalso. apply strcmp_eq in E. apply Hn. rewrite E, fmap_app, fmap_cons.
      apply elem_of_app. right. by left. }
    replace (lenZ pre + 1) with (lenZ (pre ++ [to_response r])) by (rewrite length_app; cbn; lia).
    apply IH; [by rewrite Hc, <-app_assoc|done|].
    intros v' Hwf' Hl Hcap Hts Hc'.
    replace (lenZ (pre ++ [to_response r]) + lenZ rs1) with (lenZ pre + lenZ (r :: rs1))
      by (rewrite length_app; cbn; lia).
    apply HQ; [done..|]. by rewrite Hc', <-app_assoc.
Qed.

Lemma response_copy_wp old (r : named) Q w :
  plenty w -> lenZ r.1 < INT_MAX -> lenZ r.2.1 < INT_MAX ->
  (forall w', alloc_only w w' -> Q (to_response r) w') ->
  wp (mock_http_response_copy old (to_response r)) Q w.
Proof.
  intros Hp H1 H2 HQ. unfold mock_http_response_copy. cbn [service_name json_format to_response].
  apply wp_bind, wp_strdup; [done|by intros w' _ []|]. intros w1 Ha1.
  apply wp_bind, wp_ret, wp_bind, wp_strdup; [done| |].
  { intros w2 Ha2 []. by eapply plenty_alloc_only. }
  intros w2 Ha2. apply wp_bind, wp_ret, wp_ret, HQ. by etrans.
Qed.

(** The slot a response is written to. *)
Lemma fill_response_wp {B} (k : jaeger_vector mock_http_response -> M B) v pre post slot
    (r : named) Q w :
  vector_wf v -> contents v = pre ++ slot :: post -> plenty w ->
  lenZ r.1 < INT_MAX -> lenZ r.2.1 < INT_MAX ->
  (forall v' w', alloc_only w w' -> vector_wf v' -> contents v' = pre ++ to_response r :: post ->
     wp (k v') Q w') ->
  wp (old ← load v (Some (lenZ pre));
      new ← mock_http_response_copy old (to_response r);
      v ← store v (Some (lenZ pre)) new; k v) Q w.
Proof.
  intros Hwf Hc Hp H1 H2 HQ. apply wp_bind. eapply load_wp; [done|lia| |].
  { rewrite Hc, Nat2Z.id. by apply list_lookup_middle. }
  apply wp_bind, response_copy_wp; [done..|]. intros w' Ha.
  pose proof (length_contents _ Hwf) as Hlen. rewrite Hc, length_app in Hlen. cbn in Hlen.
  apply wp_bind, store_wp; [done|lia|]. intros v' Hwf' _ _ _ Hc'. apply HQ; [done..|].
  rewrite Hc', Hc, Nat2Z.id, insert_app_r_alt, Nat.sub_diag by lia. done.
Qed.

Lemma set_response_wp server rs (r : named) Q w :
  holds (responses server) rs -> mutex server = false -> plenty w ->
  fits (responses server) (capacity (responses server) + 1) ->
  lenZ r.1 < INT_MAX -> lenZ r.2.1 < INT_MAX ->
  (forall v w', alloc_only w w' -> holds v (upsert r rs) -> Q (set_responses server v) w') ->
  wp (mock_http_server_set_response server (to_response r)) Q w.
Proof.
  intros [Hwf Hc Hnd] Hm Hp Hfit H1 H2 HQ. unfold mock_http_server_set_response.
  cbn [service_name json_format to_response].
  apply wp_bind. unfold lock_server. rewrite Hm. apply wp_bind, mutex_lock_wp, wp_ret.
  cbn [responses set_server_mutex].
  assert (Hend : forall v w', holds v (upsert r rs) -> alloc_only w w' ->
    wp (unlock_server (set_responses (set_server_mutex server true) v)) Q w').
  { intros v w' Hv Ha. apply wp_bind, mutex_unlock_wp, wp_ret.
    assert (Heq : set_server_mutex (set_responses (set_server_mutex server true) v) false =
                  set_responses server v) by (unfold set_responses; cbn; by rewrite <-Hm).
    rewrite Heq. by apply HQ. }
  pose proof (length_contents _ Hwf) as Hlen. rewrite Hc, length_map in Hlen.
  unfold jaeger_vector_length. rewrite <-Hlen, Nat2Z.id. apply wp_bind.
  destruct (split_at_name r.1 rs) as [Hn|(rs1 & r0 & rs2 & -> & Hn & Hr)].
  - change 0 with (lenZ (@nil mock_http_response)) at 1.
    eapply replace_loop_skip; [done|done|done|]. apply wp_bind.
    apply append_bounded_wp; [done|done|intros w' _ []; done|].
    intros v' slot w' Ha Hwf' Hl' _ _ Hc'. apply wp_bind, wp_ret.
    replace (len (responses server)) with (lenZ (map to_response rs)) by (rewrite length_map; lia).
    eapply fill_response_wp; [done|by rewrite Hc', Hc|by eapply plenty_alloc_only|done|done|].
    intros v2 w2 Ha2 Hwf2 Hc2. apply Hend; [|by etrans]. split; [done| |by apply upsert_names].
    by rewrite upsert_new, map_app.
  - rewrite <-Hr. change 0 with (lenZ (@nil mock_http_response)) at 1.
    apply replace_loop_found; [done|done|done|]. intros v' Hwf' _ _ _ Hc'. cbn [app] in Hc'.
    apply wp_bind, wp_ret, wp_bind, wp_ret.
    replace (lenZ (@nil mock_http_response) + lenZ rs1) with (lenZ (map to_response rs1))
      by (rewrite length_map; cbn; lia).
    eapply fill_response_wp; [done|done|done|done|done|].
    intros v2 w2 Ha2 Hwf2 Hc2. apply Hend; [|done]. split; [done| |by apply upsert_names].
    rewrite (upsert_old r r0) by done. by rewrite map_app.
Qed.
End ResponseFacts.

(** The documents of sampling strategies are asked for by service. *)
Definition service_query (name : cstr) : cstr := lit "service=" ++ name.

Section ServeFacts.
Context {env : Env} {parser : UrlParser} {net : Network} {requests : RequestParser}.
Context {laws : RequestParserLaws parser requests}.
Implicit Types (w : world) (server : mock_http_server).

(** The URL collected so far. *)
Definition collected_url server : list ascii :=
  take (Z.to_nat (url_len server)) (url_buffer server).

Definition url_after server (url : list ascii) : mock_http_server :=
  set_server_url server (url_len server + lenZ url)
    (collected_url server ++ url ++
     drop (Z.to_nat (url_len server) + length url) (url_buffer server)).

Lemma url_after_nil server : 0 <= url_len server -> url_after server [] = server.
Proof.
  intros Hn. unfold url_after, collected_url.
  replace (url_len server + lenZ []) with (url_len server) by (cbn; lia). cbn [length app].
  rewrite Nat.add_0_r, take_drop.
  by destruct server.
Qed.

Lemma url_after_app server p q :
  0 <= url_len server -> url_len server + lenZ p <= lenZ (url_buffer server) ->
  url_after (url_after server p) q = url_after server (p ++ q).
Proof.
  intros Hn Hp.
  assert (Hc : length (collected_url server) = Z.to_nat (url_len server)).
  { unfold collected_url. rewrite length_take. lia. }
  assert (Hcol : collected_url (url_after server p) = collected_url server ++ p).
  { unfold collected_url at 1. cbn [url_len url_buffer url_after set_server_url].
    rewrite (app_assoc (collected_url server)). apply take_app_length'.
    rewrite length_app. lia. }
  unfold url_after at 1. rewrite Hcol. unfold set_server_url.
  cbn [url_len url_buffer url_after set_server_url server_fd client_fd thread mutex responses running].
  unfold url_after, set_server_url. f_equal; [rewrite length_app; lia|].
  rewrite <-!app_assoc. do 3 f_equal.
  rewrite (app_assoc (collected_url server)), drop_app_ge by (rewrite length_app; lia).
  rewrite drop_drop, !length_app. f_equal. lia.
Qed.

Lemma run_pieces_ok pieces server w :
  0 <= url_len server -> lenZ (url_buffer server) = MOCK_HTTP_MAX_URL ->
  url_len server + lenZ (concat pieces) <= MOCK_HTTP_MAX_URL ->
  run_pieces mock_http_server_on_url server pieces w =
  Ok (true, url_after server (concat pieces)) w.
Proof.
  unfold MOCK_HTTP_MAX_URL. revert server.
  induction pieces as [|p pieces IH]; intros server Hn Hb Hl; cbn [run_pieces concat].
  - by rewrite url_after_nil.
  - cbn [concat] in Hl. rewrite length_app in Hl.
    unfold mock_http_server_on_url, test_assert, bind, MOCK_HTTP_MAX_URL, u64, wrap.
    rewrite Z.mod_small, (proj2 (Z.leb_le _ _)) by lia. cbn [ret].
    rewrite (proj2 (Z.ltb_ge _ _)) by lia. cbn [Z.eqb ret].
    change (set_server_url server _ _) with (url_after server p).
    assert (Hc : length (collected_url server) = Z.to_nat (url_len server)).
    { unfold collected_url. rewrite length_take. lia. }
    rewrite IH.
    + by rewrite url_after_app by lia.
    + cbn. lia.
    + cbn. rewrite !length_app, length_drop. lia.
    + cbn. lia.
Qed.
(** The value in a format with one conversion. *)
Lemma format_double_f before after arg :
  ("%"%char ∉ before ++ after) ->
  format_double (before ++ lit "%f" ++ after) arg = Some (before ++ print_f arg ++ after).
Proof.
  induction before as [|c before IH]; intros Hno.
  - cbn. by rewrite (bool_decide_false ("%"%char ∈ after)).
  - cbn [app] in *. apply not_elem_of_cons in Hno as [Hc Hno]. cbn [format_double].
    by rewrite bool_decide_false, IH by congruence.
Qed.

Lemma format_one_value before after arg :
  ("%"%char ∉ before ++ after) -> lenZ (print_f arg) < 12 ->
  format_double (before ++ lit "%f" ++ after) arg = Some (before ++ print_f arg ++ after) /\
  lenZ (before ++ print_f arg ++ after) < lenZ (before ++ lit "%f" ++ after) + 10.
Proof.
  intros Hno Hl. split; [by apply format_double_f|]. rewrite !length_app in *.
  change (length (lit "%f")) with 2%nat. lia.
Qed.

Lemma format_response_ok (r : named) text w :
  format_double r.2.1 r.2.2 = Some text -> lenZ text < lenZ r.2.1 + 10 ->
  format_response (to_response r) w = Ok (http_response_text text) w.
Proof.
  intros Hf Hl. unfold format_response. cbn [json_format arg_value to_response]. rewrite Hf.
  rewrite snprintf_fits by lia. unfold test_assert, bind.
  rewrite (proj2 (Z.ltb_lt _ _)) by lia. cbn [ret default from_option id].
  assert (Hs : lenZ (http_response_text text) <= lenZ text + lenZ http_response_format + num_digits).
  { unfold http_response_text. rewrite !length_app.
    pose proof (print_dec_short (lenZ text) ltac:(lia)) as Hp.
    change (lenZ http_response_format) with 74. unfold num_digits.
    change (length (lit "HTTP/1.1 200 OK")) with 15%nat.
    change (length (lit "Content-Type: application/json")) with 30%nat.
    change (length (lit "Content-Length: ")) with 16%nat. change (length crlf) with 2%nat. lia. }
  rewrite snprintf_fits by lia. by rewrite (proj2 (Z.leb_le _ _)) by lia.
Qed.
(** The peer asks, in one piece, for the strategy of a service. *)
Record asks (s : socket) (request path name : cstr) (s1 : socket) : Prop := {
  as_request : exists version headers,
    request_ok path (service_query name) version headers /\
    request = get_request (url_target path (service_query name)) version headers;
  as_length : lenZ request <= JAEGERTRACINGC_HTTP_SAMPLING_MANAGER_REQUEST_MAX_LEN;
  as_read : sys_read s JAEGERTRACINGC_HTTP_SAMPLING_MANAGER_REQUEST_MAX_LEN =
            (lenZ request, request, s1);
}.

Lemma url_chars_no_nul text : Forall url_char text -> nul ∉ text.
Proof. intros HF Hin. rewrite Forall_forall in HF. apply HF in Hin as [Hc _]. change (code nul) with 0 in Hc. lia. Qed.

Lemma header_lines_end headers :
  exists pre, crlf ++ concat (map header_line headers) = pre ++ crlf.
Proof.
  induction headers as [|h headers _] using rev_ind; [by exists []|].
  exists (crlf ++ concat (map header_line headers) ++ h.1 ++ lit ": " ++ h.2).
  rewrite map_app, concat_app. cbn [map concat]. unfold header_line. by rewrite app_nil_r, <-!app_assoc.
Qed.

Lemma get_request_ends target version headers :
  exists pre, get_request target version headers = pre ++ crlf ++ crlf.
Proof.
  destruct (header_lines_end headers) as [pre Hpre]. unfold get_request, message_head.
  exists ((lit "GET " ++ target ++ version) ++ pre).
  by rewrite (app_assoc crlf), Hpre, <-!app_assoc.
Qed.

Lemma http_response_text_answer text : http_response_text text = json_answer text.
Proof. by rewrite json_answer_start. Qed.

Lemma json_answer_length text : lenZ (json_answer text) <= lenZ text + 79.
Proof.
  rewrite json_answer_start, !length_app. pose proof (print_dec_short (lenZ text) ltac:(lia)).
  change (length answer_start) with 65%nat. change (length crlf) with 2%nat. lia.
Qed.

Lemma target_short path query version headers :
  lenZ (url_target path query) <= lenZ (get_request (url_target path query) version headers).
Proof. unfold get_request, message_head. rewrite !length_app. lia. Qed.

Lemma request_query_ok server url tail parsed off text w :
  url_buffer server = url ++ tail -> url_len server = lenZ url ->
  http_parser_parse_url url = (0, parsed) -> Z.land (field_set parsed) (2 ^ UF_QUERY) <> 0 ->
  field_data parsed UF_QUERY = (off, lenZ text) -> 0 <= off -> (nul ∉ text) -> text <> [] ->
  take (length text) (drop (Z.to_nat off) url) = text ->
  request_query server w = Ok text w.
Proof.
  intros Hb Hl Hp Hs Hd Ho Hn Hne Ht. unfold request_query, test_assert, bind.
  rewrite Hb, Hl, Nat2Z.id, take_app_length, Hp. cbn [Z.eqb ret].
  rewrite (proj2 (Z.eqb_neq _ 0)) by done. cbn [negb ret]. rewrite Hd.
  assert (0 < length text)%nat by (destruct text; cbn; [done|lia]).
  assert (Hlen : (length text + Z.to_nat off <= length url)%nat).
  { apply (f_equal length) in Ht. rewrite length_take, length_drop in Ht. lia. }
  rewrite (proj2 (Z.ltb_ge off 0)), (proj2 (Z.ltb_ge _ 0)), (proj2 (Z.ltb_ge _ _))
    by (rewrite ?length_app; lia). cbn [orb]. unfold ret. f_equal.
  rewrite drop_app_le by lia. rewrite Nat2Z.id, take_app_le by (rewrite length_drop; lia).
  by rewrite Ht, until_nul_id.
Qed.

Lemma lock_server_ok server w :
  mutex server = false -> lock_server server w = Ok (set_server_mutex server true) w.
Proof.
  intros Hm. unfold lock_server, bind, jaeger_mutex_lock, c_assert, bind. rewrite Hm.
  by destruct mt.
Qed.

Lemma unlock_server_ok server w :
  mutex server = true -> unlock_server server w = Ok (set_server_mutex server false) w.
Proof.
  intros Hm. unfold unlock_server, bind, jaeger_mutex_unlock, c_assert, bind. rewrite Hm.
  by destruct mt.
Qed.

Lemma serve_request_ok fuel server rs s request path name s1 format arg text s2 w :
  asks s request path name s1 -> holds (responses server) rs ->
  lenZ (url_buffer server) = MOCK_HTTP_MAX_URL -> mutex server = false ->
  response_map rs !! name = Some (format, arg) ->
  format_double format arg = Some text -> lenZ text < lenZ format + 10 ->
  sys_write s1 (json_answer text) = (lenZ (json_answer text), s2) ->
  exists server', serve_request (S fuel) server s w = Ok (true, server', s2) w /\
    responses server' = responses server /\ mutex server' = false.
Proof.
  intros [(version & headers & Hok & Hr) Hlen Hread] Hh Hb Hm Hl Hf Hfl Hw.
  set (url := url_target path (service_query name)) in *.
  unfold JAEGERTRACINGC_HTTP_SAMPLING_MANAGER_REQUEST_MAX_LEN, MOCK_HTTP_MAX_URL in *.
  assert (lenZ url <= 256) as Hurl
    by (pose proof (target_short path (service_query name) version headers) as Ht;
        fold url in Ht; rewrite <- Hr in Ht; lia).
  destruct (get_request_ends url version headers) as [pre Hpre]. rewrite <- Hr in Hpre.
  unfold serve_request. rewrite Hpre in Hlen, Hread.
  destruct (read_client_request_ok fuel s pre s1 w Hlen Hread) as [tail Hrd].
  change (Z.to_nat JAEGERTRACINGC_HTTP_SAMPLING_MANAGER_REQUEST_MAX_LEN) with 256%nat.
  unfold bind at 1. rewrite Hrd. cbn [negb orb].
  rewrite (proj2 (Z.eqb_neq _ 0)) by (rewrite !length_app; cbn; lia).
  rewrite Nat2Z.id, take_app_length, <-Hpre, Hr. unfold bind at 1.
  set (server0 := set_server_url server 0 (url_buffer server)).
  pose proof (pieces_of_target _ _ _ _ Hok) as Hpc. fold url in Hpc.
  rewrite (execute_request _ _ _ _ _ _ _ (url_after server0 url) w Hok); last first.
  { rewrite <-Hpc. apply run_pieces_ok; [done|done|rewrite Hpc; change (url_len server0) with 0; unfold MOCK_HTTP_MAX_URL; lia]. }
  unfold test_assert. unfold bind at 1. rewrite Z.eqb_refl. cbn [ret].
  assert (Heq : url_after server0 url =
    set_server_url server (lenZ url) (url ++ drop (length url) (url_buffer server))) by done.
  rewrite Heq. destruct (parse_target path (service_query name)) as (parsed & Hp & Hs & Hd);
    [apply Hok|apply Hok|unfold USHRT_MAX; fold url; lia|]. fold url in Hp.
  assert (service_query name <> []) as Hne by by destruct name.
  unfold bind at 1.
  erewrite request_query_ok; [|done|done|exact Hp|exact Hs|exact Hd|lia| |done|].
  2: { apply url_chars_no_nul, Hok. }
  2: { unfold url, url_target. replace (Z.to_nat (lenZ path + 1)) with (length (path ++ lit "?"))
         by (rewrite length_app; cbn; lia). by rewrite app_assoc, drop_app_length, take_ge. }
  unfold bind at 1. rewrite lock_server_ok by done. cbn [responses set_server_mutex set_server_url].
  destruct Hh as [Hwf Hc Hnd]. pose proof (length_contents _ Hwf) as Hvl.
  rewrite Hc, length_map in Hvl.
  assert (Hfind : wp (find_response (length rs) 0 (responses server) (service_query name))
    (fun r w' => r = Some (to_response (name, (format, arg))) /\ w' = w) w).
  { change 0 with (lenZ (@nil mock_http_response)). eapply find_response_wp; [done|done|].
    unfold response_map in Hl. by rewrite Hl. }
  apply wp_returns in Hfind as (r & w' & Hfind & -> & ->).
  unfold jaeger_vector_length. rewrite <-Hvl, Nat2Z.id. unfold bind at 1. rewrite Hfind.
  unfold bind at 1. rewrite (format_response_ok (name, (format, arg)) text) by done.
  unfold bind at 1. rewrite unlock_server_ok, http_response_text_answer, Hw, Z.eqb_refl by done.
  eexists. unfold bind, ret. split; [reflexivity|done].
Qed.
End ServeFacts.

(** C18: Reading a request ends after at most 257 reads, however the peer cuts it up:
    with a result within the buffer, or with a failed assertion, and never by
    writing past the end of the buffer. *)
Theorem read_client_request_terminates (env : Env) (net : Network) fuel s buffer w :
  reads_within net ->
  lenZ buffer = JAEGERTRACINGC_HTTP_SAMPLING_MANAGER_REQUEST_MAX_LEN -> (257 <= fuel)%nat ->
  match read_client_request fuel s buffer 0 w with
  | Ok (_, buffer', n, _) w' =>
      w' = w /\ 0 <= n <= JAEGERTRACINGC_HTTP_SAMPLING_MANAGER_REQUEST_MAX_LEN /\
      length buffer' = length buffer
  | Fault f => f = TestFailed
  end.
Proof.
  intros Hread Hb Hf. destruct fuel as [|fuel]; [lia|]. cbn [read_client_request].
  destruct (read_into_ok s buffer w Hread Hb) as (m & b & s1 & E & Hl).
  unfold bind. rewrite E.
  unfold JAEGERTRACINGC_HTTP_SAMPLING_MANAGER_REQUEST_MAX_LEN in *.
  pose proof (read_request_loop_ends fuel s1 b 0 m w Hread) as H.
  unfold JAEGERTRACINGC_HTTP_SAMPLING_MANAGER_REQUEST_MAX_LEN, read_result in H.
  rewrite Hl in H. apply H; lia.
Qed.

(** C16: Setting a response makes it the only one of its service and leaves the
    others. After it, a request of any peer, as HTTP has it, for the strategy of
    a service is answered with the response the map of responses has for that
    service, its value printed with six digits in the place of [%f], under
    headers with the type and the length of that text; the connection stays
    open, and the mutex is free. The request comes in one piece and fits the
    buffer; the value takes less than twelve characters. *)
Theorem mock_agent_answers (env : Env) (parser : UrlParser) (net : Network)
    (requests : RequestParser) (laws : RequestParserLaws parser requests)
    server rs (r : named) s request path name s1 fuel w :
  holds (responses server) rs -> mutex server = false -> plenty w ->
  fits (responses server) (capacity (responses server) + 1) ->
  lenZ r.1 < INT_MAX -> lenZ r.2.1 < INT_MAX ->
  lenZ (url_buffer server) = MOCK_HTTP_MAX_URL -> asks s request path name s1 ->
  exists server' w', mock_http_server_set_response server (to_response r) w = Ok server' w' /\
    holds (responses server') (upsert r rs) /\ mutex server' = false /\
    response_map (upsert r rs) = <[r.1 := r.2]> (response_map rs) /\
    forall before after arg s2,
      let text := before ++ print_f arg ++ after in
      (<[r.1 := r.2]> (response_map rs)) !! name = Some (before ++ lit "%f" ++ after, arg) ->
      ("%"%char ∉ before ++ after) -> lenZ (print_f arg) < 12 ->
      sys_write s1 (json_answer text) = (lenZ (json_answer text), s2) ->
      exists server2, serve_request (S fuel) server' s w' = Ok (true, server2, s2) w' /\
        responses server2 = responses server' /\ mutex server2 = false.
Proof.
  intros Hh Hm Hp Hfit H1 H2 Hb Ha. apply wp_returns. eapply set_response_wp; [done..|].
  intros v w' _ Hv. split_and!; [done|done|apply upsert_map|].
  intros before after arg s2 text Hl Hno Hlen Hw.
  destruct (format_one_value before after arg Hno Hlen) as [Hf Hfl].
  eapply serve_request_ok; [done|exact Hv|done|done| |exact Hf|exact Hfl|done].
  by rewrite upsert_map.
Qed.

(** C17: Starting the mock server returns only when its thread runs, whatever the
    interleaving and the spurious wake-ups; no wake-up is lost: from every state
    the threads can reach before that, steps of theirs lead to the return
    without help of a spurious one; and as long as the server is started, its
    descriptors are open. *)
Theorem mock_server_starts s :
  rtc handshake_step handshake_init s ->
  (h_start s = started -> h_running s = true /\ h_open s = true) /\
  (before_started s = true ->
   exists s', rtc thread_step s s' /\ h_start s' = started /\ h_running s' = true).
Proof.
  intros Hr. split.
  - intros Hs. pose proof (handshake_check (fun s =>
      negb (bool_decide (h_start s = started)) || (h_running s && h_open s)) s) as H.
    specialize (H ltac:(vm_compute; reflexivity) Hr). cbn beta in H.
    rewrite bool_decide_true in H by done. by apply andb_true_iff in H.
  - intros Hb. pose proof (handshake_check (fun s => negb (before_started s) ||
      leads_to_goal thread_steps 12 (fun s => bool_decide (h_start s = started) && h_running s) s) s) as H.
    specialize (H ltac:(vm_compute; reflexivity) Hr). cbn beta in H.
    rewrite Hb in H. apply leads_to_goal_sound in H as (s' & Hr' & Hg).
    apply andb_true_iff in Hg as [Hg ?]. apply bool_decide_eq_true in Hg. by exists s'.
Qed.

(** ** The agent and the sampler's HTTP manager *)

(** What a request is made of: text that needs no encoding. *)
Record plain_request (version path service : cstr) (hp : jaeger_host_port) : Prop := {
  pl_path : Forall url_char path /\ ("?"%char ∉ path);
  pl_service : Forall url_char service;
  pl_host : Forall field_char (host_port_text hp);
  pl_version : Forall field_char version;
}.

(** The manager's request, as HTTP has it. *)
Lemma request_for_get version path service hp :
  request_for version path service hp =
  get_request (url_target (lit "/" ++ path) (service_query service)) []
    [(lit "Host", host_port_text hp); (lit "User-Agent", lit "jaegertracing/" ++ version)].
Proof.
  unfold request_for, request_text, get_request, message_head, url_target, service_query, header_line.
  cbn [map concat fst snd]. rewrite !app_nil_r, <-!app_assoc. done.
Qed.

Ltac token_name :=
  repeat (apply Forall_cons_2; [first [by left|by right]|]); by constructor.

Lemma request_for_ok version path service hp :
  request_fits version path service hp -> plain_request version path service hp ->
  request_ok (lit "/" ++ path) (service_query service) []
    [(lit "Host", host_port_text hp); (lit "User-Agent", lit "jaegertracing/" ++ version)].
Proof.
  intros [_ Hfit] [[Hp Hq] Hs Hh Hv].
  split; [|split|by left| |].
  - split; [|split; [done|]].
    + apply Forall_app. split; [|done]. by repeat constructor.
    + intros [H|H]%elem_of_app; [|done]. by apply list_elem_of_singleton in H.
  - apply Forall_app. split; [|done]. by repeat constructor.
  - by destruct service.
  - apply Forall_cons_2; [|apply Forall_cons_2; [|by constructor]]; split_and!; cbn [fst snd];
      try done; try token_name; try (apply (bool_decide_unpack _); vm_compute; exact I).
    apply Forall_app. split; [|done]. repeat (apply Forall_cons_2; [by vm_compute|]). by constructor.
  - rewrite <- request_for_get.
    unfold JAEGERTRACINGC_HTTP_SAMPLING_MANAGER_REQUEST_MAX_LEN, HTTP_MAX_HEADER_SIZE in *. lia.
Qed.

Lemma delivers_nonempty {net : Network} (s : socket) chunks :
  delivers s chunks -> Forall (fun c => c <> []) chunks.
Proof.
  revert s. induction chunks as [|c chunks IH]; intros s; cbn; [constructor|].
  intros [Hc (s' & _ & Hd)]. constructor; [done|by eapply IH].
Qed.

(** A connection between a manager and an agent, on which nothing has been
    written: [peer], the agent's end of it; what the manager writes in one piece
    the agent can read in one piece; [sent], what the agent has written. *)
Record connection (cnet anet : Network) (cs : @socket cnet) := Connection {
  peer : @socket cnet -> @socket anet;
  sent : @socket anet -> list ascii;
  carried bytes cs1 :
    0 < lenZ bytes <= JAEGERTRACINGC_HTTP_SAMPLING_MANAGER_REQUEST_MAX_LEN ->
    sys_write cs bytes = (lenZ bytes, cs1) ->
    exists s, sys_read (peer cs1) JAEGERTRACINGC_HTTP_SAMPLING_MANAGER_REQUEST_MAX_LEN =
                (lenZ bytes, bytes, s) /\ sent s = [];
  written s bytes : lenZ bytes <= INT_MAX ->
    exists s', sys_write s bytes = (lenZ bytes, s') /\ sent s' = sent s ++ bytes;
}.
Arguments peer {_ _ _} _ _.
Arguments sent {_ _ _} _ _.
Arguments carried {_ _ _} _ _ _ _ _.
Arguments written {_ _ _} _ _ _ _.

(** C3: One exchange between the sampler's HTTP manager and the mock agent. The
    agent accepts the request the manager writes, answers it with the response
    it holds for the manager's service, its value printed in the place of [%f],
    as a complete HTTP response; and the manager, when what the agent sent
    reaches it in any pieces, returns the strategy the JSON of that response
    says. Http-parser is taken to accept requests and responses as HTTP has them,
    jansson to decode the text, and the connection to carry what is written on
    it. Path, service, host and version have no character that would have to be
    encoded, and the request fits its buffer. *)
Theorem manager_gets_agents_strategy (env : Env) (parser : UrlParser) (cnet anet : Network)
    (requests : RequestParser) (rlaws : RequestParserLaws parser requests)
    (http : HttpParser) (plaws : HttpParserLaws http) (alaws : AnswerLaws http)
    (jansson : Jansson) (jlaws : JanssonLaws jansson)
    version path service hp m (cs cs1 : @socket cnet) (conn : connection cnet anet cs)
    server rs before after arg j r fuel w wa :
  let request := request_for version path service hp in
  let text := before ++ print_f arg ++ after in
  plenty w -> ready m cs request -> request_fits version path service hp ->
  plain_request version path service hp -> sys_write cs request = (lenZ request, cs1) ->
  holds (responses server) rs -> lenZ (url_buffer server) = MOCK_HTTP_MAX_URL ->
  mutex server = false ->
  response_map rs !! service = Some (before ++ lit "%f" ++ after, arg) ->
  ("%"%char ∉ before ++ after) -> lenZ (print_f arg) < 12 -> fits_answer 512 text ->
  json_loads JSON_REJECT_DUPLICATES (until_nul text) = Some j -> strategy_json j r ->
  exists server' s2,
    serve_request (S fuel) server (peer conn cs1) wa = Ok (true, server', s2) wa /\
    responses server' = responses server /\ mutex server' = false /\
    sent conn s2 = json_answer text /\
    forall chunks turns,
      delivers cs1 chunks -> concat chunks = sent conn s2 -> (length chunks <= turns)%nat ->
      exists m' w',
        jaeger_http_sampling_manager_get_sampling_strategies turns m w = Ok (Some r, m') w' /\
        contents (response m') = text ++ [nul].
Proof.
  intros request text Hp Hready Hfit Hplain Hcw Hh Hb Hm Hl Hno Hlen Hroom Hj Hr.
  assert (Hok := request_for_ok _ _ _ _ Hfit Hplain).
  assert (Hget := request_for_get version path service hp). fold request in Hget.
  assert (Hsize : 0 < lenZ request <= JAEGERTRACINGC_HTTP_SAMPLING_MANAGER_REQUEST_MAX_LEN).
  { split; [rewrite Hget; unfold get_request, message_head; rewrite !length_app;
      change (length (lit "GET ")) with 4%nat; lia|].
    destruct Hfit as [_ Hfit]. fold request in Hfit. lia. }
  destruct (carried conn request cs1 Hsize Hcw) as (s1 & Hread & Hsent).
  assert (Ht : lenZ text <= INT_MAX - 100) by (unfold fits_answer, INT_MAX in *; lia).
  destruct (written conn s1 (json_answer text)) as (s2 & Haw & Hs2).
  { pose proof (json_answer_length text). lia. }
  destruct (format_one_value before after arg Hno Hlen) as [Hf Hfl].
  assert (Ha : asks (peer conn cs1) request (lit "/" ++ path) service s1).
  { split; [|apply Hsize|exact Hread]. eexists _, _. split; [exact Hok|exact Hget]. }
  destruct (serve_request_ok fuel server rs _ _ _ _ _ _ _ _ s2 wa Ha Hh Hb Hm Hl Hf Hfl Haw)
    as (server' & Hserve & Hsr & Hsm).
  exists server', s2. rewrite Hsent in Hs2. split_and!; [done..|].
  intros chunks turns Hdel Hcat Hturns. rewrite Hs2 in Hcat.
  assert (wp (jaeger_http_sampling_manager_get_sampling_strategies turns m)
    (fun x w' => exists m', x = (Some r, m') /\ contents (response m') = text ++ [nul]) w)
    as (? & w' & E & m' & -> & Hc)%wp_returns.
  { eapply get_strategies_wp; [done| |done|done|done|].
    - eapply ready_exchange; [done|done|done| |done].
      apply parse_answer; [lia|exact (delivers_nonempty _ _ Hdel)|done].
    - intros m' w' _ Hc. by exists m'. }
  by exists m', w'.
Qed.

(** *** A concrete agent *)

(** A connection: the pieces that can still be read, and what has been written. *)
Definition line_net (answer : list (list ascii)) : Network :=
  {| socket := list (list ascii) * list ascii; sockaddr := Z; sockaddr_zero := 0;
     sizeof_sockaddr_in := 16; sendto s b _ := (lenZ b, s);
     AF_INET := 2; SOCK_DGRAM := 2; SOCK_STREAM := 1; SOCK_CLOEXEC := Some 524288; FD_CLOEXEC := 1;
     sys_socket _ _ := (3, (answer, []));
     fcntl_getfd s := (0, s); fcntl_setfd s _ := s;
     getaddrinfo _ _ _ _ := (0, [AddrInfo 1 16]);
     sys_connect s _ _ := (0, s);
     sys_write s b := (lenZ b, (s.1, s.2 ++ b));
     sys_read s n :=
       match s.1 with
       | [] => (0, [], s)
       | c :: cs =>
           let bytes := take (Z.to_nat n) c in
           let rest := drop (Z.to_nat n) c in
           (lenZ bytes, bytes, (match rest with [] => cs | _ => rest :: cs end, s.2))
       end |}.

Lemma line_reads_within answer : reads_within (line_net answer).
Proof.
  intros [[|c cs] out] n; cbn; [lia|]. rewrite length_take. lia.
Qed.

(** The ends of one connection. *)
Definition line_connection (chunks : list (list ascii)) :
  connection (line_net chunks) (line_net []) (chunks, []).
Proof.
  refine (Connection (line_net chunks) (line_net []) (chunks, [])
    (fun s => ([s.2], [])) (fun s => s.2) _ _).
  - unfold JAEGERTRACINGC_HTTP_SAMPLING_MANAGER_REQUEST_MAX_LEN. cbn.
    intros bytes cs1 Hl [= <-]. cbn. rewrite take_ge by lia. eexists. by split.
  - intros s bytes _. eexists. split; reflexivity.
Defined.

Definition sample_client_request : list ascii :=
  get_request (lit "/sampling?service=svc") (lit " HTTP/1.1") [].

Definition sample_mock_server : mock_http_server :=
  MockServer 3 5 1 false 0 (replicate 256 nul)
    (Vector 0 10 (Some (replicate 10 zero_mock_response)) 24) true.

Definition sample_named : named := (lit "svc", (lit "{rate: %f}", dconst 1 (-1))).

Lemma sample_holds : holds (responses sample_mock_server) [].
Proof. split; [|done|by apply NoDup_nil]. split; cbn; [lia|lia|lia|]. by eexists. Qed.

Ltac url_chars :=
  repeat (apply Forall_cons_2; [first [by vm_compute|split; [by vm_compute|discriminate]]|]);
  by constructor.

Lemma sample_asks :
  @asks (line_net []) ([sample_client_request], []) sample_client_request (lit "/sampling")
    (lit "svc") ([], []).
Proof.
  split; [|by vm_compute|reflexivity].
  exists (lit " HTTP/1.1"), []. split; [|reflexivity]. split; [|split|by right|by constructor|by vm_compute].
  - split; [url_chars|]. split; [done|]. apply (bool_decide_unpack _). vm_compute. exact I.
  - url_chars.
  - done.
Qed.

Lemma mock_agent_answers_witness :
  exists server' w',
    @mock_http_server_set_response sample_env sample_mock_server (to_response sample_named)
      initial_world = Ok server' w' /\
    exists server2,
      @serve_request sample_env sample_target_parser (line_net []) sample_requests 1 server'
        ([sample_client_request], []) w' =
      Ok (true, server2, ([], json_answer (lit "{rate: 0.500000}"))) w'.
Proof.
  destruct (mock_agent_answers sample_env sample_target_parser (line_net []) sample_requests _
              sample_mock_server [] sample_named ([sample_client_request], []) sample_client_request
              (lit "/sampling") (lit "svc") ([], []) 0 initial_world
              sample_holds eq_refl plenty_sample ltac:(vm_compute; discriminate)
              eq_refl eq_refl eq_refl sample_asks)
    as (server' & w' & Hset & _ & _ & _ & Hserve).
  exists server', w'. split; [exact Hset|].
  destruct (Hserve (lit "{rate: ") (lit "}") (dconst 1 (-1)) ([], json_answer (lit "{rate: 0.500000}")))
    as (server2 & Hok & _ & _).
  - reflexivity.
  - apply (bool_decide_unpack _). vm_compute. exact I.
  - by vm_compute.
  - vm_compute. reflexivity.
  - exists server2. exact Hok.
Defined.

Lemma read_client_request_terminates_witness :
  match @read_client_request (line_net []) 257 ([sample_client_request], []) (replicate 256 nul) 0
          initial_world with
  | Ok (_, buffer', n, _) w' =>
      w' = initial_world /\ 0 <= n <= 256 /\ length buffer' = 256%nat
  | Fault f => f = TestFailed
  end.
Proof.
  apply (read_client_request_terminates sample_env (line_net [])).
  - apply line_reads_within.
  - reflexivity.
  - lia.
Defined.

Lemma mock_server_starts_witness :
  (h_start handshake_init = started ->
   h_running handshake_init = true /\ h_open handshake_init = true) /\
  (before_started handshake_init = true ->
   exists s', rtc thread_step handshake_init s' /\ h_start s' = started /\ h_running s' = true).
Proof. apply mock_server_starts, rtc_refl. Defined.

Definition agent_text : cstr := lit "{probabilisticSampling:{samplingRate:0.500000}}".
Definition agent_named : named :=
  (lit "svc", (lit "{probabilisticSampling:{samplingRate:%f}}", dconst 1 (-1))).

Definition agent_document : sample_json :=
  JObject [(lit "probabilisticSampling", JObject [(lit "samplingRate", JReal (dconst 1 (-1)))])].
Definition agent_jansson : Jansson := sample_jansson [(agent_text, agent_document)].

#[local] Instance agent_jansson_laws : JanssonLaws agent_jansson := sample_jansson_laws _.

Definition agent_chunks : list (list ascii) :=
  [take 30 (json_answer agent_text); drop 30 (json_answer agent_text)].

Definition agent_request : cstr :=
  request_for (lit "0.1") (lit "sampling") (lit "svc") (HostPort (Some (lit "agent")) 5778).

Definition agent_manager : @jaeger_http_sampling_manager (line_net agent_chunks) sample_answers :=
  @Manager (line_net agent_chunks) sample_answers (Some (lit "svc")) JAEGERTRACINGC_URL_INIT 3
    (Some (agent_chunks, [])) [] (Some http_parsing_state_write) (lenZ agent_request)
    (agent_request ++ [nul]) (Vector 0 10 (Some (replicate 10 nul)) 1).

Definition agent_server : mock_http_server :=
  MockServer 3 5 1 false 0 (replicate 256 nul)
    (Vector 1 10 (Some (to_response agent_named :: replicate 9 zero_mock_response)) 24) true.

Lemma manager_gets_agents_strategy_witness :
  exists server' s2 m' w',
    @serve_request sample_env sample_target_parser (line_net []) sample_requests 1
      agent_server ([agent_request], []) initial_world = Ok (true, server', s2) initial_world /\
    s2.2 = json_answer agent_text /\
    @jaeger_http_sampling_manager_get_sampling_strategies sample_env (line_net agent_chunks)
      sample_answers agent_jansson 2 agent_manager initial_world =
    Ok (Some (probabilistic_strategy (dconst 1 (-1))), m') w' /\
    contents (response m') = agent_text ++ [nul].
Proof.
  destruct (manager_gets_agents_strategy sample_env sample_target_parser (line_net agent_chunks)
    (line_net []) sample_requests _ sample_answers sample_answers_laws _ agent_jansson
    agent_jansson_laws (lit "0.1") (lit "sampling") (lit "svc")
    (HostPort (Some (lit "agent")) 5778) agent_manager (agent_chunks, [])
    (agent_chunks, agent_request) (line_connection agent_chunks) agent_server [agent_named]
    (lit "{probabilisticSampling:{samplingRate:") (lit "}}") (dconst 1 (-1)) agent_document
    (probabilistic_strategy (dconst 1 (-1))) 0 initial_world initial_world)
    as (server' & s2 & Hserve & _ & _ & Hsent & Hget).
  - apply plenty_sample.
  - split; [by eexists|done| |done|done].
    split_and!; [|done|vm_compute; discriminate]. split; cbn; try lia. by eexists.
  - split; by vm_compute.
  - split; [split; [url_chars|apply (bool_decide_unpack _); vm_compute; exact I]|url_chars..].
  - reflexivity.
  - split; [|done|by apply NoDup_singleton]. split; cbn; try lia. by eexists.
  - reflexivity.
  - reflexivity.
  - reflexivity.
  - apply (bool_decide_unpack _). vm_compute. exact I.
  - by vm_compute.
  - vm_compute. discriminate.
  - vm_compute. reflexivity.
  - split; [done|]. cbn. by eexists.
  - destruct (Hget agent_chunks 2%nat) as (m' & w' & Hm & Hc).
    + cbn [delivers agent_chunks]. split_and!; [discriminate|]. eexists. split; [reflexivity|].
      split_and!; [discriminate|]. by eexists.
    + rewrite Hsent. vm_compute. reflexivity.
    + cbn. lia.
    + exists server', s2, m', w'. split_and!; [exact Hserve|exact Hsent|exact Hm|exact Hc].
Defined.

(** *** Defects *)

(** When the thread that starts the server is woken without a signal, it can
    destroy the condition before the server signals it. *)
Theorem signal_after_destroy :
  exists s, rtc handshake_step handshake_init s /\ h_stray_signal s = true.
Proof.
  apply (leads_to_goal_sound all_steps 14 h_stray_signal). vm_compute. reflexivity.
Qed.

(** Ending the server can hang: it waits for the thread while it holds the mutex
    the thread is about to take. *)
Theorem destroy_deadlocks :
  exists s, rtc handshake_step handshake_init s /\
    h_start s = end_join /\ h_run s = find_lock /\ all_steps s = [].
Proof.
  destruct (leads_to_goal_sound all_steps 22
    (fun s => bool_decide (h_start s = end_join) && bool_decide (h_run s = find_lock) &&
              bool_decide (all_steps s = [])) handshake_init) as (s & Hr & Hg);
    [vm_compute; reflexivity|].
  apply andb_true_iff in Hg as [[Hs Hf]%andb_true_iff Ha].
  apply bool_decide_eq_true in Hs, Hf, Ha. by exists s.
Qed.

(** The second piece of a request overwrites the first. *)
Theorem second_piece_overwrites :
  option_map (fun r => take 12 r.1.1.2)
    (value (@read_client_request (line_net []) 257
       ([lit "GET /sampling"; lit "?service=svc"], []) (replicate 256 nul) 0 initial_world)) =
  Some (lit "?service=svc").
Proof. vm_compute. reflexivity. Qed.

(** The initialiser leaves the client's descriptor zero, so that ending a server
    that was not started closes the standard input. *)
Theorem destroy_closes_standard_input :
  option_map fst
    (value (@mock_http_server_destroy sample_env MOCK_HTTP_SERVER_INIT initial_world)) = Some [0].
Proof. vm_compute. reflexivity. Qed.
