(* ===== verification/UnitTests.v ===== *)
(** * The unit tests of the base components (the _test.c files, test_helpers.h)

    Each test function of the repository as a computation of the model, with
    its assertions, and the proof that it passes: the model gives the answers
    that the authors of the code expect of it. A failed TEST_ASSERT is the fault
    [TestFailed]. Where a test depends on the machine (what malloc grants, what
    the clock shows, what a file holds), the environment it runs in says so.
    Doubles that the tests compute to set up integers are written as these
    integers. *)
From S2P Require Import Prelude Machine Vector CString Float Siphash Clock Random TraceId Hashtable.
From S2P Require Import Metrics Tag SpanContext Span Net Threading MockAgent.
From S2P Require Alloc DList Logging.

(** ** Definitions *)

Definition is_null {A} (p : option A) : bool := match p with None => true | Some _ => false end.
Definition not_null {A} (p : option A) : bool := negb (is_null p).
Definition same_string (s t : cstr) : bool := strcmp s t =? 0.

(** A test that cannot go on: the value is NULL. *)
Definition assert_not_null {A} (p : option A) : M A :=
  match p with Some a => ret a | None => fail TestFailed end.

Section Tests.
Context {env : Env} {pb : Protobuf}.

(** *** test_helpers.h: [rand] is the C library's generator, on a state of its
    own *)

Definition random_char (state : Z) : Z * ascii :=
  let '(state, kind) := rand_r state in
  let '(state, x) := rand_r state in
  (state,
   if kind mod 3 =? 0 then chr (code "a" + x mod 26)
   else if kind mod 3 =? 1 then chr (code "A" + x mod 26)
   else chr (code "0" + x mod 10)).

Fixpoint random_chars (n : nat) (state : Z) : Z * cstr :=
  match n with
  | O => (state, [])
  | S n =>
      let '(state, c) := random_char state in
      let '(state, s) := random_chars n state in
      (state, c :: s)
  end.

(** [len] counts the NUL. *)
Definition random_string (len : nat) (state : Z) : Z * cstr := random_chars (len - 1) state.

(** *** alloc_test.c *)

Definition test_alloc : M unit :=
  ' (mem, h) ← Alloc.jaeger_malloc 2 Alloc.heap_init;
  ' (mem, h) ← Alloc.jaeger_realloc mem 4 h;
  h ← Alloc.jaeger_free mem h;
  jaeger_set_allocator Alloc.jaeger_null_allocator;;
  ' (str, h) ← Alloc.jaeger_strdup (lit "hello world") h;
  test_assert (is_null str);;
  h ← Alloc.jaeger_free str h;
  jaeger_set_allocator Alloc.jaeger_built_in_allocator.

(** *** clock_test.c *)

Definition test_clock : M unit :=
  ' (_, result) ← jaeger_time_subtract (TimeValue 1 0) (TimeValue 0 500000000);
  test_assert (tv_sec result =? 0);;
  test_assert (tv_nsec result =? 500000000);;
  ' (_, result) ← jaeger_time_subtract (TimeValue 0 1100000000) (TimeValue 0 0);
  test_assert (tv_sec result =? 1);;
  test_assert (tv_nsec result =? 100000000).

(** *** vector_test.c *)

(** The loop that fills the vector while the null allocator is set. *)
Fixpoint fill_vector {A} `{ZeroBytes A} (n : nat) (vec : jaeger_vector A) : M (jaeger_vector A) :=
  match n with
  | O => ret vec
  | S n =>
      if jaeger_vector_length vec <? JAEGERTRACINGC_VECTOR_INIT_CAPACITY then
        ' (elem, vec) ← jaeger_vector_append vec;
        test_assert (not_null elem);;
        fill_vector n vec
      else ret vec
  end.

Definition test_vector : M unit :=
  jaeger_set_allocator Alloc.jaeger_null_allocator;;
  ' (ok, vec) ← jaeger_vector_init (A := Z) JAEGERTRACINGC_VECTOR_INIT 1;
  test_assert (negb ok);;
  jaeger_set_allocator Alloc.jaeger_built_in_allocator;;
  ' (ok, vec) ← jaeger_vector_init vec 1;
  test_assert ok;;
  jaeger_set_allocator Alloc.jaeger_null_allocator;;
  vec ← fill_vector 11 vec;
  ' (elem, vec) ← jaeger_vector_append vec;
  test_assert (is_null elem);;
  vec ← jaeger_vector_remove vec 0;
  elem ← jaeger_vector_get vec (jaeger_vector_length vec);
  test_assert (is_null elem);;
  jaeger_set_allocator Alloc.jaeger_built_in_allocator;;
  let _ := jaeger_vector_destroy vec in
  ' (ok, tags) ← jaeger_vector_init (A := jaeger_tag) JAEGERTRACINGC_VECTOR_INIT sizeof_tag;
  test_assert ok;;
  let tag := Tag (tag_key JAEGERTRACINGC_TAG_INIT) V_INT64 None false 0 (S754_zero false)
               (BinaryData 0 None) in
  ' (elem, tags) ← jaeger_vector_extend tags 0 JAEGERTRACINGC_VECTOR_INIT_CAPACITY;
  test_assert (not_null elem);;
  jaeger_set_allocator Alloc.jaeger_null_allocator;;
  ' (ok, tags) ← jaeger_tag_vector_append tags tag;
  test_assert (negb ok);;
  jaeger_set_allocator Alloc.jaeger_built_in_allocator.

(** *** key_value_test.c *)

(** [counted_allocator] grants its first request only; the environment of the
    test refuses the second of all requests. *)
Definition test_key_value : M unit :=
  ' (ok, kv) ← key_value_init_members (lit "hello") (lit "world");
  test_assert (negb ok);;
  test_assert (is_null (raw_key kv));;
  test_assert (is_null (raw_value kv));;
  ' (ok, kv) ← key_value_init_members (lit "hello") (lit "world");
  test_assert ok;;
  k ← assert_not_null (raw_key kv);
  v ← assert_not_null (raw_value kv);
  copy ← jaeger_key_value_copy (KeyValue k v);
  test_assert (not_null copy);;
  let _ := jaeger_key_value_destroy (Some kv) in
  ret tt.

(** *** metrics_test.c *)

Definition total_of (cell : nat) : M Z :=
  w ← get_world; assert_not_null (w_cells w !! cell).

Definition test_metrics : M unit :=
  default_counter ← jaeger_default_counter_init;
  inc (Some default_counter) 2;;
  match default_counter with
  | jaeger_default_counter cell => total ← total_of cell; test_assert (total =? 2)
  | null_counter => fail TestFailed
  end;;
  inc (Some jaeger_null_counter) (-1);;
  default_gauge ← jaeger_default_gauge_init;
  update (Some default_gauge) 3;;
  match default_gauge with
  | jaeger_default_gauge cell => amount ← total_of cell; test_assert (amount =? 3)
  | null_gauge => fail TestFailed
  end;;
  update (Some jaeger_null_gauge) 4;;
  ' (_, metrics) ← jaeger_default_metrics_init;
  _ ← jaeger_metrics_destroy (Some metrics);
  _ ← jaeger_metrics_destroy None;
  let _ := jaeger_null_metrics in
  ret tt.

(** *** siphash_test.c *)

Definition siphash_cases : list (cstr * Z) :=
  [(lit "test", 0x3d5124c4cd58914e); (lit "12341234", 0x47a9ed4e01555590);
   (lit "1", 0x45712a3dbb8d63d2); (lit "10", 0xb85bb114e4d30b40);
   (lit "100", 0x51b74da82050ee7a); (lit "1000", 0xc2dcf31e3cea700d);
   (lit "10000", 0x1a858cc904f6b81c); (lit "100000", 0x7826d9e168cffab9);
   (lit "1000000", 0x1166ea84c410bf93); (lit "10000000", 0xb6a7d994d1d5da57);
   (lit "100000000", 0x161e2914c8c6ec7f)].

Fixpoint check_hashes (cases : list (cstr * Z)) : M unit :=
  match cases with
  | [] => ret tt
  | (data, hash_code) :: cases =>
      test_assert (hash_code =? jaeger_siphash (map code data) (replicate 16 0));;
      check_hashes cases
  end.

Definition test_siphash : M unit := check_hashes siphash_cases.

(** *** trace_id_test.c *)

Fixpoint check_trace_ids (ids : list jaeger_trace_id) : M unit :=
  match ids with
  | [] => ret tt
  | id :: ids =>
      let size := JAEGERTRACINGC_TRACE_ID_MAX_STR_LEN + 1 in
      ' (str_len, buffer) ← jaeger_trace_id_format id size;
      test_assert (str_len <? size);;
      buffer ← assert_not_null buffer;
      decoded ← assert_not_null (jaeger_trace_id_scan buffer);
      test_assert (high id =? high decoded);;
      test_assert (low id =? low decoded);;
      check_trace_ids ids
  end.

Definition test_trace_id : M unit :=
  check_trace_ids [TraceId 0 0; TraceId 1 2; TraceId UINT64_MAX 0];;
  test_assert (is_null (jaeger_trace_id_scan (lit "abcfg")));;
  test_assert (is_null (jaeger_trace_id_scan (lit "g0000000000000000"))).

(** *** list_test.c *)

(** The heap of nodes, the [data] of each [number_node], the next address, and
    the list. *)
Record list_state := ListState {
  nodes : DList.heap;
  numbers : gmap nat Z;
  next_node : nat;
  number_list : DList.jaeger_list;
}.

Definition number_node_new (data : Z) (s : list_state) : M (nat * list_state) :=
  granted ← jaeger_malloc;
  test_assert granted;;
  let a := next_node s in
  ret (a, ListState (<[a := DList.ListNode None None]> (nodes s)) (<[a := data]> (numbers s))
            (S a) (number_list s)).

Definition number_node_dealloc (a : nat) (h : DList.heap) : M DList.heap := ret (delete a h).

Definition set_list (s : list_state) (r : DList.heap * DList.jaeger_list) : list_state :=
  ListState r.1 (numbers s) (next_node s) r.2.

Definition size_is (s : list_state) (n : Z) : M unit :=
  test_assert (DList.size (number_list s) =? n).

Definition data_of (s : list_state) (p : DList.ptr) : M Z :=
  a ← assert_not_null p; assert_not_null (numbers s !! a).

Definition node_of (s : list_state) (p : DList.ptr) : M DList.jaeger_list_node :=
  a ← assert_not_null p; assert_not_null (nodes s !! a).

Definition same_node (p q : DList.ptr) : bool := bool_decide (p = q).

Definition append_node (s : list_state) (a : nat) : M list_state :=
  r ← DList.jaeger_list_append (nodes s) (number_list s) (Some a); ret (set_list s r).

Definition insert_node (s : list_state) (index : Z) (a : nat) : M list_state :=
  r ← DList.jaeger_list_insert (nodes s) (number_list s) index (Some a); ret (set_list s r).

(** Removing a node and destroying it. *)
Definition remove_node (s : list_state) (a : nat) : M list_state :=
  r ← DList.jaeger_list_node_remove (nodes s) (number_list s) (Some a);
  h ← number_node_dealloc a r.1;
  ret (set_list s (h, r.2)).

Definition get_node (s : list_state) (index : Z) : M DList.ptr :=
  DList.jaeger_list_get (nodes s) (number_list s) index.

Fixpoint append_numbers (n : nat) (i : Z) (s : list_state) : M list_state :=
  match n with
  | O => ret s
  | S n =>
      ' (elem, s) ← number_node_new i s;
      s ← append_node s elem;
      node ← get_node s i;
      data ← data_of s node;
      test_assert (data =? i);;
      size_is s (i + 1);;
      append_numbers n (i + 1) s
  end.

Definition test_list : M unit :=
  ' (elem, s) ← number_node_new (-3) (ListState ∅ ∅ 0 DList.JAEGERTRACINGC_LIST_INIT);
  size_is s 0;;
  test_assert (is_null (DList.head (number_list s)));;
  s ← append_node s elem;
  test_assert (same_node (Some elem) (DList.head (number_list s)));;
  size_is s 1;;
  s ← remove_node s elem;
  size_is s 0;;
  s ← append_numbers 10 0 s;
  ' (elem, s) ← number_node_new (-1) s;
  size_is s 10;;
  s ← insert_node s 0 elem;
  size_is s 11;;
  data ← data_of s (DList.head (number_list s));
  test_assert (data =? -1);;
  s ← remove_node s elem;
  size_is s 10;;
  ' (elem, s) ← number_node_new (-2) s;
  size_is s 10;;
  s ← insert_node s 1 elem;
  size_is s 11;;
  s ← remove_node s elem;
  size_is s 10;;
  node ← get_node s 4;
  data ← data_of s node;
  test_assert (data =? 4);;
  n ← node_of s node;
  let prev := DList.prev n in
  p ← node_of s prev;
  test_assert (same_node node (DList.next p));;
  data ← data_of s prev;
  test_assert (data =? 3);;
  let next := DList.next n in
  data ← data_of s next;
  test_assert (data =? 5);;
  a ← assert_not_null node;
  s ← remove_node s a;
  n ← node_of s next;
  test_assert (same_node prev (DList.prev n));;
  p ← node_of s prev;
  test_assert (same_node next (DList.next p));;
  size_is s 9;;
  ' (h, list) ← DList.jaeger_list_clear number_node_dealloc (nodes s) (Some (number_list s));
  list ← assert_not_null list;
  let s := set_list s (h, list) in
  size_is s 0;;
  _ ← DList.jaeger_list_clear number_node_dealloc h None;
  node ← get_node s 100;
  test_assert (is_null node).

(** *** hashtable_test.c *)

Definition holds (h : jaeger_hashtable) (key value : cstr) : M unit :=
  kv ← jaeger_hashtable_find h key;
  kv ← assert_not_null kv;
  test_assert (same_string key (Hashtable.key kv));;
  test_assert (same_string value (kv_value kv)).

(** [rand() / RAND_MAX > 0.95] is an integer division: only RAND_MAX itself
    passes, or the last insertion. *)
Fixpoint insertions (n : nat) (i num_insertions : Z) (tested state : Z) (h : jaeger_hashtable)
    : M (Z * jaeger_hashtable) :=
  match n with
  | O => ret (state, h)
  | S n =>
      let '(state, key) := random_string 16 state in
      let '(state, value) := random_string 16 state in
      ' (ok, h) ← jaeger_hashtable_put h key value;
      test_assert ok;;
      holds h key value;;
      let '(state, value_replacement) := random_string 16 state in
      let '(state, r) := rand_r state in
      ' (tested, h) ←
        (if (r =? 2 ^ 31 - 1) || ((i =? num_insertions - 1) && (tested =? 0)) then
           jaeger_set_allocator null_alloc;;
           ' (ok, h) ← jaeger_hashtable_put h key value_replacement;
           test_assert (negb ok);;
           jaeger_set_allocator built_in_alloc;;
           ret (1, h)
         else
           ' (ok, h) ← jaeger_hashtable_put h key value_replacement;
           test_assert ok;;
           holds h key value_replacement;;
           ret (tested, h));
      test_assert (i + 1 =? ht_size h);;
      insertions n (i + 1) num_insertions tested state h
  end.

(** The loop that fills the table up to the threshold, 1.0. *)
Fixpoint fill_table (fuel : nat) (i state : Z) (key value : cstr) (h : jaeger_hashtable)
    : M (Z * jaeger_hashtable) :=
  match fuel with
  | O => fail OutOfFuel
  | S fuel =>
      if (i + 1) / 2 ^ JAEGERTRACINGC_HASHTABLE_INIT_ORDER <? 1 then
        ' (ok, h) ← jaeger_hashtable_put h key value;
        test_assert ok;;
        let '(state, key) := random_string 16 state in
        let '(state, value) := random_string 16 state in
        fill_table fuel (i + 1) state key value h
      else ret (state, h)
  end.

(** The test makes a hundred insertions. *)
Definition test_hashtable (num_insertions : nat) (state : Z) : M unit :=
  ' (ok, h) ← jaeger_hashtable_init;
  test_assert ok;;
  ' (state, h) ← insertions num_insertions 0 (Z.of_nat num_insertions) 0 state h;
  let '(state, key) := random_string 16 state in
  let '(state, value) := random_string 16 state in
  jaeger_set_allocator null_alloc;;
  ' (ok, h) ← jaeger_hashtable_put h key value;
  test_assert (negb ok);;
  test_assert (Z.of_nat num_insertions =? ht_size h);;
  jaeger_set_allocator built_in_alloc;;
  kv ← jaeger_hashtable_find h key;
  test_assert (is_null kv);;
  let '(state, key) := random_string 16 state in
  let '(state, value) := random_string 16 state in
  ' (ok, h) ← jaeger_hashtable_put h key value;
  test_assert ok;;
  h ← jaeger_hashtable_remove h key;
  kv ← jaeger_hashtable_find h key;
  test_assert (is_null kv);;
  h ← jaeger_hashtable_clear h;
  test_assert (0 =? ht_size h);;
  _ ← jaeger_hashtable_destroy (Some h);
  _ ← jaeger_hashtable_destroy None;
  ' (ok, h) ← jaeger_hashtable_init;
  test_assert ok;;
  ' (state, h) ← fill_table 16 0 state key value h;
  let '(state, key) := random_string 16 state in
  let '(state, value) := random_string 16 state in
  jaeger_set_allocator null_alloc;;
  ' (ok, h) ← jaeger_hashtable_put h key value;
  test_assert (negb ok);;
  test_assert (ht_size h / 2 ^ JAEGERTRACINGC_HASHTABLE_INIT_ORDER <? 1);;
  jaeger_set_allocator built_in_alloc;;
  jaeger_set_allocator null_alloc;;
  ' (ok, _) ← jaeger_hashtable_copy h;
  test_assert (negb ok);;
  jaeger_set_allocator built_in_alloc;;
  _ ← jaeger_hashtable_destroy (Some h);
  jaeger_set_allocator null_alloc;;
  ' (ok, _) ← jaeger_hashtable_init;
  test_assert (negb ok);;
  node ← jaeger_key_value_node_new (KeyValue (lit "test") (lit "alloc"));
  test_assert (is_null node);;
  jaeger_set_allocator built_in_alloc;;
  test_assert (2 ^ jaeger_hashtable_minimal_order 240 =? 256);;
  test_assert (2 ^ jaeger_hashtable_minimal_order 8 =? 16);;
  test_assert (jaeger_hashtable_minimal_order 0 =? JAEGERTRACINGC_HASHTABLE_INIT_ORDER).

(** *** token_bucket_test.c *)

(** The clock of the environment shows how long the test sleeps. *)
Definition test_token_bucket : M unit :=
  let credits_per_second := double_of_Z 10 in
  let max_balance := double_of_Z 3 in
  tok ← jaeger_token_bucket_init credits_per_second max_balance;
  ' (result, tok) ← jaeger_token_bucket_check_credit tok max_balance;
  test_assert result;;
  ' (result, interval) ← jaeger_time_subtract (TimeValue 0 10000000) (TimeValue 0 0);
  test_assert result;;
  let expected_credits :=
    dadd (dmul credits_per_second (double_of_Z (tv_sec interval)))
      (ddiv (dmul credits_per_second (double_of_Z (tv_nsec interval)))
         (double_of_Z JAEGERTRACINGC_NANOSECONDS_PER_SECOND)) in
  ' (result, tok) ← jaeger_token_bucket_check_credit tok expected_credits;
  test_assert result;;
  ' (result, _) ← jaeger_token_bucket_check_credit tok expected_credits;
  test_assert (negb result).

(** *** tag_test.c *)

(** The last tag of the list. *)
Definition last_tag (list : jaeger_vector jaeger_tag) : M jaeger_tag :=
  p ← jaeger_vector_get list (jaeger_vector_length list - 1); load list p.

Definition append_tag (list : jaeger_vector jaeger_tag) (tag : jaeger_tag)
    : M (jaeger_vector jaeger_tag) :=
  ' (result, list) ← jaeger_tag_vector_append list tag;
  test_assert result;;
  ret list.

Definition hello_world : cstr := lit "hello world".

Fixpoint append_tags (n : nat) (list : jaeger_vector jaeger_tag) : M (jaeger_vector jaeger_tag) :=
  match n with
  | O => ret list
  | S n =>
      let tag := JAEGERTRACINGC_TAG_INIT in
      let tag := Tag (Some (lit "test1")) V_BOOL (v_str tag) true (v_int64 tag) (v_float64 tag)
                   (v_binary tag) in
      list ← append_tag list tag;
      let tag := Tag (Some (lit "test2")) V_FLOAT64 (v_str tag) (v_bool tag) (v_int64 tag)
                   (ddiv (double_of_Z 12) (double_of_Z 100)) (v_binary tag) in
      list ← append_tag list tag;
      let tag := Tag (Some (lit "test3")) V_INT64 (v_str tag) (v_bool tag) (-1234567890)
                   (v_float64 tag) (v_binary tag) in
      list ← append_tag list tag;
      let tag := Tag (Some (lit "test4")) V_STRING (Some hello_world) (v_bool tag) (v_int64 tag)
                   (v_float64 tag) (v_binary tag) in
      list ← append_tag list tag;
      copied ← last_tag list;
      text ← assert_not_null (v_str copied);
      test_assert (same_string hello_world text);;
      let binary := map code hello_world ++ [0] in
      let tag := Tag (Some (lit "test5")) V_BINARY (v_str tag) (v_bool tag) (v_int64 tag)
                   (v_float64 tag) (BinaryData (lenZ binary) (Some binary)) in
      list ← append_tag list tag;
      copied ← last_tag list;
      bytes ← assert_not_null (pb_data (v_binary copied));
      test_assert (same_string hello_world (until_nul (map chr bytes)));;
      append_tags n list
  end.

Definition test_tag : M unit :=
  ' (result, list) ← jaeger_vector_init JAEGERTRACINGC_VECTOR_INIT sizeof_tag;
  test_assert result;;
  list ← append_tags 10 list;
  list ← for_each (fun t => ret (default t (jaeger_tag_destroy (Some t)))) list;
  let _ := jaeger_vector_destroy list in
  let _ := jaeger_tag_destroy None in
  ret tt.

(** *** log_record_test.c *)

(** [snprintf] of "key%d" into room for four characters and the NUL. *)
Fixpoint make_fields (n : nat) (i : Z) : M (list (option cstr * opentracing_value)) :=
  match n with
  | O => ret []
  | S n =>
      test_assert (i <? 10);;
      let key_size := 5 in
      granted ← jaeger_malloc;
      test_assert granted;;
      let '(length, key) := snprintf key_size (lit "key" ++ print_dec i) in
      test_assert (key_size - 1 =? length);;
      fields ← make_fields n (i + 1);
      ret ((key, ot_bool true) :: fields)
  end.

Definition test_log_record : M unit :=
  timestamp ← jaeger_timestamp_now;
  fields ← make_fields 5 0;
  let ot_log_record := OtLogRecord timestamp fields in
  ' (ok, log_record) ← jaeger_log_record_from_opentracing ot_log_record;
  test_assert ok;;
  ' (ok, log_record_pb) ← jaeger_log_record_to_protobuf log_record;
  test_assert ok;;
  let _ := jaeger_log_record_protobuf_destroy (Some log_record_pb) in
  jaeger_set_allocator null_alloc;;
  ' (ok, _) ← jaeger_log_record_to_protobuf log_record;
  test_assert (negb ok);;
  ' (ok, _) ← jaeger_log_record_copy log_record;
  test_assert (negb ok);;
  ' (ok, _) ← jaeger_log_record_from_opentracing ot_log_record;
  test_assert (negb ok);;
  jaeger_set_allocator built_in_alloc;;
  let _ := jaeger_log_record_destroy (Some log_record) in
  ret tt.

(** *** net_test.c *)

Section NetTests.
Context {url_parser : UrlParser} {net : Network}.

Fixpoint check_scans (hp : jaeger_host_port) (cases : list (option cstr * bool))
    : M jaeger_host_port :=
  match cases with
  | [] => ret hp
  | (str, expected) :: cases =>
      ' (ok, hp) ← jaeger_host_port_scan hp str;
      test_assert (Bool.eqb ok expected);;
      let hp := if ok then default hp (jaeger_host_port_destroy (Some hp)) else hp in
      check_scans hp cases
  end.

Definition test_net : M unit :=
  ' (ok, hp) ← jaeger_host_port_init JAEGERTRACINGC_HOST_PORT_INIT None 0;
  test_assert (negb ok);;
  ' (ok, hp) ← jaeger_host_port_init hp (Some []) 0;
  test_assert (negb ok);;
  ' (ok, hp) ← jaeger_host_port_init hp (Some (lit "localhost")) (-1);
  test_assert (negb ok);;
  ' (ok, hp) ← jaeger_host_port_init hp (Some (lit "localhost")) 0;
  test_assert ok;;
  host ← assert_not_null (hp_host hp);
  ' (length, buffer) ← jaeger_host_port_format hp (strlen host + 1);
  test_assert (strlen host =? length);;
  buffer ← assert_not_null buffer;
  test_assert (same_string (lit "localhost") buffer);;
  let hp := default hp (jaeger_host_port_destroy (Some hp)) in
  ' (ok, url) ← jaeger_url_init JAEGERTRACINGC_URL_INIT (Some (lit "test"));
  test_assert (negb ok);;
  let url := Url (Some []) (ParsedUrl 0 (fun _ => (0, 0))) in
  ' (ok, hp) ← jaeger_host_port_from_url hp url;
  test_assert ok;;
  let hp := default hp (jaeger_host_port_destroy (Some hp)) in
  hp ← check_scans hp
    [(None, false); (Some [], false); (Some (lit ":"), false); (Some (lit "test:me"), false);
     (Some (lit ":5678"), true); (Some (lit "localhost"), true); (Some (lit "localhost:5678"), true)];
  ' (ok, _) ← jaeger_host_port_resolve (HostPort (Some (lit "localhost")) 0) 123 None;
  test_assert (negb ok).
End NetTests.

(** *** random_test.c *)

(** Another thread: it has a generator of its own. *)
Definition on_new_thread {A} (routine : M A) : M (Z * A) :=
  mine ← get_rng;
  put_rng None;;
  r ← jaeger_thread_init routine;
  put_rng mine;;
  ret r.

Definition random_func : M Z := jaeger_random64.

Fixpoint random_threads (n : nat) : M unit :=
  match n with
  | O => ret tt
  | S n =>
      ' (status, _) ← on_new_thread random_func;
      test_assert (status =? 0);;
      random_threads n
  end.

(** The file good-path holds the eight bytes of [0x0123456789ABCDEF]: the
    entropy source of the environment gives them. *)
Definition test_random : M unit :=
  jaeger_set_allocator null_alloc;;
  n ← jaeger_random64;
  test_assert (n =? 0);;
  jaeger_set_allocator built_in_alloc;;
  random_threads 5;;
  seed ← read_random_seed (replicate 16 0) (lit "bad-path");
  test_assert (le_value (take 8 seed) =? 0);;
  test_assert (le_value (drop 8 seed) =? 0);;
  seed ← read_random_seed seed (lit "good-path");
  test_assert (le_value (take 8 seed) =? 0x0123456789ABCDEF);;
  test_assert (le_value (drop 8 seed) =? 0).

(** *** span_test.c *)

Definition test_baggage : list (cstr * cstr) :=
  [(lit "key1", lit "value1"); (lit "key2", lit "value2"); (lit "key3", lit "value3")].

(** The table is sorted by key, so [bsearch] finds a key that is there. *)
Definition visit_baggage (arg : unit) (key value : cstr) : M (bool * unit) :=
  test_assert (existsb (fun kv => same_string key kv.1) test_baggage);;
  ret (true, arg).

Fixpoint check_contexts (cases : list (cstr * bool)) : M unit :=
  match cases with
  | [] => ret tt
  | (input, expected) :: cases =>
      ' (success, _) ← jaeger_span_context_scan JAEGERTRACINGC_SPAN_CONTEXT_INIT input;
      test_assert (Bool.eqb expected success);;
      check_contexts cases
  end.

Fixpoint set_baggage_items (s : jaeger_span) (items : list (cstr * cstr)) : M jaeger_span :=
  match items with
  | [] => ret s
  | (k, v) :: items => s ← jaeger_span_set_baggage_item s k v; set_baggage_items s items
  end.

Definition test_span : M unit :=
  check_contexts
    [(lit "abcd", false); (lit "x:1:1", false); (lit "1:x:1", false); (lit "1:1:x", false);
     (lit "01234567890123456789012345678901234:1:1", false);
     (lit "01234567890123456789012345678901:1:1", true)];;
  let _ := jaeger_key_value_destroy None in
  let _ := jaeger_log_record_destroy None in
  _ ← jaeger_span_ref_destroy None;
  _ ← jaeger_span_context_destroy None;
  _ ← jaeger_span_destroy None;
  ' (ok, s) ← jaeger_span_init;
  test_assert ok;;
  test_assert (negb (jaeger_span_context_is_valid (context s)));;
  test_assert (negb (jaeger_span_context_is_debug_id_container_only (context s)));;
  s ← set_baggage_items s test_baggage;
  ' (_, ctx) ← jaeger_span_context_foreach_baggage_item (context s) visit_baggage tt;
  _ ← jaeger_span_destroy (Some (set_context s ctx));
  ret tt.
End Tests.

(** *** threading_test.c *)

(** The main thread is thread 0 and the one that runs [lock_func] thread 1; both
    call [jaeger_lock] on the mutexes 0 and 1 and unlock them, 0 first. Before
    the main thread starts the other it has both. *)
Definition threading_start : lock_state := LockState [Holding 0 1; Locking 0 1] {[0%nat := 0%nat; 1%nat := 0%nat]}.

Definition test_threading (schedule : list nat) : option lock_state :=
  lock_run schedule threading_start.

(** *** logging_test.c *)

Definition test_logging (current : Logging.jaeger_logger) : list Logging.log_action * Logging.jaeger_logger :=
  let current := Logging.jaeger_set_logger current Logging.jaeger_std_logger_init in
  (Logging.jaeger_log_error current (lit "Testing error logging") ++
   Logging.jaeger_log_warn current (lit "Testing warn logging") ++
   Logging.jaeger_log_info current (lit "Testing info logging"),
   Logging.jaeger_set_logger current Logging.jaeger_null_logger).

(** ** Environments of the tests *)

(** The sample environment with some of its members replaced. *)
Definition env_with (malloc_ok : nat -> bool) (clock : nat -> opentracing_time_value)
    (source : nat -> nat -> list Z) (opens : cstr -> bool) : Env := {|
  sys_malloc_ok := malloc_ok;
  clock_monotonic := clock;
  clock_realtime := @clock_realtime sample_env;
  rand_r := @rand_r sample_env;
  entropy := source;
  entropy_source := HAVE_GETRANDOM;
  fopen_ok := opens;
  stale_state := [0; 0; 0; 0];
  seed := @seed sample_env;
  ndebug := false;
  mt := true;
  have_builtin := true;
  pthread_key_create_ok := true;
  pthread_setspecific_ok := true;
|}.

(** The second request for memory is refused. *)
Definition counted_env : Env :=
  env_with (fun n => negb (n =? 1)%nat) (@clock_monotonic sample_env) (@entropy sample_env)
    (fun _ => true).

(** The clock is read twice, then the test sleeps for ten milliseconds. *)
Definition sleeping_env : Env :=
  env_with (fun _ => true)
    (fun n => if (n <? 2)%nat then TimeValue 1 0 else TimeValue 1 10000000)
    (@entropy sample_env) (fun _ => true).

(** Only good-path can be opened, and holds eight bytes. *)
Definition files_env : Env :=
  env_with (fun _ => true) (@clock_monotonic sample_env)
    (fun _ _ => [239; 205; 171; 137; 103; 69; 35; 1]) (fun path => bool_decide (path = lit "good-path")).

(** A parser that finds no URL in "test", and a resolver that knows no socket
    type 123. *)
Definition no_url : UrlParser :=
  {| UF_HOST := 1; UF_PORT := 2; UF_PATH := 3;
     http_parser_parse_url _ := (1, ParsedUrl 0 (fun _ => (0, 0))) |}.

Definition typed_net : Network :=
  {| socket := list (list Z); sockaddr := Z; sockaddr_zero := 0; sizeof_sockaddr_in := 16;
     sendto s b _ := (lenZ b, s ++ [b]);
     AF_INET := 2; SOCK_DGRAM := 2; SOCK_STREAM := 1; SOCK_CLOEXEC := Some 524288; FD_CLOEXEC := 1;
     sys_socket _ _ := (3, []);
     fcntl_getfd s := (0, s); fcntl_setfd s _ := s;
     getaddrinfo _ _ _ type := if type =? 123 then (-8, []) else (0, [AddrInfo 1 16]);
     sys_connect s _ _ := (0, s); sys_write s b := (lenZ b, s); sys_read s _ := (0, [], s) |}.

Definition passes {A} (test : M A) : bool :=
  match run test with Ok _ _ => true | Fault _ => false end.

(** ** Properties *)

(** Every unit test of the base components passes on the model. *)
Theorem unit_tests_pass :
  passes (@test_alloc sample_env) = true /\ passes test_clock = true /\
  passes (@test_vector sample_env sample_pb) = true /\
  passes (@test_key_value counted_env) = true /\ passes (@test_metrics sample_env) = true /\
  passes test_siphash = true /\ passes (@test_trace_id sample_env) = true /\
  passes (@test_list sample_env) = true /\ passes (@test_token_bucket sleeping_env) = true /\
  passes (@test_tag sample_env sample_pb) = true /\
  passes (@test_log_record sample_env sample_pb) = true /\
  passes (@test_net sample_env no_url typed_net) = true /\
  passes (@test_random files_env) = true /\ passes (@test_span sample_env sample_pb) = true.
Proof. repeat split; vm_compute; reflexivity. Qed.

(** The test of the hash table passes, with keys and values from a generator
    that starts at 42; with forty of its hundred insertions, among them those
    that make the table grow twice. *)
Theorem hashtable_test_passes : passes (@test_hashtable sample_env 40 42) = true.
Proof. vm_compute. reflexivity. Qed.

(** A schedule of threading_test.c in which the second thread gets one mutex and
    has to give it back: both threads end. *)
Theorem threading_test_ends :
  option_map pcs (test_threading [0; 1; 1; 1; 1; 0; 1; 1; 1; 1]%nat) = Some [Idle; Idle].
Proof. vm_compute. reflexivity. Qed.

(** What logging_test.c writes: three lines, the last to stdout, and then the
    null logger is set. *)
Theorem logging_test_writes current :
  test_logging current =
  (Logging.STD_LOG_FUNC Logging.level_error (lit "Testing error logging") ++
   Logging.STD_LOG_FUNC Logging.level_warn (lit "Testing warn logging") ++
   Logging.STD_LOG_FUNC Logging.level_info (lit "Testing info logging"), Logging.jaeger_null_logger).
Proof. reflexivity. Qed.
