(* ===== verification/PropagationTests.v ===== *)
(** * The tests of propagation, run on the model (propagation_test.c)

    The carriers of the tests are vectors of key-value pairs and of bytes, read
    and written through the callbacks the tests define. *)
From S2P Require Import Prelude Machine Vector CString Float Siphash Clock TraceId Hashtable Strings.
From S2P Require Import Metrics Tag SpanContext Span Sampler Propagation Threading MockAgent UnitTests.

(** ** Definitions *)

Section PropagationTests.
Context {env : Env}.

(** *** Characters and values *)

Definition test_decode_hex : M unit :=
  test_assert (decode_hex "Z" =? -1);;
  test_assert (decode_hex "z" =? -1);;
  test_assert (decode_hex "-" =? -1);;
  test_assert (decode_hex "F" =? 0xf);;
  test_assert (decode_hex "f" =? 0xf);;
  test_assert (decode_hex "9" =? 9).

Definition test_encode_hex : M unit :=
  c ← encode_hex 0xf;
  test_assert (code c =? code "f");;
  c ← encode_hex 0xa;
  test_assert (code c =? code "a");;
  c ← encode_hex 2;
  test_assert (code c =? code "2").

(** The loop over two arrays, of inputs and of what [f] makes of them. *)
Fixpoint check_values (f : cstr -> M cstr) (inputs outputs : list cstr) : M unit :=
  match inputs, outputs with
  | input :: inputs, output :: outputs =>
      buffer ← f input;
      test_assert (same_string output buffer);;
      check_values f inputs outputs
  | _, _ => ret tt
  end.

Definition test_decode_uri_value : M unit :=
  check_values decode_uri_value
    [lit "hello%20world"; lit "hello%2"; lit "%"; lit "%f"; lit "%z"; lit "%fz"]
    [lit "hello world"; lit "hello%2"; lit "%"; lit "%f"; lit "%z"; lit "%fz"].

Definition test_encode_uri_value : M unit :=
  check_values encode_uri_value [lit "hello world"; lit "hello-world"]
    [lit "hello%20world"; lit "hello-world"].

Definition test_to_lowercase : M unit :=
  check_values to_lowercase [lit "HELLO"; lit "WORLD"; lit "test"]
    [lit "hello"; lit "world"; lit "test"].

(** *** The carrier: a vector of pairs *)

#[export] Instance zero_raw_key_value : ZeroBytes raw_key_value := JAEGERTRACINGC_KEY_VALUE_INIT.
Abbreviation key_values_t := (jaeger_vector raw_key_value).

Definition sizeof_key_value : Z := 2 * sizeof_ptr.

(** The loop over the indices below the length at the start. *)
Fixpoint foreach_from (n : nat) (i : Z) (key_values : key_values_t)
    (handler : jaeger_span_context -> cstr -> cstr ->
               M (opentracing_propagation_error_code * jaeger_span_context))
    (arg : jaeger_span_context)
    : M (opentracing_propagation_error_code * jaeger_span_context) :=
  match n with
  | O => ret (error_success, arg)
  | S n =>
      ptr ← jaeger_vector_get key_values i;
      kv ← load key_values ptr;
      k ← assert_not_null (raw_key kv);
      v ← assert_not_null (raw_value kv);
      ' (return_code, arg) ← handler arg k v;
      if bool_decide (return_code = error_success) then foreach_from n (i + 1) key_values handler arg
      else ret (return_code, arg)
  end.

Definition mock_reader_foreach_key (key_values : key_values_t) : foreach_key_type :=
  fun handler arg =>
    foreach_from (Z.to_nat (jaeger_vector_length key_values)) 0 key_values handler arg.

(** Appending a pair, with its assertions. *)
Definition add_key_value (key_values : key_values_t) (k v : cstr) : M key_values_t :=
  ' (kv, key_values) ← jaeger_vector_append key_values;
  test_assert (not_null kv);;
  ' (ok, new) ← key_value_init_members k v;
  key_values ← store key_values kv new;
  test_assert ok;;
  ret key_values.

Definition mock_writer_set (key_values : key_values_t) (k v : cstr)
    : M (opentracing_propagation_error_code * key_values_t) :=
  key_values ← add_key_value key_values k v;
  ret (error_success, key_values).

Definition destroy_key_values (key_values : key_values_t) : M key_values_t :=
  for_each (fun kv => ret (default kv (jaeger_key_value_destroy (Some kv)))) key_values.

Fixpoint fill_key_values (key_values : key_values_t) (i : Z) (pairs : list (cstr * cstr))
    : M key_values_t :=
  match pairs with
  | [] => ret key_values
  | (k, v) :: pairs =>
      key_values ← add_key_value key_values k v;
      test_assert (i + 1 =? jaeger_vector_length key_values);;
      fill_key_values key_values (i + 1) pairs
  end.

(** What every [set_up_*] function does, with its arrays. *)
Definition set_up_key_values (pairs : list (cstr * cstr)) (key_values : key_values_t)
    : M key_values_t :=
  key_values ← destroy_key_values key_values;
  fill_key_values (jaeger_vector_clear key_values) 0 pairs.

Definition unrelated_pairs : list (cstr * cstr) :=
  [(lit "key%%1", lit "value1"); (lit "key%E02", lit "VALUE2"); (lit "key3%", lit "VaLuE")].
Definition trace_context_pair (v : cstr) : cstr * cstr := (lit "uber-trace-id", v).

Definition set_up_standard_key_values : key_values_t -> M key_values_t :=
  set_up_key_values
    (unrelated_pairs ++ [trace_context_pair (lit "ab:cd:0:0");
                         (lit "uberctx-k1", lit "v1"); (lit "uberctx-k2", lit "v2")]).
Definition set_up_alternative_baggage_format : key_values_t -> M key_values_t :=
  set_up_key_values
    (unrelated_pairs ++ [trace_context_pair (lit "ab:cd:0:0");
                         (lit "jaeger-baggage", lit "k3=value3,key-4=value-x")]).
Definition set_up_debug_header : key_values_t -> M key_values_t :=
  set_up_key_values
    (unrelated_pairs ++ [trace_context_pair (lit "ab:cd:0:0");
                         (lit "jaeger-debug-id", lit "test-debug-header")]).
Definition set_up_corrupt_baggage : key_values_t -> M key_values_t :=
  set_up_key_values
    (unrelated_pairs ++ [trace_context_pair (lit "ab:cd:0:0");
                         (lit "jaeger-baggage", lit "key-no-value")]).
Definition set_up_empty_headers : key_values_t -> M key_values_t := set_up_key_values [].
Definition set_up_decode_failure : key_values_t -> M key_values_t :=
  set_up_key_values (unrelated_pairs ++ [trace_context_pair (lit "xy:z-:0:0")]).

(** *** Text maps and headers *)

(** The checks after an extraction: the result, and a context or none. *)
Definition extracted (r : opentracing_propagation_error_code * option jaeger_span_context)
    : M jaeger_span_context :=
  test_assert (bool_decide (r.1 = error_success));; assert_not_null r.2.

Definition not_extracted (expected : opentracing_propagation_error_code)
    (r : opentracing_propagation_error_code * option jaeger_span_context) : M unit :=
  test_assert (bool_decide (r.1 = expected));; test_assert (is_null r.2).

Definition check_ids (ctx : jaeger_span_context) (f : Z) : M unit :=
  test_assert (low (trace_id ctx) =? 0xab);;
  test_assert (span_id ctx =? 0xcd);;
  test_assert (flags ctx =? f).

(** The context every one of the extracted baggages comes with. *)
Definition check_standard (ctx : jaeger_span_context) (k1 v1 k2 v2 : cstr) : M unit :=
  check_ids ctx 0;;
  test_assert (ht_size (baggage ctx) =? 2);;
  holds (baggage ctx) k1 v1;;
  holds (baggage ctx) k2 v2.

Definition test_text_map : M unit :=
  ' (_, metrics) ← jaeger_default_metrics_init;
  let config := JAEGERTRACINGC_HEADERS_CONFIG_INIT in
  ' (ok, key_values) ← jaeger_vector_init JAEGERTRACINGC_VECTOR_INIT sizeof_key_value;
  test_assert ok;;
  key_values ← set_up_standard_key_values key_values;
  r ← jaeger_extract_from_text_map (mock_reader_foreach_key key_values) (Some metrics) config;
  ctx ← extracted r;
  check_standard ctx (lit "k1") (lit "v1") (lit "k2") (lit "v2");;
  key_values ← destroy_key_values key_values;
  let key_values := jaeger_vector_clear key_values in
  h ← jaeger_hashtable_clear (baggage ctx);
  ' (ok, h) ← jaeger_hashtable_put h (lit "k1") (lit "v1");
  let ctx := SpanContext (TraceId 0 0xab) 0xcd jaeger_sampling_flag_sampled h (debug_id ctx)
               (ctx_mutex ctx) in
  test_assert ok;;
  test_assert (ht_size (baggage ctx) =? 1);;
  ' (result, key_values) ← jaeger_inject_into_text_map mock_writer_set key_values ctx config;
  test_assert (bool_decide (result = error_success));;
  r ← jaeger_extract_from_text_map (mock_reader_foreach_key key_values) (Some metrics) config;
  test_assert (bool_decide (r.1 = error_success));;
  ctx_copy ← assert_not_null r.2;
  test_assert (high (trace_id ctx) =? high (trace_id ctx_copy));;
  test_assert (low (trace_id ctx) =? low (trace_id ctx_copy));;
  test_assert (span_id ctx =? span_id ctx_copy);;
  test_assert (flags ctx =? flags ctx_copy);;
  test_assert (ht_size (baggage ctx) =? ht_size (baggage ctx_copy));;
  kv ← jaeger_hashtable_find (baggage ctx) (lit "k1");
  kv ← assert_not_null kv;
  kv_copy ← jaeger_hashtable_find (baggage ctx_copy) (lit "k1");
  kv_copy ← assert_not_null kv_copy;
  test_assert (same_string (kv_value kv) (kv_value kv_copy));;
  _ ← jaeger_span_context_destroy (Some ctx);
  _ ← jaeger_span_context_destroy (Some ctx_copy);
  key_values ← destroy_key_values key_values;
  let _ := jaeger_vector_destroy key_values in
  _ ← jaeger_metrics_destroy (Some metrics);
  ret tt.

Definition test_http_headers : M unit :=
  ' (_, metrics) ← jaeger_default_metrics_init;
  let extract key_values :=
    jaeger_extract_from_http_headers (mock_reader_foreach_key key_values) (Some metrics)
      JAEGERTRACINGC_HEADERS_CONFIG_INIT in
  ' (ok, key_values) ← jaeger_vector_init JAEGERTRACINGC_VECTOR_INIT sizeof_key_value;
  test_assert ok;;
  key_values ← set_up_standard_key_values key_values;
  r ← extract key_values;
  ctx ← extracted r;
  check_standard ctx (lit "k1") (lit "v1") (lit "k2") (lit "v2");;
  _ ← jaeger_span_context_destroy (Some ctx);
  key_values ← set_up_alternative_baggage_format key_values;
  r ← extract key_values;
  ctx ← extracted r;
  check_standard ctx (lit "k3") (lit "value3") (lit "key-4") (lit "value-x");;
  _ ← jaeger_span_context_destroy (Some ctx);
  key_values ← set_up_debug_header key_values;
  r ← extract key_values;
  ctx ← extracted r;
  check_ids ctx (Z.lor jaeger_sampling_flag_debug jaeger_sampling_flag_sampled);;
  d ← assert_not_null (debug_id ctx);
  test_assert (same_string d (lit "test-debug-header"));;
  _ ← jaeger_span_context_destroy (Some ctx);
  key_values ← set_up_corrupt_baggage key_values;
  r ← extract key_values;
  not_extracted error_span_context_corrupted r;;
  key_values ← set_up_empty_headers key_values;
  r ← extract key_values;
  not_extracted error_success r;;
  key_values ← set_up_decode_failure key_values;
  r ← extract key_values;
  not_extracted error_span_context_corrupted r;;
  key_values ← destroy_key_values key_values;
  let _ := jaeger_vector_destroy key_values in
  _ ← jaeger_metrics_destroy (Some metrics);
  ret tt.

(** *** The binary format *)

(** [memcpy] into the vector at [ptr]. *)
Fixpoint store_bytes (buffer : jaeger_vector Z) (i : Z) (bytes : list Z) : M (jaeger_vector Z) :=
  match bytes with
  | [] => ret buffer
  | b :: bytes =>
      buffer ← store buffer (Some i) b;
      store_bytes buffer (i + 1) bytes
  end.

Definition binary_writer_callback (buffer : jaeger_vector Z) (bytes : list Z)
    : M (Z * jaeger_vector Z) :=
  ' (addr, buffer) ← jaeger_vector_extend buffer (jaeger_vector_length buffer) (lenZ bytes);
  i ← assert_not_null addr;
  buffer ← store_bytes buffer i bytes;
  ret (to_signed 32 (lenZ bytes), buffer).

Fixpoint take_bytes (n : nat) (buffer : jaeger_vector Z) : M (list Z * jaeger_vector Z) :=
  match n with
  | O => ret ([], buffer)
  | S n =>
      ptr ← jaeger_vector_get buffer 0;
      b ← load buffer ptr;
      buffer ← jaeger_vector_remove buffer 0;
      ' (bytes, buffer) ← take_bytes n buffer;
      ret (b :: bytes, buffer)
  end.

Definition binary_reader_callback (buffer : jaeger_vector Z) (len : Z)
    : M (Z * list Z * jaeger_vector Z) :=
  test_assert (len <=? jaeger_vector_length buffer);;
  ' (bytes, buffer) ← take_bytes (Z.to_nat (to_signed 32 len)) buffer;
  ret (to_signed 32 len, bytes, buffer).

(** Items with keys and values of random lengths. *)
Fixpoint put_random_items (n : nat) (state : Z) (h : jaeger_hashtable) : M jaeger_hashtable :=
  match n with
  | O => ret h
  | S n =>
      let max_baggage_str_len := 20 in
      let '(state, key_size) := rand_r state in
      let '(state, key) := random_string (Z.to_nat (key_size mod max_baggage_str_len + 1)) state in
      let '(state, value_size) := rand_r state in
      let '(state, value) := random_string (Z.to_nat (value_size mod max_baggage_str_len + 1)) state in
      ' (ok, h) ← jaeger_hashtable_put h key value;
      test_assert ok;;
      put_random_items n state h
  end.

Definition test_binary (state : Z) : M unit :=
  ' (_, metrics) ← jaeger_default_metrics_init;
  ' (ok, ctx) ← jaeger_span_context_init;
  test_assert ok;;
  let max_baggage_items := 15 in
  let min_baggage_items := 1 in
  let '(state, r) := rand_r state in
  let num_baggage_items := r mod (max_baggage_items - min_baggage_items) + min_baggage_items in
  h ← put_random_items (Z.to_nat num_baggage_items) state (baggage ctx);
  let ctx := SpanContext (TraceId 0x1234 0x5678) 0xABCD (flags ctx) h (debug_id ctx)
               (ctx_mutex ctx) in
  ' (ok, binary_buffer) ← jaeger_vector_init JAEGERTRACINGC_VECTOR_INIT 1;
  test_assert ok;;
  ' (result, binary_buffer) ← jaeger_inject_into_binary binary_writer_callback binary_buffer ctx;
  test_assert (bool_decide (result = error_success));;
  r ← jaeger_extract_from_binary binary_reader_callback binary_buffer (Some metrics);
  test_assert (bool_decide (r.1 = error_success));;
  ctx_copy ← assert_not_null r.2;
  test_assert (high (trace_id ctx) =? high (trace_id ctx_copy));;
  test_assert (low (trace_id ctx) =? low (trace_id ctx_copy));;
  test_assert (span_id ctx =? span_id ctx_copy);;
  test_assert (ht_size (baggage ctx) =? ht_size (baggage ctx_copy));;
  _ ← jaeger_span_context_destroy (Some ctx);
  _ ← jaeger_span_context_destroy (Some ctx_copy);
  let _ := jaeger_vector_destroy binary_buffer in
  _ ← jaeger_metrics_destroy (Some metrics);
  ret tt.

(** *** Custom carriers and pairs *)

Definition mock_custom_carrier_reader_extract
    : M (opentracing_propagation_error_code * option jaeger_span_context) :=
  granted ← jaeger_malloc;
  test_assert granted;;
  ret (error_success, Some JAEGERTRACINGC_SPAN_CONTEXT_INIT).

Definition test_custom_carrier : M unit :=
  ' (ok, metrics) ← jaeger_default_metrics_init;
  test_assert ok;;
  ' (result, ctx) ← jaeger_extract_from_custom mock_custom_carrier_reader_extract (Some metrics);
  test_assert (bool_decide (result = error_success));;
  _ ← jaeger_metrics_destroy (Some metrics);
  _ ← jaeger_span_context_destroy ctx;
  ret tt.

Definition test_parse_key_value : M unit :=
  ' (ok, h) ← jaeger_hashtable_init;
  test_assert ok;;
  ' (result, h) ← parse_key_value h [];
  test_assert (bool_decide (result = error_span_context_corrupted));;
  _ ← jaeger_hashtable_destroy (Some h);
  ret tt.

Definition test_propagation (state : Z) : M unit :=
  test_decode_hex;;
  test_encode_hex;;
  test_decode_uri_value;;
  test_encode_uri_value;;
  test_to_lowercase;;
  test_text_map;;
  test_http_headers;;
  test_binary state;;
  test_custom_carrier;;
  test_parse_key_value.
End PropagationTests.

(** ** Properties *)

(** Every test of propagation passes on the model, with the items of the binary
    test from a generator that starts at 42. *)
Theorem propagation_tests_pass : passes (@test_propagation sample_env 42) = true.
Proof. vm_compute. reflexivity. Qed.
