(* ===== verification/SamplerTests.v ===== *)
(** * The tests of the samplers, run on the model (sampler_test.c)

    Every sampler through the tests the repository has for it; the remotely
    controlled one against the mock agent of mock_agent.h, over a connection
    that carries what each side writes to the other. *)
From S2P Require Import Prelude Machine Vector CString Float Siphash Clock TraceId Metrics Tag.
From S2P Require Import SpanContext Span Net Sampler Strategies Threading Http MockAgent UnitTests.

(** ** Definitions *)

Definition TEST_DEFAULT_SAMPLING_PROBABILITY : double := dconst 1 (-1).
Definition TEST_DEFAULT_MAX_TRACES_PER_SECOND : double := double_of_Z 3.
Definition TEST_DEFAULT_MAX_OPERATIONS : Z := 10.

(** The double nearest to a number of tenths. *)
Definition tenths (n : Z) : double := ddiv (double_of_Z n) (double_of_Z 10).

(** TEST_ASSERT_EQUAL converts both sides to integers. *)
Definition equal_ints (x y : double) : bool := bool_decide (trunc x = trunc y).

Definition operation_name : cstr := lit "test-operation".

Section SamplerTests.
Context {env : Env} {pb : Protobuf}.
Abbreviation tag_list := (jaeger_vector jaeger_tag).

(** SET_UP_SAMPLER_TEST, which does not look at the result. *)
Definition set_up_sampler_test : M tag_list :=
  ' (_, tags) ← jaeger_vector_init JAEGERTRACINGC_VECTOR_INIT sizeof_tag;
  ret tags.

Definition destroy_tags (tags : tag_list) : M tag_list :=
  for_each (fun t => ret (default t (jaeger_tag_destroy (Some t)))) tags.

Definition clear_tags (tags : tag_list) : M tag_list :=
  tags ← destroy_tags tags; ret (jaeger_vector_clear tags).

(** The end of TEAR_DOWN_SAMPLER_TEST, after the sampler's [destroy]. *)
Definition tear_down (tags : tag_list) : M unit :=
  tags ← destroy_tags tags; let _ := jaeger_vector_destroy tags in ret tt.

Definition tag_at (tags : tag_list) (i : Z) : M jaeger_tag :=
  ptr ← jaeger_vector_get tags i;
  _ ← assert_not_null ptr;
  load tags ptr.

Definition has_key (tag : jaeger_tag) (k : cstr) : M unit :=
  found ← assert_not_null (tag_key tag); test_assert (same_string k found).

(** CHECK_TAGS: [param] is the test of the last tag's type and value. *)
Definition CHECK_TAGS (type : cstr) (param : jaeger_tag -> bool) (tags : tag_list) : M unit :=
  test_assert (jaeger_vector_length tags =? 2);;
  tag ← tag_at tags 0;
  has_key tag JAEGERTRACINGC_SAMPLER_TYPE_TAG_KEY;;
  test_assert (bool_decide (v_type tag = V_STRING));;
  text ← assert_not_null (v_str tag);
  test_assert (same_string type text);;
  tag ← tag_at tags 1;
  has_key tag JAEGERTRACINGC_SAMPLER_PARAM_TAG_KEY;;
  test_assert (param tag).

Definition float_param (d : double) (tag : jaeger_tag) : bool :=
  bool_decide (v_type tag = V_FLOAT64) && equal_ints d (v_float64 tag).

Definition CHECK_CONST_TAGS (c : jaeger_const_sampler) : tag_list -> M unit :=
  CHECK_TAGS JAEGERTRACINGC_SAMPLER_TYPE_CONST
    (fun tag => bool_decide (v_type tag = V_BOOL) && Bool.eqb (decision c) (v_bool tag)).
Definition CHECK_PROBABILISTIC_TAGS (p : jaeger_probabilistic_sampler) : tag_list -> M unit :=
  CHECK_TAGS JAEGERTRACINGC_SAMPLER_TYPE_PROBABILISTIC (float_param (sampling_rate p)).
Definition CHECK_RATE_LIMITING_TAGS (r : jaeger_rate_limiting_sampler) : tag_list -> M unit :=
  CHECK_TAGS JAEGERTRACINGC_SAMPLER_TYPE_RATE_LIMITING (float_param (max_traces_per_second r)).
Definition CHECK_LOWER_BOUND_TAGS (g : jaeger_guaranteed_throughput_probabilistic_sampler)
    : tag_list -> M unit :=
  CHECK_TAGS JAEGERTRACINGC_SAMPLER_TYPE_LOWER_BOUND
    (float_param (max_traces_per_second (lower_bound_sampler g))).

(** The vector behind the pointer that was passed. *)
Definition tags_of (tags : option tag_list) : M tag_list := assert_not_null tags.

Definition test_const_sampler : M unit :=
  tags ← set_up_sampler_test;
  let c := jaeger_const_sampler_init true in
  ' (d, tags) ← jaeger_const_sampler_is_sampled c (Some tags);
  test_assert d;;
  tags ← tags_of tags;
  CHECK_CONST_TAGS c tags;;
  c ← jaeger_sampler_noop_destroy c;
  tags ← clear_tags tags;
  let c := jaeger_const_sampler_init false in
  ' (d, tags) ← jaeger_const_sampler_is_sampled c (Some tags);
  test_assert (negb d);;
  tags ← tags_of tags;
  c ← jaeger_sampler_noop_destroy c;
  tear_down tags.

Definition test_probabilistic_sampler : M unit :=
  tags ← set_up_sampler_test;
  p ← jaeger_probabilistic_sampler_init (double_of_Z 1);
  ' (d, tags) ← jaeger_probabilistic_sampler_is_sampled p (Some tags);
  test_assert d;;
  tags ← tags_of tags;
  CHECK_PROBABILISTIC_TAGS p tags;;
  p ← jaeger_sampler_noop_destroy p;
  tags ← clear_tags tags;
  p ← jaeger_probabilistic_sampler_init (double_of_Z 0);
  ' (d, tags) ← jaeger_probabilistic_sampler_is_sampled p (Some tags);
  test_assert (negb d);;
  tags ← tags_of tags;
  CHECK_PROBABILISTIC_TAGS p tags;;
  p ← jaeger_sampler_noop_destroy p;
  tear_down tags.

Definition test_rate_limiting_sampler : M unit :=
  tags ← set_up_sampler_test;
  r ← jaeger_rate_limiting_sampler_init (double_of_Z 1);
  ' (d, r, tags) ← jaeger_rate_limiting_sampler_is_sampled r (Some tags);
  test_assert d;;
  tags ← tags_of tags;
  CHECK_RATE_LIMITING_TAGS r tags;;
  tags ← clear_tags tags;
  ' (d, r, tags) ← jaeger_rate_limiting_sampler_is_sampled r (Some tags);
  test_assert (negb d);;
  tags ← tags_of tags;
  CHECK_RATE_LIMITING_TAGS r tags;;
  r ← jaeger_sampler_noop_destroy r;
  tear_down tags.

(** The two rates of a guaranteed throughput sampler. *)
Definition check_rates (g : jaeger_guaranteed_throughput_probabilistic_sampler)
    (rate lower_bound : double) : M unit :=
  test_assert (equal_ints rate (sampling_rate (probabilistic_sampler g)));;
  test_assert (equal_ints lower_bound (max_traces_per_second (lower_bound_sampler g))).

Definition test_guaranteed_throughput_probabilistic_sampler : M unit :=
  tags ← set_up_sampler_test;
  let sampling_rate := TEST_DEFAULT_SAMPLING_PROBABILITY in
  let lower_bound := double_of_Z 2 in
  g ← jaeger_guaranteed_throughput_probabilistic_sampler_init lower_bound sampling_rate;
  check_rates g sampling_rate lower_bound;;
  let sampling_rate := tenths 6 in
  let lower_bound := double_of_Z 1 in
  g ← jaeger_guaranteed_throughput_probabilistic_sampler_update g lower_bound sampling_rate;
  check_rates g sampling_rate lower_bound;;
  g ← jaeger_guaranteed_throughput_probabilistic_sampler_update g lower_bound (tenths 11);
  check_rates g (double_of_Z 1) lower_bound;;
  g ← jaeger_guaranteed_throughput_probabilistic_sampler_update g lower_bound (double_of_Z 0);
  ' (d, g, tags) ← jaeger_guaranteed_throughput_probabilistic_sampler_is_sampled g (Some tags);
  test_assert d;;
  tags ← tags_of tags;
  CHECK_LOWER_BOUND_TAGS g tags;;
  tags ← clear_tags tags;
  g ← jaeger_guaranteed_throughput_probabilistic_sampler_update g lower_bound (double_of_Z 1);
  ' (d, g, tags) ← jaeger_guaranteed_throughput_probabilistic_sampler_is_sampled g (Some tags);
  test_assert d;;
  tags ← tags_of tags;
  CHECK_PROBABILISTIC_TAGS (probabilistic_sampler g) tags;;
  g ← jaeger_sampler_noop_destroy g;
  tear_down tags.

(** The loop over the new operations, "new-operation-0" and so on. *)
Fixpoint sample_new_operations (n : nat) (i : Z) (a : jaeger_adaptive_sampler) (tags : tag_list)
    : M (jaeger_adaptive_sampler * tag_list) :=
  match n with
  | O => ret (a, tags)
  | S n =>
      let size := strlen (lit "new-operation") + 3 in
      let '(length, op_buffer) := snprintf size (lit "new-operation-" ++ print_dec i) in
      test_assert (length <? size);;
      op_buffer ← assert_not_null op_buffer;
      ' (_, a, tags) ← jaeger_adaptive_sampler_is_sampled a op_buffer (Some tags);
      tags ← tags_of tags;
      sample_new_operations n (i + 1) a tags
  end.

(** The name of the sampler at an index. *)
Definition operation_at (v : jaeger_vector jaeger_operation_sampler) (i : Z) : M cstr :=
  ptr ← jaeger_vector_get v i;
  _ ← assert_not_null ptr;
  o ← load v ptr;
  assert_not_null (op_name o).

(** The size of an operation's sampler is left to the ABI. *)
Context (sizeof_operation_sampler : Z).

Definition test_adaptive_sampler : M unit :=
  tags ← set_up_sampler_test;
  granted ← jaeger_malloc;
  test_assert granted;;
  name ← jaeger_strdup operation_name;
  test_assert (not_null name);;
  let strategies :=
    PerOperationStrategy [OperationStrategy name TEST_DEFAULT_SAMPLING_PROBABILITY]
      TEST_DEFAULT_SAMPLING_PROBABILITY (double_of_Z 1) in
  a ← jaeger_adaptive_sampler_init sizeof_operation_sampler strategies TEST_DEFAULT_MAX_OPERATIONS;
  a ← assert_not_null a;
  ' (_, a, tags) ← jaeger_adaptive_sampler_is_sampled a operation_name (Some tags);
  tags ← tags_of tags;
  tags ← clear_tags tags;
  ' (a, tags) ← sample_new_operations (Z.to_nat TEST_DEFAULT_MAX_OPERATIONS) 0 a tags;
  test_assert (jaeger_vector_length (op_samplers a) =? TEST_DEFAULT_MAX_OPERATIONS);;
  lhs ← operation_at (op_samplers a) 0;
  rhs ← operation_at (op_samplers a) 1;
  test_assert (strcmp lhs rhs <? 0);;
  jaeger_per_operation_strategy_destroy (map Some (per_operation_strategy strategies));;
  a ← jaeger_adaptive_sampler_destroy a;
  tear_down tags.
End SamplerTests.

(** *** The remotely controlled sampler *)

(** A connection: what can still be read, what has been written, and whether
    the peer is there. *)
Record wire := Wire { incoming : list ascii; outgoing : list ascii; is_open : bool }.

Definition wire_net : Network :=
  {| socket := wire; sockaddr := Z; sockaddr_zero := 0; sizeof_sockaddr_in := 16;
     sendto s b _ := (lenZ b, s);
     AF_INET := 2; SOCK_DGRAM := 2; SOCK_STREAM := 1; SOCK_CLOEXEC := Some 524288; FD_CLOEXEC := 1;
     sys_socket _ _ := (3, Wire [] [] true);
     fcntl_getfd s := (0, s); fcntl_setfd s _ := s;
     getaddrinfo _ _ _ _ := (0, [AddrInfo 1 16]);
     sys_connect s _ _ := (0, s);
     sys_write s b :=
       if is_open s then (lenZ b, Wire (incoming s) (outgoing s ++ b) true) else (-1, s);
     sys_read s n :=
       let bytes := take (Z.to_nat n) (incoming s) in
       (lenZ bytes, bytes, Wire (drop (Z.to_nat n) (incoming s)) (outgoing s) (is_open s)) |}.

Definition wire_listening : @Listening wire_net :=
  @Build_Listening wire_net (fun s => (0, s)) (fun s _ => (0, s)) (fun _ => (0, 16)).

(** http-parser's part: of a URL of a host and a port of five digits the host
    and the port; of a URL of a request its query. *)
Definition wire_urls : UrlParser := {|
  UF_HOST := 1; UF_PORT := 2; UF_PATH := 3;
  http_parser_parse_url text :=
    if bool_decide (take 1 text = lit "/")
    then (0, ParsedUrl 24 (fun i => if i =? 4 then (2, lenZ text - 2) else (0, 1)))
    else (0, ParsedUrl 7 (fun i =>
           if i =? 0 then (0, 4) else if i =? 1 then (7, lenZ text - 13)
           else if i =? 2 then (lenZ text - 5, 5) else (0, 0))) |}.

(** The URL between the method and the end of the first line. *)
Fixpoint line_of (text : list ascii) : list ascii :=
  match text with
  | [] => []
  | c :: text => if bool_decide (c = chr 13) then [] else c :: line_of text
  end.

Definition wire_requests : RequestParser := {|
  UF_QUERY := 4;
  http_request_execute A on_url a bytes :=
    ' (result, a) ← on_url a (line_of (drop 4 bytes));
    ret (if result =? 0 then lenZ bytes else 0, a) |}.

(** A parser of the responses with these texts: it calls back at the last byte. *)
Definition wire_http (texts : list cstr) : HttpParser := {|
  http_parser := list ascii;
  http_parser_init := [];
  http_parser_execute A cb a acc bytes :=
    let acc := acc ++ bytes in
    match List.find (fun text => bool_decide (http_response_text text = acc)) texts with
    | Some text =>
        ' (ok, a) ← run_callbacks cb a [headers_complete HTTP_OK; body text; message_complete];
        ret (if (ok : bool) then lenZ bytes else 0, [], a)
    | None => ret (lenZ bytes, acc, a)
    end |}.

Definition newline : cstr := [chr 10].
Definition quote : cstr := [chr 34].
Definition quoted (s : cstr) : cstr := quote ++ s ++ quote.

Definition rate_format (strategy member : cstr) : cstr :=
  lit "{" ++ newline ++ lit "  " ++ quoted strategy ++ lit ": {" ++ newline ++
  lit "      " ++ quoted member ++ lit ": %f" ++ newline ++ lit "    }" ++ newline ++
  lit "}" ++ newline.

Definition operations_format : cstr :=
  lit "{" ++ newline ++ lit "  " ++ quoted (lit "operationSampling") ++ lit ": {" ++ newline ++
  lit "    " ++ quoted (lit "defaultLowerBoundTracesPerSecond") ++ lit ": 1.0," ++ newline ++
  lit "    " ++ quoted (lit "defaultSamplingProbability") ++ lit ": 0.001," ++ newline ++
  lit "    " ++ quoted (lit "perOperationStrategies") ++ lit ": [{" ++ newline ++
  lit "      " ++ quoted (lit "operation") ++ lit ": " ++ quoted operation_name ++ lit "," ++
  newline ++
  lit "      " ++ quoted (lit "probabilisticSampling") ++ lit ": {" ++ newline ++
  lit "        " ++ quoted (lit "samplingRate") ++ lit ": %f" ++ newline ++
  lit "      }" ++ newline ++ lit "    }]" ++ newline ++ lit "  }" ++ newline ++
  lit "}" ++ newline.

Definition test_service : cstr := lit "test-service".
Definition higher_rate : double := dadd TEST_DEFAULT_SAMPLING_PROBABILITY (tenths 1).
Definition lower_rate : double := dsub TEST_DEFAULT_SAMPLING_PROBABILITY (tenths 1).

Definition probabilistic_format : cstr :=
  rate_format (lit "probabilisticSampling") (lit "samplingRate").
Definition rate_limiting_format : cstr :=
  rate_format (lit "rateLimitingSampling") (lit "maxTracesPerSecond").

(** The array [responses]. *)
Definition first_response : mock_http_response :=
  MockResponse (Some test_service) (Some probabilistic_format) TEST_DEFAULT_SAMPLING_PROBABILITY.
Definition second_response : mock_http_response :=
  MockResponse (Some test_service) (Some rate_limiting_format) TEST_DEFAULT_MAX_TRACES_PER_SECOND.
Definition third_response : mock_http_response :=
  MockResponse (Some test_service) (Some operations_format) higher_rate.
Definition fourth_response : mock_http_response :=
  MockResponse (Some test_service) (Some operations_format) lower_rate.

(** What jansson makes of the texts, a rate being read back with six digits. *)
Definition rate_document (strategy member : cstr) (d : double) : sample_json :=
  JObject [(strategy, JObject [(member, JReal d)])].
Definition operations_document (d : double) : sample_json :=
  JObject [(lit "operationSampling", JObject
    [(lit "defaultLowerBoundTracesPerSecond", JReal (double_of_Z 1));
     (lit "defaultSamplingProbability", JReal DEFAULT_SAMPLING_RATE);
     (lit "perOperationStrategies", JArray [JObject
        [(lit "operation", JString operation_name);
         (lit "probabilisticSampling", JObject [(lit "samplingRate", JReal d)])]])])].

Definition response_body (response : mock_http_response) : cstr :=
  default [] (format_double (default [] (json_format response)) (arg_value response)).

Definition documents : list (cstr * sample_json) :=
  [(response_body first_response,
    rate_document (lit "probabilisticSampling") (lit "samplingRate") (tenths 5));
   (response_body second_response,
    rate_document (lit "rateLimitingSampling") (lit "maxTracesPerSecond") (double_of_Z 3));
   (response_body third_response, operations_document (tenths 6));
   (response_body fourth_response, operations_document (tenths 4))].

Section RemoteTest.
Context {env : Env} {pb : Protobuf} (sizeof_operation_sampler : Z).
#[local] Instance test_net : Network := wire_net.
#[local] Instance test_listening : Listening := wire_listening.
#[local] Instance test_urls : UrlParser := wire_urls.
#[local] Instance test_requests : RequestParser := wire_requests.
#[local] Instance test_http : HttpParser := wire_http (map fst documents).
#[local] Instance test_jansson : Jansson := sample_jansson documents.

(** What the sampler asks and the agent's answer: the agent serves the request
    the manager has ready, its answer is what the manager reads after it has
    written the request. *)
Definition serve_next (server : mock_http_server) (m : jaeger_http_sampling_manager)
    : M (mock_http_server * jaeger_http_sampling_manager) :=
  let request := take (Z.to_nat (request_length m)) (request_buffer m) in
  ' (more, server, s) ← serve_request 257 server (Wire request [] true);
  test_assert more;;
  ret (server, set_m_socket m (m_fd m) (Some (Wire (outgoing s) [] true))).

(** The manager has written this request. *)
Definition sent_request (m : jaeger_http_sampling_manager) : M unit :=
  s ← assert_not_null (m_socket m);
  test_assert (bool_decide (drop (length (outgoing s) - Z.to_nat (request_length m)) (outgoing s)
                            = take (Z.to_nat (request_length m)) (request_buffer m))).

Abbreviation remote := (jaeger_remotely_controlled_sampler * jaeger_http_sampling_manager)%type.

Definition update_sampler (r : remote) : M (bool * remote) :=
  ' (ok, s, m) ← jaeger_remotely_controlled_sampler_update sizeof_operation_sampler
                   (jaeger_http_sampling_manager_get_sampling_strategies 16 r.2) r.1;
  ret (ok, (s, m)).

(** A new response of the agent's, and an update that follows it. *)
Definition next_update (server : mock_http_server) (response : mock_http_response) (r : remote)
    : M (mock_http_server * remote) :=
  server ← mock_http_server_set_response server response;
  ' (server, m) ← serve_next server r.2;
  ' (ok, r) ← update_sampler (r.1, m);
  test_assert ok;;
  sent_request r.2;;
  ret (server, r).

(** The checks of the adaptive sampler inside. *)
Definition check_operations (r : remote) : M unit :=
  match sampler r.1 with
  | adaptive_sampler a =>
      test_assert (jaeger_vector_length (op_samplers a) =? 1);;
      name ← operation_at (op_samplers a) 0;
      test_assert (same_string operation_name name)
  | _ => fail TestFailed
  end.

(** The port the agent got is 34567; its thread runs while the test waits for
    the answers. *)
Definition test_remotely_controlled_sampler : M unit :=
  let metrics := Some jaeger_null_metrics in
  server ← mock_http_server_listen MOCK_HTTP_SERVER_INIT;
  let '(result, buffer) :=
    snprintf (strlen (lit "http://localhost:") + 1 + 5) (lit "http://localhost:" ++ print_dec 34567) in
  test_assert (result <=? strlen (lit "http://localhost:") + 5);;
  ' (ok, s, m) ← jaeger_remotely_controlled_sampler_init
    (jaeger_http_sampling_manager_init (lit "0.1") JAEGERTRACINGC_HTTP_SAMPLING_MANAGER_INIT buffer
       (Some test_service))
    test_service None TEST_DEFAULT_MAX_OPERATIONS metrics;
  test_assert ok;;
  ' (server, r) ← next_update server first_response (s, m);
  match sampler r.1 with
  | probabilistic_choice p =>
      test_assert (equal_ints TEST_DEFAULT_SAMPLING_PROBABILITY (sampling_rate p))
  | _ => fail TestFailed
  end;;
  ' (server, r) ← next_update server second_response r;
  match sampler r.1 with
  | rate_limiting_sampler l =>
      test_assert (equal_ints TEST_DEFAULT_MAX_TRACES_PER_SECOND (max_traces_per_second l))
  | _ => fail TestFailed
  end;;
  ' (server, r) ← next_update server third_response r;
  check_operations r;;
  ' (server, r) ← next_update server fourth_response r;
  check_operations r;;
  _ ← mock_http_server_destroy server;
  let m := set_m_socket r.2 (m_fd r.2) (Some (Wire [] [] false)) in
  ' (ok, r) ← update_sampler (r.1, m);
  test_assert (negb ok);;
  check_operations r;;
  tags ← set_up_sampler_test;
  ' (_, s, tags) ← jaeger_remotely_controlled_sampler_is_sampled r.1 operation_name (Some tags);
  tags ← tags_of tags;
  tear_down tags;;
  _ ← jaeger_remotely_controlled_sampler_destroy (s, r.2);
  ret tt.
End RemoteTest.

(** *** The environment of the tests: the clock stands still while they run *)

Definition still_env : Env :=
  env_with (fun _ => true) (fun _ => TimeValue 1 0) (@entropy sample_env) (fun _ => true).

(** ** Properties *)

(** Every test of the samplers passes on the model; an element of the adaptive
    sampler's vector takes 144 bytes. *)
Theorem sampler_tests_pass :
  passes (@test_const_sampler still_env sample_pb) = true /\
  passes (@test_probabilistic_sampler still_env sample_pb) = true /\
  passes (@test_rate_limiting_sampler still_env sample_pb) = true /\
  passes (@test_guaranteed_throughput_probabilistic_sampler still_env sample_pb) = true /\
  passes (@test_adaptive_sampler still_env sample_pb 144) = true.
Proof. split_and!; vm_compute; reflexivity. Qed.

(** The test of the remotely controlled sampler passes: the manager's requests
    are the ones the agent serves, and after each update the sampler is the one
    the agent's answer describes. *)
Theorem remote_sampler_test_passes :
  passes (@test_remotely_controlled_sampler still_env sample_pb 144) = true.
Proof. vm_compute. reflexivity. Qed.
