(* ===== verification/ReporterTests.v ===== *)
(** * The test of the reporters, run on the model (reporter_test.c)

    One span through the null, logging, in-memory, composite and remote
    reporters, with the refusals of memory the test arranges. The socket the
    test listens on is the list of datagrams that were sent. *)
From S2P Require Import Prelude Machine Vector CString Float Clock TraceId Hashtable Metrics Tag.
From S2P Require Import SpanContext Span Net Sampler Reporter Threading Tracer MockAgent UnitTests.

(** ** Definitions *)

(** <netinet/in.h>. *)
Definition INET_ADDRSTRLEN : Z := 16.
Definition MAX_PORT_LEN : Z := 5.

Section ReporterTest.
Context {env : Env} {pb : Protobuf} {msgs : SpanMessages} {batches : BatchMessages} {host : Host}.
#[local] Instance test_net : Network := sample_net.

(** [sizeof(jaeger_span)] is left to the ABI. *)
Context (sizeof_span : Z).

Abbreviation test_tracer_t := (jaeger_tracer jaeger_const_sampler jaeger_remote_reporter).

(** What a report reads of the test's tracer. *)
Definition identity_of (t : test_tracer_t) : tracer_identity :=
  TracerIdentity (t_service_name t) (t_tags t).

(** A span with a name, a log, a reference and an item of baggage. *)
Definition set_up_span (tracer_address : nat) : M jaeger_span :=
  ' (ok, s) ← jaeger_span_init;
  test_assert ok;;
  let s := Span (Some tracer_address) (set_flags (context s) jaeger_sampling_flag_sampled)
             (operation_name s) (start_time_system s) (start_time_steady s) (duration s) (tags s)
             (logs s) (refs s) (span_mutex s) in
  test_assert (is_null (operation_name s));;
  s ← jaeger_span_set_operation_name s (lit "test-operation");
  test_assert (not_null (operation_name s));;
  let fields := [(Some (lit "key1"), ot_string (lit "value")); (Some (lit "key2"), ot_bool true)] in
  let sizeof_field := 40 in
  let num_fields := sizeof_field / (2 * sizeof_field) in
  _ ← jaeger_timestamp_now;
  s ← jaeger_span_log s (take (Z.to_nat num_fields) fields);
  ' (span_ref_ptr, v) ← jaeger_vector_append (refs s);
  test_assert (not_null span_ref_ptr);;
  let context_0 := SpanContext (TraceId 0xDEAD 0xBEEF) 0xCAFE 0 (Hashtable 0 0 None) None false in
  v ← store v span_ref_ptr (SpanRef context_0 opentracing_span_reference_child_of);
  let s := set_refs s v in
  ' (ok, h) ← jaeger_hashtable_put (baggage (context s)) (lit "key") (lit "value");
  test_assert ok;;
  ret (set_context s (set_baggage (context s) h)).

(** [r->report(r, span)] of a span that is there. *)
Definition report_span {R} `{!Reporter R} (r : R) (s : jaeger_span) : M (R * jaeger_span) :=
  ' (r, s) ← report r (Some s);
  s ← assert_not_null s;
  ret (r, s).

Fixpoint report_times {R} `{!Reporter R} (n : nat) (r : R) (s : jaeger_span) : M (R * jaeger_span) :=
  match n with
  | O => ret (r, s)
  | S n => ' (r, s) ← report_span r s; report_times n r s
  end.

(** Reporting the span, then NULL. *)
Definition report_both {R} `{!Reporter R} (r : R) (s : jaeger_span) : M (R * jaeger_span) :=
  ' (r, s) ← report_span r s;
  ' (r, _) ← report r None;
  ret (r, s).

Definition test_simple_reporters (s : jaeger_span) : M jaeger_span :=
  ' (r, s) ← report_span null_reporter s;
  ' (ok, r) ← flush r;
  test_assert ok;;
  _ ← destroy r;
  ' (r, s) ← report_span logging_reporter s;
  _ ← destroy r;
  ret s.

Definition test_in_memory_reporter (s : jaeger_span) : M jaeger_span :=
  r ← jaeger_in_memory_reporter_init sizeof_span;
  r ← assert_not_null r;
  ' (r, s) ← report_both r s;
  _ ← destroy r;
  r ← jaeger_in_memory_reporter_init sizeof_span;
  r ← assert_not_null r;
  jaeger_set_allocator null_alloc;;
  fail_in_memory_reporter ← jaeger_in_memory_reporter_init sizeof_span;
  test_assert (is_null fail_in_memory_reporter);;
  ' (r, s) ← report_times (Z.to_nat JAEGERTRACINGC_VECTOR_INIT_CAPACITY) r s;
  ' (r, s) ← report_span r s;
  jaeger_set_allocator built_in_alloc;;
  _ ← destroy r;
  ret s.

Definition test_composite_reporter (s : jaeger_span) : M jaeger_span :=
  r ← jaeger_composite_reporter_init (R := jaeger_null_reporter);
  r ← assert_not_null r;
  ' (r, s) ← report_both r s;
  ' (ok, r) ← flush r;
  test_assert ok;;
  _ ← destroy r;
  jaeger_set_allocator null_alloc;;
  r ← jaeger_composite_reporter_init (R := jaeger_null_reporter);
  test_assert (is_null r);;
  jaeger_set_allocator built_in_alloc;;
  ret s.

(** On a thread of its own, joined at once. *)
Definition flush_reporter {R} `{!Reporter R} (r : R) : M (bool * R) :=
  ' (success, r) ← flush r;
  granted ← jaeger_malloc;
  test_assert granted;;
  ret (success, r).

Definition flush_on_thread {R} `{!Reporter R} (r : R) : M (bool * R) :=
  ' (status, result) ← jaeger_thread_init (flush_reporter r);
  test_assert (status =? 0);;
  ret result.

(** The server's address is 0.0.0.0 with the port it got; what it receives is
    the first datagram, which the generated code unpacks. *)
Definition test_remote_reporter (num_reports : nat) (t : test_tracer_t) (s : jaeger_span)
    : M jaeger_span :=
  let ops := remote_reporter_ops (fun _ => identity_of t) in
  let size := INET_ADDRSTRLEN + 1 + MAX_PORT_LEN in
  let address := lit "0.0.0.0" in
  let '(length, port) := snprintf (size - strlen address) (lit ":" ++ print_dec 34567) in
  test_assert (length <? size - strlen address);;
  let host_port := address ++ default [] port in
  let metrics := Some jaeger_null_metrics in
  let buffer_size := 1024 in
  r ← jaeger_remote_reporter_init (Some host_port) buffer_size metrics;
  r ← assert_not_null r;
  ' (r, s) ← report_times num_reports r s;
  ' (success, r) ← flush_on_thread r;
  datagram ← assert_not_null (head (r_socket r));
  test_assert (lenZ datagram <=? buffer_size);;
  test_assert success;;
  _ ← destroy r;
  r ← jaeger_remote_reporter_init (Some host_port) 1 metrics;
  r ← assert_not_null r;
  ' (r, s) ← report_span r s;
  ' (success, r) ← flush_on_thread r;
  test_assert (negb success);;
  _ ← destroy r;
  ret s.

(** The test makes a hundred reports to the remote reporter. *)
Definition test_reporter (num_reports : nat) : M unit :=
  let const_sampler := jaeger_const_sampler_init true in
  let tracer_ops := remote_reporter_ops (fun _ => TracerIdentity None JAEGERTRACINGC_VECTOR_INIT) in
  ' (ok, t) ← jaeger_tracer_init (ret (false, tt)) (fun _ _ => const_sampler) id
                (JAEGERTRACINGC_TRACER_INIT : test_tracer_t) (lit "test-service")
                (Some const_sampler) None None None None;
  test_assert ok;;
  test_assert (not_null (t_service_name t));;
  s ← set_up_span 0;
  s ← test_simple_reporters s;
  s ← test_in_memory_reporter s;
  s ← test_composite_reporter s;
  s ← test_remote_reporter num_reports t s;
  _ ← jaeger_span_destroy (Some s);
  _ ← jaeger_tracer_destroy t;
  _ ← jaeger_sampler_noop_destroy const_sampler;
  ret tt.
End ReporterTest.

(** ** Properties *)

(** The test of the reporters passes on the model, with its hundred reports:
    every flush ends as the test expects. *)
Theorem reporter_test_passes :
  passes (@test_reporter sample_env sample_pb sample_messages sample_batches sample_host 320 100)
  = true.
Proof. vm_compute. reflexivity. Qed.
